(** * NB-IoT eNB MAC: schedulers and HARQ bookkeeping

    A shallow embedding of the scheduling and retransmission core of the
    [nbiot] module (model/nbiot-mac.{h,cc}, model/nbiot-enb-mac.{h,cc},
    model/nbiot-sps-scheduler.{h,cc}, model/nbiot-common.h).

    Conventions.
    - Fixed-width unsigned integers are [Z] values; every C++ operation that
      can leave the range is followed by its wrap-around ([wrap8], [wrap16],
      [wrap32], [wrap64]).
    - [std::map<uint16_t, V>] is an association list kept in ascending key
      order ([Map16]): the schedulers depend on the in-order iteration of
      [std::map].
    - [std::vector] indexed by position is a [list] with stdpp's lookup
      [l !! i] and update [<[i:=x]> l].
    - Objects reached through [Ptr<>] are owned by one container in the
      program ([m_ueContexts], [m_dlHarqManagers], ...); a mutation through
      the pointer is an update of that container.
    - [Simulator::Now()] is the explicit argument [now]. *)

From Stdlib Require Import ZArith Lia Bool.
From stdpp Require Import base numbers list sorting.

Local Open Scope Z_scope.

(** ** Machine integers *)

Definition wrap8 (z : Z) : Z := z mod 256.
Definition wrap16 (z : Z) : Z := z mod 65536.
Definition wrap32 (z : Z) : Z := z mod 4294967296.
Definition wrap64 (z : Z) : Z := z mod 18446744073709551616.

(** Conversion of a [uint8_t] value to [int8_t] (two's complement). *)
Definition to_int8 (z : Z) : Z := if z <? 128 then z else z - 256.

(** [ns3::Time] is a signed count of nanoseconds (the default resolution). *)
Definition Time := Z.
Definition MilliSeconds (n : Z) : Time := n * 1000000.
Definition Seconds (n : Z) : Time := n * 1000000000.

(** A [Packet] is its byte content; [Ptr<Packet>] that may be null is
    [option Packet]. *)
Definition Packet := list Z.

(** [Packet::GetSize] returns [uint32_t]. *)
Definition GetSize (p : Packet) : Z := wrap32 (Z.of_nat (length p)).

(** ** HARQ entity (nbiot-mac.h, class NbIotHarqEntity) *)

Record NbIotHarqEntity := mkHarqEntity {
  m_active : bool;
  m_txCount : Z;          (* uint8_t *)
  m_ndi : bool;
  m_tbs : Z;              (* uint16_t *)
  m_repetitions : Z;      (* uint8_t *)
  m_packet : option Packet
}.

(** The constructor [NbIotHarqEntity::NbIotHarqEntity]. *)
Definition NbIotHarqEntity_new : NbIotHarqEntity :=
  mkHarqEntity false 0 false 0 1 None.

(** [NbIotHarqEntity::Reset] assigns every member. *)
Definition Reset (e : NbIotHarqEntity) : NbIotHarqEntity :=
  mkHarqEntity false 0 false 0 1 None.

Definition IsActive (e : NbIotHarqEntity) : bool := m_active e.

Definition SetActive (active : bool) (e : NbIotHarqEntity) : NbIotHarqEntity :=
  mkHarqEntity active (m_txCount e) (m_ndi e) (m_tbs e) (m_repetitions e) (m_packet e).

Definition GetTxCount (e : NbIotHarqEntity) : Z := m_txCount e.

Definition SetTxCount (c : Z) (e : NbIotHarqEntity) : NbIotHarqEntity :=
  mkHarqEntity (m_active e) c (m_ndi e) (m_tbs e) (m_repetitions e) (m_packet e).

(** [++m_txCount] on a [uint8_t]. *)
Definition IncrementTxCount (e : NbIotHarqEntity) : NbIotHarqEntity :=
  SetTxCount (wrap8 (m_txCount e + 1)) e.

Definition SetTbs (tbs : Z) (e : NbIotHarqEntity) : NbIotHarqEntity :=
  mkHarqEntity (m_active e) (m_txCount e) (m_ndi e) tbs (m_repetitions e) (m_packet e).

Definition SetPacket (p : option Packet) (e : NbIotHarqEntity) : NbIotHarqEntity :=
  mkHarqEntity (m_active e) (m_txCount e) (m_ndi e) (m_tbs e) (m_repetitions e) p.

(** ** HARQ manager (nbiot-mac.{h,cc}, class NbIotHarqManager) *)

Record NbIotHarqManager := mkHarqManager {
  m_numProcesses : Z;       (* uint8_t *)
  m_maxTransmissions : Z;   (* uint8_t *)
  m_processes : list NbIotHarqEntity
}.

Definition NbIotHarqManager_new : NbIotHarqManager :=
  mkHarqManager 2 8 (replicate 2 NbIotHarqEntity_new).

Definition SetNumProcesses (num : Z) (m : NbIotHarqManager) : NbIotHarqManager :=
  mkHarqManager num (m_maxTransmissions m)
    (resize (Z.to_nat num) NbIotHarqEntity_new (m_processes m)).

Definition SetMaxTransmissions (maxTx : Z) (m : NbIotHarqManager) : NbIotHarqManager :=
  mkHarqManager (m_numProcesses m) maxTx (m_processes m).

(** [m_processes[i]].  The vector holds [m_numProcesses] entities in every
    manager built by the constructor and [SetNumProcesses]; an index past the
    end of the vector is undefined behaviour in C++ and is read here as a
    fresh entity and written as nothing.  The theorems below fix the entity
    found at the index, so they never rely on this choice. *)
Definition process_at (m : NbIotHarqManager) (i : Z) : NbIotHarqEntity :=
  default NbIotHarqEntity_new (m_processes m !! Z.to_nat i).

Definition set_process_at (i : Z) (e : NbIotHarqEntity) (m : NbIotHarqManager)
  : NbIotHarqManager :=
  mkHarqManager (m_numProcesses m) (m_maxTransmissions m)
    (<[Z.to_nat i := e]> (m_processes m)).

(** The loop of [GetAvailableProcess]: [n] iterations remain, [i] is the
    loop variable. *)
Fixpoint scan_processes (m : NbIotHarqManager) (i : Z) (n : nat) : Z :=
  match n with
  | O => -1
  | S n' =>
      if negb (IsActive (process_at m i)) then to_int8 i
      else scan_processes m (i + 1) n'
  end.

Definition GetAvailableProcess (m : NbIotHarqManager) : Z :=
  scan_processes m 0 (Z.to_nat (m_numProcesses m)).

Definition GetProcess (m : NbIotHarqManager) (processId : Z) : option NbIotHarqEntity :=
  if processId <? m_numProcesses m then Some (process_at m processId) else None.

Definition ProcessAck (m : NbIotHarqManager) (processId : Z) : NbIotHarqManager :=
  if processId <? m_numProcesses m
  then set_process_at processId (Reset (process_at m processId)) m
  else m.

Definition ProcessNack (m : NbIotHarqManager) (processId : Z) : NbIotHarqManager * bool :=
  if processId >=? m_numProcesses m then (m, false)
  else
    let process := IncrementTxCount (process_at m processId) in
    if GetTxCount process >=? m_maxTransmissions m
    then (set_process_at processId (Reset process) m, false)
    else (set_process_at processId process m, true).


(** [n] consecutive NACKs on the same process, with the value each call
    returned. *)
Fixpoint nack_n (n : nat) (m : NbIotHarqManager) (processId : Z)
  : NbIotHarqManager * list bool :=
  match n with
  | O => (m, [])
  | S n' =>
      let '(m1, r) := ProcessNack m processId in
      let '(m2, rs) := nack_n n' m1 processId in
      (m2, r :: rs)
  end.

(** ** [std::map<uint16_t, V>] as an ascending association list *)

Module Map16.
Section Map16.
Context {V : Type}.

(** [m.find(k)]: the mapped value, or [None] for [end()]. *)
Fixpoint find (k : Z) (m : list (Z * V)) : option V :=
  match m with
  | [] => None
  | (k', v) :: m' => if k' =? k then Some v else find k m'
  end.

(** [m[k] = v]: overwrite in place, or insert at the sorted position. *)
Fixpoint set (k : Z) (v : V) (m : list (Z * V)) : list (Z * V) :=
  match m with
  | [] => [(k, v)]
  | (k', v') :: m' =>
      if k <? k' then (k, v) :: m
      else if k =? k' then (k, v) :: m'
      else (k', v') :: set k v m'
  end.

(** A mutation of the mapped object through [find(k)->second]. *)
Fixpoint update (k : Z) (f : V -> V) (m : list (Z * V)) : list (Z * V) :=
  match m with
  | [] => []
  | (k', v) :: m' =>
      if k' =? k then (k', f v) :: m' else (k', v) :: update k f m'
  end.

Fixpoint erase (k : Z) (m : list (Z * V)) : list (Z * V) :=
  match m with
  | [] => []
  | (k', v) :: m' => if k' =? k then m' else (k', v) :: erase k m'
  end.

(** [m.upper_bound(k)]: the entries from the first key greater than [k]
    to the end; [below k m] is the part of the map before that point. *)
Fixpoint upper_bound (k : Z) (m : list (Z * V)) : list (Z * V) :=
  match m with
  | [] => []
  | (k', v) :: m' => if k <? k' then m else upper_bound k m'
  end.

Fixpoint below (k : Z) (m : list (Z * V)) : list (Z * V) :=
  match m with
  | [] => []
  | (k', v) :: m' => if k <? k' then [] else (k', v) :: below k m'
  end.

Definition keys (m : list (Z * V)) : list Z := map fst m.

(** The representation invariant of [std::map]: strictly ascending keys. *)
Definition ordered (m : list (Z * V)) : Prop := StronglySorted Z.lt (keys m).
End Map16.
End Map16.

(** ** Constants of nbiot-common.h *)

(** [enum class NbIotCoverageClass : uint8_t], as its underlying value. *)
Definition NbIotCoverageClass := Z.
Definition CE_LEVEL_0 : NbIotCoverageClass := 0.
Definition CE_LEVEL_1 : NbIotCoverageClass := 1.
Definition CE_LEVEL_2 : NbIotCoverageClass := 2.

Definition NPDSCH_REPETITIONS : list Z :=
  [1; 2; 3; 4; 5; 6; 7; 8; 9; 10; 12; 14; 16; 20; 24; 28; 32].

Definition NPUSCH_FORMAT1_REPETITIONS : list Z :=
  [1; 2; 4; 8; 16; 32; 64; 128].

Definition NPDSCH_TBS_TABLE : list Z :=
  [16; 32; 56; 88; 120; 152; 184; 208; 256; 328; 408; 504; 584; 680].

(** [a[i]] on a [std::array]; every index in the program is clamped to the
    array first. *)
Definition at_index (a : list Z) (i : Z) : Z := default 0 (a !! Z.to_nat i).

Definition size (a : list Z) : Z := Z.of_nat (length a).

Definition GetTbsFromMcsAndRbs (mcs nRbs : Z) : Z :=
  let tbsIndex := if mcs <? size NPDSCH_TBS_TABLE then mcs
                  else wrap8 (size NPDSCH_TBS_TABLE - 1) in
  at_index NPDSCH_TBS_TABLE tbsIndex.

(** ** UE context and scheduling results (nbiot-enb-mac.h) *)

Module Ue.
Record NbIotUeContext := mk {
  rnti : Z;                          (* uint16_t *)
  coverageClass : NbIotCoverageClass;
  cqi : Z;                           (* uint8_t *)
  bsrBuffer : list Z;                (* std::array<uint32_t, 4> *)
  totalBufferSize : Z;               (* uint32_t *)
  lastActivity : Time;
  srReceived : bool;
  connected : bool
}.

(** The constructor [NbIotUeContext::NbIotUeContext]. *)
Definition new : NbIotUeContext := mk 0 CE_LEVEL_0 7 [0; 0; 0; 0] 0 0 false false.

Definition set_rnti (x : Z) (c : NbIotUeContext) :=
  mk x (coverageClass c) (cqi c) (bsrBuffer c) (totalBufferSize c)
     (lastActivity c) (srReceived c) (connected c).
Definition set_coverageClass (x : NbIotCoverageClass) (c : NbIotUeContext) :=
  mk (rnti c) x (cqi c) (bsrBuffer c) (totalBufferSize c)
     (lastActivity c) (srReceived c) (connected c).
Definition set_totalBufferSize (x : Z) (c : NbIotUeContext) :=
  mk (rnti c) (coverageClass c) (cqi c) (bsrBuffer c) x
     (lastActivity c) (srReceived c) (connected c).
Definition set_lastActivity (x : Time) (c : NbIotUeContext) :=
  mk (rnti c) (coverageClass c) (cqi c) (bsrBuffer c) (totalBufferSize c)
     x (srReceived c) (connected c).
Definition set_srReceived (x : bool) (c : NbIotUeContext) :=
  mk (rnti c) (coverageClass c) (cqi c) (bsrBuffer c) (totalBufferSize c)
     (lastActivity c) x (connected c).
Definition set_connected (x : bool) (c : NbIotUeContext) :=
  mk (rnti c) (coverageClass c) (cqi c) (bsrBuffer c) (totalBufferSize c)
     (lastActivity c) (srReceived c) x.
End Ue.
Abbreviation NbIotUeContext := Ue.NbIotUeContext.

Module Ul.
Record NbIotUlGrantResult := mk {
  rnti : Z;
  mcs : Z;
  tbSize : Z;
  numSubcarriers : Z;
  numSlots : Z;
  repetitions : Z;
  rv : Z;
  newData : bool;
  harqProcess : Z
}.
End Ul.
Abbreviation NbIotUlGrantResult := Ul.NbIotUlGrantResult.

Module Dl.
Record NbIotDlAssignmentResult := mk {
  rnti : Z;
  mcs : Z;
  tbSize : Z;
  numSubframes : Z;
  repetitions : Z;
  rv : Z;
  newData : bool;
  harqProcess : Z;
  sdus : list Packet
}.
End Dl.
Abbreviation NbIotDlAssignmentResult := Dl.NbIotDlAssignmentResult.

(** ** MAC PDU (nbiot-mac.{h,cc}, NbIotMacSubheader and NbIotMacPdu) *)

Definition SHORT_BSR : Z := 29.
Definition LONG_BSR : Z := 30.
Definition PADDING : Z := 31.
Definition PHR : Z := 26.

Record NbIotMacSubheader := mkSubheader {
  m_lcid : Z;           (* uint8_t *)
  m_length : Z;         (* uint16_t *)
  m_extension : bool;
  m_format : bool
}.

(** [NbIotMacSubheader(lcid, length, extension)]. *)
Definition NbIotMacSubheader_new (lcid length : Z) (extension : bool) : NbIotMacSubheader :=
  mkSubheader lcid length extension (length >? 127).

Definition SetExtension (ext : bool) (h : NbIotMacSubheader) : NbIotMacSubheader :=
  mkSubheader (m_lcid h) (m_length h) ext (m_format h).

Definition IsFixedSize (h : NbIotMacSubheader) : bool :=
  (m_lcid h >=? 29) && (m_lcid h <=? 31).

Definition GetSerializedSize (h : NbIotMacSubheader) : Z :=
  if IsFixedSize h then 1 else if m_format h then 3 else 2.

(** [NbIotMacSubheader::Serialize], restricted to the
    [GetSerializedSize] bytes that [NbIotMacPdu::Serialize] copies. *)
Definition Subheader_Serialize (h : NbIotMacSubheader) : list Z :=
  let b0 := Z.lor (if m_extension h then 32 else 0) (Z.land (m_lcid h) 31) in
  if IsFixedSize h then [b0]
  else if m_format h
       then [b0; Z.lor 128 (Z.land (Z.shiftr (m_length h) 8) 127);
             Z.land (m_length h) 255]
       else [b0; Z.land (m_length h) 127].

Record NbIotMacPdu := mkMacPdu {
  m_subheaders : list NbIotMacSubheader;
  m_payloads : list (list Z);
  m_size : Z            (* uint16_t *)
}.

Definition NbIotMacPdu_new : NbIotMacPdu := mkMacPdu [] [] 0.

(** [m_subheaders.back().SetExtension(true)] when the vector is not empty. *)
Definition extend_last (hs : list NbIotMacSubheader) : list NbIotMacSubheader :=
  match reverse hs with
  | [] => []
  | h :: rest => reverse (SetExtension true h :: rest)
  end.

Definition AddSdu (lcid : Z) (sdu : Packet) (pdu : NbIotMacPdu) : NbIotMacPdu :=
  let sduSize := wrap16 (GetSize sdu) in
  let subheader := NbIotMacSubheader_new lcid sduSize false in
  mkMacPdu (extend_last (m_subheaders pdu) ++ [subheader])
           (m_payloads pdu ++ [take (Z.to_nat sduSize) sdu])
           (wrap16 (m_size pdu + GetSerializedSize subheader + sduSize)).

Definition AddPadding (targetSize : Z) (pdu : NbIotMacPdu) : NbIotMacPdu :=
  if m_size pdu >=? targetSize then pdu
  else
    let paddingSize := wrap16 (targetSize - m_size pdu - 1) in
    let subheader := NbIotMacSubheader_new PADDING 0 false in
    mkMacPdu (extend_last (m_subheaders pdu) ++ [subheader])
             (m_payloads pdu ++ [replicate (Z.to_nat paddingSize) 0])
             targetSize.

Definition MacPdu_Serialize (pdu : NbIotMacPdu) : Packet :=
  concat (map Subheader_Serialize (m_subheaders pdu)) ++ concat (m_payloads pdu).

(** ** The radio layer, as the record of what was handed to it *)

Inductive NbIotDciFormat := DCI_N0 | DCI_N1 | DCI_N2.

(** [struct NbIotDci], with the members the MAC assigns. *)
Record NbIotDci := mkDci {
  dci_format : NbIotDciFormat;
  dci_rnti : Z;
  dci_mcs : Z;
  dci_repetitionNumber : Z;
  dci_ndi : Z;
  dci_harqProcessNum : Z;
  dci_resourceAssignment : Z;
  dci_subcarrierIndication : option Z;   (* assigned for DCI N0 only *)
  dci_schedulingDelay : option Z         (* assigned for DCI N0 only *)
}.

Inductive PhyCall :=
| TransmitNpdsch (packet : Packet) (rnti mcs repetitions : Z)
| TransmitNpdcch (dci : NbIotDci) (repetitions aggregationLevel : Z).

(** ** eNB MAC state (nbiot-enb-mac.h, class NbIotEnbMac)

    [m_phy] is [None] for a null pointer and otherwise the calls made on the
    PHY so far, oldest first.  [m_scheduler] lives in [World] below. *)

Record NbIotEnbMac := mkEnbMac {
  m_phy : option (list PhyCall);
  m_ueContexts : list (Z * NbIotUeContext);
  m_dlTxQueues : list (Z * list (Z * Packet));
  m_dlHarqManagers : list (Z * NbIotHarqManager);
  m_ulHarqManagers : list (Z * NbIotHarqManager);
  m_nextRnti : Z         (* uint16_t *)
}.

Definition set_phy (x : option (list PhyCall)) (mac : NbIotEnbMac) : NbIotEnbMac :=
  mkEnbMac x (m_ueContexts mac) (m_dlTxQueues mac) (m_dlHarqManagers mac)
           (m_ulHarqManagers mac) (m_nextRnti mac).
Definition set_ueContexts (x : list (Z * NbIotUeContext)) (mac : NbIotEnbMac) : NbIotEnbMac :=
  mkEnbMac (m_phy mac) x (m_dlTxQueues mac) (m_dlHarqManagers mac)
           (m_ulHarqManagers mac) (m_nextRnti mac).
Definition set_dlTxQueues (x : list (Z * list (Z * Packet))) (mac : NbIotEnbMac) : NbIotEnbMac :=
  mkEnbMac (m_phy mac) (m_ueContexts mac) x (m_dlHarqManagers mac)
           (m_ulHarqManagers mac) (m_nextRnti mac).
Definition set_dlHarqManagers (x : list (Z * NbIotHarqManager)) (mac : NbIotEnbMac) : NbIotEnbMac :=
  mkEnbMac (m_phy mac) (m_ueContexts mac) (m_dlTxQueues mac) x
           (m_ulHarqManagers mac) (m_nextRnti mac).
Definition set_ulHarqManagers (x : list (Z * NbIotHarqManager)) (mac : NbIotEnbMac) : NbIotEnbMac :=
  mkEnbMac (m_phy mac) (m_ueContexts mac) (m_dlTxQueues mac) (m_dlHarqManagers mac)
           x (m_nextRnti mac).
Definition set_nextRnti (x : Z) (mac : NbIotEnbMac) : NbIotEnbMac :=
  mkEnbMac (m_phy mac) (m_ueContexts mac) (m_dlTxQueues mac) (m_dlHarqManagers mac)
           (m_ulHarqManagers mac) x.


(** What a downlink scheduling call keeps of the MAC: everything but the
    queues. *)
Definition dl_keeps (mac mac' : NbIotEnbMac) : Prop :=
  m_phy mac' = m_phy mac /\ m_ueContexts mac' = m_ueContexts mac
  /\ m_dlHarqManagers mac' = m_dlHarqManagers mac
  /\ m_ulHarqManagers mac' = m_ulHarqManagers mac.

Definition GetUeContext (mac : NbIotEnbMac) (rnti : Z) : option NbIotUeContext :=
  Map16.find rnti (m_ueContexts mac).

Definition GetUeContexts (mac : NbIotEnbMac) : list (Z * NbIotUeContext) :=
  m_ueContexts mac.

(** A write through a reference to the queue of [rnti]. *)
Definition set_DlTxQueue (rnti : Z) (q : list (Z * Packet)) (mac : NbIotEnbMac) : NbIotEnbMac :=
  set_dlTxQueues (Map16.set rnti q (m_dlTxQueues mac)) mac.

(** [GetDlTxQueue(rnti)] returns a reference to [m_dlTxQueues[rnti]], and
    [operator[]] of [std::map] inserts an empty queue under a key the map
    does not have: the queue under [rnti], and the MAC after the lookup. *)
Definition GetDlTxQueue (mac : NbIotEnbMac) (rnti : Z)
  : list (Z * Packet) * NbIotEnbMac :=
  match Map16.find rnti (m_dlTxQueues mac) with
  | Some queue => (queue, mac)
  | None => ([], set_DlTxQueue rnti [] mac)
  end.

(** [mac'] is [mac] but for empty queues that lookups have created. *)
Definition lookups_only (mac mac' : NbIotEnbMac) : Prop :=
  m_phy mac' = m_phy mac /\ m_ueContexts mac' = m_ueContexts mac
  /\ m_dlHarqManagers mac' = m_dlHarqManagers mac
  /\ m_ulHarqManagers mac' = m_ulHarqManagers mac
  /\ m_nextRnti mac' = m_nextRnti mac
  /\ forall rnti,
       Map16.find rnti (m_dlTxQueues mac') = Map16.find rnti (m_dlTxQueues mac)
       \/ (Map16.find rnti (m_dlTxQueues mac) = None
           /\ Map16.find rnti (m_dlTxQueues mac') = Some []).

Definition empty {A} (l : list A) : bool :=
  match l with [] => true | _ => false end.

(** [mac] and [mac'] have the same contexts, and every queue reads the same
    in both. *)
Definition same_reads (mac mac' : NbIotEnbMac) : Prop :=
  m_ueContexts mac' = m_ueContexts mac
  /\ forall rnti, fst (GetDlTxQueue mac' rnti) = fst (GetDlTxQueue mac rnti).

(** A call on [m_phy] when it is not null. *)
Definition phy_call (c : PhyCall) (mac : NbIotEnbMac) : NbIotEnbMac :=
  match m_phy mac with
  | Some log => set_phy (Some (log ++ [c])) mac
  | None => mac
  end.

(** ** Pieces shared by the schedulers *)

(** The condition [context->srReceived || context->totalBufferSize > 0]. *)
Definition ul_pending (c : NbIotUeContext) : bool :=
  Ue.srReceived c || (Ue.totalBufferSize c >? 0).

(** The loop [while (!dlQueue.empty() && remaining > 3)] of both
    [ScheduleDl] in nbiot-enb-mac.cc: the SDUs taken, and the queue left. *)
Fixpoint collect_sdus (dlQueue : list (Z * Packet)) (remaining : Z)
  : list Packet * list (Z * Packet) :=
  match dlQueue with
  | [] => ([], [])
  | front :: rest =>
      if remaining >? 3 then
        let sduSize := wrap16 (GetSize (snd front)) in
        if sduSize + 2 <=? remaining then
          let '(sdus, remainder) := collect_sdus rest (remaining - (sduSize + 2)) in
          (snd front :: sdus, remainder)
        else ([], dlQueue)
      else ([], dlQueue)
  end.

(** ** Round-robin scheduler (nbiot-enb-mac.cc)

    [m_mac] is carried as a flag (pointer set or null) next to the MAC state
    the pointer refers to. *)

Module RoundRobin.

Record NbIotRoundRobinScheduler := mk {
  m_lastDlRnti : Z;     (* uint16_t *)
  m_lastUlRnti : Z      (* uint16_t *)
}.

Definition new : NbIotRoundRobinScheduler := mk 0 0.

(** The test [dl && !m_mac->GetDlTxQueue(rnti).empty()]: the queue is looked
    up only when [dl] holds. *)
Definition dl_has_data (dl : bool) (mac : NbIotEnbMac) (rnti : Z) : bool * NbIotEnbMac :=
  if dl then
    let '(queue, mac1) := GetDlTxQueue mac rnti in (negb (empty queue), mac1)
  else (false, mac).

(** The [do ... while (it != startIt)] loop of [GetNextRnti] over the
    entries in the order the iterator visits them: the id returned, and the
    MAC after the lookups of the loop. *)
Fixpoint next_with_data (dl : bool) (mac : NbIotEnbMac)
    (visit : list (Z * NbIotUeContext)) : Z * NbIotEnbMac :=
  match visit with
  | [] => (0, mac)
  | (first, second) :: rest =>
      if Ue.connected second then
        let '(hasData, mac1) := dl_has_data dl mac first in
        if hasData then (first, mac1)
        else if negb dl && ul_pending second then (first, mac1)
        else next_with_data dl mac1 rest
      else next_with_data dl mac rest
  end.

Definition GetNextRnti (m_mac : bool) (mac : NbIotEnbMac) (lastRnti : Z) (dl : bool)
  : Z * NbIotEnbMac :=
  if negb m_mac then (0, mac)
  else
    let ueContexts := GetUeContexts mac in
    if empty ueContexts then (0, mac)
    else
      let it := Map16.upper_bound lastRnti ueContexts in
      let visit := if empty it then ueContexts
                   else it ++ Map16.below lastRnti ueContexts in
      next_with_data dl mac visit.

Definition ScheduleDl (s : NbIotRoundRobinScheduler) (m_mac : bool) (mac : NbIotEnbMac)
    (availableRbs : Z)
  : list NbIotDlAssignmentResult * NbIotRoundRobinScheduler * NbIotEnbMac :=
  if negb m_mac || (availableRbs =? 0) then ([], s, mac)
  else if empty (GetUeContexts mac) then ([], s, mac)
  else
    let '(rnti, mac1) := GetNextRnti m_mac mac (m_lastDlRnti s) true in
    if rnti =? 0 then ([], s, mac1)
    else
      let '(dlQueue, mac2) := GetDlTxQueue mac1 rnti in
      if empty dlQueue then ([], s, mac2)
      else
        match GetUeContext mac2 rnti with
        | None => ([], s, mac2)
        | Some ueContext =>
            let mcs := Z.min (Ue.cqi ueContext) 10 in
            let reps := at_index NPDSCH_REPETITIONS
                          (Z.min (Ue.coverageClass ueContext * 2)
                                 (size NPDSCH_REPETITIONS - 1)) in
            let tbSize := GetTbsFromMcsAndRbs mcs 1 in
            let '(sdus, remainder) := collect_sdus dlQueue tbSize in
            let mac' := set_DlTxQueue rnti remainder mac2 in
            if negb (empty sdus)
            then ([Dl.mk rnti mcs tbSize 1 reps 0 true 0 sdus],
                  mk rnti (m_lastUlRnti s), mac')
            else ([], s, mac')
        end.

(** The [for (auto& [rnti, context] : ueContexts)] loop of [ScheduleUl]:
    the grant, if any, and the contexts after the loop. *)
Fixpoint ul_loop (ueContexts : list (Z * NbIotUeContext))
  : option NbIotUlGrantResult * list (Z * NbIotUeContext) :=
  match ueContexts with
  | [] => (None, [])
  | (rnti, context) :: rest =>
      if negb (Ue.connected context) then
        let '(g, rest') := ul_loop rest in (g, (rnti, context) :: rest')
      else if ul_pending context then
        let mcs := Z.min (wrap8 (Ue.cqi context / 2)) 7 in
        let reps := at_index NPUSCH_FORMAT1_REPETITIONS
                      (Z.min (Ue.coverageClass context)
                             (size NPUSCH_FORMAT1_REPETITIONS - 1)) in
        let tbSize := GetTbsFromMcsAndRbs mcs 1 in
        (Some (Ul.mk rnti mcs tbSize 12 2 reps 0 true 0),
         (rnti, Ue.set_srReceived false context) :: rest)
      else
        let '(g, rest') := ul_loop rest in (g, (rnti, context) :: rest')
  end.

Definition ScheduleUl (s : NbIotRoundRobinScheduler) (m_mac : bool) (mac : NbIotEnbMac)
    (availableRbs : Z)
  : list NbIotUlGrantResult * NbIotRoundRobinScheduler * NbIotEnbMac :=
  if negb m_mac || (availableRbs =? 0) then ([], s, mac)
  else if empty (GetUeContexts mac) then ([], s, mac)
  else
    match ul_loop (GetUeContexts mac) with
    | (Some grant, ueContexts') =>
        ([grant], mk (m_lastDlRnti s) (Ul.rnti grant), set_ueContexts ueContexts' mac)
    | (None, ueContexts') => ([], s, set_ueContexts ueContexts' mac)
    end.

End RoundRobin.
Abbreviation NbIotRoundRobinScheduler := RoundRobin.NbIotRoundRobinScheduler.

(** ** Coverage-class scheduler (nbiot-enb-mac.cc)

    [std::sort] is a parameter, [std_sort], of the functions that reach it:
    the C++ standard fixes that its result is a permutation of the input in
    non-descending order of the comparator, and leaves the relative order of
    equivalent elements open. *)

Module CoverageClass.

Definition GetPriority (ceLevel : NbIotCoverageClass) : Z :=
  if ceLevel =? CE_LEVEL_0 then 3
  else if ceLevel =? CE_LEVEL_1 then 2
  else if ceLevel =? CE_LEVEL_2 then 1
  else 4.

(** The comparator [a.second < b.second]. *)
Definition comp (a b : Z * Z) : bool := snd a <? snd b.

(** [a] may stand before [b] in a range sorted by [comp]. *)
Definition in_order (a b : Z * Z) : Prop := comp b a = false.

(** What [std::sort] with [comp] guarantees of its result. *)
Definition std_sort_contract (std_sort : list (Z * Z) -> list (Z * Z)) : Prop :=
  forall l, std_sort l ≡ₚ l /\ Sorted in_order (std_sort l).

Definition rntiPriority (mac : NbIotEnbMac) (ueList : list Z) : list (Z * Z) :=
  omap (fun rnti =>
          match GetUeContext mac rnti with
          | Some context => Some (rnti, GetPriority (Ue.coverageClass context))
          | None => None
          end) ueList.

Definition SortByPriority (std_sort : list (Z * Z) -> list (Z * Z))
    (mac : NbIotEnbMac) (ueList : list Z) : list Z :=
  map fst (std_sort (rntiPriority mac ueList)).

(** The loop [for (auto& [rnti, context] : ueContexts)] of [ScheduleDl]:
    [candidateRntis], and the MAC after the lookups of the loop; the queue
    of an entry that is not connected is not looked up. *)
Fixpoint dl_candidates_loop (ueContexts : list (Z * NbIotUeContext))
    (mac : NbIotEnbMac) : list Z * NbIotEnbMac :=
  match ueContexts with
  | [] => ([], mac)
  | (rnti, context) :: rest =>
      if Ue.connected context then
        let '(queue, mac1) := GetDlTxQueue mac rnti in
        let '(candidateRntis, mac2) := dl_candidates_loop rest mac1 in
        (if negb (empty queue) then rnti :: candidateRntis else candidateRntis,
         mac2)
      else dl_candidates_loop rest mac
  end.

Definition dl_candidates (mac : NbIotEnbMac) : list Z * NbIotEnbMac :=
  dl_candidates_loop (GetUeContexts mac) mac.

Definition ul_candidates (mac : NbIotEnbMac) : list Z :=
  omap (fun '(rnti, context) =>
          if Ue.connected context && ul_pending context
          then Some rnti else None) (GetUeContexts mac).

(** [sortedRntis.front()] followed by [GetUeContext(rnti)]: both are
    defined in C++ only when the sorted vector is not empty and the id has a
    context, which holds for every candidate list under
    [std_sort_contract]; outside that, nothing is scheduled here. *)
Definition ScheduleDl (std_sort : list (Z * Z) -> list (Z * Z))
    (m_mac : bool) (mac : NbIotEnbMac) (availableRbs : Z)
  : list NbIotDlAssignmentResult * NbIotEnbMac :=
  if negb m_mac || (availableRbs =? 0) then ([], mac)
  else
    let '(candidateRntis, mac1) := dl_candidates mac in
    if empty candidateRntis then ([], mac1)
    else
      match SortByPriority std_sort mac1 candidateRntis with
      | [] => ([], mac1)
      | rnti :: _ =>
          match GetUeContext mac1 rnti with
          | None => ([], mac1)
          | Some ueContext =>
              let '(dlQueue, mac2) := GetDlTxQueue mac1 rnti in
              let mcs := Z.min (Ue.cqi ueContext) 10 in
              let reps := at_index NPDSCH_REPETITIONS
                            (Z.min (Ue.coverageClass ueContext * 3)
                                   (size NPDSCH_REPETITIONS - 1)) in
              let tbSize := GetTbsFromMcsAndRbs mcs 1 in
              let '(sdus, remainder) := collect_sdus dlQueue tbSize in
              let mac' := set_DlTxQueue rnti remainder mac2 in
              if negb (empty sdus)
              then ([Dl.mk rnti mcs tbSize 1 reps 0 true 0 sdus], mac')
              else ([], mac')
          end
      end.

Definition ScheduleUl (std_sort : list (Z * Z) -> list (Z * Z))
    (m_mac : bool) (mac : NbIotEnbMac) (availableRbs : Z)
  : list NbIotUlGrantResult * NbIotEnbMac :=
  if negb m_mac || (availableRbs =? 0) then ([], mac)
  else
    let candidateRntis := ul_candidates mac in
    if empty candidateRntis then ([], mac)
    else
      match SortByPriority std_sort mac candidateRntis with
      | [] => ([], mac)
      | rnti :: _ =>
          match GetUeContext mac rnti with
          | None => ([], mac)
          | Some ueContext =>
              let mcs := Z.min (wrap8 (Ue.cqi ueContext / 2)) 7 in
              let reps := at_index NPUSCH_FORMAT1_REPETITIONS
                            (Z.min (Ue.coverageClass ueContext * 2)
                                   (size NPUSCH_FORMAT1_REPETITIONS - 1)) in
              let tbSize := GetTbsFromMcsAndRbs mcs 1 in
              ([Ul.mk rnti mcs tbSize 12 2 reps 0 true 0],
               set_ueContexts
                 (Map16.update rnti (Ue.set_srReceived false) (m_ueContexts mac)) mac)
          end
      end.

(** [rnti] has a context, and no id of [candidates] has a context of a
    numerically lower priority. *)
Definition lowest_priority (mac : NbIotEnbMac) (candidates : list Z) (rnti : Z) : Prop :=
  exists context,
    GetUeContext mac rnti = Some context
    /\ forall rnti' context',
         rnti' ∈ candidates -> GetUeContext mac rnti' = Some context' ->
         GetPriority (Ue.coverageClass context)
           <= GetPriority (Ue.coverageClass context').

End CoverageClass.

(** ** Semi-persistent scheduler (nbiot-sps-scheduler.{h,cc}) *)

Module SpsConfig.
Record NbIotSpsConfig := mk {
  rnti : Z;               (* uint16_t *)
  spsInterval : Time;
  numSubcarriers : Z;     (* uint8_t *)
  mcs : Z;                (* uint8_t *)
  tbSize : Z;             (* uint16_t *)
  repetitions : Z;        (* uint8_t *)
  nextAllocation : Time;
  active : bool;
  harqProcess : Z         (* uint8_t *)
}.

(** The constructor [NbIotSpsConfig::NbIotSpsConfig]. *)
Definition new : NbIotSpsConfig :=
  mk 0 (MilliSeconds 20) 12 4 88 1 (Seconds 0) false 0.

Definition set_nextAllocation (x : Time) (c : NbIotSpsConfig) :=
  mk (rnti c) (spsInterval c) (numSubcarriers c) (mcs c) (tbSize c)
     (repetitions c) x (active c) (harqProcess c).
Definition set_active (x : bool) (c : NbIotSpsConfig) :=
  mk (rnti c) (spsInterval c) (numSubcarriers c) (mcs c) (tbSize c)
     (repetitions c) (nextAllocation c) x (harqProcess c).
End SpsConfig.
Abbreviation NbIotSpsConfig := SpsConfig.NbIotSpsConfig.

Module Sps.

Record NbIotSpsScheduler := mk {
  m_spsConfigs : list (Z * NbIotSpsConfig);
  m_defaultSpsInterval : Time;
  m_autoActivateSps : bool;
  m_paddingTransmissions : Z;   (* uint32_t *)
  m_dataTransmissions : Z;      (* uint32_t *)
  m_lastDynamicRnti : Z;        (* uint16_t *)
  m_subframeCounter : Z         (* uint64_t *)
}.

Definition new : NbIotSpsScheduler := mk [] (MilliSeconds 20) true 0 0 0 0.

Definition set_spsConfigs (x : list (Z * NbIotSpsConfig)) (s : NbIotSpsScheduler) :=
  mk x (m_defaultSpsInterval s) (m_autoActivateSps s) (m_paddingTransmissions s)
     (m_dataTransmissions s) (m_lastDynamicRnti s) (m_subframeCounter s).
Definition set_paddingTransmissions (x : Z) (s : NbIotSpsScheduler) :=
  mk (m_spsConfigs s) (m_defaultSpsInterval s) (m_autoActivateSps s) x
     (m_dataTransmissions s) (m_lastDynamicRnti s) (m_subframeCounter s).
Definition set_dataTransmissions (x : Z) (s : NbIotSpsScheduler) :=
  mk (m_spsConfigs s) (m_defaultSpsInterval s) (m_autoActivateSps s)
     (m_paddingTransmissions s) x (m_lastDynamicRnti s) (m_subframeCounter s).
Definition set_subframeCounter (x : Z) (s : NbIotSpsScheduler) :=
  mk (m_spsConfigs s) (m_defaultSpsInterval s) (m_autoActivateSps s)
     (m_paddingTransmissions s) (m_dataTransmissions s) (m_lastDynamicRnti s) x.

(** The outputs [mcs] and [tbSize] are returned as a pair. *)
Definition SelectMcsAndTbs (cqi numSubcarriers : Z) : Z * Z :=
  let '(mcs, tbSize) :=
    if cqi <=? 3 then (0, 16)
    else if cqi <=? 5 then (2, 56)
    else if cqi <=? 8 then (4, 88)
    else if cqi <=? 11 then (6, 152)
    else (8, 256) in
  if numSubcarriers <? 12 then
    let tbSize := wrap16 (tbSize * numSubcarriers / 12) in
    (mcs, if tbSize <? 16 then 16 else tbSize)
  else (mcs, tbSize).

Definition ConfigureSps (s : NbIotSpsScheduler) (now : Time)
    (rnti : Z) (interval : Time) (numSubcarriers : Z) : NbIotSpsScheduler :=
  let '(mcs, tbSize) := SelectMcsAndTbs 7 numSubcarriers in
  let config :=
    SpsConfig.mk rnti interval numSubcarriers mcs tbSize
      (SpsConfig.repetitions SpsConfig.new) now false
      (SpsConfig.harqProcess SpsConfig.new) in
  set_spsConfigs (Map16.set rnti config (m_spsConfigs s)) s.

Definition ActivateSps (s : NbIotSpsScheduler) (now : Time) (rnti : Z)
  : NbIotSpsScheduler :=
  let s1 := match Map16.find rnti (m_spsConfigs s) with
            | None => ConfigureSps s now rnti (m_defaultSpsInterval s) 12
            | Some _ => s
            end in
  set_spsConfigs
    (Map16.update rnti
       (fun c => SpsConfig.set_nextAllocation now (SpsConfig.set_active true c))
       (m_spsConfigs s1)) s1.

Definition DeactivateSps (s : NbIotSpsScheduler) (rnti : Z) : NbIotSpsScheduler :=
  set_spsConfigs (Map16.update rnti (SpsConfig.set_active false) (m_spsConfigs s)) s.

Definition IsSpsActive (s : NbIotSpsScheduler) (rnti : Z) : bool :=
  match Map16.find rnti (m_spsConfigs s) with
  | Some c => SpsConfig.active c
  | None => false
  end.

Definition GetSpsConfig (s : NbIotSpsScheduler) (rnti : Z) : option NbIotSpsConfig :=
  Map16.find rnti (m_spsConfigs s).

Definition GetActiveSpsCount (s : NbIotSpsScheduler) : Z :=
  wrap32 (Z.of_nat (length (List.filter (fun kc => SpsConfig.active (snd kc))
                                        (m_spsConfigs s)))).

Definition UpdateNextAllocation (s : NbIotSpsScheduler) (now : Time) (rnti : Z)
  : NbIotSpsScheduler :=
  set_spsConfigs
    (Map16.update rnti
       (fun c => SpsConfig.set_nextAllocation (now + SpsConfig.spsInterval c) c)
       (m_spsConfigs s)) s.

(** The loop of [ScheduleDl] over [ueContexts], from [usedRbs] units used. *)
Fixpoint dl_loop (ueContexts : list (Z * NbIotUeContext)) (mac : NbIotEnbMac)
    (usedRbs availableRbs : Z) : list NbIotDlAssignmentResult * NbIotEnbMac :=
  match ueContexts with
  | [] => ([], mac)
  | context :: rest =>
      if usedRbs >=? availableRbs then ([], mac)
      else
        let rnti := fst context in
        let '(txQueue, mac0) := GetDlTxQueue mac rnti in
        if negb (empty txQueue) then
          let result := Dl.mk rnti 4 88 1 1 0 true 0 (map snd (take 8 txQueue)) in
          let mac1 := set_DlTxQueue rnti (drop 8 txQueue) mac0 in
          let '(assignments, mac2) :=
            dl_loop rest mac1 (wrap8 (usedRbs + 1)) availableRbs in
          (result :: assignments, mac2)
        else dl_loop rest mac0 usedRbs availableRbs
  end.

Definition ScheduleDl (s : NbIotSpsScheduler) (m_mac : bool) (mac : NbIotEnbMac)
    (availableRbs : Z) : list NbIotDlAssignmentResult * NbIotEnbMac :=
  if negb m_mac then ([], mac)
  else dl_loop (GetUeContexts mac) mac 0 availableRbs.

(** [NbIotScheduler::GetUeContext]: null when [m_mac] is null. *)
Definition Scheduler_GetUeContext (m_mac : bool) (mac : NbIotEnbMac) (rnti : Z)
  : option NbIotUeContext :=
  if m_mac then GetUeContext mac rnti else None.

(** The loop of [ScheduleSpsGrants] over the keys of [m_spsConfigs] in
    ascending order; the entry under the iterator is read from the current
    table, which [UpdateNextAllocation] writes during the loop. *)
Fixpoint sps_loop (keys : list Z) (s : NbIotSpsScheduler) (m_mac : bool)
    (mac : NbIotEnbMac) (now currentTime : Time) (usedRbs availableRbs : Z)
  : list NbIotUlGrantResult * NbIotSpsScheduler :=
  match keys with
  | [] => ([], s)
  | key :: rest =>
      if usedRbs >=? availableRbs then ([], s)
      else
        match Map16.find key (m_spsConfigs s) with
        | None => sps_loop rest s m_mac mac now currentTime usedRbs availableRbs
        | Some config =>
            if negb (SpsConfig.active config)
            then sps_loop rest s m_mac mac now currentTime usedRbs availableRbs
            else if currentTime >=? SpsConfig.nextAllocation config then
              let grant :=
                Ul.mk (SpsConfig.rnti config) (SpsConfig.mcs config)
                      (SpsConfig.tbSize config) (SpsConfig.numSubcarriers config)
                      4 (SpsConfig.repetitions config) 0 true
                      (SpsConfig.harqProcess config) in
              let s1 :=
                match Scheduler_GetUeContext m_mac mac (SpsConfig.rnti config) with
                | Some ueContext =>
                    if Ue.totalBufferSize ueContext >? 0
                    then set_dataTransmissions (wrap32 (m_dataTransmissions s + 1)) s
                    else set_paddingTransmissions (wrap32 (m_paddingTransmissions s + 1)) s
                | None =>
                    set_paddingTransmissions (wrap32 (m_paddingTransmissions s + 1)) s
                end in
              let s2 := UpdateNextAllocation s1 now (SpsConfig.rnti config) in
              let '(grants, s3) :=
                sps_loop rest s2 m_mac mac now currentTime
                         (wrap8 (usedRbs + 1)) availableRbs in
              (grant :: grants, s3)
            else sps_loop rest s m_mac mac now currentTime usedRbs availableRbs
        end
  end.

Definition ScheduleSpsGrants (s : NbIotSpsScheduler) (m_mac : bool) (mac : NbIotEnbMac)
    (now currentTime : Time) (availableRbs : Z)
  : list NbIotUlGrantResult * NbIotSpsScheduler :=
  sps_loop (Map16.keys (m_spsConfigs s)) s m_mac mac now currentTime 0 availableRbs.

Definition dynamicUes (s : NbIotSpsScheduler) (mac : NbIotEnbMac) : list Z :=
  omap (fun context : Z * NbIotUeContext =>
          let rnti := fst context in
          if IsSpsActive s rnti then None
          else if ul_pending (snd context) then Some rnti else None)
       (GetUeContexts mac).

(** The loop of [ScheduleDynamicGrants] over [dynamicUes]. *)
Fixpoint dynamic_loop (ues : list Z) (mac : NbIotEnbMac) (usedRbs availableRbs : Z)
  : list NbIotUlGrantResult * NbIotEnbMac :=
  match ues with
  | [] => ([], mac)
  | rnti :: rest =>
      if usedRbs >=? availableRbs then ([], mac)
      else
        match GetUeContext mac rnti with
        | None => dynamic_loop rest mac usedRbs availableRbs
        | Some ueContext =>
            let '(mcs, tbSize) := SelectMcsAndTbs (Ue.cqi ueContext) 12 in
            let grant := Ul.mk rnti mcs tbSize 12 4 1 0 true 0 in
            let mac1 :=
              set_ueContexts
                (Map16.update rnti (Ue.set_srReceived false) (m_ueContexts mac)) mac in
            let '(grants, mac2) :=
              dynamic_loop rest mac1 (wrap8 (usedRbs + 1)) availableRbs in
            (grant :: grants, mac2)
        end
  end.

Definition ScheduleDynamicGrants (s : NbIotSpsScheduler) (m_mac : bool)
    (mac : NbIotEnbMac) (availableRbs : Z) : list NbIotUlGrantResult * NbIotEnbMac :=
  if negb m_mac || (availableRbs =? 0) then ([], mac)
  else dynamic_loop (dynamicUes s mac) mac 0 availableRbs.

(** [remainingRbs] after the loop over [spsGrants]. *)
Fixpoint remaining_after {A} (spsGrants : list A) (remainingRbs : Z) : Z :=
  match spsGrants with
  | [] => remainingRbs
  | _ :: rest =>
      remaining_after rest (if remainingRbs >? 0 then remainingRbs - 1 else 0)
  end.

Definition ScheduleUl (s : NbIotSpsScheduler) (m_mac : bool) (mac : NbIotEnbMac)
    (now : Time) (availableRbs : Z)
  : list NbIotUlGrantResult * NbIotSpsScheduler * NbIotEnbMac :=
  let s0 := set_subframeCounter (wrap64 (m_subframeCounter s + 1)) s in
  let currentTime := now in
  let '(spsGrants, s1) := ScheduleSpsGrants s0 m_mac mac now currentTime availableRbs in
  let remainingRbs := remaining_after spsGrants availableRbs in
  let '(dynamicGrants, mac1) := ScheduleDynamicGrants s1 m_mac mac remainingRbs in
  (spsGrants ++ dynamicGrants, s1, mac1).

(** The shape [ConfigureSps] gives the table: ascending keys, every entry
    filed under its own [rnti]. *)
Definition rnti_is_key (spsConfigs : list (Z * NbIotSpsConfig)) : Prop :=
  forall key config,
    Map16.find key spsConfigs = Some config -> SpsConfig.rnti config = key.

Definition table_ok (spsConfigs : list (Z * NbIotSpsConfig)) : Prop :=
  Map16.ordered spsConfigs /\ rnti_is_key spsConfigs.

End Sps.
Abbreviation NbIotSpsScheduler := Sps.NbIotSpsScheduler.

(** ** The scheduler installed in the MAC (virtual dispatch) *)

Inductive Policy :=
| RoundRobinScheduler (s : NbIotRoundRobinScheduler)
| CoverageClassScheduler
| SpsScheduler (s : NbIotSpsScheduler).

(** [class NbIotScheduler]: [m_mac] is [false] for a null pointer. *)
Record NbIotScheduler := mkScheduler {
  m_mac : bool;
  policy : Policy
}.

Definition SetMac (sch : NbIotScheduler) : NbIotScheduler :=
  mkScheduler true (policy sch).

Section Dispatch.
Variable std_sort : list (Z * Z) -> list (Z * Z).

Definition ScheduleDl (sch : NbIotScheduler) (mac : NbIotEnbMac) (availableRbs : Z)
  : list NbIotDlAssignmentResult * NbIotScheduler * NbIotEnbMac :=
  match policy sch with
  | RoundRobinScheduler s =>
      let '(r, s', mac') := RoundRobin.ScheduleDl s (m_mac sch) mac availableRbs in
      (r, mkScheduler (m_mac sch) (RoundRobinScheduler s'), mac')
  | CoverageClassScheduler =>
      let '(r, mac') := CoverageClass.ScheduleDl std_sort (m_mac sch) mac availableRbs in
      (r, sch, mac')
  | SpsScheduler s =>
      let '(r, mac') := Sps.ScheduleDl s (m_mac sch) mac availableRbs in
      (r, sch, mac')
  end.

Definition ScheduleUl (sch : NbIotScheduler) (mac : NbIotEnbMac) (now : Time)
    (availableRbs : Z)
  : list NbIotUlGrantResult * NbIotScheduler * NbIotEnbMac :=
  match policy sch with
  | RoundRobinScheduler s =>
      let '(r, s', mac') := RoundRobin.ScheduleUl s (m_mac sch) mac availableRbs in
      (r, mkScheduler (m_mac sch) (RoundRobinScheduler s'), mac')
  | CoverageClassScheduler =>
      let '(r, mac') := CoverageClass.ScheduleUl std_sort (m_mac sch) mac availableRbs in
      (r, sch, mac')
  | SpsScheduler s =>
      let '(r, s', mac') := Sps.ScheduleUl s (m_mac sch) mac now availableRbs in
      (r, mkScheduler (m_mac sch) (SpsScheduler s'), mac')
  end.
End Dispatch.

(** ** eNB MAC operations (nbiot-enb-mac.cc) *)

Definition TransmitSdu (mac : NbIotEnbMac) (rnti lcid : Z) (packet : Packet) : NbIotEnbMac :=
  let '(queue, mac0) := GetDlTxQueue mac rnti in
  let mac1 := set_DlTxQueue rnti (queue ++ [(lcid, packet)]) mac0 in
  set_ueContexts
    (Map16.update rnti
       (fun context =>
          Ue.set_totalBufferSize
            (wrap32 (Ue.totalBufferSize context + GetSize packet)) context)
       (m_ueContexts mac1)) mac1.

Definition ProcessBsr (mac : NbIotEnbMac) (rnti : Z) : NbIotEnbMac :=
  set_ueContexts
    (Map16.update rnti
       (fun context => Ue.set_srReceived true (Ue.set_totalBufferSize 100 context))
       (m_ueContexts mac)) mac.

Definition ProcessSchedulingRequest (mac : NbIotEnbMac) (rnti : Z) : NbIotEnbMac :=
  set_ueContexts
    (Map16.update rnti (Ue.set_srReceived true) (m_ueContexts mac)) mac.

Definition ProcessHarqFeedback (mac : NbIotEnbMac) (rnti harqId : Z) (ack : bool)
  : NbIotEnbMac :=
  set_dlHarqManagers
    (Map16.update rnti
       (fun mgr => if ack then ProcessAck mgr harqId else fst (ProcessNack mgr harqId))
       (m_dlHarqManagers mac)) mac.

(** Returns the allocated id and the MAC with [m_nextRnti] advanced. *)
Definition AllocateRnti (mac : NbIotEnbMac) : Z * NbIotEnbMac :=
  let rnti := m_nextRnti mac in
  let next := wrap16 (m_nextRnti mac + 1) in
  (rnti, set_nextRnti (if next >=? 65520 then 1 else next) mac).

Definition AddUe (mac : NbIotEnbMac) (rnti : Z) (coverageClass : NbIotCoverageClass)
  : NbIotEnbMac :=
  let context :=
    Ue.set_connected true (Ue.set_coverageClass coverageClass (Ue.set_rnti rnti Ue.new)) in
  let mac1 := set_ueContexts (Map16.set rnti context (m_ueContexts mac)) mac in
  let mac2 := set_dlHarqManagers
                (Map16.set rnti NbIotHarqManager_new (m_dlHarqManagers mac1)) mac1 in
  set_ulHarqManagers (Map16.set rnti NbIotHarqManager_new (m_ulHarqManagers mac2)) mac2.

Definition RemoveUe (mac : NbIotEnbMac) (rnti : Z) : NbIotEnbMac :=
  mkEnbMac (m_phy mac)
           (Map16.erase rnti (m_ueContexts mac))
           (Map16.erase rnti (m_dlTxQueues mac))
           (Map16.erase rnti (m_dlHarqManagers mac))
           (Map16.erase rnti (m_ulHarqManagers mac))
           (m_nextRnti mac).

Definition GenerateRar (mac : NbIotEnbMac) (preambleId timingAdvance : Z)
    (coverageClass : NbIotCoverageClass) : NbIotEnbMac :=
  let '(tempCRnti, mac1) := AllocateRnti mac in
  let mac2 := AddUe mac1 tempCRnti coverageClass in
  let reps := at_index NPDSCH_REPETITIONS
                (Z.min (coverageClass * 2) (size NPDSCH_REPETITIONS - 1)) in
  phy_call (TransmitNpdsch (replicate 10 0) 1 16 reps) mac2.

(** The MAC PDU [TransmitDlPdus] builds for an assignment, and the DCI it
    sends for it. *)
Definition build_pdu (assignment : NbIotDlAssignmentResult) : Packet :=
  let pdu := fold_left (fun pdu sdu => AddSdu 1 sdu pdu) (Dl.sdus assignment)
                       NbIotMacPdu_new in
  let pdu := AddPadding (Dl.tbSize assignment) pdu in
  MacPdu_Serialize pdu.

Definition dl_dci (assignment : NbIotDlAssignmentResult) : NbIotDci :=
  mkDci DCI_N1 (Dl.rnti assignment) (Dl.mcs assignment) (Dl.repetitions assignment)
        (if Dl.newData assignment then 1 else 0)
        (Dl.harqProcess assignment) 0 None None.

(** What [TransmitDlPdus] writes into the HARQ process it addresses. *)
Definition store_block (assignment : NbIotDlAssignmentResult) (process : NbIotHarqEntity)
  : NbIotHarqEntity :=
  SetActive true (SetTbs (Dl.tbSize assignment)
                         (SetPacket (Some (build_pdu assignment)) process)).

(** One iteration of the loop of [TransmitDlPdus]. *)
Definition TransmitDlPdu (mac : NbIotEnbMac) (assignment : NbIotDlAssignmentResult)
  : NbIotEnbMac :=
  let macPdu := build_pdu assignment in
  let mac1 :=
    match Map16.find (Dl.rnti assignment) (m_dlHarqManagers mac) with
    | Some mgr =>
        match GetProcess mgr (Dl.harqProcess assignment) with
        | Some process =>
            set_dlHarqManagers
              (Map16.update (Dl.rnti assignment)
                 (set_process_at (Dl.harqProcess assignment)
                                 (store_block assignment process))
                 (m_dlHarqManagers mac)) mac
        | None => mac
        end
    | None => mac
    end in
  let mac2 := phy_call (TransmitNpdsch macPdu (Dl.rnti assignment) (Dl.mcs assignment)
                                       (Dl.repetitions assignment)) mac1 in
  phy_call (TransmitNpdcch (dl_dci assignment) 1 1) mac2.

(** The calls one assignment causes on the PHY. *)
Definition dl_phy_calls (assignment : NbIotDlAssignmentResult) : list PhyCall :=
  [TransmitNpdsch (build_pdu assignment) (Dl.rnti assignment) (Dl.mcs assignment)
                  (Dl.repetitions assignment);
   TransmitNpdcch (dl_dci assignment) 1 1].

Definition TransmitDlPdus (mac : NbIotEnbMac) (assignments : list NbIotDlAssignmentResult)
  : NbIotEnbMac :=
  fold_left TransmitDlPdu assignments mac.

Definition SendUlGrant (mac : NbIotEnbMac) (grant : NbIotUlGrantResult) : NbIotEnbMac :=
  let dci := mkDci DCI_N0 (Ul.rnti grant) (Ul.mcs grant) (Ul.repetitions grant)
                   (if Ul.newData grant then 1 else 0)
                   (Ul.harqProcess grant) 0 (Some 0) (Some 4) in
  phy_call (TransmitNpdcch dci 1 1) mac.

Definition SendUlGrants (mac : NbIotEnbMac) (grants : list NbIotUlGrantResult)
  : NbIotEnbMac :=
  fold_left SendUlGrant grants mac.

(** The MAC together with the scheduler it points to ([None]: null). *)
Record World := mkWorld {
  w_mac : NbIotEnbMac;
  m_scheduler : option NbIotScheduler
}.

(** The constructor [NbIotEnbMac::NbIotEnbMac]. *)
Definition NbIotEnbMac_new : World :=
  mkWorld (mkEnbMac None [] [] [] [] 1)
          (Some (mkScheduler true (RoundRobinScheduler RoundRobin.new))).

Definition SetScheduler (w : World) (scheduler : NbIotScheduler) : World :=
  mkWorld (w_mac w) (Some (SetMac scheduler)).

Section Schedule.
Variable std_sort : list (Z * Z) -> list (Z * Z).

(** The downlink half of [DoSchedule], with what the scheduler returned. *)
Definition DoSchedule_dl (sch : NbIotScheduler) (mac : NbIotEnbMac)
  : list NbIotDlAssignmentResult * NbIotScheduler * NbIotEnbMac :=
  let availableRbs := 1 in
  let '(dlAssignments, sch1, mac1) := ScheduleDl std_sort sch mac availableRbs in
  (dlAssignments, sch1,
   if negb (empty dlAssignments) then TransmitDlPdus mac1 dlAssignments else mac1).

Definition DoSchedule_ul (sch : NbIotScheduler) (mac : NbIotEnbMac) (now : Time)
  : list NbIotUlGrantResult * NbIotScheduler * NbIotEnbMac :=
  let availableRbs := 1 in
  let '(ulGrants, sch1, mac1) := ScheduleUl std_sort sch mac now availableRbs in
  (ulGrants, sch1,
   if negb (empty ulGrants) then SendUlGrants mac1 ulGrants else mac1).

Definition DoSchedule (w : World) (now : Time) : World :=
  match m_scheduler w with
  | None => w
  | Some sch =>
      let '(_, sch1, mac1) := DoSchedule_dl sch (w_mac w) in
      let '(_, sch2, mac2) := DoSchedule_ul sch1 mac1 now in
      mkWorld mac2 (Some sch2)
  end.

Definition SubframeIndication (w : World) (now : Time) : World := DoSchedule w now.
End Schedule.

(** ** Reception of an uplink MAC PDU (nbiot-mac.cc, nbiot-enb-mac.cc) *)

(** [buffer[i]]; a read past the end of the buffer is undefined in C++ and
    reads as 0 here. *)
Definition byte_at (buffer : list Z) (i : Z) : Z := default 0 (buffer !! Z.to_nat i).

(** [NbIotMacSubheader::Deserialize(&buffer[offset])] on a
    default-constructed subheader: the subheader and the bytes consumed. *)
Definition Subheader_Deserialize (buffer : list Z) (offset : Z) : NbIotMacSubheader * Z :=
  let b0 := byte_at buffer offset in
  let extension := negb (Z.land (Z.shiftr b0 5) 1 =? 0) in
  let lcid := Z.land b0 31 in
  if IsFixedSize (mkSubheader lcid 0 extension false)
  then (mkSubheader lcid 0 extension false, 1)
  else
    let b1 := byte_at buffer (offset + 1) in
    let format := negb (Z.land (Z.shiftr b1 7) 1 =? 0) in
    if format
    then (mkSubheader lcid (Z.lor (Z.shiftl (Z.land b1 127) 8)
                                  (byte_at buffer (offset + 2))) extension true, 3)
    else (mkSubheader lcid (Z.land b1 127) extension false, 2).

(** The [while (offset < pduSize)] loop of [NbIotMacPdu::Deserialize]; every
    iteration advances [offset], so [S (length buffer)] iterations are enough
    and that is the [fuel] [MacPdu_Deserialize] gives it. *)
Fixpoint parse_subheaders (fuel : nat) (buffer : list Z) (pduSize offset : Z)
  : list NbIotMacSubheader * Z :=
  match fuel with
  | O => ([], offset)
  | S fuel' =>
      if offset <? pduSize then
        let '(subheader, n) := Subheader_Deserialize buffer offset in
        if negb (m_extension subheader) then ([subheader], offset + n)
        else
          let '(subheaders, offset') :=
            parse_subheaders fuel' buffer pduSize (offset + n) in
          (subheader :: subheaders, offset')
      else ([], offset)
  end.

(** [result[lcid].push_back(sdu)] on a [std::map<uint8_t, std::vector<...>>]. *)
Definition push_back_at (lcid : Z) (sdu : Packet) (result : list (Z * list Packet))
  : list (Z * list Packet) :=
  Map16.set lcid (default [] (Map16.find lcid result) ++ [sdu]) result.

Fixpoint parse_payloads (subheaders : list NbIotMacSubheader) (buffer : list Z)
    (pduSize offset : Z) (result : list (Z * list Packet)) : list (Z * list Packet) :=
  match subheaders with
  | [] => result
  | subheader :: rest =>
      if m_lcid subheader =? PADDING then result
      else
        let length :=
          if IsFixedSize subheader then
            if m_lcid subheader =? SHORT_BSR then 1
            else if m_lcid subheader =? LONG_BSR then 3
            else 0
          else m_length subheader in
        if offset + length <=? pduSize then
          let sdu := take (Z.to_nat length) (drop (Z.to_nat offset) buffer) in
          parse_payloads rest buffer pduSize (offset + length)
                         (push_back_at (m_lcid subheader) sdu result)
        else parse_payloads rest buffer pduSize offset result
  end.

Definition MacPdu_Deserialize (pdu : Packet) : list (Z * list Packet) :=
  let pduSize := GetSize pdu in
  let '(subheaders, offset) := parse_subheaders (S (length pdu)) pdu pduSize 0 in
  parse_payloads subheaders pdu pduSize offset [].

(** [NbIotEnbMac::ReceivePdu(rnti, packet)]. *)
Definition ReceivePdu (mac : NbIotEnbMac) (now : Time) (rnti : Z) (packet : Packet)
  : NbIotEnbMac :=
  let mac1 :=
    set_ueContexts
      (Map16.update rnti (Ue.set_lastActivity now) (m_ueContexts mac)) mac in
  fold_left
    (fun mac (entry : Z * list Packet) =>
       let '(lcid, packets) := entry in
       if (lcid =? SHORT_BSR) || (lcid =? LONG_BSR)
       then if negb (empty packets) then ProcessBsr mac rnti else mac
       else mac)
    (MacPdu_Deserialize packet) mac1.

(** ** The entry points of the MAC as one transition function *)

Inductive MacOp :=
| OpTransmitSdu (rnti lcid : Z) (packet : Packet)
| OpReceivePdu (rnti : Z) (packet : Packet)
| OpProcessBsr (rnti : Z)
| OpProcessSchedulingRequest (rnti : Z)
| OpProcessHarqFeedback (rnti harqId : Z) (ack : bool)
| OpAddUe (rnti : Z) (coverageClass : NbIotCoverageClass)
| OpRemoveUe (rnti : Z)
| OpGenerateRar (preambleId timingAdvance : Z) (coverageClass : NbIotCoverageClass)
| OpSetScheduler (scheduler : NbIotScheduler)
| OpSubframeIndication.

Definition step (std_sort : list (Z * Z) -> list (Z * Z)) (now : Time) (op : MacOp)
    (w : World) : World :=
  let on_mac (f : NbIotEnbMac -> NbIotEnbMac) := mkWorld (f (w_mac w)) (m_scheduler w) in
  match op with
  | OpTransmitSdu rnti lcid packet => on_mac (fun mac => TransmitSdu mac rnti lcid packet)
  | OpReceivePdu rnti packet => on_mac (fun mac => ReceivePdu mac now rnti packet)
  | OpProcessBsr rnti => on_mac (fun mac => ProcessBsr mac rnti)
  | OpProcessSchedulingRequest rnti => on_mac (fun mac => ProcessSchedulingRequest mac rnti)
  | OpProcessHarqFeedback rnti harqId ack =>
      on_mac (fun mac => ProcessHarqFeedback mac rnti harqId ack)
  | OpAddUe rnti coverageClass => on_mac (fun mac => AddUe mac rnti coverageClass)
  | OpRemoveUe rnti => on_mac (fun mac => RemoveUe mac rnti)
  | OpGenerateRar preambleId timingAdvance coverageClass =>
      on_mac (fun mac => GenerateRar mac preambleId timingAdvance coverageClass)
  | OpSetScheduler scheduler => SetScheduler w scheduler
  | OpSubframeIndication => SubframeIndication std_sort w now
  end.

(** The backlog of every context, in map order. *)
Definition backlogs (mac : NbIotEnbMac) : list (Z * Z) :=
  map (fun kc => (fst kc, Ue.totalBufferSize (snd kc))) (m_ueContexts mac).

(** The request-pending flag of endpoint [rnti] is clear. *)
Definition sr_cleared (mac : NbIotEnbMac) (rnti : Z) : Prop :=
  exists context, GetUeContext mac rnti = Some context /\ Ue.srReceived context = false.

(** The operations that write [totalBufferSize] or create or destroy a
    context. *)
Definition writes_backlog (op : MacOp) : bool :=
  match op with
  | OpTransmitSdu _ _ _ | OpReceivePdu _ _ | OpProcessBsr _
  | OpAddUe _ _ | OpRemoveUe _ | OpGenerateRar _ _ _ => true
  | _ => false
  end.

(** [n] consecutive uplink scheduling calls with the same budget: the ids
    granted by each call. *)
Fixpoint schedule_ul_n (std_sort : list (Z * Z) -> list (Z * Z)) (n : nat)
    (sch : NbIotScheduler) (mac : NbIotEnbMac) (now : Time) (availableRbs : Z)
  : list (list Z) :=
  match n with
  | O => []
  | S n' =>
      let '(grants, sch', mac') := ScheduleUl std_sort sch mac now availableRbs in
      map Ul.rnti grants :: schedule_ul_n std_sort n' sch' mac' now availableRbs
  end.

(** [n] consecutive downlink scheduling calls with the same budget: the ids
    assigned by each call. *)
Fixpoint schedule_dl_n (std_sort : list (Z * Z) -> list (Z * Z)) (n : nat)
    (sch : NbIotScheduler) (mac : NbIotEnbMac) (availableRbs : Z)
  : list (list Z) :=
  match n with
  | O => []
  | S n' =>
      let '(assignments, sch', mac') := ScheduleDl std_sort sch mac availableRbs in
      map Dl.rnti assignments :: schedule_dl_n std_sort n' sch' mac' availableRbs
  end.

(** ** Two sorting procedures that meet the contract of [std::sort]

    Both are insertion sorts on the comparator [comp] that insert the
    elements from the last to the first: [insert_before] puts an element in
    front of its equivalents, which keeps the input order among them;
    [insert_after] puts it behind them, which reverses it. *)

Fixpoint insert_after (x : Z * Z) (l : list (Z * Z)) : list (Z * Z) :=
  match l with
  | [] => [x]
  | y :: l' => if CoverageClass.comp x y then x :: l else y :: insert_after x l'
  end.


Fixpoint insert_before (x : Z * Z) (l : list (Z * Z)) : list (Z * Z) :=
  match l with
  | [] => [x]
  | y :: l' => if CoverageClass.comp y x then y :: insert_before x l' else x :: l
  end.

Definition stable_sort (l : list (Z * Z)) : list (Z * Z) :=
  foldr insert_before [] l.

Definition reversing_sort (l : list (Z * Z)) : list (Z * Z) :=
  foldr insert_after [] l.

(** ** Further definitions: the rest of nbiot-common.h and nbiot-mac.cc, and
    the vocabulary of the further properties *)

Definition GetTbsIndexFromMcs (mcs : Z) : Z :=
  if mcs <? size NPDSCH_TBS_TABLE then mcs else wrap8 (size NPDSCH_TBS_TABLE - 1).

(** [NPDSCH_TBS_TABLE.back()] is the last entry. *)
Definition GetTbsFromIndex (tbsIndex : Z) : Z :=
  if tbsIndex <? size NPDSCH_TBS_TABLE then at_index NPDSCH_TBS_TABLE tbsIndex
  else at_index NPDSCH_TBS_TABLE (size NPDSCH_TBS_TABLE - 1).

(** [NbIotMacPdu::AddControlElement]; [data.size()] is converted to the
    [uint16_t] length of the subheader. *)
Definition AddControlElement (lcid : Z) (data : list Z) (pdu : NbIotMacPdu) : NbIotMacPdu :=
  let subheader := NbIotMacSubheader_new lcid (wrap16 (Z.of_nat (length data))) false in
  mkMacPdu (extend_last (m_subheaders pdu) ++ [subheader])
           (m_payloads pdu ++ [data])
           (wrap16 (m_size pdu + GetSerializedSize subheader + Z.of_nat (length data))).

Definition MacPdu_GetSize (pdu : NbIotMacPdu) : Z := m_size pdu.

(** The vector of a manager holds one entity per process, as the
    constructor and [SetNumProcesses] leave it. *)
Definition HarqWf (m : NbIotHarqManager) : Prop :=
  length (m_processes m) = Z.to_nat (m_numProcesses m).


(** The size of a packet in bytes, and the bytes one SDU takes in a MAC PDU
    with its subheader: 2 bytes of subheader up to 127 bytes of payload and
    3 beyond ([NbIotMacSubheader::GetSerializedSize]). *)
Definition packet_bytes (p : Packet) : Z := Z.of_nat (length p).

Definition sdu_bytes_in_pdu (sdu : Packet) : Z :=
  packet_bytes sdu + (if packet_bytes sdu >? 127 then 3 else 2).

Definition pdu_bytes_needed (sdus : list Packet) : Z :=
  foldr (fun sdu acc => sdu_bytes_in_pdu sdu + acc) 0 sdus.

(** What the scheduler charges for the same SDUs: 2 bytes of subheader
    each ([collect_sdus]). *)
Definition scheduler_bytes (sdus : list Packet) : Z :=
  foldr (fun sdu acc => packet_bytes sdu + 2 + acc) 0 sdus.

(** Decidable checks on the bit fields of a subheader, run over their whole
    range in the proofs: the first byte gives back the LCID and the
    extension flag, and the length bytes give back the length. *)
Definition header_byte_ok (lcid : Z) : bool :=
  forallb (fun ext : bool =>
             let b0 := Z.lor (if ext then 32 else 0) (Z.land lcid 31) in
             eqb (negb (Z.land (Z.shiftr b0 5) 1 =? 0)) ext && (Z.land b0 31 =? lcid))
          [true; false].

Definition short_length_ok (len : Z) : bool :=
  let b1 := Z.land len 127 in
  (Z.land (Z.shiftr b1 7) 1 =? 0) && (Z.land b1 127 =? len).

(** The first length byte of the long format, for the 7 high bits [h] of a
    length. *)
Definition high_bits_ok (h : Z) : bool :=
  let b1 := Z.lor 128 h in
  negb (Z.land (Z.shiftr b1 7) 1 =? 0) && (Z.land b1 127 =? h).

(** The subheaders [AddSdu] leaves for a sequence of SDUs on one LCID: all
    with the extension flag but the last one. *)
Definition all_ext (lcid : Z) (sdus : list Packet) : list NbIotMacSubheader :=
  map (fun sdu => NbIotMacSubheader_new lcid (packet_bytes sdu) true) sdus.

Definition seal (hs : list NbIotMacSubheader) : list NbIotMacSubheader :=
  match reverse hs with
  | [] => []
  | h :: rest => reverse (SetExtension false h :: rest)
  end.

(** [pdu->AddSdu(lcid, sdu)] for each SDU in turn, on a new PDU. *)
Definition add_sdus (lcid : Z) (sdus : list Packet) : NbIotMacPdu :=
  fold_left (fun pdu sdu => AddSdu lcid sdu pdu) sdus NbIotMacPdu_new.

(** The SDUs longer than 127 bytes. *)
Definition long_sdus (sdus : list Packet) : list Packet :=
  List.filter (fun sdu => packet_bytes sdu >? 127) sdus.

(** A subheader whose fields fit the bits [Serialize] writes for them. *)
Definition readable (h : NbIotMacSubheader) : Prop :=
  exists lcid len ext,
    h = NbIotMacSubheader_new lcid len ext
    /\ 0 <= lcid < 32 /\ 0 <= len < 32768 /\ (29 <= lcid -> len = 0).

(** What the scheduler loop charges for SDUs: their size as it reads it
    (16 bits) and 2 bytes each. *)
Definition charged (sdus : list Packet) : Z :=
  foldr (fun sdu acc => wrap16 (GetSize sdu) + 2 + acc) 0 sdus.

(** The SDUs the assignments of one call hand to [rnti], in order. *)
Definition sdus_for (rnti : Z) (assignments : list NbIotDlAssignmentResult)
  : list Packet :=
  concat (map Dl.sdus (List.filter (fun a => Dl.rnti a =? rnti) assignments)).

(** The packets queued for [rnti], oldest first. *)
Definition queued (mac : NbIotEnbMac) (rnti : Z) : list Packet :=
  map snd (fst (GetDlTxQueue mac rnti)).

(** Every queued downlink packet is shorter than [bound] bytes. *)
Definition packets_below (bound : Z) (mac : NbIotEnbMac) : Prop :=
  Forall (fun kq : Z * list (Z * Packet) =>
            Forall (fun lp => packet_bytes (snd lp) < bound) (snd kq))
         (m_dlTxQueues mac).

(** The test of [GetNextRnti] on one entry of the context map. *)
Definition eligible (dl : bool) (mac : NbIotEnbMac) (rnti : Z)
    (context : NbIotUeContext) : bool :=
  Ue.connected context
  && (if dl then negb (empty (fst (GetDlTxQueue mac rnti))) else ul_pending context).


(** How many ids lie between [lastRnti] and [rnti] going upwards from
    [lastRnti + 1] and around the 16-bit range. *)
Definition turn (lastRnti rnti : Z) : Z := wrap16 (rnti - lastRnti - 1).

(** The ids of a context map are those [AllocateRnti] gives out. *)
Definition rntis_valid (ueContexts : list (Z * NbIotUeContext)) : Prop :=
  Forall (fun rnti => 0 < rnti < 65536) (Map16.keys ueContexts).

(** The test of [ScheduleSpsGrants] on the configuration of [rnti]: active,
    and its allocation time reached. *)
Definition due (s : NbIotSpsScheduler) (currentTime : Time) (rnti : Z) : bool :=
  match Sps.GetSpsConfig s rnti with
  | Some config =>
      SpsConfig.active config && (currentTime >=? SpsConfig.nextAllocation config)
  | None => false
  end.

Definition due_rntis (s : NbIotSpsScheduler) (currentTime : Time) : list Z :=
  List.filter (due s currentTime) (Map16.keys (Sps.m_spsConfigs s)).

(** The SPS scheduler after a run of [ScheduleUl] calls, each with the MAC
    state, the time and the budget of the call. *)
Fixpoint sps_ul_run (calls : list (NbIotEnbMac * Time * Z)) (s : NbIotSpsScheduler)
    (m_mac : bool) : NbIotSpsScheduler :=
  match calls with
  | [] => s
  | (mac, now, availableRbs) :: rest =>
      sps_ul_run rest (snd (fst (Sps.ScheduleUl s m_mac mac now availableRbs))) m_mac
  end.

(** The number of active entries of a configuration table, before its
    conversion to [uint32_t]. *)
Definition active_entries (spsConfigs : list (Z * NbIotSpsConfig)) : Z :=
  Z.of_nat (length (List.filter (fun kc => SpsConfig.active (snd kc)) spsConfigs)).

(** The configuration [ActivateSps] creates for an endpoint that has none. *)
Definition default_config (s : NbIotSpsScheduler) (now : Time) (rnti : Z)
  : NbIotSpsConfig :=
  SpsConfig.mk rnti (Sps.m_defaultSpsInterval s) 12 4 88 1 now false 0.

(** The context [AddUe] creates. *)
Definition fresh_context (rnti : Z) (coverageClass : NbIotCoverageClass)
  : NbIotUeContext :=
  Ue.mk rnti coverageClass 7 [0; 0; 0; 0] 0 0 false true.

(** The MAC holds nothing under [rnti]. *)
Definition unknown (mac : NbIotEnbMac) (rnti : Z) : Prop :=
  Map16.find rnti (m_ueContexts mac) = None
  /\ Map16.find rnti (m_dlTxQueues mac) = None
  /\ Map16.find rnti (m_dlHarqManagers mac) = None
  /\ Map16.find rnti (m_ulHarqManagers mac) = None.

(** The four maps of the MAC keep the order of [std::map]. *)
Definition maps_ordered (mac : NbIotEnbMac) : Prop :=
  Map16.ordered (m_ueContexts mac) /\ Map16.ordered (m_dlTxQueues mac)
  /\ Map16.ordered (m_dlHarqManagers mac) /\ Map16.ordered (m_ulHarqManagers mac).

(** The deserialized PDU has a buffer status report with a payload. *)
Definition has_bsr (sdus : list (Z * list Packet)) : bool :=
  existsb (fun entry : Z * list Packet =>
             ((fst entry =? SHORT_BSR) || (fst entry =? LONG_BSR))
             && negb (empty (snd entry))) sdus.

(** What [ReceivePdu] does to the context of the sender. *)
Definition received (now : Time) (bsr : bool) (context : NbIotUeContext)
  : NbIotUeContext :=
  if bsr
  then Ue.set_srReceived true
         (Ue.set_totalBufferSize 100 (Ue.set_lastActivity now context))
  else Ue.set_lastActivity now context.

(** A PDU that carries one control element. *)
Definition control_pdu (lcid : Z) (data : list Z) : Packet :=
  MacPdu_Serialize (AddControlElement lcid data NbIotMacPdu_new).

(** The test [ueContext && ueContext->totalBufferSize > 0] of
    [ScheduleSpsGrants]. *)
Definition has_backlog (m_mac : bool) (mac : NbIotEnbMac) (rnti : Z) : bool :=
  match Sps.Scheduler_GetUeContext m_mac mac rnti with
  | Some ueContext => Ue.totalBufferSize ueContext >? 0
  | None => false
  end.

(** How many of the ids pass a test. *)
Definition count (f : Z -> bool) (rntis : list Z) : Z :=
  Z.of_nat (length (List.filter f rntis)).

(** The DCI [SendUlGrants] sends for a grant, as the call on the PHY. *)
Definition ul_phy_call (grant : NbIotUlGrantResult) : PhyCall :=
  TransmitNpdcch
    (mkDci DCI_N0 (Ul.rnti grant) (Ul.mcs grant) (Ul.repetitions grant)
           (if Ul.newData grant then 1 else 0) (Ul.harqProcess grant) 0 (Some 0) (Some 4))
    1 1.

(** The priority [SortByPriority] computes for an id, and whether the id has
    a context at all. *)
Definition priority_of (mac : NbIotEnbMac) (rnti : Z) : Z :=
  match GetUeContext mac rnti with
  | Some context => CoverageClass.GetPriority (Ue.coverageClass context)
  | None => 0
  end.

Definition known (mac : NbIotEnbMac) (rnti : Z) : bool :=
  match GetUeContext mac rnti with Some _ => true | None => false end.

(** [enum class NbIotPhysicalChannel] and [GetMaxRepetitions]
    (nbiot-common.h). *)
Inductive NbIotPhysicalChannel := NPBCH | NPDCCH | NPDSCH | NPUSCH | NPRACH.

Definition GetMaxRepetitions (ceLevel : NbIotCoverageClass)
    (channel : NbIotPhysicalChannel) : Z :=
  let npdcch := match channel with NPDCCH => true | _ => false end in
  if ceLevel =? CE_LEVEL_0 then (if npdcch then 64 else 8)
  else if ceLevel =? CE_LEVEL_1 then (if npdcch then 256 else 32)
  else if ceLevel =? CE_LEVEL_2 then (if npdcch then 2048 else 128)
  else 1.

(** Every context has one of the three coverage classes and a CQI in the
    range of its type. *)
Definition contexts_valid (mac : NbIotEnbMac) : Prop :=
  Forall (fun kc : Z * NbIotUeContext =>
            0 <= Ue.coverageClass (snd kc) <= 2 /\ 0 <= Ue.cqi (snd kc) < 256)
         (m_ueContexts mac).

(** ** Concrete scenarios *)

(** A fresh manager limited to a single transmission. *)
Definition harq_single_tx : NbIotHarqManager :=
  SetMaxTransmissions 1 NbIotHarqManager_new.

(** A manager whose process 0 carries a block, not yet NACKed. *)
Definition harq_busy (K : Z) : NbIotHarqManager :=
  mkHarqManager 2 K
    [mkHarqEntity true 0 true 88 1 (Some [1; 2; 3]); NbIotHarqEntity_new].

(** A connected or disconnected endpoint with the default channel quality. *)
Definition ue (rnti : Z) (coverageClass : NbIotCoverageClass) (backlog : Z)
    (sr connected : bool) : NbIotUeContext :=
  Ue.mk rnti coverageClass 7 [0; 0; 0; 0] backlog 0 sr connected.

(** A MAC with a PHY attached, the given contexts and downlink queues, and a
    fresh pair of HARQ managers per context, as [AddUe] leaves them. *)
Definition mac_with (ueContexts : list (Z * NbIotUeContext))
    (dlTxQueues : list (Z * list (Z * Packet))) : NbIotEnbMac :=
  mkEnbMac (Some []) ueContexts dlTxQueues
           (map (fun kc => (fst kc, NbIotHarqManager_new)) ueContexts)
           (map (fun kc => (fst kc, NbIotHarqManager_new)) ueContexts)
           (1 + Z.of_nat (length ueContexts)).

(** Endpoints A = 1, B = 2, C = 3, connected, each with 100 bytes pending. *)
Definition three_ues : NbIotEnbMac :=
  mac_with [(1, ue 1 CE_LEVEL_0 100 true true);
            (2, ue 2 CE_LEVEL_0 100 true true);
            (3, ue 3 CE_LEVEL_0 100 true true)] [].

Definition rr_scheduler : NbIotScheduler :=
  mkScheduler true (RoundRobinScheduler RoundRobin.new).

(** One endpoint that is not connected, with a pending request and one
    queued downlink packet. *)
Definition disconnected_ue : NbIotEnbMac :=
  mac_with [(1, ue 1 CE_LEVEL_0 0 true false)] [(1, [(1, [7; 7; 7; 7])])].

Definition sps_scheduler (s : NbIotSpsScheduler) : NbIotScheduler :=
  mkScheduler true (SpsScheduler s).

(** The same endpoint, configured and activated for SPS at time 0. *)
Definition sps_one_active : NbIotSpsScheduler :=
  Sps.ActivateSps (Sps.ConfigureSps Sps.new 0 1 (MilliSeconds 20) 12) 0 1.

(** Two connected endpoints of the same coverage class, both with pending
    uplink data. *)
Definition two_equal_ues : NbIotEnbMac :=
  mac_with [(1, ue 1 CE_LEVEL_0 100 true true);
            (2, ue 2 CE_LEVEL_0 100 true true)] [].

(** Seventeen connected endpoints, ids 1 to 17, of the same coverage class,
    all with pending uplink data: a range long enough for the partitioning
    phase of an introsort such as the [std::sort] of GNU libstdc++, which
    sorts ranges of up to 16 elements by insertion alone. *)
Definition seventeen_equal_ues : NbIotEnbMac :=
  mac_with (map (fun rnti => (rnti, ue rnti CE_LEVEL_0 100 true true)) (seqZ 1 17)) [].

(** Endpoints of mixed coverage classes, all with pending uplink data. *)
Definition mixed_ues : NbIotEnbMac :=
  mac_with [(1, ue 1 CE_LEVEL_0 100 true true);
            (2, ue 2 CE_LEVEL_2 100 false true);
            (3, ue 3 CE_LEVEL_1 0 true true);
            (4, ue 4 CE_LEVEL_2 100 true true)] [].

(** Endpoints 1 and 2 configured with a 20 ms interval and activated at
    t = 100 ms. *)
Definition sps_two_active : NbIotSpsScheduler :=
  let t0 := MilliSeconds 100 in
  let s1 := Sps.ConfigureSps Sps.new t0 1 (MilliSeconds 20) 12 in
  let s2 := Sps.ConfigureSps s1 t0 2 (MilliSeconds 20) 12 in
  Sps.ActivateSps (Sps.ActivateSps s2 t0 1) t0 2.

(** The subframe at t = 100 ms and then the subframe at t = 101 ms, one
    resource unit each. *)
Definition sps_run_100 : list NbIotUlGrantResult * NbIotSpsScheduler * NbIotEnbMac :=
  Sps.ScheduleUl sps_two_active true two_equal_ues (MilliSeconds 100) 1.

Definition sps_run_101 : list NbIotUlGrantResult * NbIotSpsScheduler * NbIotEnbMac :=
  let '(_, s1, mac1) := sps_run_100 in
  Sps.ScheduleUl s1 true mac1 (MilliSeconds 101) 1.

(** A connected endpoint with two queued downlink packets of 200 bytes (one
    transport block of 208 bytes takes one packet), no uplink request, and a
    downlink HARQ pool of a single process; round-robin scheduler. *)
Definition packet_a : Packet := replicate 200 1.
Definition packet_b : Packet := replicate 200 2.

Definition harq_one_process : NbIotHarqManager :=
  SetNumProcesses 1 NbIotHarqManager_new.

Definition world_one_process : World :=
  mkWorld (mkEnbMac (Some []) [(1, ue 1 CE_LEVEL_0 0 false true)]
                    [(1, [(1, packet_a); (1, packet_b)])]
                    [(1, harq_one_process)] [(1, NbIotHarqManager_new)] 2)
          (Some rr_scheduler).

(** The assignments the scheduler returns in the first and in the second
    subframe. *)
Definition assignment_a : NbIotDlAssignmentResult :=
  Dl.mk 1 7 208 1 1 0 true 0 [packet_a].



(** Endpoints 1, 2, 3, connected, each with four queued downlink packets of
    200 bytes, so that one transport block (208 bytes at CQI 7) takes one
    packet. *)
Definition three_ues_dl : NbIotEnbMac :=
  let queue := replicate 4 (1, replicate 200 0) in
  mac_with [(1, ue 1 CE_LEVEL_0 0 false true);
            (2, ue 2 CE_LEVEL_0 0 false true);
            (3, ue 3 CE_LEVEL_0 0 false true)]
           [(1, queue); (2, queue); (3, queue)].

(** Endpoints 1, 2, 3, connected, with the default channel quality (a
    transport block of 208 bytes).  Endpoint 1 has a packet of 300 bytes at
    the front of its queue; endpoints 2 and 3 have packets of 20 bytes. *)
Definition blocked_ues : NbIotEnbMac :=
  mac_with [(1, ue 1 CE_LEVEL_0 0 false true);
            (2, ue 2 CE_LEVEL_0 0 false true);
            (3, ue 3 CE_LEVEL_0 0 false true)]
           [(1, [(1, replicate 300 0); (1, replicate 20 0)]);
            (2, [(1, replicate 20 0)]);
            (3, [(1, replicate 20 0)])].

(** * Properties *)

(** Closes a goal [x ∈ [] -> _]: the call returned nothing. *)
Ltac nothing_returned := by intros ?%elem_of_nil.

(** ** HARQ manager *)

Lemma SetTxCount_same (e : NbIotHarqEntity) : SetTxCount (m_txCount e) e = e.
Proof. by destruct e. Qed.

Lemma SetTxCount_twice (a b : Z) (e : NbIotHarqEntity) :
  SetTxCount a (SetTxCount b e) = SetTxCount a e.
Proof. reflexivity. Qed.

Lemma process_at_lookup (m : NbIotHarqManager) (i : Z) (e : NbIotHarqEntity) :
  m_processes m !! Z.to_nat i = Some e -> process_at m i = e.
Proof. unfold process_at. by intros ->. Qed.

Lemma set_process_at_lookup (m : NbIotHarqManager) (i : Z) (e e' : NbIotHarqEntity) :
  m_processes m !! Z.to_nat i = Some e ->
  m_processes (set_process_at i e' m) !! Z.to_nat i = Some e'.
Proof.
  intros H. simpl. apply list_lookup_insert_eq. by eapply lookup_lt_Some.
Qed.

Lemma set_process_at_twice (m : NbIotHarqManager) (i : Z) (e1 e2 : NbIotHarqEntity) :
  set_process_at i e2 (set_process_at i e1 m) = set_process_at i e2 m.
Proof. unfold set_process_at. simpl. by rewrite list_insert_insert_eq. Qed.

Lemma set_process_at_same (m : NbIotHarqManager) (i : Z) (e : NbIotHarqEntity) :
  m_processes m !! Z.to_nat i = Some e -> set_process_at i e m = m.
Proof.
  intros H. destruct m as [n k ps]. unfold set_process_at. simpl in *.
  by rewrite list_insert_id.
Qed.

(** A NACK below the limit: the counter moves up by one, nothing else
    changes, and the caller is told to retry. *)
Lemma ProcessNack_retry (m : NbIotHarqManager) (i : Z) (e : NbIotHarqEntity) :
  0 <= i < m_numProcesses m ->
  m_processes m !! Z.to_nat i = Some e ->
  0 <= m_txCount e -> m_txCount e + 1 < m_maxTransmissions m ->
  m_maxTransmissions m <= 255 ->
  ProcessNack m i = (set_process_at i (SetTxCount (m_txCount e + 1) e) m, true).
Proof.
  intros Hi He H0 Hlt Hmax. unfold ProcessNack.
  destruct (Z.geb_spec i (m_numProcesses m)); [lia|].
  rewrite (process_at_lookup _ _ _ He).
  unfold IncrementTxCount, GetTxCount, wrap8. simpl.
  rewrite Z.mod_small by lia.
  destruct (Z.geb_spec (m_txCount e + 1) (m_maxTransmissions m)); [lia|done].
Qed.

(** A NACK that reaches the limit: the entity is reset and the caller is
    told to give up. *)
Lemma ProcessNack_give_up (m : NbIotHarqManager) (i : Z) (e : NbIotHarqEntity) :
  0 <= i < m_numProcesses m ->
  m_processes m !! Z.to_nat i = Some e ->
  0 <= m_txCount e < 255 -> m_maxTransmissions m <= m_txCount e + 1 ->
  ProcessNack m i = (set_process_at i NbIotHarqEntity_new m, false).
Proof.
  intros Hi He H0 Hge. unfold ProcessNack.
  destruct (Z.geb_spec i (m_numProcesses m)); [lia|].
  rewrite (process_at_lookup _ _ _ He).
  unfold IncrementTxCount, GetTxCount, wrap8. simpl.
  rewrite Z.mod_small by lia.
  destruct (Z.geb_spec (m_txCount e + 1) (m_maxTransmissions m)); [done|lia].
Qed.

Lemma nack_n_retry (n : nat) :
  forall (m : NbIotHarqManager) (i : Z) (e : NbIotHarqEntity),
    0 <= i < m_numProcesses m ->
    m_processes m !! Z.to_nat i = Some e ->
    0 <= m_txCount e -> m_txCount e + Z.of_nat n < m_maxTransmissions m ->
    m_maxTransmissions m <= 255 ->
    nack_n n m i =
      (set_process_at i (SetTxCount (m_txCount e + Z.of_nat n) e) m, replicate n true).
Proof.
  induction n as [|n IH]; intros m i e Hi He H0 Hlt Hmax.
  - simpl. rewrite Z.add_0_r, SetTxCount_same. by rewrite set_process_at_same.
  - cbn [nack_n]. rewrite (ProcessNack_retry m i e) by (try done; lia).
    set (e1 := SetTxCount (m_txCount e + 1) e).
    rewrite (IH (set_process_at i e1 m) i e1); simpl; try lia.
    + rewrite set_process_at_twice. unfold e1. rewrite SetTxCount_twice.
      do 3 f_equal. lia.
    + apply list_lookup_insert_eq. by eapply lookup_lt_Some.
Qed.

(** C2. With [max_transmissions = K], a process that is active with attempt
    count 0 is, after any [j <= K-1] consecutive NACKs, the same entity with
    attempt count [j] (so still active, its block in place), every one of
    these calls having returned "retry"; the K-th NACK resets the entity and
    returns "give up"; and an ACK resets the entity of any manager. *)
Theorem harq_retry_bound (m : NbIotHarqManager) (processId K : Z) (e : NbIotHarqEntity) :
  1 <= K <= 255 -> m_maxTransmissions m = K ->
  0 <= processId < m_numProcesses m ->
  m_processes m !! Z.to_nat processId = Some e ->
  m_active e = true -> m_txCount e = 0 ->
  (forall j, 0 <= j <= K - 1 ->
     nack_n (Z.to_nat j) m processId =
       (set_process_at processId (SetTxCount j e) m, replicate (Z.to_nat j) true)
     /\ m_active (SetTxCount j e) = true
     /\ m_packet (SetTxCount j e) = m_packet e)
  /\ (let m1 := fst (nack_n (Z.to_nat (K - 1)) m processId) in
      ProcessNack m1 processId = (set_process_at processId NbIotHarqEntity_new m, false)
      /\ m_txCount NbIotHarqEntity_new = 0
      /\ m_active NbIotHarqEntity_new = false
      /\ m_packet NbIotHarqEntity_new = None)
  /\ (forall (m' : NbIotHarqManager) (i : Z) (e' : NbIotHarqEntity),
        0 <= i < m_numProcesses m' ->
        m_processes m' !! Z.to_nat i = Some e' ->
        ProcessAck m' i = set_process_at i NbIotHarqEntity_new m'
        /\ process_at (ProcessAck m' i) i = NbIotHarqEntity_new).
Proof.
  intros HK Hmax Hi He Hact Htx.
  assert (Hn : forall j, 0 <= j <= K - 1 ->
            nack_n (Z.to_nat j) m processId =
              (set_process_at processId (SetTxCount j e) m, replicate (Z.to_nat j) true)).
  { intros j Hj. rewrite (nack_n_retry (Z.to_nat j) m processId e); try done; try lia.
    rewrite Htx, Z2Nat.id by lia. done. }
  split; [|split].
  - intros j Hj. split; [by apply Hn|]. by split.
  - rewrite (Hn (K - 1)) by lia. cbn [fst].
    rewrite (ProcessNack_give_up _ processId (SetTxCount (K - 1) e)); simpl; try lia.
    + by rewrite set_process_at_twice.
    + apply list_lookup_insert_eq. by eapply lookup_lt_Some.
  - intros m' i e' Hi' He'. unfold ProcessAck.
    destruct (Z.ltb_spec i (m_numProcesses m')); [|lia]. split; [done|].
    apply process_at_lookup. by eapply set_process_at_lookup.
Qed.

Lemma harq_retry_bound_witness :
  nack_n 7 (harq_busy 8) 0 =
    (set_process_at 0 (SetTxCount 7 (mkHarqEntity true 0 true 88 1 (Some [1; 2; 3])))
                    (harq_busy 8), replicate 7 true)
  /\ ProcessNack (fst (nack_n 7 (harq_busy 8) 0)) 0 =
       (set_process_at 0 NbIotHarqEntity_new (harq_busy 8), false).
Proof.
  pose proof (harq_retry_bound (harq_busy 8) 0 8
                (mkHarqEntity true 0 true 88 1 (Some [1; 2; 3]))) as H.
  destruct H as (H1 & H2 & _); try reflexivity; try (simpl; lia).
  split.
  - exact (proj1 (H1 7 ltac:(lia))).
  - exact (proj1 H2).
Defined.

Lemma wrap8_succ_neq (t : Z) : 0 <= t < 256 -> wrap8 (t + 1) <> t.
Proof.
  intros Ht. unfold wrap8.
  destruct (Z.eq_dec t 255) as [->|Hne]; [done|].
  rewrite Z.mod_small by lia. lia.
Qed.

Lemma set_process_at_inj (m : NbIotHarqManager) (i : Z) (e e' : NbIotHarqEntity) :
  m_processes m !! Z.to_nat i = Some e ->
  set_process_at i e' m = m -> e' = e.
Proof.
  intros He Heq.
  pose proof (set_process_at_lookup m i e e' He) as H.
  rewrite Heq in H. congruence.
Qed.

(** C9, amended statement. A NACK on an in-range process whose entity is inactive
    runs the same steps as on an active one: the attempt counter is
    incremented (modulo 256), and the entity is reset with "give up" when the
    counter has reached the maximum, and kept with "retry" otherwise.  The
    manager comes out different whenever [max_transmissions >= 2]; it can come
    out the same only when the entity was already in its reset state and the
    call gave up.  An out-of-range id leaves the manager as it was and
    returns "give up". *)
Theorem nack_on_inactive_process (m : NbIotHarqManager) (processId : Z)
    (e : NbIotHarqEntity) :
  0 <= processId < m_numProcesses m ->
  m_processes m !! Z.to_nat processId = Some e ->
  m_active e = false -> 0 <= m_txCount e < 256 ->
  let t' := wrap8 (m_txCount e + 1) in
  ProcessNack m processId =
    (if t' >=? m_maxTransmissions m
     then (set_process_at processId NbIotHarqEntity_new m, false)
     else (set_process_at processId (SetTxCount t' e) m, true))
  /\ t' <> m_txCount e
  /\ (2 <= m_maxTransmissions m -> fst (ProcessNack m processId) <> m)
  /\ (fst (ProcessNack m processId) = m ->
      e = NbIotHarqEntity_new /\ snd (ProcessNack m processId) = false
      /\ m_maxTransmissions m <= 1)
  /\ (forall (m' : NbIotHarqManager) (i : Z),
        m_numProcesses m' <= i -> ProcessNack m' i = (m', false)).
Proof.
  intros Hi He Hact Ht t'.
  assert (Hneq : t' <> m_txCount e) by (by apply wrap8_succ_neq).
  assert (Hrun : ProcessNack m processId =
    (if t' >=? m_maxTransmissions m
     then (set_process_at processId NbIotHarqEntity_new m, false)
     else (set_process_at processId (SetTxCount t' e) m, true))).
  { unfold ProcessNack.
    destruct (Z.geb_spec processId (m_numProcesses m)); [lia|].
    rewrite (process_at_lookup _ _ _ He). reflexivity. }
  assert (Hsame : fst (ProcessNack m processId) = m ->
      e = NbIotHarqEntity_new /\ snd (ProcessNack m processId) = false
      /\ m_maxTransmissions m <= 1).
  { rewrite Hrun. destruct (Z.geb_spec t' (m_maxTransmissions m)) as [Hge|Hlt]; simpl.
    - intros Heq. apply (set_process_at_inj _ _ _ _ He) in Heq. subst e.
      split; [done|]. split; [done|].
      change t' with 1 in Hge. lia.
    - intros Heq. apply (set_process_at_inj _ _ _ _ He) in Heq.
      apply (f_equal m_txCount) in Heq. simpl in Heq. contradiction. }
  split; [exact Hrun|]. split; [exact Hneq|]. split; [|split; [exact Hsame|]].
  - intros H2 Heq. apply Hsame in Heq. lia.
  - intros m' i Hge. unfold ProcessNack.
    destruct (Z.geb_spec i (m_numProcesses m')); [done|lia].
Qed.

Lemma nack_on_inactive_process_witness :
  ProcessNack NbIotHarqManager_new 1 =
    (set_process_at 1 (SetTxCount 1 NbIotHarqEntity_new) NbIotHarqManager_new, true)
  /\ fst (ProcessNack NbIotHarqManager_new 1) <> NbIotHarqManager_new.
Proof.
  pose proof (nack_on_inactive_process NbIotHarqManager_new 1 NbIotHarqEntity_new) as H.
  destruct H as (H1 & _ & H3 & _); try reflexivity; try (simpl; lia).
  split; [exact H1|]. apply H3. simpl. lia.
Defined.

(** C9, counterexample to "only an out-of-range id leaves the state
    unchanged": with [max_transmissions = 1] a NACK on an
    in-range process whose entity is inactive (here: never used) leaves the
    whole manager as it was and returns "give up". *)
Lemma nack_on_inactive_process_counterexample :
  0 <= 0 < m_numProcesses harq_single_tx
  /\ IsActive (process_at harq_single_tx 0) = false
  /\ ProcessNack harq_single_tx 0 = (harq_single_tx, false).
Proof. split; [simpl; lia|]. split; reflexivity. Qed.

(** ** [Map16] *)

Lemma find_set_eq {V} (k : Z) (v : V) (m : list (Z * V)) :
  Map16.find k (Map16.set k v m) = Some v.
Proof.
  induction m as [|[k' v'] m IH]; simpl.
  - by rewrite Z.eqb_refl.
  - destruct (Z.ltb_spec k k'); simpl.
    + by rewrite Z.eqb_refl.
    + destruct (Z.eqb_spec k k'); simpl.
      * by rewrite Z.eqb_refl.
      * destruct (Z.eqb_spec k' k); [congruence|done].
Qed.

Lemma find_update_eq {V} (k : Z) (f : V -> V) (m : list (Z * V)) :
  Map16.find k (Map16.update k f m) = f <$> Map16.find k m.
Proof.
  induction m as [|[k' v'] m IH]; simpl; [done|].
  destruct (Z.eqb_spec k' k) as [->|Hne]; simpl.
  - by rewrite Z.eqb_refl.
  - destruct (Z.eqb_spec k' k); [congruence|done].
Qed.

Lemma find_update_ne {V} (k k0 : Z) (f : V -> V) (m : list (Z * V)) :
  k <> k0 -> Map16.find k (Map16.update k0 f m) = Map16.find k m.
Proof.
  intros Hne. induction m as [|[k' v'] m IH]; simpl; [done|].
  destruct (Z.eqb_spec k' k0) as [->|Hne']; simpl.
  - destruct (Z.eqb_spec k0 k); [congruence|done].
  - by rewrite IH.
Qed.

Lemma keys_update {V} (k : Z) (f : V -> V) (m : list (Z * V)) :
  Map16.keys (Map16.update k f m) = Map16.keys m.
Proof.
  unfold Map16.keys. induction m as [|[k' v'] m IH]; simpl; [done|].
  destruct (k' =? k); simpl; [done|]. by rewrite IH.
Qed.

Lemma find_is_Some {V} (k : Z) (m : list (Z * V)) :
  k ∈ Map16.keys m -> is_Some (Map16.find k m).
Proof.
  unfold Map16.keys. induction m as [|[k' v'] m IH]; simpl.
  - intros H. by apply elem_of_nil in H.
  - intros H. destruct (Z.eqb_spec k' k) as [->|Hne]; [by eexists|].
    apply elem_of_cons in H as [->|H]; [done|]. by apply IH.
Qed.

Lemma find_set_ne {V} (k k0 : Z) (v : V) (m : list (Z * V)) :
  k <> k0 -> Map16.find k (Map16.set k0 v m) = Map16.find k m.
Proof.
  intros Hne. induction m as [|[k' v'] m IH]; simpl.
  - destruct (Z.eqb_spec k0 k); [congruence|done].
  - destruct (Z.ltb_spec k0 k'); simpl.
    + destruct (Z.eqb_spec k0 k); [congruence|done].
    + destruct (Z.eqb_spec k0 k') as [->|Hne']; simpl.
      * destruct (Z.eqb_spec k' k); [congruence|done].
      * by rewrite IH.
Qed.

Lemma keys_set_Forall {V} (P : Z -> Prop) (k : Z) (v : V) (m : list (Z * V)) :
  P k -> Forall P (Map16.keys m) -> Forall P (Map16.keys (Map16.set k v m)).
Proof.
  intros Hk. unfold Map16.keys. induction m as [|[k' v'] m IH]; simpl; intros Hall.
  - by constructor.
  - apply Forall_cons in Hall as [Hk' Hall].
    destruct (k <? k'); simpl; [by repeat constructor|].
    destruct (k =? k'); simpl; constructor; auto.
Qed.

Lemma ordered_set {V} (k : Z) (v : V) (m : list (Z * V)) :
  Map16.ordered m -> Map16.ordered (Map16.set k v m).
Proof.
  unfold Map16.ordered. induction m as [|[k' v'] m IH]; simpl; intros Hs.
  - by repeat constructor.
  - apply StronglySorted_inv in Hs as [Hs Hall].
    destruct (Z.ltb_spec k k'); simpl.
    + constructor; [by constructor|]. constructor; [done|].
      eapply Forall_impl; [exact Hall|]. simpl. lia.
    + destruct (Z.eqb_spec k k') as [->|Hne]; simpl.
      * by constructor.
      * constructor; [by apply IH|]. apply (keys_set_Forall (Z.lt k')); [lia|done].
Qed.

Lemma ordered_update {V} (k : Z) (f : V -> V) (m : list (Z * V)) :
  Map16.ordered m -> Map16.ordered (Map16.update k f m).
Proof. unfold Map16.ordered. by rewrite keys_update. Qed.

(** ** Queue lookups *)

Lemma GetDlTxQueue_fst (mac : NbIotEnbMac) (rnti : Z) :
  fst (GetDlTxQueue mac rnti) = default [] (Map16.find rnti (m_dlTxQueues mac)).
Proof. unfold GetDlTxQueue. by destruct (Map16.find rnti (m_dlTxQueues mac)). Qed.

Lemma lookups_only_refl (mac : NbIotEnbMac) : lookups_only mac mac.
Proof. unfold lookups_only. repeat split. intros rnti. by left. Qed.

Lemma lookups_only_trans (mac1 mac2 mac3 : NbIotEnbMac) :
  lookups_only mac1 mac2 -> lookups_only mac2 mac3 -> lookups_only mac1 mac3.
Proof.
  intros (? & ? & ? & ? & ? & H12) (? & ? & ? & ? & ? & H23).
  unfold lookups_only. repeat split; try congruence.
  intros rnti. destruct (H12 rnti) as [E12|[N1 E2]], (H23 rnti) as [E23|[N2 E3]].
  - left. congruence.
  - right. split; congruence.
  - right. split; congruence.
  - congruence.
Qed.

Lemma GetDlTxQueue_lookups (mac : NbIotEnbMac) (rnti : Z) :
  lookups_only mac (snd (GetDlTxQueue mac rnti)).
Proof.
  unfold GetDlTxQueue.
  destruct (Map16.find rnti (m_dlTxQueues mac)) eqn:Hfind; simpl.
  - apply lookups_only_refl.
  - unfold lookups_only. simpl. repeat split. intros k.
    destruct (Z.eq_dec k rnti) as [->|Hne].
    + right. split; [done|]. apply find_set_eq.
    + left. by apply find_set_ne.
Qed.

Lemma lookups_only_read (mac mac' : NbIotEnbMac) (rnti : Z) :
  lookups_only mac mac' ->
  fst (GetDlTxQueue mac' rnti) = fst (GetDlTxQueue mac rnti).
Proof.
  intros (_ & _ & _ & _ & _ & H). rewrite !GetDlTxQueue_fst.
  destruct (H rnti) as [->|[-> ->]]; done.
Qed.

Lemma lookups_only_keeps (mac mac' : NbIotEnbMac) :
  lookups_only mac mac' -> dl_keeps mac mac'.
Proof. intros (? & ? & ? & ? & _). by repeat split. Qed.

(** ** Semi-persistent scheduler: configuration *)

(** C10. [ConfigureSps] stores the coding index and block size that
    [SelectMcsAndTbs] gives for the fixed channel quality 7, whatever the
    endpoint: [mcs = 4] always, [tbSize = 88] for 12 subcarriers, and
    [tbSize = max 16 (88 * n / 12)] (integer division) for [n < 12]. *)
Theorem configure_sps_default_cqi (s : NbIotSpsScheduler) (now : Time) (rnti : Z)
    (interval : Time) (numSubcarriers : Z) :
  0 <= numSubcarriers < 256 ->
  exists config,
    Sps.GetSpsConfig (Sps.ConfigureSps s now rnti interval numSubcarriers) rnti
      = Some config
    /\ (SpsConfig.mcs config, SpsConfig.tbSize config)
         = Sps.SelectMcsAndTbs 7 numSubcarriers
    /\ SpsConfig.mcs config = 4
    /\ (numSubcarriers = 12 -> SpsConfig.tbSize config = 88)
    /\ (numSubcarriers < 12 ->
        SpsConfig.tbSize config = Z.max 16 (88 * numSubcarriers / 12)).
Proof.
  intros Hn. unfold Sps.GetSpsConfig, Sps.ConfigureSps.
  destruct (Sps.SelectMcsAndTbs 7 numSubcarriers) as [mcs tbSize] eqn:Hsel.
  eexists. split; [simpl; apply find_set_eq|]. simpl.
  split; [done|].
  unfold Sps.SelectMcsAndTbs in Hsel. simpl in Hsel.
  destruct (Z.ltb_spec numSubcarriers 12) as [Hlt|Hge].
  - assert (Hq : 0 <= 88 * numSubcarriers / 12 < 88).
    { split; [apply Z.div_pos; lia|apply Z.div_lt_upper_bound; lia]. }
    unfold wrap16 in Hsel. rewrite Z.mod_small in Hsel by lia.
    injection Hsel as <- <-. split; [done|]. split; [lia|]. intros _.
    destruct (Z.ltb_spec (88 * numSubcarriers / 12) 16); lia.
  - injection Hsel as <- <-. split; [done|]. split; [done|lia].
Qed.

(** The dynamic pass does read the channel quality of the endpoint: at
    CQI 12 it grants [mcs = 8], [tbSize = 256], where the stored periodic
    configuration of the same endpoint has [mcs = 4], [tbSize = 88]. *)
Example dynamic_grant_reads_cqi :
  let mac := mac_with [(1, Ue.mk 1 CE_LEVEL_0 12 [0; 0; 0; 0] 100 0 true true)] [] in
  map (fun g => (Ul.mcs g, Ul.tbSize g))
      (fst (Sps.ScheduleDynamicGrants Sps.new true mac 1)) = [(8, 256)]
  /\ ((fun c => (SpsConfig.mcs c, SpsConfig.tbSize c))
        <$> Sps.GetSpsConfig (Sps.ConfigureSps Sps.new 0 1 (MilliSeconds 20) 12) 1)
     = Some (4, 88).
Proof. split; reflexivity. Qed.

Lemma configure_sps_default_cqi_witness :
  exists config,
    Sps.GetSpsConfig (Sps.ConfigureSps Sps.new 0 5 (MilliSeconds 20) 6) 5 = Some config
    /\ SpsConfig.mcs config = 4 /\ SpsConfig.tbSize config = 44.
Proof.
  destruct (configure_sps_default_cqi Sps.new 0 5 (MilliSeconds 20) 6)
    as (config & Hget & _ & Hmcs & _ & Htbs); [lia|].
  exists config. split; [exact Hget|]. split; [exact Hmcs|].
  rewrite Htbs by lia. reflexivity.
Defined.

(** ** Budget: no more results than available units *)

Lemma wrap8_succ (u a : Z) : 0 <= u -> u < a -> a < 256 -> wrap8 (u + 1) = u + 1.
Proof. intros. unfold wrap8. apply Z.mod_small. lia. Qed.

Lemma sps_dl_loop_budget (ueContexts : list (Z * NbIotUeContext)) :
  forall (mac : NbIotEnbMac) (usedRbs availableRbs : Z),
    0 <= usedRbs <= availableRbs -> availableRbs < 256 ->
    Z.of_nat (length (fst (Sps.dl_loop ueContexts mac usedRbs availableRbs)))
      <= availableRbs - usedRbs.
Proof.
  induction ueContexts as [|context rest IH]; intros mac u a Hu Ha; simpl; [lia|].
  destruct (Z.geb_spec u a); simpl; [lia|].
  destruct (GetDlTxQueue mac (fst context)) as [txQueue mac0].
  destruct (empty txQueue); simpl.
  - apply IH; lia.
  - rewrite (wrap8_succ u a) by lia.
    match goal with |- context [Sps.dl_loop rest ?m (u + 1) a] =>
      specialize (IH m (u + 1) a); destruct (Sps.dl_loop rest m (u + 1) a) end.
    simpl in *. lia.
Qed.

Lemma sps_loop_budget (keys : list Z) :
  forall (s : NbIotSpsScheduler) (m_mac : bool) (mac : NbIotEnbMac)
         (now currentTime : Time) (usedRbs availableRbs : Z),
    0 <= usedRbs <= availableRbs -> availableRbs < 256 ->
    Z.of_nat (length (fst (Sps.sps_loop keys s m_mac mac now currentTime
                                        usedRbs availableRbs)))
      <= availableRbs - usedRbs.
Proof.
  induction keys as [|key rest IH]; intros s b mac now ct u a Hu Ha; simpl; [lia|].
  destruct (Z.geb_spec u a); simpl; [lia|].
  destruct (Map16.find key (Sps.m_spsConfigs s)) as [config|]; [|apply IH; lia].
  destruct (SpsConfig.active config); simpl; [|apply IH; lia].
  destruct (ct >=? SpsConfig.nextAllocation config); [|apply IH; lia].
  rewrite (wrap8_succ u a) by lia.
  match goal with |- context [Sps.sps_loop rest ?s' b mac now ct (u + 1) a] =>
    specialize (IH s' b mac now ct (u + 1) a);
    destruct (Sps.sps_loop rest s' b mac now ct (u + 1) a) end.
  simpl in *. lia.
Qed.

Lemma dynamic_loop_budget (ues : list Z) :
  forall (mac : NbIotEnbMac) (usedRbs availableRbs : Z),
    0 <= usedRbs <= availableRbs -> availableRbs < 256 ->
    Z.of_nat (length (fst (Sps.dynamic_loop ues mac usedRbs availableRbs)))
      <= availableRbs - usedRbs.
Proof.
  induction ues as [|rnti rest IH]; intros mac u a Hu Ha; simpl; [lia|].
  destruct (Z.geb_spec u a); simpl; [lia|].
  destruct (GetUeContext mac rnti) as [ueContext|]; [|apply IH; lia].
  destruct (Sps.SelectMcsAndTbs (Ue.cqi ueContext) 12) as [mcs tbSize].
  rewrite (wrap8_succ u a) by lia.
  match goal with |- context [Sps.dynamic_loop rest ?m (u + 1) a] =>
    specialize (IH m (u + 1) a); destruct (Sps.dynamic_loop rest m (u + 1) a) end.
  simpl in *. lia.
Qed.

Lemma remaining_after_spec {A} (spsGrants : list A) :
  forall remainingRbs : Z,
    0 <= remainingRbs ->
    Sps.remaining_after spsGrants remainingRbs
      = Z.max 0 (remainingRbs - Z.of_nat (length spsGrants)).
Proof.
  induction spsGrants as [|g rest IH]; intros r Hr; simpl; [lia|].
  destruct (Z.gtb_spec r 0); rewrite IH by lia; lia.
Qed.

Lemma sps_ScheduleUl_budget (s : NbIotSpsScheduler) (m_mac : bool) (mac : NbIotEnbMac)
    (now : Time) (availableRbs : Z) :
  0 <= availableRbs < 256 ->
  Z.of_nat (length (fst (fst (Sps.ScheduleUl s m_mac mac now availableRbs))))
    <= availableRbs.
Proof.
  intros Ha. unfold Sps.ScheduleUl, Sps.ScheduleSpsGrants.
  set (s0 := Sps.set_subframeCounter _ s).
  pose proof (sps_loop_budget (Map16.keys (Sps.m_spsConfigs s0)) s0 m_mac mac
                now now 0 availableRbs ltac:(lia) ltac:(lia)) as Hsps.
  destruct (Sps.sps_loop _ s0 m_mac mac now now 0 availableRbs) as [spsGrants s1].
  simpl in Hsps. rewrite remaining_after_spec by lia.
  set (r := Z.max 0 (availableRbs - Z.of_nat (length spsGrants))).
  assert (Hdyn : Z.of_nat (length (fst (Sps.ScheduleDynamicGrants s1 m_mac mac r))) <= r).
  { unfold Sps.ScheduleDynamicGrants.
    destruct (negb m_mac || (r =? 0)); simpl; [lia|].
    pose proof (dynamic_loop_budget (Sps.dynamicUes s1 mac) mac 0 r) as H. lia. }
  destruct (Sps.ScheduleDynamicGrants s1 m_mac mac r) as [dynamicGrants mac1].
  simpl in *. rewrite length_app. lia.
Qed.

Lemma rr_ScheduleDl_budget (s : NbIotRoundRobinScheduler) (m_mac : bool)
    (mac : NbIotEnbMac) (availableRbs : Z) :
  0 <= availableRbs ->
  Z.of_nat (length (fst (fst (RoundRobin.ScheduleDl s m_mac mac availableRbs))))
    <= availableRbs.
Proof.
  intros Ha. unfold RoundRobin.ScheduleDl.
  destruct (Z.eqb_spec availableRbs 0) as [->|Hne].
  - rewrite orb_true_r. simpl. lia.
  - repeat case_match; simpl; lia.
Qed.

Lemma rr_ScheduleUl_budget (s : NbIotRoundRobinScheduler) (m_mac : bool)
    (mac : NbIotEnbMac) (availableRbs : Z) :
  0 <= availableRbs ->
  Z.of_nat (length (fst (fst (RoundRobin.ScheduleUl s m_mac mac availableRbs))))
    <= availableRbs.
Proof.
  intros Ha. unfold RoundRobin.ScheduleUl.
  destruct (Z.eqb_spec availableRbs 0) as [->|Hne].
  - rewrite orb_true_r. simpl. lia.
  - repeat case_match; simpl; lia.
Qed.

Lemma cc_ScheduleDl_budget (std_sort : list (Z * Z) -> list (Z * Z)) (m_mac : bool)
    (mac : NbIotEnbMac) (availableRbs : Z) :
  0 <= availableRbs ->
  Z.of_nat (length (fst (CoverageClass.ScheduleDl std_sort m_mac mac availableRbs)))
    <= availableRbs.
Proof.
  intros Ha. unfold CoverageClass.ScheduleDl.
  destruct (Z.eqb_spec availableRbs 0) as [->|Hne].
  - rewrite orb_true_r. simpl. lia.
  - repeat case_match; simpl; lia.
Qed.

Lemma cc_ScheduleUl_budget (std_sort : list (Z * Z) -> list (Z * Z)) (m_mac : bool)
    (mac : NbIotEnbMac) (availableRbs : Z) :
  0 <= availableRbs ->
  Z.of_nat (length (fst (CoverageClass.ScheduleUl std_sort m_mac mac availableRbs)))
    <= availableRbs.
Proof.
  intros Ha. unfold CoverageClass.ScheduleUl.
  destruct (Z.eqb_spec availableRbs 0) as [->|Hne].
  - rewrite orb_true_r. simpl. lia.
  - repeat case_match; simpl; lia.
Qed.

(** C4. Whatever the policy, the state and the budget (a [uint8_t]), one
    [ScheduleDl] call returns at most [availableRbs] assignments and one
    [ScheduleUl] call at most [availableRbs] grants. *)
Theorem budget_invariant (std_sort : list (Z * Z) -> list (Z * Z))
    (sch : NbIotScheduler) (mac : NbIotEnbMac) (now : Time) (availableRbs : Z) :
  0 <= availableRbs < 256 ->
  Z.of_nat (length (fst (fst (ScheduleDl std_sort sch mac availableRbs))))
    <= availableRbs
  /\ Z.of_nat (length (fst (fst (ScheduleUl std_sort sch mac now availableRbs))))
    <= availableRbs.
Proof.
  intros Ha. unfold ScheduleDl, ScheduleUl. destruct (policy sch) as [s| |s].
  - pose proof (rr_ScheduleDl_budget s (m_mac sch) mac availableRbs ltac:(lia)).
    pose proof (rr_ScheduleUl_budget s (m_mac sch) mac availableRbs ltac:(lia)).
    destruct (RoundRobin.ScheduleDl _ _ _ _) as [[? ?] ?].
    destruct (RoundRobin.ScheduleUl _ _ _ _) as [[? ?] ?]. simpl in *. lia.
  - pose proof (cc_ScheduleDl_budget std_sort (m_mac sch) mac availableRbs ltac:(lia)).
    pose proof (cc_ScheduleUl_budget std_sort (m_mac sch) mac availableRbs ltac:(lia)).
    destruct (CoverageClass.ScheduleDl _ _ _ _) as [? ?].
    destruct (CoverageClass.ScheduleUl _ _ _ _) as [? ?]. simpl in *. lia.
  - pose proof (sps_ScheduleUl_budget s (m_mac sch) mac now availableRbs Ha).
    assert (Z.of_nat (length (fst (Sps.ScheduleDl s (m_mac sch) mac availableRbs)))
              <= availableRbs).
    { unfold Sps.ScheduleDl. destruct (negb (m_mac sch)); simpl; [lia|].
      pose proof (sps_dl_loop_budget (GetUeContexts mac) mac 0 availableRbs). lia. }
    destruct (Sps.ScheduleDl _ _ _ _) as [? ?].
    destruct (Sps.ScheduleUl _ _ _ _ _) as [[? ?] ?]. simpl in *. lia.
Qed.

Lemma budget_invariant_witness :
  Z.of_nat (length (fst (fst (ScheduleDl stable_sort rr_scheduler three_ues 1)))) <= 1
  /\ Z.of_nat (length (fst (fst (ScheduleUl stable_sort rr_scheduler three_ues 0 1)))) <= 1.
Proof. apply (budget_invariant stable_sort rr_scheduler three_ues 0 1). lia. Defined.

(** ** Round-robin uplink *)

Lemma rr_ul_loop_first (rnti : Z) (context : NbIotUeContext)
    (rest : list (Z * NbIotUeContext)) :
  Ue.connected context = true -> ul_pending context = true ->
  exists grant,
    RoundRobin.ul_loop ((rnti, context) :: rest)
      = (Some grant, (rnti, Ue.set_srReceived false context) :: rest)
    /\ Ul.rnti grant = rnti.
Proof.
  intros Hc Hp. simpl. rewrite Hc, Hp. simpl. eexists. split; reflexivity.
Qed.

(** C1, what the code does: [ScheduleUl] scans the contexts from the lowest
    id on every call and never lowers the backlog, so while the lowest-id
    endpoint is connected with a non-zero backlog every call grants that same
    endpoint; [m_lastUlRnti] is written and never read. *)
Theorem rr_ul_repeats_lowest_id (std_sort : list (Z * Z) -> list (Z * Z)) (n : nat) :
  forall (s : NbIotRoundRobinScheduler) (mac : NbIotEnbMac) (now : Time)
         (availableRbs : Z) (rnti : Z) (context : NbIotUeContext)
         (rest : list (Z * NbIotUeContext)),
    m_ueContexts mac = (rnti, context) :: rest ->
    Ue.connected context = true -> Ue.totalBufferSize context > 0 ->
    availableRbs <> 0 ->
    schedule_ul_n std_sort n (mkScheduler true (RoundRobinScheduler s)) mac now
                  availableRbs
      = replicate n [rnti].
Proof.
  induction n as [|n IH]; intros s mac now a rnti context rest Hctx Hc Hb Ha; [done|].
  assert (Hp : ul_pending context = true).
  { unfold ul_pending. destruct (Z.gtb_spec (Ue.totalBufferSize context) 0); [|lia].
    apply orb_true_r. }
  destruct (rr_ul_loop_first rnti context rest Hc Hp) as (grant & Hloop & Hr).
  cbn [schedule_ul_n]. unfold ScheduleUl. cbn [policy m_mac].
  unfold RoundRobin.ScheduleUl, GetUeContexts. rewrite Hctx, Hloop.
  destruct (Z.eqb_spec a 0); [done|]. cbn. rewrite Hr. f_equal.
  eapply IH; try done; try reflexivity.
Qed.

Lemma rr_ul_repeats_lowest_id_witness :
  schedule_ul_n stable_sort 4 rr_scheduler three_ues 0 1 = [[1]; [1]; [1]; [1]].
Proof.
  apply (rr_ul_repeats_lowest_id stable_sort 4 RoundRobin.new three_ues 0 1 1
           (ue 1 CE_LEVEL_0 100 true true)
           [(2, ue 2 CE_LEVEL_0 100 true true); (3, ue 3 CE_LEVEL_0 100 true true)]);
    [reflexivity | reflexivity | reflexivity | lia].
Defined.

(** With the request flag as the only source of pending data the grant
    does move on, because the grant clears the flag: endpoints 1, 2, 3 are
    granted in turn and the fourth call grants nobody. *)
Example rr_ul_request_only :
  schedule_ul_n stable_sort 4 rr_scheduler
    (mac_with [(1, ue 1 CE_LEVEL_0 0 true true);
               (2, ue 2 CE_LEVEL_0 0 true true);
               (3, ue 3 CE_LEVEL_0 0 true true)] []) 0 1
    = [[1]; [2]; [3]; []].
Proof. reflexivity. Qed.

(** The downlink path of the same scheduler does rotate: it starts from
    [GetNextRnti (m_lastDlRnti, true)]. *)
Example rr_dl_rotates :
  schedule_dl_n stable_sort 4 rr_scheduler three_ues_dl 1 = [[1]; [2]; [3]; [1]].
Proof. vm_compute. reflexivity. Qed.

(** ** Connected flag *)

(** C3, what the code does: the SPS scheduler never reads [connected].  Its
    downlink pass, its dynamic uplink pass and its periodic uplink pass each
    return an endpoint whose context has [connected = false]. *)
Theorem sps_schedules_disconnected :
  (Ue.connected <$> GetUeContext disconnected_ue 1) = Some false
  /\ map Dl.rnti (fst (fst (ScheduleDl stable_sort (sps_scheduler Sps.new)
                                       disconnected_ue 1))) = [1]
  /\ map Ul.rnti (fst (fst (ScheduleUl stable_sort (sps_scheduler Sps.new)
                                       disconnected_ue 0 1))) = [1]
  /\ map Ul.rnti (fst (fst (ScheduleUl stable_sort (sps_scheduler sps_one_active)
                                       disconnected_ue 0 1))) = [1].
Proof. repeat split; reflexivity. Qed.

(** ** Coverage-class scheduler *)

#[local] Instance in_order_trans : Transitive CoverageClass.in_order.
Proof.
  intros a b c. unfold CoverageClass.in_order, CoverageClass.comp.
  rewrite !Z.ltb_ge. lia.
Qed.

Lemma insert_before_perm (x : Z * Z) (l : list (Z * Z)) : insert_before x l ≡ₚ x :: l.
Proof.
  induction l as [|y l IH]; simpl; [done|].
  destruct (CoverageClass.comp y x); [|done].
  rewrite IH. apply Permutation_swap.
Qed.

Lemma insert_after_perm (x : Z * Z) (l : list (Z * Z)) : insert_after x l ≡ₚ x :: l.
Proof.
  induction l as [|y l IH]; simpl; [done|].
  destruct (CoverageClass.comp x y); [done|].
  rewrite IH. apply Permutation_swap.
Qed.

Lemma HdRel_insert_before (a x : Z * Z) (l : list (Z * Z)) :
  HdRel CoverageClass.in_order a l -> CoverageClass.in_order a x ->
  HdRel CoverageClass.in_order a (insert_before x l).
Proof.
  intros Hl Hx. destruct l as [|y l]; simpl; [by constructor|].
  destruct (CoverageClass.comp y x); constructor; [|done].
  by inversion Hl.
Qed.

Lemma HdRel_insert_after (a x : Z * Z) (l : list (Z * Z)) :
  HdRel CoverageClass.in_order a l -> CoverageClass.in_order a x ->
  HdRel CoverageClass.in_order a (insert_after x l).
Proof.
  intros Hl Hx. destruct l as [|y l]; simpl; [by constructor|].
  destruct (CoverageClass.comp x y); constructor; [done|].
  by inversion Hl.
Qed.

Lemma insert_before_sorted (x : Z * Z) (l : list (Z * Z)) :
  Sorted CoverageClass.in_order l -> Sorted CoverageClass.in_order (insert_before x l).
Proof.
  induction 1 as [|y l Hs IH Hhd]; simpl; [by repeat constructor|].
  destruct (CoverageClass.comp y x) eqn:Hc.
  - constructor; [done|]. apply HdRel_insert_before; [done|].
    unfold CoverageClass.in_order, CoverageClass.comp in *.
    apply Z.ltb_lt in Hc. apply Z.ltb_ge. lia.
  - constructor; [by constructor|]. by constructor.
Qed.

Lemma insert_after_sorted (x : Z * Z) (l : list (Z * Z)) :
  Sorted CoverageClass.in_order l -> Sorted CoverageClass.in_order (insert_after x l).
Proof.
  induction 1 as [|y l Hs IH Hhd]; simpl; [by repeat constructor|].
  destruct (CoverageClass.comp x y) eqn:Hc.
  - constructor; [by constructor|]. constructor.
    unfold CoverageClass.in_order, CoverageClass.comp in *.
    apply Z.ltb_lt in Hc. apply Z.ltb_ge. lia.
  - constructor; [done|]. by apply HdRel_insert_after.
Qed.

Lemma stable_sort_contract : CoverageClass.std_sort_contract stable_sort.
Proof.
  intros l. unfold stable_sort. induction l as [|x l [IHp IHs]]; simpl.
  - split; [done|constructor].
  - split; [by rewrite insert_before_perm, IHp|by apply insert_before_sorted].
Qed.

Lemma reversing_sort_contract : CoverageClass.std_sort_contract reversing_sort.
Proof.
  intros l. unfold reversing_sort. induction l as [|x l [IHp IHs]]; simpl.
  - split; [done|constructor].
  - split; [by rewrite insert_after_perm, IHp|by apply insert_after_sorted].
Qed.

Lemma sorted_head_min (x : Z * Z) (l : list (Z * Z)) :
  Sorted CoverageClass.in_order (x :: l) ->
  forall y, y ∈ x :: l -> snd x <= snd y.
Proof.
  intros Hs y Hy. apply Sorted_StronglySorted in Hs; [|apply _].
  apply StronglySorted_inv in Hs as [_ Hall].
  apply elem_of_cons in Hy as [->|Hy]; [lia|].
  rewrite Forall_forall in Hall. specialize (Hall y Hy).
  unfold CoverageClass.in_order, CoverageClass.comp in Hall.
  apply Z.ltb_ge in Hall. lia.
Qed.

Lemma elem_of_rntiPriority (mac : NbIotEnbMac) (ueList : list Z) (rnti p : Z) :
  (rnti, p) ∈ CoverageClass.rntiPriority mac ueList <->
  rnti ∈ ueList /\
  exists context, GetUeContext mac rnti = Some context
                  /\ p = CoverageClass.GetPriority (Ue.coverageClass context).
Proof.
  unfold CoverageClass.rntiPriority. rewrite list_elem_of_omap. split.
  - intros (r & Hr & Hf). destruct (GetUeContext mac r) as [c|] eqn:Hc; [|done].
    injection Hf as <- <-. split; [done|]. by exists c.
  - intros (Hr & c & Hc & ->). exists rnti. split; [done|]. by rewrite Hc.
Qed.

(** The id [SortByPriority] puts first is one of the ids it was given, and
    none of them has a numerically lower priority. *)
Lemma SortByPriority_front (std_sort : list (Z * Z) -> list (Z * Z))
    (mac : NbIotEnbMac) (ueList : list Z) (rnti : Z) (rest : list Z) :
  CoverageClass.std_sort_contract std_sort ->
  CoverageClass.SortByPriority std_sort mac ueList = rnti :: rest ->
  rnti ∈ ueList /\ CoverageClass.lowest_priority mac ueList rnti.
Proof.
  intros Hsort Hfront. unfold CoverageClass.SortByPriority in Hfront.
  destruct (Hsort (CoverageClass.rntiPriority mac ueList)) as [Hperm Hsorted].
  destruct (std_sort (CoverageClass.rntiPriority mac ueList)) as [|[r p] tl] eqn:Hs;
    [done|].
  simpl in Hfront. injection Hfront as -> _.
  assert (Hin : (rnti, p) ∈ CoverageClass.rntiPriority mac ueList).
  { rewrite <- Hperm. apply list_elem_of_here. }
  apply elem_of_rntiPriority in Hin as (Hr & c & Hc & ->).
  split; [done|]. exists c. split; [done|].
  intros r' c' Hr' Hc'.
  assert (Hin' : (r', CoverageClass.GetPriority (Ue.coverageClass c'))
                   ∈ (rnti, CoverageClass.GetPriority (Ue.coverageClass c)) :: tl).
  { rewrite Hperm. apply elem_of_rntiPriority. split; [done|]. by exists c'. }
  apply (sorted_head_min _ _ Hsorted) in Hin'. exact Hin'.
Qed.

Lemma elem_of_ul_candidates (mac : NbIotEnbMac) (rnti : Z) :
  rnti ∈ CoverageClass.ul_candidates mac <->
  exists context, (rnti, context) ∈ m_ueContexts mac
                  /\ Ue.connected context = true /\ ul_pending context = true.
Proof.
  unfold CoverageClass.ul_candidates, GetUeContexts. rewrite list_elem_of_omap. split.
  - intros ([r c] & Hin & Hf).
    destruct (Ue.connected c) eqn:Hc, (ul_pending c) eqn:Hp; simpl in Hf; try done.
    injection Hf as ->. by exists c.
  - intros (c & Hin & Hc & Hp). exists (rnti, c). by rewrite Hc, Hp.
Qed.

Lemma omap_ext_all {A B} (f g : A -> option B) (l : list A) :
  (forall x, f x = g x) -> omap f l = omap g l.
Proof. intros H. induction l as [|x l IH]; csimpl; [done|]. by rewrite H, IH. Qed.

(** The candidate loop: the ids it collects, read off the MAC before the
    loop, and a MAC that differs by lookups only. *)
Lemma dl_candidates_loop_spec (ueContexts : list (Z * NbIotUeContext)) :
  forall mac : NbIotEnbMac,
    fst (CoverageClass.dl_candidates_loop ueContexts mac)
      = omap (fun '(rnti, context) =>
                if Ue.connected context && negb (empty (fst (GetDlTxQueue mac rnti)))
                then Some rnti else None) ueContexts
    /\ lookups_only mac (snd (CoverageClass.dl_candidates_loop ueContexts mac)).
Proof.
  induction ueContexts as [|[rnti context] rest IH]; intros mac; simpl.
  - split; [done|apply lookups_only_refl].
  - destruct (Ue.connected context); simpl; [|apply IH].
    pose proof (GetDlTxQueue_lookups mac rnti) as Hl.
    destruct (GetDlTxQueue mac rnti) as [queue mac1] eqn:Hq. simpl in Hl.
    destruct (IH mac1) as [Hfst Hsnd].
    destruct (CoverageClass.dl_candidates_loop rest mac1) as [cands mac2].
    simpl in *. split; [|by eapply lookups_only_trans].
    subst cands.
    rewrite (omap_ext_all _
               (fun '(rnti, context) =>
                  if Ue.connected context && negb (empty (fst (GetDlTxQueue mac rnti)))
                  then Some rnti else None)).
    + by destruct (empty queue).
    + intros [r c]. by rewrite (lookups_only_read mac mac1).
Qed.

Lemma dl_candidates_lookups (mac : NbIotEnbMac) :
  lookups_only mac (snd (CoverageClass.dl_candidates mac)).
Proof. apply dl_candidates_loop_spec. Qed.

Lemma elem_of_dl_candidates (mac : NbIotEnbMac) (rnti : Z) :
  rnti ∈ fst (CoverageClass.dl_candidates mac) <->
  exists context, (rnti, context) ∈ m_ueContexts mac
                  /\ Ue.connected context = true
                  /\ empty (fst (GetDlTxQueue mac rnti)) = false.
Proof.
  unfold CoverageClass.dl_candidates, GetUeContexts.
  rewrite (proj1 (dl_candidates_loop_spec _ _)). rewrite list_elem_of_omap. split.
  - intros ([r c] & Hin & Hf).
    destruct (Ue.connected c) eqn:Hc, (empty (fst (GetDlTxQueue mac r))) eqn:Hp;
      simpl in Hf; try done.
    injection Hf as ->. by exists c.
  - intros (c & Hin & Hc & Hp). exists (rnti, c). by rewrite Hc, Hp.
Qed.

Lemma lowest_priority_contexts (mac mac' : NbIotEnbMac) (candidates : list Z) (rnti : Z) :
  m_ueContexts mac' = m_ueContexts mac ->
  CoverageClass.lowest_priority mac' candidates rnti ->
  CoverageClass.lowest_priority mac candidates rnti.
Proof.
  unfold CoverageClass.lowest_priority, GetUeContext. by intros ->.
Qed.

Lemma elem_find_is_Some {V} (k : Z) (v : V) (m : list (Z * V)) :
  (k, v) ∈ m -> is_Some (Map16.find k m).
Proof.
  intros H. apply find_is_Some. unfold Map16.keys.
  apply list_elem_of_fmap. by exists (k, v).
Qed.

Lemma SortByPriority_nonempty (std_sort : list (Z * Z) -> list (Z * Z))
    (mac : NbIotEnbMac) (ueList : list Z) (rnti : Z) :
  CoverageClass.std_sort_contract std_sort ->
  rnti ∈ ueList -> is_Some (GetUeContext mac rnti) ->
  CoverageClass.SortByPriority std_sort mac ueList <> [].
Proof.
  intros Hsort Hr [c Hc] Hnil. unfold CoverageClass.SortByPriority in Hnil.
  destruct (Hsort (CoverageClass.rntiPriority mac ueList)) as [Hperm _].
  apply fmap_nil_inv in Hnil. rewrite Hnil in Hperm.
  assert (Hin : (rnti, CoverageClass.GetPriority (Ue.coverageClass c))
                  ∈ CoverageClass.rntiPriority mac ueList).
  { apply elem_of_rntiPriority. split; [done|]. by exists c. }
  rewrite <- Hperm in Hin. by apply elem_of_nil in Hin.
Qed.

Lemma cc_ScheduleUl_served (std_sort : list (Z * Z) -> list (Z * Z))
    (m_mac : bool) (mac : NbIotEnbMac) (availableRbs : Z) (grant : NbIotUlGrantResult) :
  CoverageClass.std_sort_contract std_sort ->
  grant ∈ fst (CoverageClass.ScheduleUl std_sort m_mac mac availableRbs) ->
  Ul.rnti grant ∈ CoverageClass.ul_candidates mac
  /\ CoverageClass.lowest_priority mac (CoverageClass.ul_candidates mac) (Ul.rnti grant).
Proof.
  intros Hsort. unfold CoverageClass.ScheduleUl.
  destruct (negb m_mac || (availableRbs =? 0)); simpl; [nothing_returned|].
  destruct (empty (CoverageClass.ul_candidates mac)); simpl;
    [nothing_returned|].
  destruct (CoverageClass.SortByPriority std_sort mac _) as [|rnti rest] eqn:Hs;
    simpl; [nothing_returned|].
  apply (SortByPriority_front _ _ _ _ _ Hsort) in Hs.
  destruct (GetUeContext mac rnti); simpl; [|nothing_returned].
  intros ->%list_elem_of_singleton. exact Hs.
Qed.

Lemma cc_ScheduleDl_served (std_sort : list (Z * Z) -> list (Z * Z))
    (m_mac : bool) (mac : NbIotEnbMac) (availableRbs : Z)
    (assignment : NbIotDlAssignmentResult) :
  CoverageClass.std_sort_contract std_sort ->
  assignment ∈ fst (CoverageClass.ScheduleDl std_sort m_mac mac availableRbs) ->
  Dl.rnti assignment ∈ fst (CoverageClass.dl_candidates mac)
  /\ CoverageClass.lowest_priority mac (fst (CoverageClass.dl_candidates mac))
                                   (Dl.rnti assignment).
Proof.
  intros Hsort. unfold CoverageClass.ScheduleDl.
  destruct (negb m_mac || (availableRbs =? 0)); simpl; [nothing_returned|].
  pose proof (dl_candidates_lookups mac) as (_ & Hctx & _).
  destruct (CoverageClass.dl_candidates mac) as [candidateRntis mac1].
  simpl in Hctx |- *.
  destruct (empty candidateRntis); simpl; [nothing_returned|].
  destruct (CoverageClass.SortByPriority std_sort mac1 _) as [|rnti rest] eqn:Hs;
    simpl; [nothing_returned|].
  apply (SortByPriority_front _ _ _ _ _ Hsort) in Hs.
  destruct Hs as [Hin Hlow]. apply (lowest_priority_contexts mac) in Hlow; [|done].
  destruct (GetUeContext mac1 rnti); simpl; [|nothing_returned].
  destruct (GetDlTxQueue mac1 rnti) as [dlQueue mac2].
  destruct (collect_sdus _ _) as [sdus remainder].
  destruct (empty sdus); simpl; [nothing_returned|].
  by intros ->%list_elem_of_singleton.
Qed.

(** C5, amended statement. Priority is a function of the coverage class alone
    (CE_LEVEL_2 gives 1, CE_LEVEL_1 gives 2, CE_LEVEL_0 gives 3).  Under any
    [std::sort] that meets its contract, the endpoint the coverage-class
    scheduler serves, uplink or downlink, is one of the connected candidates
    with pending data and no candidate has a numerically lower priority;
    with at least one uplink candidate exactly one grant is issued.  Which
    of several candidates of that priority is served is not fixed. *)
Theorem cc_serves_lowest_priority (std_sort : list (Z * Z) -> list (Z * Z))
    (m_mac : bool) (mac : NbIotEnbMac) (availableRbs : Z) :
  CoverageClass.std_sort_contract std_sort ->
  (CoverageClass.GetPriority CE_LEVEL_2 = 1
   /\ CoverageClass.GetPriority CE_LEVEL_1 = 2
   /\ CoverageClass.GetPriority CE_LEVEL_0 = 3)
  /\ (forall grant,
        grant ∈ fst (CoverageClass.ScheduleUl std_sort m_mac mac availableRbs) ->
        Ul.rnti grant ∈ CoverageClass.ul_candidates mac
        /\ CoverageClass.lowest_priority mac (CoverageClass.ul_candidates mac)
                                         (Ul.rnti grant))
  /\ (forall assignment,
        assignment ∈ fst (CoverageClass.ScheduleDl std_sort m_mac mac availableRbs) ->
        Dl.rnti assignment ∈ fst (CoverageClass.dl_candidates mac)
        /\ CoverageClass.lowest_priority mac (fst (CoverageClass.dl_candidates mac))
                                         (Dl.rnti assignment))
  /\ (m_mac = true -> availableRbs <> 0 -> CoverageClass.ul_candidates mac <> [] ->
      length (fst (CoverageClass.ScheduleUl std_sort m_mac mac availableRbs)) = 1%nat)
  /\ (forall rnti,
        rnti ∈ CoverageClass.ul_candidates mac ->
        exists context, (rnti, context) ∈ m_ueContexts mac
                        /\ Ue.connected context = true /\ ul_pending context = true)
  /\ (forall rnti,
        rnti ∈ fst (CoverageClass.dl_candidates mac) ->
        exists context, (rnti, context) ∈ m_ueContexts mac
                        /\ Ue.connected context = true
                        /\ empty (fst (GetDlTxQueue mac rnti)) = false).
Proof.
  intros Hsort. split; [by repeat split|]. split; [|split; [|split; [|split]]].
  - intros grant. by apply cc_ScheduleUl_served.
  - intros assignment. by apply cc_ScheduleDl_served.
  - intros -> Ha Hne. unfold CoverageClass.ScheduleUl.
    destruct (Z.eqb_spec availableRbs 0); [done|]. simpl.
    destruct (CoverageClass.ul_candidates mac) as [|r0 cands] eqn:Hc; [done|]. simpl.
    assert (Hr0 : r0 ∈ CoverageClass.ul_candidates mac)
      by (rewrite Hc; apply list_elem_of_here).
    apply elem_of_ul_candidates in Hr0 as (c0 & Hin & _ & _).
    apply elem_find_is_Some in Hin.
    destruct (CoverageClass.SortByPriority std_sort mac (r0 :: cands))
      as [|rnti rest] eqn:Hs.
    + exfalso. eapply (SortByPriority_nonempty std_sort mac (r0 :: cands) r0);
        [done|apply list_elem_of_here|exact Hin|exact Hs].
    + apply (SortByPriority_front _ _ _ _ _ Hsort) in Hs as [_ (c & Hctx & _)].
      by rewrite Hctx.
  - intros rnti. apply elem_of_ul_candidates.
  - intros rnti. apply elem_of_dl_candidates.
Qed.

Lemma cc_serves_lowest_priority_witness :
  map Ul.rnti (fst (CoverageClass.ScheduleUl stable_sort true mixed_ues 1)) = [2]
  /\ CoverageClass.lowest_priority mixed_ues (CoverageClass.ul_candidates mixed_ues) 2.
Proof.
  destruct (cc_serves_lowest_priority stable_sort true mixed_ues 1 stable_sort_contract)
    as (_ & Hul & _).
  split; [reflexivity|].
  refine (proj2 (Hul (Ul.mk 2 3 88 12 2 16 0 true 0) _)).
  apply list_elem_of_here.
Defined.

(** C5, counterexample to the tie-break by lowest id: [std::sort] is not a
    stable sort.  With seventeen candidates of one priority (or with two), a
    sorting procedure that meets the contract of [std::sort] puts another id
    than the lowest first, and the scheduler serves that endpoint although
    endpoint 1 has the same priority. *)
Lemma cc_tie_break_counterexample :
  CoverageClass.std_sort_contract reversing_sort
  /\ CoverageClass.ul_candidates seventeen_equal_ues = seqZ 1 17
  /\ CoverageClass.rntiPriority seventeen_equal_ues (seqZ 1 17)
       = map (fun rnti => (rnti, 3)) (seqZ 1 17)
  /\ map Ul.rnti (fst (CoverageClass.ScheduleUl reversing_sort true
                                                seventeen_equal_ues 1)) = [17]
  /\ CoverageClass.ul_candidates two_equal_ues = [1; 2]
  /\ CoverageClass.rntiPriority two_equal_ues [1; 2] = [(1, 3); (2, 3)]
  /\ map Ul.rnti (fst (CoverageClass.ScheduleUl reversing_sort true two_equal_ues 1))
       = [2].
Proof.
  split; [exact reversing_sort_contract|]. repeat split; vm_compute; reflexivity.
Qed.

(** With a sorting procedure that happens to be stable, the lowest id among
    the candidates of equal priority is the one served. *)
Example cc_tie_break_stable :
  map Ul.rnti (fst (CoverageClass.ScheduleUl stable_sort true two_equal_ues 1)) = [1]
  /\ map Ul.rnti (fst (CoverageClass.ScheduleUl stable_sort true mixed_ues 1)) = [2].
Proof. split; reflexivity. Qed.

(** ** Semi-persistent scheduler: the configuration table *)

Lemma ordered_NoDup {V} (m : list (Z * V)) : Map16.ordered m -> NoDup (Map16.keys m).
Proof.
  unfold Map16.ordered. generalize (Map16.keys m). clear m.
  induction 1 as [|k ks Hs IH Hall]; constructor; [|done].
  intros Hin. rewrite Forall_forall in Hall. specialize (Hall k Hin). lia.
Qed.

Lemma rnti_is_key_update (T : list (Z * NbIotSpsConfig)) (k : Z)
    (f : NbIotSpsConfig -> NbIotSpsConfig) :
  (forall c, SpsConfig.rnti (f c) = SpsConfig.rnti c) ->
  Sps.rnti_is_key T -> Sps.rnti_is_key (Map16.update k f T).
Proof.
  intros Hf HT key config. destruct (Z.eq_dec key k) as [->|Hne].
  - rewrite find_update_eq. destruct (Map16.find k T) as [c|] eqn:Hc; [|done].
    intros [= <-]. rewrite Hf. by apply HT.
  - rewrite find_update_ne by done. apply HT.
Qed.

(** The table after the loop of [ScheduleSpsGrants]: an entry the loop does
    not visit is untouched, and a visited entry is either untouched or was
    active and due, got [now + spsInterval] as its next allocation, and has a
    grant in the result. *)
Lemma sps_loop_table (m_mac : bool) (mac : NbIotEnbMac) (now currentTime : Time)
    (availableRbs : Z) (keys : list Z) :
  forall (s : NbIotSpsScheduler) (usedRbs : Z),
    NoDup keys -> Sps.rnti_is_key (Sps.m_spsConfigs s) ->
    forall key config,
      Map16.find key (Sps.m_spsConfigs s) = Some config ->
      let r := Sps.sps_loop keys s m_mac mac now currentTime usedRbs availableRbs in
      (key ∉ keys -> Map16.find key (Sps.m_spsConfigs (snd r)) = Some config)
      /\ (Map16.find key (Sps.m_spsConfigs (snd r)) = Some config
          \/ (SpsConfig.active config = true
              /\ SpsConfig.nextAllocation config <= currentTime
              /\ Map16.find key (Sps.m_spsConfigs (snd r))
                   = Some (SpsConfig.set_nextAllocation
                             (now + SpsConfig.spsInterval config) config)
              /\ key ∈ map Ul.rnti (fst r))).
Proof.
  induction keys as [|k0 rest IH]; intros s u Hnd Hok key config Hfind; simpl.
  { split; [done|by left]. }
  apply NoDup_cons in Hnd as [Hk0 Hnd].
  assert (Hskip :
    let r := Sps.sps_loop rest s m_mac mac now currentTime u availableRbs in
    (key ∉ k0 :: rest -> Map16.find key (Sps.m_spsConfigs (snd r)) = Some config)
    /\ (Map16.find key (Sps.m_spsConfigs (snd r)) = Some config
        \/ (SpsConfig.active config = true
            /\ SpsConfig.nextAllocation config <= currentTime
            /\ Map16.find key (Sps.m_spsConfigs (snd r))
                 = Some (SpsConfig.set_nextAllocation
                           (now + SpsConfig.spsInterval config) config)
            /\ key ∈ map Ul.rnti (fst r)))).
  { destruct (IH s u Hnd Hok key config Hfind) as [H1 H2]. split; [|exact H2].
    intros Hn. apply H1. intros Hin. apply Hn. by apply list_elem_of_further. }
  destruct (Z.geb_spec u availableRbs); simpl; [split; [done|by left]|].
  destruct (Map16.find k0 (Sps.m_spsConfigs s)) as [c0|] eqn:Hc0; [|exact Hskip].
  destruct (SpsConfig.active c0) eqn:Hact; simpl; [|exact Hskip].
  destruct (Z.geb_spec currentTime (SpsConfig.nextAllocation c0)) as [Hdue|];
    [|exact Hskip].
  clear Hskip. pose proof (Hok _ _ Hc0) as Hr0.
  match goal with |- context [Sps.sps_loop rest ?s2 _ _ _ _ ?u2 _] =>
    set (s' := s2); set (u' := u2) end.
  assert (HT : Sps.m_spsConfigs s' =
               Map16.update k0
                 (fun c => SpsConfig.set_nextAllocation (now + SpsConfig.spsInterval c) c)
                 (Sps.m_spsConfigs s)).
  { unfold s'. rewrite Hr0.
    destruct (Sps.Scheduler_GetUeContext m_mac mac k0) as [ctx|]; [|done].
    by destruct (Ue.totalBufferSize ctx >? 0). }
  assert (Hok' : Sps.rnti_is_key (Sps.m_spsConfigs s')).
  { rewrite HT. by apply rnti_is_key_update. }
  specialize (IH s' u' Hnd Hok' key).
  destruct (Sps.sps_loop rest s' m_mac mac now currentTime u' availableRbs)
    as [grants s3] eqn:Hloop.
  simpl in *. destruct (Z.eq_dec key k0) as [->|Hne].
  - assert (config = c0) by congruence. subst c0.
    destruct (IH (SpsConfig.set_nextAllocation (now + SpsConfig.spsInterval config) config))
      as [H1 _].
    { rewrite HT, find_update_eq, Hfind. done. }
    split; [intros Hn; exfalso; apply Hn; apply list_elem_of_here|].
    right. split; [done|]. split; [lia|]. split; [by apply H1|].
    rewrite Hr0. apply list_elem_of_here.
  - destruct (IH config) as [H1 H2].
    { rewrite HT, find_update_ne by done. done. }
    split.
    + intros Hn. apply H1. intros Hin. apply Hn. by apply list_elem_of_further.
    + destruct H2 as [H2|(Ha & Hd & Hf & Hg)]; [by left|].
      right. split; [done|]. split; [done|]. split; [done|].
      by apply list_elem_of_further.
Qed.

Lemma table_ok_new : Sps.table_ok (Sps.m_spsConfigs Sps.new).
Proof. split; [constructor|]. intros key config. done. Qed.

Lemma table_ok_ConfigureSps (s : NbIotSpsScheduler) (now : Time) (rnti : Z)
    (interval : Time) (numSubcarriers : Z) :
  Sps.table_ok (Sps.m_spsConfigs s) ->
  Sps.table_ok (Sps.m_spsConfigs (Sps.ConfigureSps s now rnti interval numSubcarriers)).
Proof.
  intros [Hord Hkey]. unfold Sps.ConfigureSps.
  destruct (Sps.SelectMcsAndTbs 7 numSubcarriers) as [mcs tbSize]. simpl.
  split; [by apply ordered_set|].
  intros key config. destruct (Z.eq_dec key rnti) as [->|Hne].
  - rewrite find_set_eq. by intros [= <-].
  - rewrite find_set_ne by done. apply Hkey.
Qed.

Lemma table_ok_update (T : list (Z * NbIotSpsConfig)) (k : Z)
    (f : NbIotSpsConfig -> NbIotSpsConfig) :
  (forall c, SpsConfig.rnti (f c) = SpsConfig.rnti c) ->
  Sps.table_ok T -> Sps.table_ok (Map16.update k f T).
Proof.
  intros Hf [Hord Hkey]. split; [by apply ordered_update|].
  by apply rnti_is_key_update.
Qed.

Lemma table_ok_ActivateSps (s : NbIotSpsScheduler) (now : Time) (rnti : Z) :
  Sps.table_ok (Sps.m_spsConfigs s) ->
  Sps.table_ok (Sps.m_spsConfigs (Sps.ActivateSps s now rnti)).
Proof.
  intros Hok. unfold Sps.ActivateSps. simpl. apply table_ok_update; [done|].
  destruct (Map16.find rnti (Sps.m_spsConfigs s)); [done|].
  by apply table_ok_ConfigureSps.
Qed.

Lemma table_ok_DeactivateSps (s : NbIotSpsScheduler) (rnti : Z) :
  Sps.table_ok (Sps.m_spsConfigs s) ->
  Sps.table_ok (Sps.m_spsConfigs (Sps.DeactivateSps s rnti)).
Proof. intros Hok. unfold Sps.DeactivateSps. simpl. by apply table_ok_update. Qed.

Lemma table_ok_sps_loop (m_mac : bool) (mac : NbIotEnbMac) (now currentTime : Time)
    (availableRbs : Z) (keys : list Z) :
  forall (s : NbIotSpsScheduler) (usedRbs : Z),
    Sps.table_ok (Sps.m_spsConfigs s) ->
    Sps.table_ok
      (Sps.m_spsConfigs
         (snd (Sps.sps_loop keys s m_mac mac now currentTime usedRbs availableRbs))).
Proof.
  induction keys as [|k0 rest IH]; intros s u Hok; simpl; [done|].
  destruct (u >=? availableRbs); [done|].
  destruct (Map16.find k0 (Sps.m_spsConfigs s)) as [c0|]; [|by apply IH].
  destruct (SpsConfig.active c0); simpl; [|by apply IH].
  destruct (currentTime >=? SpsConfig.nextAllocation c0); [|by apply IH].
  match goal with |- context [Sps.sps_loop rest ?s2 _ _ _ _ ?u2 _] =>
    specialize (IH s2 u2); destruct (Sps.sps_loop rest s2 m_mac mac now currentTime
                                                  u2 availableRbs) end.
  simpl in *. apply IH. apply table_ok_update; [done|].
  destruct (Sps.Scheduler_GetUeContext m_mac mac (SpsConfig.rnti c0)) as [ctx|];
    [|done].
  by destruct (Ue.totalBufferSize ctx >? 0).
Qed.

(** [table_ok] holds of the empty table and is kept by every operation that
    writes the table, so it holds in every state the scheduler reaches. *)
Lemma table_ok_ScheduleUl (s : NbIotSpsScheduler) (m_mac : bool) (mac : NbIotEnbMac)
    (now : Time) (availableRbs : Z) :
  Sps.table_ok (Sps.m_spsConfigs s) ->
  Sps.table_ok (Sps.m_spsConfigs (snd (fst (Sps.ScheduleUl s m_mac mac now availableRbs)))).
Proof.
  intros Hok. unfold Sps.ScheduleUl, Sps.ScheduleSpsGrants.
  set (s0 := Sps.set_subframeCounter _ s).
  pose proof (table_ok_sps_loop m_mac mac now now availableRbs
                (Map16.keys (Sps.m_spsConfigs s0)) s0 0 Hok) as H.
  destruct (Sps.sps_loop _ s0 m_mac mac now now 0 availableRbs) as [spsGrants s1].
  by destruct (Sps.ScheduleDynamicGrants s1 m_mac mac _).
Qed.

Lemma table_ok_sps_two_active : Sps.table_ok (Sps.m_spsConfigs sps_two_active).
Proof.
  unfold sps_two_active. cbv zeta.
  repeat first [apply table_ok_ActivateSps | apply table_ok_ConfigureSps].
  apply table_ok_new.
Qed.

(** ** Downlink path: PHY calls, HARQ managers and queues *)

Lemma phy_call_phy (c : PhyCall) (mac : NbIotEnbMac) :
  m_phy (phy_call c mac) = (fun log => log ++ [c]) <$> m_phy mac.
Proof. unfold phy_call. destruct (m_phy mac) eqn:E; simpl; [done|by rewrite E]. Qed.

Lemma phy_call_rest (c : PhyCall) (mac : NbIotEnbMac) :
  m_ueContexts (phy_call c mac) = m_ueContexts mac
  /\ m_dlTxQueues (phy_call c mac) = m_dlTxQueues mac
  /\ m_dlHarqManagers (phy_call c mac) = m_dlHarqManagers mac.
Proof. unfold phy_call. by destruct (m_phy mac). Qed.

Lemma TransmitDlPdu_effect (mac : NbIotEnbMac) (assignment : NbIotDlAssignmentResult) :
  m_phy (TransmitDlPdu mac assignment)
    = (fun log => log ++ dl_phy_calls assignment) <$> m_phy mac
  /\ m_ueContexts (TransmitDlPdu mac assignment) = m_ueContexts mac
  /\ m_dlTxQueues (TransmitDlPdu mac assignment) = m_dlTxQueues mac.
Proof.
  unfold TransmitDlPdu.
  set (mac1 := match Map16.find _ _ with Some _ => _ | None => _ end).
  assert (H1 : m_phy mac1 = m_phy mac /\ m_ueContexts mac1 = m_ueContexts mac
               /\ m_dlTxQueues mac1 = m_dlTxQueues mac).
  { unfold mac1. destruct (Map16.find _ _) as [mgr|]; [|done].
    by destruct (GetProcess mgr _). }
  destruct H1 as (Hp & Hc & Hq).
  rewrite !phy_call_phy.
  destruct (phy_call_rest (TransmitNpdcch (dl_dci assignment) 1 1)
              (phy_call (TransmitNpdsch (build_pdu assignment) (Dl.rnti assignment)
                           (Dl.mcs assignment) (Dl.repetitions assignment)) mac1))
    as (-> & -> & _).
  destruct (phy_call_rest (TransmitNpdsch (build_pdu assignment) (Dl.rnti assignment)
                             (Dl.mcs assignment) (Dl.repetitions assignment)) mac1)
    as (-> & -> & _).
  rewrite Hp, Hc, Hq. split; [|done].
  destruct (m_phy mac); simpl; [|done]. by rewrite <- app_assoc.
Qed.

Lemma TransmitDlPdus_effect (assignments : list NbIotDlAssignmentResult) :
  forall mac : NbIotEnbMac,
    m_phy (TransmitDlPdus mac assignments)
      = (fun log => log ++ mbind dl_phy_calls assignments) <$> m_phy mac
    /\ m_ueContexts (TransmitDlPdus mac assignments) = m_ueContexts mac
    /\ m_dlTxQueues (TransmitDlPdus mac assignments) = m_dlTxQueues mac.
Proof.
  unfold TransmitDlPdus.
  induction assignments as [|a rest IH]; intros mac; simpl.
  - split; [|done]. destruct (m_phy mac); simpl; [|done]. by rewrite app_nil_r.
  - destruct (IH (TransmitDlPdu mac a)) as (-> & -> & ->).
    destruct (TransmitDlPdu_effect mac a) as (-> & -> & ->).
    split; [|done]. destruct (m_phy mac); simpl; [|done]. by rewrite <- app_assoc.
Qed.








Lemma dl_keeps_trans (mac1 mac2 mac3 : NbIotEnbMac) :
  dl_keeps mac1 mac2 -> dl_keeps mac2 mac3 -> dl_keeps mac1 mac3.
Proof.
  intros (? & ? & ? & ?) (? & ? & ? & ?). unfold dl_keeps. repeat split; congruence.
Qed.

Lemma GetDlTxQueue_keeps (mac : NbIotEnbMac) (rnti : Z) :
  dl_keeps mac (snd (GetDlTxQueue mac rnti)).
Proof. apply lookups_only_keeps, GetDlTxQueue_lookups. Qed.

Lemma next_with_data_lookups (dl : bool) (visit : list (Z * NbIotUeContext)) :
  forall mac : NbIotEnbMac,
    lookups_only mac (snd (RoundRobin.next_with_data dl mac visit)).
Proof.
  induction visit as [|[first second] rest IH]; intros mac; simpl;
    [apply lookups_only_refl|].
  destruct (Ue.connected second); [|apply IH].
  unfold RoundRobin.dl_has_data. destruct dl; simpl.
  - pose proof (GetDlTxQueue_lookups mac first) as Hl.
    destruct (GetDlTxQueue mac first) as [queue mac1]. simpl in Hl.
    destruct (negb (empty queue)); simpl; [done|].
    eapply lookups_only_trans; [exact Hl|apply IH].
  - destruct (ul_pending second); simpl; [apply lookups_only_refl|apply IH].
Qed.

Lemma GetNextRnti_lookups (m_mac : bool) (mac : NbIotEnbMac) (lastRnti : Z) (dl : bool) :
  lookups_only mac (snd (RoundRobin.GetNextRnti m_mac mac lastRnti dl)).
Proof.
  unfold RoundRobin.GetNextRnti.
  destruct (negb m_mac); simpl; [apply lookups_only_refl|].
  destruct (empty (GetUeContexts mac)); simpl; [apply lookups_only_refl|].
  apply next_with_data_lookups.
Qed.

Lemma sps_dl_loop_harqProcess (ueContexts : list (Z * NbIotUeContext)) :
  forall (mac : NbIotEnbMac) (usedRbs availableRbs : Z),
    Forall (fun a => Dl.harqProcess a = 0)
           (fst (Sps.dl_loop ueContexts mac usedRbs availableRbs)).
Proof.
  induction ueContexts as [|context rest IH]; intros mac used a; simpl; [done|].
  destruct (used >=? a); [done|].
  destruct (GetDlTxQueue mac (fst context)) as [txQueue mac0].
  destruct (empty txQueue); simpl; [apply IH|].
  match goal with |- context [Sps.dl_loop rest ?m ?x a] =>
    specialize (IH m x a); destruct (Sps.dl_loop rest m x a) end.
  simpl in *. by constructor.
Qed.

Lemma sps_dl_loop_keeps (ueContexts : list (Z * NbIotUeContext)) :
  forall (mac : NbIotEnbMac) (usedRbs availableRbs : Z),
    dl_keeps mac (snd (Sps.dl_loop ueContexts mac usedRbs availableRbs)).
Proof.
  induction ueContexts as [|context rest IH]; intros mac used a; simpl; [done|].
  destruct (used >=? a); [done|].
  pose proof (GetDlTxQueue_keeps mac (fst context)) as Hk.
  destruct (GetDlTxQueue mac (fst context)) as [txQueue mac0]. simpl in Hk.
  destruct (empty txQueue); simpl.
  - eapply dl_keeps_trans; [exact Hk|apply IH].
  - match goal with |- context [Sps.dl_loop rest ?m ?x a] =>
      specialize (IH m x a); destruct (Sps.dl_loop rest m x a) end.
    eapply dl_keeps_trans; [exact Hk|exact IH].
Qed.

Lemma rr_ScheduleDl_facts (s : NbIotRoundRobinScheduler) (m_mac : bool)
    (mac : NbIotEnbMac) (availableRbs : Z) :
  let r := RoundRobin.ScheduleDl s m_mac mac availableRbs in
  Forall (fun a => Dl.harqProcess a = 0) (fst (fst r)) /\ dl_keeps mac (snd r).
Proof.
  unfold RoundRobin.ScheduleDl.
  destruct (negb m_mac || (availableRbs =? 0)); simpl; [by repeat constructor|].
  destruct (empty (GetUeContexts mac)); simpl; [by repeat constructor|].
  pose proof (lookups_only_keeps _ _
                (GetNextRnti_lookups m_mac mac (RoundRobin.m_lastDlRnti s) true)) as H1.
  destruct (RoundRobin.GetNextRnti _ _ _ _) as [rnti mac1]. simpl in H1.
  destruct (rnti =? 0); simpl; [by split|].
  pose proof (GetDlTxQueue_keeps mac1 rnti) as H2.
  destruct (GetDlTxQueue mac1 rnti) as [dlQueue mac2]. simpl in H2.
  pose proof (dl_keeps_trans _ _ _ H1 H2) as H.
  repeat case_match; simpl; (split; [by repeat constructor|done]).
Qed.

Lemma cc_ScheduleDl_facts (std_sort : list (Z * Z) -> list (Z * Z)) (m_mac : bool)
    (mac : NbIotEnbMac) (availableRbs : Z) :
  let r := CoverageClass.ScheduleDl std_sort m_mac mac availableRbs in
  Forall (fun a => Dl.harqProcess a = 0) (fst r) /\ dl_keeps mac (snd r).
Proof.
  unfold CoverageClass.ScheduleDl.
  destruct (negb m_mac || (availableRbs =? 0)); simpl; [by repeat constructor|].
  pose proof (lookups_only_keeps _ _ (dl_candidates_lookups mac)) as H1.
  destruct (CoverageClass.dl_candidates mac) as [candidateRntis mac1]. simpl in H1.
  destruct (empty candidateRntis); simpl; [by split|].
  destruct (CoverageClass.SortByPriority _ _ _) as [|rnti rest]; simpl; [by split|].
  destruct (GetUeContext mac1 rnti) as [ueContext|]; simpl; [|by split].
  pose proof (GetDlTxQueue_keeps mac1 rnti) as H2.
  destruct (GetDlTxQueue mac1 rnti) as [dlQueue mac2]. simpl in H2.
  pose proof (dl_keeps_trans _ _ _ H1 H2) as H.
  repeat case_match; simpl; (split; [by repeat constructor|done]).
Qed.

Lemma ScheduleDl_facts (std_sort : list (Z * Z) -> list (Z * Z))
    (sch : NbIotScheduler) (mac : NbIotEnbMac) (availableRbs : Z) :
  let r := ScheduleDl std_sort sch mac availableRbs in
  Forall (fun a => Dl.harqProcess a = 0) (fst (fst r)) /\ dl_keeps mac (snd r).
Proof.
  unfold ScheduleDl. destruct (policy sch) as [s| |s].
  - pose proof (rr_ScheduleDl_facts s (m_mac sch) mac availableRbs) as H.
    by destruct (RoundRobin.ScheduleDl _ _ _ _) as [[? ?] ?].
  - pose proof (cc_ScheduleDl_facts std_sort (m_mac sch) mac availableRbs) as H.
    by destruct (CoverageClass.ScheduleDl _ _ _ _) as [? ?].
  - unfold Sps.ScheduleDl. destruct (negb (m_mac sch)); simpl; [done|].
    pose proof (sps_dl_loop_harqProcess (GetUeContexts mac) mac 0 availableRbs).
    pose proof (sps_dl_loop_keeps (GetUeContexts mac) mac 0 availableRbs).
    by destruct (Sps.dl_loop _ _ _ _).
Qed.

(** *** Where the queued packets go *)

Lemma GetDlTxQueue_set (mac : NbIotEnbMac) (rnti r : Z) (q : list (Z * Packet)) :
  fst (GetDlTxQueue (set_DlTxQueue rnti q mac) r)
    = if r =? rnti then q else fst (GetDlTxQueue mac r).
Proof.
  rewrite !GetDlTxQueue_fst. unfold set_DlTxQueue. simpl.
  destruct (Z.eqb_spec r rnti) as [->|Hne].
  - by rewrite find_set_eq.
  - by rewrite find_set_ne.
Qed.

Lemma queued_lookups (mac mac' : NbIotEnbMac) (r : Z) :
  lookups_only mac mac' -> queued mac' r = queued mac r.
Proof. intros H. unfold queued. by rewrite (lookups_only_read mac mac'). Qed.

(** [collect_sdus] cuts the queue in two: the SDUs taken are its first
    packets, within the budget, and the packet left at the front, if any,
    is one the loop stopped at. *)
Lemma collect_sdus_split (dlQueue : list (Z * Packet)) (remaining : Z) :
  let r := collect_sdus dlQueue remaining in
  map snd dlQueue = fst r ++ map snd (snd r)
  /\ snd r = drop (length (fst r)) dlQueue
  /\ charged (fst r) <= Z.max remaining 0
  /\ match snd r with
     | [] => True
     | front :: _ =>
         remaining - charged (fst r) <= 3
         \/ remaining - charged (fst r) < wrap16 (GetSize (snd front)) + 2
     end.
Proof.
  revert remaining. induction dlQueue as [|front rest IH]; intros remaining; simpl.
  - repeat split. lia.
  - destruct (Z.gtb_spec remaining 3); simpl; [|repeat split; lia].
    destruct (Z.leb_spec (wrap16 (GetSize (snd front)) + 2) remaining); simpl;
      [|repeat split; lia].
    specialize (IH (remaining - (wrap16 (GetSize (snd front)) + 2))).
    destruct (collect_sdus rest _) as [sdus remainder]. simpl in *.
    destruct IH as (Hsplit & Hdrop & Hcharge & Hstop).
    assert (0 <= wrap16 (GetSize (snd front))) by (apply Z.mod_pos_bound; lia).
    repeat split.
    + by rewrite Hsplit.
    + done.
    + lia.
    + destruct remainder; [done|].
      replace (remaining - (wrap16 (GetSize (snd front)) + 2 + charged sdus))
        with (remaining - (wrap16 (GetSize (snd front)) + 2) - charged sdus) by lia.
      done.
Qed.

Lemma serve_conserves (mac mac2 : NbIotEnbMac) (rnti tbSize r : Z) :
  lookups_only mac mac2 ->
  queued mac r
    = (if r =? rnti then fst (collect_sdus (fst (GetDlTxQueue mac rnti)) tbSize) else [])
      ++ queued (set_DlTxQueue rnti
                   (snd (collect_sdus (fst (GetDlTxQueue mac rnti)) tbSize)) mac2) r.
Proof.
  intros Hl. unfold queued. rewrite GetDlTxQueue_set, (lookups_only_read mac mac2) by done.
  destruct (Z.eqb_spec r rnti) as [->|Hne]; [|done].
  apply collect_sdus_split.
Qed.

Lemma rr_ScheduleDl_conserves (s : NbIotRoundRobinScheduler) (m_mac : bool)
    (mac : NbIotEnbMac) (availableRbs r : Z) :
  let res := RoundRobin.ScheduleDl s m_mac mac availableRbs in
  queued mac r = sdus_for r (fst (fst res)) ++ queued (snd res) r.
Proof.
  cbv zeta. unfold RoundRobin.ScheduleDl.
  destruct (negb m_mac || (availableRbs =? 0)); [done|].
  destruct (empty (GetUeContexts mac)); [done|].
  pose proof (GetNextRnti_lookups m_mac mac (RoundRobin.m_lastDlRnti s) true) as H1.
  destruct (RoundRobin.GetNextRnti _ _ _ _) as [rnti mac1]. simpl in H1.
  destruct (rnti =? 0); [symmetry; by apply queued_lookups|].
  pose proof (GetDlTxQueue_lookups mac1 rnti) as H2.
  pose proof (lookups_only_read mac mac1 rnti H1) as Hread.
  destruct (GetDlTxQueue mac1 rnti) as [dlQueue mac2]. simpl in H2, Hread.
  pose proof (lookups_only_trans _ _ _ H1 H2) as H12.
  destruct (empty dlQueue); [symmetry; by apply queued_lookups|].
  destruct (GetUeContext mac2 rnti) as [ueContext|];
    [|symmetry; by apply queued_lookups].
  pose proof (serve_conserves mac mac2 rnti
                (GetTbsFromMcsAndRbs (Z.min (Ue.cqi ueContext) 10) 1) r H12) as H.
  rewrite <- Hread in H.
  destruct (collect_sdus _ _) as [sdus remainder].
  destruct sdus as [|x sdus]; simpl in *.
  - by destruct (r =? rnti).
  - unfold sdus_for. simpl. rewrite (Z.eqb_sym rnti r).
    destruct (r =? rnti); simpl in *; [by rewrite app_nil_r|done].
Qed.

Lemma cc_ScheduleDl_conserves (std_sort : list (Z * Z) -> list (Z * Z)) (m_mac : bool)
    (mac : NbIotEnbMac) (availableRbs r : Z) :
  let res := CoverageClass.ScheduleDl std_sort m_mac mac availableRbs in
  queued mac r = sdus_for r (fst res) ++ queued (snd res) r.
Proof.
  cbv zeta. unfold CoverageClass.ScheduleDl.
  destruct (negb m_mac || (availableRbs =? 0)); [done|].
  pose proof (dl_candidates_lookups mac) as H1.
  destruct (CoverageClass.dl_candidates mac) as [candidateRntis mac1]. simpl in H1.
  destruct (empty candidateRntis); [symmetry; by apply queued_lookups|].
  destruct (CoverageClass.SortByPriority _ _ _) as [|rnti ?];
    [symmetry; by apply queued_lookups|].
  destruct (GetUeContext mac1 rnti) as [ueContext|];
    [|symmetry; by apply queued_lookups].
  pose proof (GetDlTxQueue_lookups mac1 rnti) as H2.
  pose proof (lookups_only_read mac mac1 rnti H1) as Hread.
  destruct (GetDlTxQueue mac1 rnti) as [dlQueue mac2]. simpl in H2, Hread.
  pose proof (lookups_only_trans _ _ _ H1 H2) as H12.
  pose proof (serve_conserves mac mac2 rnti
                (GetTbsFromMcsAndRbs (Z.min (Ue.cqi ueContext) 10) 1) r H12) as H.
  rewrite <- Hread in H.
  destruct (collect_sdus _ _) as [sdus remainder].
  destruct sdus as [|x sdus]; simpl in *.
  - by destruct (r =? rnti).
  - unfold sdus_for. simpl. rewrite (Z.eqb_sym rnti r).
    destruct (r =? rnti); simpl in *; [by rewrite app_nil_r|done].
Qed.

Lemma sps_dl_loop_conserves (ueContexts : list (Z * NbIotUeContext)) (r : Z) :
  forall (mac : NbIotEnbMac) (usedRbs availableRbs : Z),
    let res := Sps.dl_loop ueContexts mac usedRbs availableRbs in
    queued mac r = sdus_for r (fst res) ++ queued (snd res) r.
Proof.
  induction ueContexts as [|context rest IH]; intros mac used a; simpl; [done|].
  destruct (used >=? a); [done|].
  pose proof (GetDlTxQueue_lookups mac (fst context)) as Hl.
  destruct (GetDlTxQueue mac (fst context)) as [txQueue mac0] eqn:Hq.
  simpl in Hl.
  destruct txQueue as [|front q]; simpl.
  { rewrite <- (queued_lookups mac mac0 r Hl). apply IH. }
  match goal with |- context [Sps.dl_loop rest ?m ?x a] =>
    specialize (IH m x a); destruct (Sps.dl_loop rest m x a) as [assignments mac2] end.
  simpl in *. unfold sdus_for. simpl. rewrite (Z.eqb_sym (fst context) r).
  revert IH. unfold queued at 1 3. rewrite GetDlTxQueue_set.
  rewrite (lookups_only_read mac mac0 r Hl).
  destruct (Z.eqb_spec r (fst context)) as [->|Hne]; simpl.
  - intros IH. rewrite Hq. simpl. rewrite <- app_assoc.
    fold (sdus_for (fst context) assignments).
    rewrite <- IH, <- map_app, take_drop. done.
  - done.
Qed.

Lemma ScheduleDl_nonempty_sdus (std_sort : list (Z * Z) -> list (Z * Z))
    (sch : NbIotScheduler) (mac : NbIotEnbMac) (availableRbs : Z) :
  Forall (fun a => Dl.sdus a <> []) (fst (fst (ScheduleDl std_sort sch mac availableRbs))).
Proof.
  unfold ScheduleDl. destruct (policy sch) as [s| |s].
  - unfold RoundRobin.ScheduleDl.
    destruct (negb (m_mac sch) || (availableRbs =? 0)); [constructor|].
    destruct (empty (GetUeContexts mac)); [constructor|].
    destruct (RoundRobin.GetNextRnti _ _ _ _) as [rnti mac1].
    destruct (_ =? 0); [constructor|].
    destruct (GetDlTxQueue _ _) as [dlQueue mac2].
    destruct (empty dlQueue); [constructor|].
    destruct (GetUeContext _ _) as [ueContext|]; [|constructor].
    destruct (collect_sdus _ _) as [[|x sdus] remainder]; simpl; by repeat constructor.
  - unfold CoverageClass.ScheduleDl.
    destruct (negb (m_mac sch) || (availableRbs =? 0)); [constructor|].
    destruct (CoverageClass.dl_candidates mac) as [candidateRntis mac1].
    destruct (empty candidateRntis); [constructor|].
    destruct (CoverageClass.SortByPriority _ _ _) as [|rnti ?]; [constructor|].
    destruct (GetUeContext _ _) as [ueContext|]; [|constructor].
    destruct (GetDlTxQueue _ _) as [dlQueue mac2].
    destruct (collect_sdus _ _) as [[|x sdus] remainder]; simpl; by repeat constructor.
  - unfold Sps.ScheduleDl. destruct (negb (m_mac sch)); simpl; [constructor|].
    generalize 0 at 1. generalize mac at 2.
    induction (GetUeContexts mac) as [|context rest IH]; intros mac0 used; simpl;
      [constructor|].
    destruct (used >=? availableRbs); [constructor|].
    destruct (GetDlTxQueue mac0 (fst context)) as [[|front q] mac1]; simpl; [apply IH|].
    match goal with |- context [Sps.dl_loop rest ?m ?x ?a] =>
      specialize (IH m x); destruct (Sps.dl_loop rest m x a) end.
    simpl in *. by constructor.
Qed.

Lemma dl_scheduling_conserves (std_sort : list (Z * Z) -> list (Z * Z))
    (sch : NbIotScheduler) (mac : NbIotEnbMac) (availableRbs : Z) :
  let res := ScheduleDl std_sort sch mac availableRbs in
  (forall rnti, queued mac rnti = sdus_for rnti (fst (fst res)) ++ queued (snd res) rnti)
  /\ dl_keeps mac (snd res).
Proof.
  split; [|apply ScheduleDl_facts].
  intros rnti. unfold ScheduleDl. destruct (policy sch) as [s| |s].
  - pose proof (rr_ScheduleDl_conserves s (m_mac sch) mac availableRbs rnti) as H.
    by destruct (RoundRobin.ScheduleDl _ _ _ _) as [[? ?] ?].
  - pose proof (cc_ScheduleDl_conserves std_sort (m_mac sch) mac availableRbs rnti) as H.
    by destruct (CoverageClass.ScheduleDl _ _ _ _) as [? ?].
  - unfold Sps.ScheduleDl. destruct (negb (m_mac sch)); simpl; [done|].
    pose proof (sps_dl_loop_conserves (GetUeContexts mac) rnti mac 0 availableRbs) as H.
    by destruct (Sps.dl_loop _ _ _ _).
Qed.

(** *** Lookups do not change what is scheduled *)

Lemma same_reads_sym (a b : NbIotEnbMac) : same_reads a b -> same_reads b a.
Proof. intros [Hc Hq]. split; [done|]. intros rnti. by rewrite Hq. Qed.

Lemma same_reads_trans (a b c : NbIotEnbMac) :
  same_reads a b -> same_reads b c -> same_reads a c.
Proof.
  intros [Hc1 Hq1] [Hc2 Hq2]. split; [congruence|].
  intros rnti. by rewrite Hq2, Hq1.
Qed.

Lemma lookups_only_same_reads (a b : NbIotEnbMac) : lookups_only a b -> same_reads a b.
Proof.
  intros Hl. split; [apply Hl|]. intros rnti. by apply lookups_only_read.
Qed.

Lemma same_reads_set (a b : NbIotEnbMac) (r : Z) (q : list (Z * Packet)) :
  same_reads a b -> same_reads (set_DlTxQueue r q a) (set_DlTxQueue r q b).
Proof.
  intros [Hc Hq]. split; [done|]. intros rnti. by rewrite !GetDlTxQueue_set, Hq.
Qed.

(** Two MACs that read the same still do after the same function of lookups
    has run on each. *)
Lemma same_reads_after (a b a' b' : NbIotEnbMac) :
  same_reads a b -> lookups_only a a' -> lookups_only b b' -> same_reads a' b'.
Proof.
  intros Hab Ha Hb.
  eapply same_reads_trans; [apply same_reads_sym, lookups_only_same_reads, Ha|].
  eapply same_reads_trans; [exact Hab|]. by apply lookups_only_same_reads.
Qed.

Lemma next_with_data_cong (dl : bool) (visit : list (Z * NbIotUeContext)) :
  forall a b : NbIotEnbMac,
    same_reads a b ->
    fst (RoundRobin.next_with_data dl b visit) = fst (RoundRobin.next_with_data dl a visit).
Proof.
  induction visit as [|[first second] rest IH]; intros a b Hab; simpl; [done|].
  destruct (Ue.connected second); [|by apply IH].
  unfold RoundRobin.dl_has_data. destruct dl; simpl.
  - pose proof (GetDlTxQueue_lookups a first) as Ha.
    pose proof (GetDlTxQueue_lookups b first) as Hb.
    pose proof (proj2 Hab first) as Hq.
    destruct (GetDlTxQueue a first) as [qa a1], (GetDlTxQueue b first) as [qb b1].
    simpl in *. subst qb.
    destruct (negb (empty qa)); [done|].
    apply IH. by eapply same_reads_after.
  - destruct (ul_pending second); [done|by apply IH].
Qed.

Lemma GetNextRnti_cong (m_mac : bool) (a b : NbIotEnbMac) (lastRnti : Z) (dl : bool) :
  same_reads a b ->
  fst (RoundRobin.GetNextRnti m_mac b lastRnti dl)
    = fst (RoundRobin.GetNextRnti m_mac a lastRnti dl).
Proof.
  intros Hab. unfold RoundRobin.GetNextRnti, GetUeContexts. rewrite (proj1 Hab).
  destruct (negb m_mac); [done|].
  destruct (empty (m_ueContexts a)); [done|]. by apply next_with_data_cong.
Qed.

Lemma dl_candidates_cong (a b : NbIotEnbMac) :
  same_reads a b ->
  fst (CoverageClass.dl_candidates b) = fst (CoverageClass.dl_candidates a).
Proof.
  intros [Hc Hq]. unfold CoverageClass.dl_candidates, GetUeContexts.
  rewrite !(proj1 (dl_candidates_loop_spec _ _)), Hc.
  apply omap_ext_all. intros [r c]. by rewrite Hq.
Qed.

Lemma SortByPriority_contexts (std_sort : list (Z * Z) -> list (Z * Z))
    (a b : NbIotEnbMac) (ueList : list Z) :
  m_ueContexts b = m_ueContexts a ->
  CoverageClass.SortByPriority std_sort b ueList
    = CoverageClass.SortByPriority std_sort a ueList.
Proof.
  intros Hc. unfold CoverageClass.SortByPriority, CoverageClass.rntiPriority, GetUeContext.
  by rewrite Hc.
Qed.

(** The round-robin downlink call, by cases: nothing is taken from a queue
    and the MAC differs by lookups only, or the endpoint [GetNextRnti]
    returns is served from the front of its queue. *)
Lemma rr_ScheduleDl_cases (s : NbIotRoundRobinScheduler) (m_mac : bool)
    (mac : NbIotEnbMac) (availableRbs : Z) :
  (exists mac', RoundRobin.ScheduleDl s m_mac mac availableRbs = ([], s, mac')
                /\ lookups_only mac mac')
  \/ (exists rnti ueContext mac2 sdus remainder,
        (m_mac = true /\ availableRbs <> 0 /\ m_ueContexts mac <> [])
        /\ rnti = fst (RoundRobin.GetNextRnti m_mac mac (RoundRobin.m_lastDlRnti s) true)
        /\ rnti <> 0
        /\ fst (GetDlTxQueue mac rnti) <> []
        /\ GetUeContext mac rnti = Some ueContext
        /\ lookups_only mac mac2
        /\ collect_sdus (fst (GetDlTxQueue mac rnti))
             (GetTbsFromMcsAndRbs (Z.min (Ue.cqi ueContext) 10) 1) = (sdus, remainder)
        /\ RoundRobin.ScheduleDl s m_mac mac availableRbs
           = if negb (empty sdus)
             then ([Dl.mk rnti (Z.min (Ue.cqi ueContext) 10)
                      (GetTbsFromMcsAndRbs (Z.min (Ue.cqi ueContext) 10) 1) 1
                      (at_index NPDSCH_REPETITIONS
                         (Z.min (Ue.coverageClass ueContext * 2)
                                (size NPDSCH_REPETITIONS - 1)))
                      0 true 0 sdus],
                   RoundRobin.mk rnti (RoundRobin.m_lastUlRnti s),
                   set_DlTxQueue rnti remainder mac2)
             else ([], s, set_DlTxQueue rnti remainder mac2)).
Proof.
  unfold RoundRobin.ScheduleDl.
  destruct m_mac; simpl; [|left; eexists; split; [done|apply lookups_only_refl]].
  destruct (Z.eqb_spec availableRbs 0) as [|Ha]; simpl;
    [left; eexists; split; [done|apply lookups_only_refl]|].
  unfold GetUeContexts.
  destruct (m_ueContexts mac) as [|entry entries] eqn:Hctx; simpl;
    [left; eexists; split; [done|apply lookups_only_refl]|].
  pose proof (GetNextRnti_lookups true mac (RoundRobin.m_lastDlRnti s) true) as H1.
  destruct (RoundRobin.GetNextRnti true mac _ true) as [rnti mac1]. simpl in H1 |- *.
  destruct (Z.eqb_spec rnti 0) as [|Hr]; [left; by eexists|].
  pose proof (GetDlTxQueue_lookups mac1 rnti) as H2.
  pose proof (lookups_only_read mac mac1 rnti H1) as Hread.
  destruct (GetDlTxQueue mac1 rnti) as [dlQueue mac2]. simpl in H2, Hread.
  pose proof (lookups_only_trans _ _ _ H1 H2) as H12. subst dlQueue.
  destruct (fst (GetDlTxQueue mac rnti)) as [|front queue] eqn:Hq;
    [left; by eexists|]. cbn [empty].
  unfold GetUeContext. rewrite (proj1 (proj2 H12)).
  destruct (Map16.find rnti (m_ueContexts mac)) as [ueContext|] eqn:Hc;
    [|left; by eexists].
  right.
  destruct (collect_sdus (front :: queue) _) as [sdus remainder] eqn:Hcol.
  exists rnti, ueContext, mac2, sdus, remainder.
  split; [by repeat split|]. split; [done|]. split; [done|].
  split; [by rewrite Hq|]. split; [done|]. split; [done|].
  split; [by rewrite Hq|]. done.
Qed.

(** The coverage-class downlink call, by cases. *)
Lemma cc_ScheduleDl_cases (std_sort : list (Z * Z) -> list (Z * Z)) (m_mac : bool)
    (mac : NbIotEnbMac) (availableRbs : Z) :
  (exists mac', CoverageClass.ScheduleDl std_sort m_mac mac availableRbs = ([], mac')
                /\ lookups_only mac mac')
  \/ (exists rnti rest ueContext mac2 sdus remainder,
        (m_mac = true /\ availableRbs <> 0)
        /\ CoverageClass.SortByPriority std_sort mac (fst (CoverageClass.dl_candidates mac))
             = rnti :: rest
        /\ GetUeContext mac rnti = Some ueContext
        /\ lookups_only mac mac2
        /\ collect_sdus (fst (GetDlTxQueue mac rnti))
             (GetTbsFromMcsAndRbs (Z.min (Ue.cqi ueContext) 10) 1) = (sdus, remainder)
        /\ CoverageClass.ScheduleDl std_sort m_mac mac availableRbs
           = if negb (empty sdus)
             then ([Dl.mk rnti (Z.min (Ue.cqi ueContext) 10)
                      (GetTbsFromMcsAndRbs (Z.min (Ue.cqi ueContext) 10) 1) 1
                      (at_index NPDSCH_REPETITIONS
                         (Z.min (Ue.coverageClass ueContext * 3)
                                (size NPDSCH_REPETITIONS - 1)))
                      0 true 0 sdus],
                   set_DlTxQueue rnti remainder mac2)
             else ([], set_DlTxQueue rnti remainder mac2)).
Proof.
  unfold CoverageClass.ScheduleDl.
  destruct m_mac; simpl; [|left; eexists; split; [done|apply lookups_only_refl]].
  destruct (Z.eqb_spec availableRbs 0) as [|Ha]; simpl;
    [left; eexists; split; [done|apply lookups_only_refl]|].
  pose proof (dl_candidates_lookups mac) as H1.
  destruct (CoverageClass.dl_candidates mac) as [candidateRntis mac1]. simpl in H1 |- *.
  destruct (empty candidateRntis); [left; by eexists|].
  rewrite (SortByPriority_contexts std_sort mac mac1) by apply H1.
  destruct (CoverageClass.SortByPriority std_sort mac candidateRntis)
    as [|rnti rest] eqn:Hs; [left; by eexists|].
  unfold GetUeContext. rewrite (proj1 (proj2 H1)).
  destruct (Map16.find rnti (m_ueContexts mac)) as [ueContext|] eqn:Hc;
    [|left; by eexists].
  pose proof (GetDlTxQueue_lookups mac1 rnti) as H2.
  pose proof (lookups_only_read mac mac1 rnti H1) as Hread.
  destruct (GetDlTxQueue mac1 rnti) as [dlQueue mac2]. simpl in H2, Hread.
  pose proof (lookups_only_trans _ _ _ H1 H2) as H12. subst dlQueue.
  right.
  destruct (collect_sdus (fst (GetDlTxQueue mac rnti)) _) as [sdus remainder] eqn:Hcol.
  exists rnti, rest, ueContext, mac2, sdus, remainder.
  do 5 (split; [done|]). done.
Qed.

Lemma collect_sdus_none (dlQueue : list (Z * Packet)) (remaining : Z) :
  fst (collect_sdus dlQueue remaining) = [] -> snd (collect_sdus dlQueue remaining) = dlQueue.
Proof.
  destruct dlQueue as [|front rest]; simpl; [done|].
  destruct (remaining >? 3); [|done].
  destruct (_ <=? remaining); [|done].
  by destruct (collect_sdus rest _).
Qed.

(** Writing back the queue that was read is a lookup. *)
Lemma lookups_only_write_back (mac mac2 : NbIotEnbMac) (rnti : Z) :
  lookups_only mac mac2 ->
  lookups_only mac (set_DlTxQueue rnti (fst (GetDlTxQueue mac rnti)) mac2).
Proof.
  intros (? & ? & ? & ? & ? & Hq). unfold lookups_only. simpl.
  do 5 (split; [done|]). intros k. rewrite GetDlTxQueue_fst.
  destruct (Z.eq_dec k rnti) as [->|Hne].
  - rewrite find_set_eq.
    destruct (Map16.find rnti (m_dlTxQueues mac)); simpl; [by left|by right].
  - rewrite find_set_ne by done. apply Hq.
Qed.

Lemma sps_dl_loop_none (ueContexts : list (Z * NbIotUeContext)) :
  forall (mac : NbIotEnbMac) (usedRbs availableRbs : Z),
    fst (Sps.dl_loop ueContexts mac usedRbs availableRbs) = [] ->
    lookups_only mac (snd (Sps.dl_loop ueContexts mac usedRbs availableRbs)).
Proof.
  induction ueContexts as [|context rest IH]; intros mac used a; simpl;
    [intros _; apply lookups_only_refl|].
  destruct (used >=? a); [intros _; apply lookups_only_refl|].
  pose proof (GetDlTxQueue_lookups mac (fst context)) as Hl.
  destruct (GetDlTxQueue mac (fst context)) as [txQueue mac0]. simpl in Hl.
  destruct (empty txQueue); simpl.
  - intros H. eapply lookups_only_trans; [exact Hl|by apply IH].
  - by destruct (Sps.dl_loop rest _ _ _).
Qed.

(** A downlink call that returns no assignment: the scheduler is as before,
    and the MAC differs by lookups only. *)
Lemma ScheduleDl_none (std_sort : list (Z * Z) -> list (Z * Z))
    (sch : NbIotScheduler) (mac : NbIotEnbMac) (availableRbs : Z) :
  fst (fst (ScheduleDl std_sort sch mac availableRbs)) = [] ->
  snd (fst (ScheduleDl std_sort sch mac availableRbs)) = sch
  /\ lookups_only mac (snd (ScheduleDl std_sort sch mac availableRbs)).
Proof.
  unfold ScheduleDl. destruct sch as [m_mac [s| |s]]; simpl.
  - destruct (rr_ScheduleDl_cases s m_mac mac availableRbs)
      as [(mac' & -> & Hl)|(rnti & c & mac2 & sdus & remainder & _ & _ & _ & _ & _
                            & Hl & Hcol & ->)]; [done|].
    pose proof (collect_sdus_none (fst (GetDlTxQueue mac rnti))
                  (GetTbsFromMcsAndRbs (Z.min (Ue.cqi c) 10) 1)) as Hnone.
    rewrite Hcol in Hnone. simpl in Hnone.
    destruct sdus as [|x sdus]; simpl; [|done]. intros _.
    rewrite Hnone by done. split; [done|]. by apply lookups_only_write_back.
  - destruct (cc_ScheduleDl_cases std_sort m_mac mac availableRbs)
      as [(mac' & -> & Hl)|(rnti & rest & c & mac2 & sdus & remainder & _ & _ & _
                            & Hl & Hcol & ->)]; [done|].
    pose proof (collect_sdus_none (fst (GetDlTxQueue mac rnti))
                  (GetTbsFromMcsAndRbs (Z.min (Ue.cqi c) 10) 1)) as Hnone.
    rewrite Hcol in Hnone. simpl in Hnone.
    destruct sdus as [|x sdus]; simpl; [|done]. intros _.
    rewrite Hnone by done. split; [done|]. by apply lookups_only_write_back.
  - unfold Sps.ScheduleDl. destruct (negb m_mac); simpl;
      [intros _; split; [done|apply lookups_only_refl]|].
    pose proof (sps_dl_loop_none (GetUeContexts mac) mac 0 availableRbs) as Hnone.
    destruct (Sps.dl_loop _ _ _ _) as [assignments mac']. simpl in *.
    intros ->. split; [done|]. by apply Hnone.
Qed.

Lemma sps_dl_loop_cong (ueContexts : list (Z * NbIotUeContext)) :
  forall (a b : NbIotEnbMac) (usedRbs availableRbs : Z),
    same_reads a b ->
    fst (Sps.dl_loop ueContexts b usedRbs availableRbs)
      = fst (Sps.dl_loop ueContexts a usedRbs availableRbs).
Proof.
  induction ueContexts as [|context rest IH]; intros a b used av Hab; simpl; [done|].
  destruct (used >=? av); [done|].
  pose proof (GetDlTxQueue_lookups a (fst context)) as Ha.
  pose proof (GetDlTxQueue_lookups b (fst context)) as Hb.
  pose proof (proj2 Hab (fst context)) as Hq.
  destruct (GetDlTxQueue a (fst context)) as [qa a0],
           (GetDlTxQueue b (fst context)) as [qb b0].
  simpl in *. subst qb.
  pose proof (same_reads_after _ _ _ _ Hab Ha Hb) as H0.
  destruct (empty qa); simpl; [by apply IH|].
  specialize (IH (set_DlTxQueue (fst context) (drop 8 qa) a0)
                 (set_DlTxQueue (fst context) (drop 8 qa) b0)
                 (wrap8 (used + 1)) av (same_reads_set _ _ _ _ H0)).
  destruct (Sps.dl_loop rest (set_DlTxQueue _ _ a0) _ _),
           (Sps.dl_loop rest (set_DlTxQueue _ _ b0) _ _).
  simpl in *. by rewrite IH.
Qed.

Lemma rr_ScheduleDl_cong (s : NbIotRoundRobinScheduler) (m_mac : bool)
    (a b : NbIotEnbMac) (availableRbs : Z) :
  same_reads a b ->
  fst (RoundRobin.ScheduleDl s m_mac b availableRbs)
    = fst (RoundRobin.ScheduleDl s m_mac a availableRbs).
Proof.
  intros Hab. unfold RoundRobin.ScheduleDl.
  destruct (negb m_mac || (availableRbs =? 0)); [done|].
  unfold GetUeContexts. rewrite (proj1 Hab).
  destruct (empty (m_ueContexts a)); [done|].
  pose proof (GetNextRnti_cong m_mac a b (RoundRobin.m_lastDlRnti s) true Hab) as Hr.
  pose proof (GetNextRnti_lookups m_mac a (RoundRobin.m_lastDlRnti s) true) as Hla.
  pose proof (GetNextRnti_lookups m_mac b (RoundRobin.m_lastDlRnti s) true) as Hlb.
  destruct (RoundRobin.GetNextRnti m_mac a _ true) as [ra a1],
           (RoundRobin.GetNextRnti m_mac b _ true) as [rb b1].
  simpl in *. subst rb.
  destruct (ra =? 0); [done|].
  pose proof (same_reads_after _ _ _ _ Hab Hla Hlb) as H1.
  pose proof (GetDlTxQueue_lookups a1 ra) as Ha2.
  pose proof (GetDlTxQueue_lookups b1 ra) as Hb2.
  pose proof (proj2 H1 ra) as Hq.
  destruct (GetDlTxQueue a1 ra) as [qa a2], (GetDlTxQueue b1 ra) as [qb b2].
  simpl in *. subst qb.
  destruct (empty qa); [done|].
  pose proof (same_reads_after _ _ _ _ H1 Ha2 Hb2) as H2.
  unfold GetUeContext. rewrite (proj1 H2).
  destruct (Map16.find ra (m_ueContexts a2)); [|done].
  destruct (collect_sdus _ _) as [sdus remainder].
  by destruct (empty sdus).
Qed.

Lemma cc_ScheduleDl_cong (std_sort : list (Z * Z) -> list (Z * Z)) (m_mac : bool)
    (a b : NbIotEnbMac) (availableRbs : Z) :
  same_reads a b ->
  fst (CoverageClass.ScheduleDl std_sort m_mac b availableRbs)
    = fst (CoverageClass.ScheduleDl std_sort m_mac a availableRbs).
Proof.
  intros Hab. unfold CoverageClass.ScheduleDl.
  destruct (negb m_mac || (availableRbs =? 0)); [done|].
  pose proof (dl_candidates_cong a b Hab) as Hcand.
  pose proof (dl_candidates_lookups a) as Hla.
  pose proof (dl_candidates_lookups b) as Hlb.
  destruct (CoverageClass.dl_candidates a) as [ca a1],
           (CoverageClass.dl_candidates b) as [cb b1].
  simpl in *. subst cb.
  destruct (empty ca); [done|].
  pose proof (same_reads_after _ _ _ _ Hab Hla Hlb) as H1.
  rewrite (SortByPriority_contexts std_sort a1 b1) by apply H1.
  destruct (CoverageClass.SortByPriority std_sort a1 ca) as [|rnti rest]; [done|].
  unfold GetUeContext. rewrite (proj1 H1).
  destruct (Map16.find rnti (m_ueContexts a1)); [|done].
  pose proof (proj2 H1 rnti) as Hq.
  destruct (GetDlTxQueue a1 rnti) as [qa a2], (GetDlTxQueue b1 rnti) as [qb b2].
  simpl in *. subst qb.
  destruct (collect_sdus _ _) as [sdus remainder].
  by destruct (empty sdus).
Qed.

(** What a downlink call assigns, and the scheduler it leaves, depend on the
    MAC through its contexts and what its queues read only. *)
Lemma ScheduleDl_cong (std_sort : list (Z * Z) -> list (Z * Z))
    (sch : NbIotScheduler) (a b : NbIotEnbMac) (availableRbs : Z) :
  same_reads a b ->
  fst (ScheduleDl std_sort sch b availableRbs) = fst (ScheduleDl std_sort sch a availableRbs).
Proof.
  intros Hab. unfold ScheduleDl. destruct sch as [m_mac [s| |s]]; simpl.
  - pose proof (rr_ScheduleDl_cong s m_mac a b availableRbs Hab) as H.
    destruct (RoundRobin.ScheduleDl s m_mac a _) as [[? ?] ?],
             (RoundRobin.ScheduleDl s m_mac b _) as [[? ?] ?].
    simpl in *. by injection H as -> ->.
  - pose proof (cc_ScheduleDl_cong std_sort m_mac a b availableRbs Hab) as H.
    destruct (CoverageClass.ScheduleDl std_sort m_mac a _) as [? ?],
             (CoverageClass.ScheduleDl std_sort m_mac b _) as [? ?].
    simpl in *. by rewrite H.
  - unfold Sps.ScheduleDl. destruct (negb m_mac); [done|].
    unfold GetUeContexts. rewrite (proj1 Hab).
    pose proof (sps_dl_loop_cong (m_ueContexts a) a b 0 availableRbs Hab) as H.
    destruct (Sps.dl_loop _ a _ _) as [? ?], (Sps.dl_loop _ b _ _) as [? ?].
    simpl in *. by rewrite H.
Qed.


Lemma TransmitDlPdu_store (mac0 : NbIotEnbMac) (a : NbIotDlAssignmentResult)
    (mgr : NbIotHarqManager) :
  Map16.find (Dl.rnti a) (m_dlHarqManagers mac0) = Some mgr ->
  Dl.harqProcess a < m_numProcesses mgr ->
  Map16.find (Dl.rnti a) (m_dlHarqManagers (TransmitDlPdu mac0 a))
    = Some (set_process_at (Dl.harqProcess a)
              (store_block a (process_at mgr (Dl.harqProcess a))) mgr).
Proof.
  intros Hmgr Hlt. unfold TransmitDlPdu. rewrite Hmgr. unfold GetProcess.
  destruct (Z.ltb_spec (Dl.harqProcess a) (m_numProcesses mgr)); [|lia].
  match goal with |- context [phy_call ?c2 (phy_call ?c1 ?m)] =>
    destruct (phy_call_rest c2 (phy_call c1 m)) as (_ & _ & ->);
    destruct (phy_call_rest c1 m) as (_ & _ & ->) end.
  simpl. by rewrite find_update_eq, Hmgr.
Qed.

(** ** Who writes the backlog *)

Lemma backlog_map_update (k : Z) (f : NbIotUeContext -> NbIotUeContext)
    (m : list (Z * NbIotUeContext)) :
  (forall c, Ue.totalBufferSize (f c) = Ue.totalBufferSize c) ->
  map (fun kc => (fst kc, Ue.totalBufferSize (snd kc))) (Map16.update k f m)
    = map (fun kc => (fst kc, Ue.totalBufferSize (snd kc))) m.
Proof.
  intros Hf. induction m as [|[k' c] m IH]; simpl; [done|].
  destruct (k' =? k); simpl; [by rewrite Hf|by rewrite IH].
Qed.

Lemma backlogs_update (k : Z) (f : NbIotUeContext -> NbIotUeContext) (mac : NbIotEnbMac) :
  (forall c, Ue.totalBufferSize (f c) = Ue.totalBufferSize c) ->
  backlogs (set_ueContexts (Map16.update k f (m_ueContexts mac)) mac) = backlogs mac.
Proof. intros Hf. unfold backlogs. simpl. by apply backlog_map_update. Qed.

Lemma rr_ul_loop_backlog (ueContexts : list (Z * NbIotUeContext)) :
  map (fun kc => (fst kc, Ue.totalBufferSize (snd kc)))
      (snd (RoundRobin.ul_loop ueContexts))
    = map (fun kc => (fst kc, Ue.totalBufferSize (snd kc))) ueContexts.
Proof.
  induction ueContexts as [|[rnti context] rest IH]; simpl; [done|].
  destruct (RoundRobin.ul_loop rest) as [g rest'].
  destruct (Ue.connected context); simpl; [|by f_equal].
  destruct (ul_pending context); simpl; [done|by f_equal].
Qed.

Lemma rr_ul_loop_granted_key (ueContexts : list (Z * NbIotUeContext))
    (grant : NbIotUlGrantResult) :
  fst (RoundRobin.ul_loop ueContexts) = Some grant ->
  Ul.rnti grant ∈ Map16.keys ueContexts.
Proof.
  unfold Map16.keys.
  induction ueContexts as [|[rnti context] rest IH]; simpl; [done|].
  destruct (RoundRobin.ul_loop rest) as [g rest'].
  destruct (Ue.connected context); simpl.
  - destruct (ul_pending context); simpl.
    + intros [= <-]. apply list_elem_of_here.
    + intros H. apply list_elem_of_further. by apply IH.
  - intros H. apply list_elem_of_further. by apply IH.
Qed.

Lemma rr_ul_loop_sr (ueContexts : list (Z * NbIotUeContext))
    (grant : NbIotUlGrantResult) :
  NoDup (Map16.keys ueContexts) ->
  fst (RoundRobin.ul_loop ueContexts) = Some grant ->
  exists context,
    Map16.find (Ul.rnti grant) (snd (RoundRobin.ul_loop ueContexts)) = Some context
    /\ Ue.srReceived context = false.
Proof.
  unfold Map16.keys.
  induction ueContexts as [|[rnti context] rest IH]; simpl; [done|].
  intros [Hnotin Hnd]%NoDup_cons.
  pose proof (rr_ul_loop_granted_key rest grant) as Hkey.
  destruct (RoundRobin.ul_loop rest) as [g rest'] eqn:Hloop. simpl in *.
  assert (Hskip : g = Some grant ->
    exists context0,
      Map16.find (Ul.rnti grant) ((rnti, context) :: rest') = Some context0
      /\ Ue.srReceived context0 = false).
  { intros Hg. simpl. destruct (Z.eqb_spec rnti (Ul.rnti grant)) as [->|Hne].
    - exfalso. apply Hnotin. by apply Hkey.
    - by apply IH. }
  destruct (Ue.connected context); simpl; [|exact Hskip].
  destruct (ul_pending context); simpl; [|exact Hskip].
  intros [= <-]. simpl. rewrite Z.eqb_refl. by eexists.
Qed.

Lemma sr_cleared_update (mac : NbIotEnbMac) (rnti k : Z) :
  sr_cleared mac rnti ->
  sr_cleared (set_ueContexts
                (Map16.update k (Ue.set_srReceived false) (m_ueContexts mac)) mac) rnti.
Proof.
  intros (c & Hc & Hsr). unfold sr_cleared, GetUeContext in *. simpl.
  destruct (Z.eq_dec rnti k) as [->|Hne].
  - rewrite find_update_eq, Hc. by eexists.
  - rewrite find_update_ne by done. by exists c.
Qed.

Lemma dynamic_loop_backlog (ues : list Z) :
  forall (mac : NbIotEnbMac) (usedRbs availableRbs : Z),
    backlogs (snd (Sps.dynamic_loop ues mac usedRbs availableRbs)) = backlogs mac.
Proof.
  induction ues as [|rnti rest IH]; intros mac u a; simpl; [done|].
  destruct (u >=? a); [done|].
  destruct (GetUeContext mac rnti) as [ueContext|]; [|apply IH].
  destruct (Sps.SelectMcsAndTbs _ _) as [mcs tbSize].
  match goal with |- context [Sps.dynamic_loop rest ?m ?x a] =>
    specialize (IH m x a); destruct (Sps.dynamic_loop rest m x a) end.
  simpl in *. rewrite IH. by apply backlogs_update.
Qed.

Lemma dynamic_loop_keeps_sr (ues : list Z) (rnti : Z) :
  forall (mac : NbIotEnbMac) (usedRbs availableRbs : Z),
    sr_cleared mac rnti ->
    sr_cleared (snd (Sps.dynamic_loop ues mac usedRbs availableRbs)) rnti.
Proof.
  induction ues as [|r rest IH]; intros mac u a Hsr; simpl; [done|].
  destruct (u >=? a); [done|].
  destruct (GetUeContext mac r) as [ueContext|]; [|by apply IH].
  destruct (Sps.SelectMcsAndTbs _ _) as [mcs tbSize].
  match goal with |- context [Sps.dynamic_loop rest ?m ?x a] =>
    specialize (IH m x a); destruct (Sps.dynamic_loop rest m x a) end.
  simpl in *. apply IH. by apply sr_cleared_update.
Qed.

Lemma dynamic_loop_sr (ues : list Z) :
  forall (mac : NbIotEnbMac) (usedRbs availableRbs : Z) (grant : NbIotUlGrantResult),
    grant ∈ fst (Sps.dynamic_loop ues mac usedRbs availableRbs) ->
    sr_cleared (snd (Sps.dynamic_loop ues mac usedRbs availableRbs)) (Ul.rnti grant).
Proof.
  induction ues as [|r rest IH]; intros mac u a grant; simpl;
    [nothing_returned|].
  destruct (u >=? a); [nothing_returned|].
  destruct (GetUeContext mac r) as [ueContext|] eqn:Hctx; [|by apply IH].
  destruct (Sps.SelectMcsAndTbs _ _) as [mcs tbSize].
  match goal with |- context [Sps.dynamic_loop rest ?m ?x a] =>
    pose proof (dynamic_loop_keeps_sr rest r m x a) as Hkeep;
    specialize (IH m x a grant); destruct (Sps.dynamic_loop rest m x a) end.
  simpl in *. intros [->|Hin]%elem_of_cons; [|by apply IH].
  simpl. apply Hkeep. unfold sr_cleared, GetUeContext in *. simpl.
  rewrite find_update_eq, Hctx. by eexists.
Qed.

Lemma backlogs_same_contexts (mac mac' : NbIotEnbMac) :
  m_ueContexts mac' = m_ueContexts mac -> backlogs mac' = backlogs mac.
Proof. unfold backlogs. by intros ->. Qed.

Lemma rr_ScheduleUl_backlogs (s : NbIotRoundRobinScheduler) (m_mac : bool)
    (mac : NbIotEnbMac) (availableRbs : Z) :
  backlogs (snd (RoundRobin.ScheduleUl s m_mac mac availableRbs)) = backlogs mac.
Proof.
  unfold RoundRobin.ScheduleUl.
  destruct (negb m_mac || (availableRbs =? 0)); [done|].
  destruct (empty (GetUeContexts mac)); [done|].
  pose proof (rr_ul_loop_backlog (GetUeContexts mac)) as H.
  by destruct (RoundRobin.ul_loop (GetUeContexts mac)) as [[g|] l].
Qed.

Lemma cc_ScheduleUl_backlogs (std_sort : list (Z * Z) -> list (Z * Z)) (m_mac : bool)
    (mac : NbIotEnbMac) (availableRbs : Z) :
  backlogs (snd (CoverageClass.ScheduleUl std_sort m_mac mac availableRbs))
    = backlogs mac.
Proof.
  unfold CoverageClass.ScheduleUl. repeat case_match; simpl; try done.
  by apply backlogs_update.
Qed.

Lemma sps_ScheduleUl_backlogs (s : NbIotSpsScheduler) (m_mac : bool) (mac : NbIotEnbMac)
    (now : Time) (availableRbs : Z) :
  backlogs (snd (Sps.ScheduleUl s m_mac mac now availableRbs)) = backlogs mac.
Proof.
  unfold Sps.ScheduleUl. destruct (Sps.ScheduleSpsGrants _ _ _ _ _ _) as [spsGrants s1].
  unfold Sps.ScheduleDynamicGrants.
  destruct (negb m_mac || (_ =? 0)); [done|].
  pose proof (dynamic_loop_backlog (Sps.dynamicUes s1 mac) mac 0
                (Sps.remaining_after spsGrants availableRbs)) as H.
  by destruct (Sps.dynamic_loop _ _ _ _).
Qed.

Lemma ScheduleUl_backlogs (std_sort : list (Z * Z) -> list (Z * Z))
    (sch : NbIotScheduler) (mac : NbIotEnbMac) (now : Time) (availableRbs : Z) :
  backlogs (snd (ScheduleUl std_sort sch mac now availableRbs)) = backlogs mac.
Proof.
  unfold ScheduleUl. destruct (policy sch) as [s| |s].
  - pose proof (rr_ScheduleUl_backlogs s (m_mac sch) mac availableRbs).
    by destruct (RoundRobin.ScheduleUl _ _ _ _) as [[? ?] ?].
  - pose proof (cc_ScheduleUl_backlogs std_sort (m_mac sch) mac availableRbs).
    by destruct (CoverageClass.ScheduleUl _ _ _ _) as [? ?].
  - pose proof (sps_ScheduleUl_backlogs s (m_mac sch) mac now availableRbs).
    by destruct (Sps.ScheduleUl _ _ _ _ _) as [[? ?] ?].
Qed.

Lemma ScheduleDl_backlogs (std_sort : list (Z * Z) -> list (Z * Z))
    (sch : NbIotScheduler) (mac : NbIotEnbMac) (availableRbs : Z) :
  backlogs (snd (ScheduleDl std_sort sch mac availableRbs)) = backlogs mac.
Proof.
  destruct (ScheduleDl_facts std_sort sch mac availableRbs) as (_ & _ & Hc & _).
  by apply backlogs_same_contexts.
Qed.

Lemma SendUlGrants_contexts (grants : list NbIotUlGrantResult) :
  forall mac : NbIotEnbMac, m_ueContexts (SendUlGrants mac grants) = m_ueContexts mac.
Proof.
  unfold SendUlGrants. induction grants as [|g rest IH]; intros mac; simpl; [done|].
  rewrite IH. unfold SendUlGrant. apply phy_call_rest.
Qed.

Lemma DoSchedule_backlogs (std_sort : list (Z * Z) -> list (Z * Z)) (w : World)
    (now : Time) :
  backlogs (w_mac (DoSchedule std_sort w now)) = backlogs (w_mac w).
Proof.
  unfold DoSchedule. destruct (m_scheduler w) as [sch|]; [|done].
  unfold DoSchedule_dl, DoSchedule_ul. cbv zeta.
  pose proof (ScheduleDl_backlogs std_sort sch (w_mac w) 1) as Hdl.
  destruct (ScheduleDl std_sort sch (w_mac w) 1) as [[dlAssignments sch1] mac1].
  simpl in Hdl.
  set (mac2 := if negb (empty dlAssignments) then _ else mac1).
  assert (H2 : backlogs mac2 = backlogs (w_mac w)).
  { unfold mac2. destruct (negb (empty dlAssignments)); [|done].
    rewrite <- Hdl. apply backlogs_same_contexts. apply TransmitDlPdus_effect. }
  pose proof (ScheduleUl_backlogs std_sort sch1 mac2 now 1) as Hul.
  destruct (ScheduleUl std_sort sch1 mac2 now 1) as [[ulGrants sch2] mac3].
  simpl in *. rewrite <- H2, <- Hul.
  destruct (negb (empty ulGrants)); [|done].
  apply backlogs_same_contexts. apply SendUlGrants_contexts.
Qed.

(** C8, amended statement. No scheduling decision changes a backlog: every
    [ScheduleUl] and [ScheduleDl] call, and every MAC entry point other than
    an enqueue, a status report, or the creation or removal of a context,
    leaves the backlog of every context as it was.  What a grant of the
    round-robin scheduler, of the coverage-class scheduler and of the dynamic
    pass of the SPS scheduler does change is the request-pending flag of the
    endpoint it selects, which it clears.  An enqueue adds the packet size
    to the backlog (modulo 2^32) and a status report sets it to 100. *)
Theorem backlog_writers (std_sort : list (Z * Z) -> list (Z * Z)) (now : Time) :
  (forall (op : MacOp) (w : World),
     writes_backlog op = false ->
     backlogs (w_mac (step std_sort now op w)) = backlogs (w_mac w))
  /\ (forall (sch : NbIotScheduler) (mac : NbIotEnbMac) (availableRbs : Z),
        backlogs (snd (ScheduleUl std_sort sch mac now availableRbs)) = backlogs mac
        /\ backlogs (snd (ScheduleDl std_sort sch mac availableRbs)) = backlogs mac)
  /\ (forall (s : NbIotRoundRobinScheduler) (m_mac : bool) (mac : NbIotEnbMac)
             (availableRbs : Z) (grant : NbIotUlGrantResult),
        Map16.ordered (m_ueContexts mac) ->
        grant ∈ fst (fst (RoundRobin.ScheduleUl s m_mac mac availableRbs)) ->
        sr_cleared (snd (RoundRobin.ScheduleUl s m_mac mac availableRbs)) (Ul.rnti grant))
  /\ (forall (m_mac : bool) (mac : NbIotEnbMac) (availableRbs : Z)
             (grant : NbIotUlGrantResult),
        grant ∈ fst (CoverageClass.ScheduleUl std_sort m_mac mac availableRbs) ->
        sr_cleared (snd (CoverageClass.ScheduleUl std_sort m_mac mac availableRbs))
                   (Ul.rnti grant))
  /\ (forall (s : NbIotSpsScheduler) (m_mac : bool) (mac : NbIotEnbMac)
             (availableRbs : Z) (grant : NbIotUlGrantResult),
        grant ∈ fst (Sps.ScheduleDynamicGrants s m_mac mac availableRbs) ->
        sr_cleared (snd (Sps.ScheduleDynamicGrants s m_mac mac availableRbs))
                   (Ul.rnti grant))
  /\ (forall (mac : NbIotEnbMac) (rnti lcid : Z) (packet : Packet)
             (context : NbIotUeContext),
        GetUeContext mac rnti = Some context ->
        GetUeContext (TransmitSdu mac rnti lcid packet) rnti
          = Some (Ue.set_totalBufferSize
                    (wrap32 (Ue.totalBufferSize context + GetSize packet)) context))
  /\ (forall (mac : NbIotEnbMac) (rnti : Z) (context : NbIotUeContext),
        GetUeContext mac rnti = Some context ->
        GetUeContext (ProcessBsr mac rnti) rnti
          = Some (Ue.set_srReceived true (Ue.set_totalBufferSize 100 context))).
Proof.
  split; [|split; [|split; [|split; [|split; [|split]]]]].
  - intros op w Hop. destruct op; simpl in Hop; try done; simpl;
      try done; try (by apply backlogs_update).
    apply DoSchedule_backlogs.
  - intros sch mac a. split; [apply ScheduleUl_backlogs|apply ScheduleDl_backlogs].
  - intros s m_mac mac a grant Hord. unfold RoundRobin.ScheduleUl.
    destruct (negb m_mac || (a =? 0)); simpl; [nothing_returned|].
    destruct (empty (GetUeContexts mac)); simpl; [nothing_returned|].
    pose proof (rr_ul_loop_sr (GetUeContexts mac) grant (ordered_NoDup _ Hord)) as H.
    destruct (RoundRobin.ul_loop (GetUeContexts mac)) as [[g|] l]; simpl in *;
      [|nothing_returned].
    intros ->%list_elem_of_singleton. by apply H.
  - intros m_mac mac a grant. unfold CoverageClass.ScheduleUl.
    destruct (negb m_mac || (a =? 0)); simpl; [nothing_returned|].
    destruct (empty _); simpl; [nothing_returned|].
    destruct (CoverageClass.SortByPriority _ _ _) as [|rnti rest]; simpl;
      [nothing_returned|].
    destruct (GetUeContext mac rnti) as [c|] eqn:Hc; simpl; [|nothing_returned].
    intros ->%list_elem_of_singleton. simpl.
    unfold sr_cleared, GetUeContext in *. simpl. rewrite find_update_eq, Hc. by eexists.
  - intros s m_mac mac a grant. unfold Sps.ScheduleDynamicGrants.
    destruct (negb m_mac || (a =? 0)); simpl; [nothing_returned|].
    apply dynamic_loop_sr.
  - intros mac rnti lcid packet context Hc. unfold TransmitSdu, GetUeContext in *.
    pose proof (GetDlTxQueue_keeps mac rnti) as (_ & Hctx & _).
    destruct (GetDlTxQueue mac rnti) as [queue mac0]. simpl in Hctx |- *.
    by rewrite Hctx, find_update_eq, Hc.
  - intros mac rnti context Hc. unfold ProcessBsr, GetUeContext in *.
    simpl. by rewrite find_update_eq, Hc.
Qed.

Lemma backlog_writers_witness :
  GetUeContext (ProcessBsr three_ues 2) 2
    = Some (Ue.set_srReceived true (Ue.set_totalBufferSize 100
                                      (ue 2 CE_LEVEL_0 100 true true)))
  /\ sr_cleared (snd (RoundRobin.ScheduleUl RoundRobin.new true three_ues 1)) 1
  /\ backlogs (w_mac (step stable_sort 0 OpSubframeIndication
                           (mkWorld three_ues (Some rr_scheduler))))
       = backlogs three_ues.
Proof.
  destruct (backlog_writers stable_sort 0) as (Hop & _ & Hrr & _ & _ & _ & Hbsr).
  split; [apply Hbsr; reflexivity|]. split.
  - apply (Hrr RoundRobin.new true three_ues 1 (Ul.mk 1 3 88 12 2 1 0 true 0)).
    + unfold Map16.ordered. simpl. repeat constructor; lia.
    + apply list_elem_of_here.
  - apply (Hop OpSubframeIndication (mkWorld three_ues (Some rr_scheduler))).
    reflexivity.
Defined.

(** C8, counterexample to the decrease: a grant does not lower the backlog.  In
    the three-endpoint scenario the round-robin uplink call grants endpoint 1
    and clears its request flag, and its backlog is 100 bytes before and
    after; a periodic SPS grant leaves even the request flag set. *)
Lemma grant_keeps_backlog_counterexample :
  let r := RoundRobin.ScheduleUl RoundRobin.new true three_ues 1 in
  map Ul.rnti (fst (fst r)) = [1]
  /\ (Ue.totalBufferSize <$> GetUeContext three_ues 1) = Some 100
  /\ (Ue.totalBufferSize <$> GetUeContext (snd r) 1) = Some 100
  /\ (Ue.srReceived <$> GetUeContext (snd r) 1) = Some false
  /\ (let r' := Sps.ScheduleUl sps_one_active true disconnected_ue 0 1 in
      map Ul.rnti (fst (fst r')) = [1]
      /\ (Ue.srReceived <$> GetUeContext (snd r') 1) = Some true).
Proof. repeat split; reflexivity. Qed.

(** ** Connected flag: round-robin and coverage-class *)

Lemma upper_bound_subseteq {V} (k : Z) (m : list (Z * V)) (x : Z * V) :
  x ∈ Map16.upper_bound k m -> x ∈ m.
Proof.
  induction m as [|[k' v] m IH]; simpl; [done|].
  destruct (k <? k'); [done|]. intros H. apply list_elem_of_further. by apply IH.
Qed.

Lemma below_subseteq {V} (k : Z) (m : list (Z * V)) (x : Z * V) :
  x ∈ Map16.below k m -> x ∈ m.
Proof.
  induction m as [|[k' v] m IH]; simpl; [done|].
  destruct (k <? k'); [nothing_returned|].
  intros [->|H]%elem_of_cons; [apply list_elem_of_here|].
  apply list_elem_of_further. by apply IH.
Qed.

Lemma next_with_data_connected (dl : bool) (visit : list (Z * NbIotUeContext)) :
  forall mac : NbIotEnbMac,
    fst (RoundRobin.next_with_data dl mac visit) <> 0 ->
    exists context,
      (fst (RoundRobin.next_with_data dl mac visit), context) ∈ visit
      /\ Ue.connected context = true.
Proof.
  induction visit as [|[first second] rest IH]; intros mac; simpl; [done|].
  assert (Hrest : forall mac1, fst (RoundRobin.next_with_data dl mac1 rest) <> 0 ->
    exists context,
      (fst (RoundRobin.next_with_data dl mac1 rest), context) ∈ (first, second) :: rest
      /\ Ue.connected context = true).
  { intros mac1 H. destruct (IH mac1 H) as (c & Hin & Hc). exists c.
    split; [by apply list_elem_of_further|done]. }
  destruct (Ue.connected second) eqn:Hc; [|apply Hrest].
  destruct (RoundRobin.dl_has_data dl mac first) as [[|] mac1]; simpl.
  { intros _. exists second. split; [apply list_elem_of_here|done]. }
  destruct (negb dl && ul_pending second); [|apply Hrest].
  intros _. exists second. split; [apply list_elem_of_here|done].
Qed.

Lemma rr_ul_loop_connected (ueContexts : list (Z * NbIotUeContext))
    (grant : NbIotUlGrantResult) :
  fst (RoundRobin.ul_loop ueContexts) = Some grant ->
  exists context, (Ul.rnti grant, context) ∈ ueContexts /\ Ue.connected context = true.
Proof.
  induction ueContexts as [|[rnti context] rest IH]; simpl; [done|].
  destruct (RoundRobin.ul_loop rest) as [g rest']. simpl in *.
  assert (Hrest : g = Some grant ->
    exists context0, (Ul.rnti grant, context0) ∈ (rnti, context) :: rest
                     /\ Ue.connected context0 = true).
  { intros H. destruct (IH H) as (c & Hin & Hc). exists c.
    split; [by apply list_elem_of_further|done]. }
  destruct (Ue.connected context) eqn:Hc; simpl; [|exact Hrest].
  destruct (ul_pending context); simpl; [|exact Hrest].
  intros [= <-]. exists context. split; [apply list_elem_of_here|done].
Qed.

(** The round-robin and the coverage-class scheduler return only endpoints
    that have a context with [connected = true]. *)
Lemma rr_cc_return_connected (std_sort : list (Z * Z) -> list (Z * Z))
    (sch : NbIotScheduler) (mac : NbIotEnbMac) (now : Time) (availableRbs : Z) :
  CoverageClass.std_sort_contract std_sort ->
  (forall s, policy sch <> SpsScheduler s) ->
  (forall a, a ∈ fst (fst (ScheduleDl std_sort sch mac availableRbs)) ->
     exists context, (Dl.rnti a, context) ∈ m_ueContexts mac
                     /\ Ue.connected context = true)
  /\ (forall g, g ∈ fst (fst (ScheduleUl std_sort sch mac now availableRbs)) ->
        exists context, (Ul.rnti g, context) ∈ m_ueContexts mac
                        /\ Ue.connected context = true).
Proof.
  intros Hsort Hpol. unfold ScheduleDl, ScheduleUl.
  destruct (policy sch) as [s| |s]; [| |by destruct (Hpol s)].
  - split.
    + intros a. unfold RoundRobin.ScheduleDl, RoundRobin.GetNextRnti.
      destruct (negb (m_mac sch) || (availableRbs =? 0)) eqn:Hg; simpl;
        [nothing_returned|].
      apply orb_false_elim in Hg as [-> _].
      destruct (empty (GetUeContexts mac)); simpl; [nothing_returned|].
      set (visit := if empty (Map16.upper_bound _ _) then _ else _).
      pose proof (next_with_data_connected true visit mac) as Hnext.
      destruct (RoundRobin.next_with_data true mac visit) as [rnti mac1].
      simpl in Hnext.
      destruct (Z.eqb_spec rnti 0) as [|Hne]; simpl; [nothing_returned|].
      destruct (Hnext Hne) as (c & Hin & Hc).
      assert (Hin' : (rnti, c) ∈ m_ueContexts mac).
      { unfold visit, GetUeContexts in Hin.
        destruct (empty (Map16.upper_bound _ _)); [done|].
        apply elem_of_app in Hin as [Hin|Hin];
          [by eapply upper_bound_subseteq|by eapply below_subseteq]. }
      destruct (GetDlTxQueue mac1 rnti) as [dlQueue mac2].
      destruct (empty dlQueue); simpl; [nothing_returned|].
      destruct (GetUeContext mac2 rnti); simpl; [|nothing_returned].
      destruct (collect_sdus _ _) as [sdus remainder].
      destruct (empty sdus); simpl; [nothing_returned|].
      intros ->%list_elem_of_singleton. simpl. by exists c.
    + intros g. unfold RoundRobin.ScheduleUl.
      destruct (negb (m_mac sch) || (availableRbs =? 0)); simpl;
        [nothing_returned|].
      destruct (empty (GetUeContexts mac)); simpl; [nothing_returned|].
      pose proof (rr_ul_loop_connected (GetUeContexts mac) g) as H.
      destruct (RoundRobin.ul_loop (GetUeContexts mac)) as [[g'|] l]; simpl in *;
        [|nothing_returned].
      intros ->%list_elem_of_singleton. by apply H.
  - pose proof (cc_ScheduleDl_served std_sort (m_mac sch) mac availableRbs) as Hdl.
    pose proof (cc_ScheduleUl_served std_sort (m_mac sch) mac availableRbs) as Hul.
    destruct (CoverageClass.ScheduleDl _ _ _ _) as [dl mac1].
    destruct (CoverageClass.ScheduleUl _ _ _ _) as [ul mac2]. simpl in *. split.
    + intros a Ha. destruct (Hdl a Hsort Ha) as [Hc _].
      apply elem_of_dl_candidates in Hc as (c & ? & ? & _). by exists c.
    + intros g Hg. destruct (Hul g Hsort Hg) as [Hc _].
      apply elem_of_ul_candidates in Hc as (c & ? & ? & _). by exists c.
Qed.

(** * Further properties *)

(** ** HARQ pool *)










(** X4. [SetNumProcesses n] leaves a pool of exactly [n] entities: the
    first [n] of the old ones are kept as they are, and the entities added
    beyond the old size are fresh (inactive, attempt count 0, no block). *)
Theorem SetNumProcesses_resizes (m : NbIotHarqManager) (n : Z) :
  0 <= n -> HarqWf m ->
  let m' := SetNumProcesses n m in
  HarqWf m'
  /\ m_numProcesses m' = n
  /\ m_maxTransmissions m' = m_maxTransmissions m
  /\ (forall i, 0 <= i < n -> i < m_numProcesses m ->
        m_processes m' !! Z.to_nat i = m_processes m !! Z.to_nat i)
  /\ (forall i, m_numProcesses m <= i < n -> 0 <= i ->
        m_processes m' !! Z.to_nat i = Some NbIotHarqEntity_new).
Proof.
  intros Hn Hwf. unfold HarqWf in *. simpl.
  split; [by rewrite length_resize|]. split; [done|]. split; [done|]. split.
  - intros i Hi Hold. apply lookup_resize; lia.
  - intros i Hi H0. apply lookup_resize_new; lia.
Qed.

Lemma SetNumProcesses_resizes_witness :
  m_processes (SetNumProcesses 3 (harq_busy 8)) !! 2%nat = Some NbIotHarqEntity_new
  /\ m_processes (SetNumProcesses 3 (harq_busy 8)) !! 0%nat
       = m_processes (harq_busy 8) !! 0%nat.
Proof.
  destruct (SetNumProcesses_resizes (harq_busy 8) 3) as (_ & _ & _ & Hold & Hnew);
    [lia | reflexivity |].
  split.
  - apply (Hnew 2); simpl; lia.
  - apply (Hold 0); simpl; lia.
Defined.

(** ** MAC PDU: subheaders *)

Lemma forallb_seqZ (f : Z -> bool) (a n : Z) :
  forallb f (seqZ a n) = true -> forall z, a <= z < a + n -> f z = true.
Proof.
  intros H z Hz. rewrite forallb_forall in H. apply H.
  apply list_elem_of_In, elem_of_seqZ. lia.
Qed.

Lemma header_byte_decodes (lcid : Z) (ext : bool) :
  0 <= lcid < 32 ->
  let b0 := Z.lor (if ext then 32 else 0) (Z.land lcid 31) in
  negb (Z.land (Z.shiftr b0 5) 1 =? 0) = ext /\ Z.land b0 31 = lcid.
Proof.
  intros Hl.
  assert (Hall : forallb header_byte_ok (seqZ 0 32) = true) by (vm_compute; reflexivity).
  pose proof (forallb_seqZ _ _ _ Hall lcid ltac:(lia)) as H.
  unfold header_byte_ok in H. simpl in H.
  apply andb_prop in H as [Ht H]. apply andb_prop in H as [Hf _].
  apply andb_prop in Ht as [Ht1 Ht2]. apply andb_prop in Hf as [Hf1 Hf2].
  destruct ext; simpl.
  - split; [by apply eqb_prop in Ht1|by apply Z.eqb_eq in Ht2].
  - split; [by apply eqb_prop in Hf1|by apply Z.eqb_eq in Hf2].
Qed.

Lemma short_length_decodes (len : Z) :
  0 <= len < 128 ->
  let b1 := Z.land len 127 in
  negb (Z.land (Z.shiftr b1 7) 1 =? 0) = false /\ Z.land b1 127 = len.
Proof.
  intros Hl.
  assert (Hall : forallb short_length_ok (seqZ 0 128) = true) by (vm_compute; reflexivity).
  pose proof (forallb_seqZ _ _ _ Hall len ltac:(lia)) as H.
  unfold short_length_ok in H. apply andb_prop in H as [H1 H2].
  simpl. rewrite H1. split; [done|by apply Z.eqb_eq in H2].
Qed.

Lemma lor_shiftl_low (h l : Z) :
  0 <= h -> Z.lor (Z.shiftl h 8) (l mod 256) = h * 256 + l mod 256.
Proof.
  intros Hh. rewrite Z.shiftl_mul_pow2 by lia. change (2 ^ 8) with 256.
  rewrite <- Z.lxor_lor, <- Z.add_nocarry_lxor; [done| |].
  all: apply Z.bits_inj'; intros n Hn; rewrite Z.land_spec, Z.bits_0;
    destruct (Z.lt_ge_cases n 8) as [Hlt|Hge].
  all: try (change 256 with (2 ^ 8); rewrite Z.mul_pow2_bits_low by lia; done).
  all: change 256 with (2 ^ 8); rewrite (Z.mod_pow2_bits_high l 8 n) by lia;
    by rewrite andb_false_r.
Qed.

Lemma long_length_decodes (len : Z) :
  128 <= len < 32768 ->
  let b1 := Z.lor 128 (Z.land (Z.shiftr len 8) 127) in
  let b2 := Z.land len 255 in
  negb (Z.land (Z.shiftr b1 7) 1 =? 0) = true
  /\ Z.lor (Z.shiftl (Z.land b1 127) 8) b2 = len.
Proof.
  intros Hl. cbv zeta.
  assert (Hh : Z.land (Z.shiftr len 8) 127 = len / 256).
  { rewrite Z.shiftr_div_pow2 by lia. change (2 ^ 8) with 256.
    change 127 with (Z.ones 7). rewrite Z.land_ones by lia. change (2 ^ 7) with 128.
    apply Z.mod_small. split; [apply Z.div_pos; lia|].
    apply Z.div_lt_upper_bound; lia. }
  assert (Hlow : Z.land len 255 = len mod 256).
  { change 255 with (Z.ones 8). by rewrite Z.land_ones by lia. }
  assert (Hrange : 0 <= len / 256 < 128).
  { split; [apply Z.div_pos; lia|apply Z.div_lt_upper_bound; lia]. }
  rewrite Hh, Hlow.
  assert (Hall : forallb high_bits_ok (seqZ 0 128) = true) by (vm_compute; reflexivity).
  pose proof (forallb_seqZ _ _ _ Hall (len / 256) ltac:(lia)) as H.
  unfold high_bits_ok in H. apply andb_prop in H as [H1 H2]. apply Z.eqb_eq in H2.
  split; [done|]. rewrite H2, lor_shiftl_low by lia.
  rewrite (Z.div_mod len 256) at 3 by lia. lia.
Qed.

Lemma byte_at_app (pre l : list Z) (k : Z) :
  0 <= k -> byte_at (pre ++ l) (Z.of_nat (length pre) + k) = byte_at l k.
Proof.
  intros Hk. unfold byte_at.
  replace (Z.to_nat (Z.of_nat (length pre) + k)) with (length pre + Z.to_nat k)%nat by lia.
  by rewrite lookup_app_r, Nat.add_sub' by lia.
Qed.

Lemma byte_at_app_0 (pre l : list Z) :
  byte_at (pre ++ l) (Z.of_nat (length pre)) = byte_at l 0.
Proof. rewrite <- (byte_at_app pre l 0) by lia. by rewrite Z.add_0_r. Qed.

(** A subheader is read back from the bytes written for it. *)
Lemma subheader_read_back (pre rest : list Z) (lcid len : Z) (ext : bool) :
  0 <= lcid < 32 -> 0 <= len < 32768 -> (29 <= lcid -> len = 0) ->
  let h := NbIotMacSubheader_new lcid len ext in
  Subheader_Deserialize (pre ++ Subheader_Serialize h ++ rest) (Z.of_nat (length pre))
    = (h, GetSerializedSize h)
  /\ Z.of_nat (length (Subheader_Serialize h)) = GetSerializedSize h.
Proof.
  intros Hlcid Hlen Hfixed h.
  destruct (header_byte_decodes lcid ext Hlcid) as [Hext Hid].
  set (b0 := Z.lor (if ext then 32 else 0) (Z.land lcid 31)) in *.
  unfold Subheader_Deserialize, Subheader_Serialize, GetSerializedSize, IsFixedSize.
  subst h. unfold NbIotMacSubheader_new. cbn [m_lcid m_length m_extension m_format].
  fold b0.
  destruct ((lcid >=? 29) && (lcid <=? 31)) eqn:Hfix.
  - assert (len = 0) as -> by (apply Hfixed; lia).
    rewrite byte_at_app_0. change (byte_at ([b0] ++ rest) 0) with b0.
    rewrite Hext, Hid. cbn [m_lcid]. rewrite Hfix. done.
  - destruct (Z.gtb_spec len 127) as [Hlong|Hshort].
    + destruct (long_length_decodes len ltac:(lia)) as [Hf Hl].
      set (b1 := Z.lor 128 (Z.land (Z.shiftr len 8) 127)) in *.
      set (b2 := Z.land len 255) in *.
      rewrite byte_at_app_0, !byte_at_app by lia.
      change (byte_at ([b0; b1; b2] ++ rest) 0) with b0.
      change (byte_at ([b0; b1; b2] ++ rest) 1) with b1.
      change (byte_at ([b0; b1; b2] ++ rest) 2) with b2.
      rewrite Hext, Hid. cbn [m_lcid]. rewrite Hfix, Hf, Hl. done.
    + destruct (short_length_decodes len ltac:(lia)) as [Hf Hl].
      set (b1 := Z.land len 127) in *.
      rewrite byte_at_app_0, !byte_at_app by lia.
      change (byte_at ([b0; b1] ++ rest) 0) with b0.
      change (byte_at ([b0; b1] ++ rest) 1) with b1.
      rewrite Hext, Hid. cbn [m_lcid]. rewrite Hfix, Hf, Hl. done.
Qed.


(** X5. Subheader round trip: a subheader with an LCID below 32 and a length
    below 2^15 (0 for the LCIDs without a length field, 29 to 31) is read
    back by [Deserialize] from the bytes [Serialize] wrote, wherever they
    stand in a buffer and whatever follows them, and the byte count returned
    is [GetSerializedSize]. *)
Theorem Subheader_roundtrip (pre rest : list Z) (lcid len : Z) (ext : bool) :
  0 <= lcid < 32 -> 0 <= len < 32768 -> (29 <= lcid -> len = 0) ->
  let h := NbIotMacSubheader_new lcid len ext in
  Subheader_Deserialize (pre ++ Subheader_Serialize h ++ rest) (Z.of_nat (length pre))
    = (h, GetSerializedSize h)
  /\ Z.of_nat (length (Subheader_Serialize h)) = GetSerializedSize h.
Proof. apply subheader_read_back. Qed.

Lemma Subheader_roundtrip_witness :
  Subheader_Deserialize ([9; 9] ++ Subheader_Serialize (NbIotMacSubheader_new 1 300 true)
                                ++ [7]) 2
    = (NbIotMacSubheader_new 1 300 true, 3).
Proof.
  exact (proj1 (Subheader_roundtrip [9; 9] [7] 1 300 true
                  ltac:(lia) ltac:(lia) ltac:(lia))).
Defined.

(** The length field has 15 bits: a length of 2^15 or more is read back
    2^15 short. *)
Example Subheader_long_length_truncated :
  fst (Subheader_Deserialize (Subheader_Serialize (NbIotMacSubheader_new 1 40000 false)) 0)
    = mkSubheader 1 (40000 - 32768) false true.
Proof. reflexivity. Qed.

(** ** MAC PDU: size *)

Lemma extend_last_snoc (hs : list NbIotMacSubheader) (h : NbIotMacSubheader) :
  extend_last (hs ++ [h]) = hs ++ [SetExtension true h].
Proof. unfold extend_last. by rewrite reverse_snoc, reverse_cons, reverse_involutive. Qed.

Lemma seal_snoc (hs : list NbIotMacSubheader) (h : NbIotMacSubheader) :
  seal (hs ++ [h]) = hs ++ [SetExtension false h].
Proof. unfold seal. by rewrite reverse_snoc, reverse_cons, reverse_involutive. Qed.

Lemma extend_last_seal_all_ext (lcid : Z) (sdus : list Packet) :
  extend_last (seal (all_ext lcid sdus)) = all_ext lcid sdus.
Proof.
  destruct sdus as [|s l _] using rev_ind; [done|].
  unfold all_ext. rewrite map_app. simpl. by rewrite seal_snoc, extend_last_snoc.
Qed.

Lemma packet_small (sdu : Packet) :
  packet_bytes sdu < 65536 ->
  wrap16 (GetSize sdu) = packet_bytes sdu
  /\ take (Z.to_nat (packet_bytes sdu)) sdu = sdu.
Proof.
  intros H. unfold GetSize, wrap16, wrap32, packet_bytes in *.
  rewrite (Z.mod_small _ 4294967296), (Z.mod_small _ 65536) by lia.
  split; [done|]. apply take_ge. lia.
Qed.

Lemma add_sdus_snoc (lcid : Z) (sdus : list Packet) (sdu : Packet) :
  add_sdus lcid (sdus ++ [sdu]) = AddSdu lcid sdu (add_sdus lcid sdus).
Proof. unfold add_sdus. by rewrite fold_left_app. Qed.

(** The subheaders and payloads of a PDU filled by [AddSdu]. *)
Lemma add_sdus_shape (lcid : Z) (sdus : list Packet) :
  Forall (fun sdu => packet_bytes sdu < 65536) sdus ->
  m_subheaders (add_sdus lcid sdus) = seal (all_ext lcid sdus)
  /\ m_payloads (add_sdus lcid sdus) = sdus.
Proof.
  induction sdus as [|s l IH] using rev_ind; [done|].
  intros [Hl Hs]%Forall_app. apply Forall_cons in Hs as [Hs _].
  destruct (IH Hl) as [IHh IHp]. destruct (packet_small s Hs) as [Hsz Htake].
  rewrite add_sdus_snoc. unfold AddSdu. simpl. rewrite Hsz, Htake, IHh, IHp.
  rewrite extend_last_seal_all_ext. split; [|done].
  unfold all_ext. rewrite map_app. simpl. by rewrite seal_snoc.
Qed.

Lemma header_length (lcid len : Z) (ext : bool) :
  0 <= lcid < 29 ->
  Z.of_nat (length (Subheader_Serialize (NbIotMacSubheader_new lcid len ext)))
    = (if len >? 127 then 3 else 2)
  /\ GetSerializedSize (NbIotMacSubheader_new lcid len ext)
       = (if len >? 127 then 3 else 2).
Proof.
  intros Hl. unfold Subheader_Serialize, GetSerializedSize, IsFixedSize. simpl.
  destruct (Z.geb_spec lcid 29); [lia|]. simpl. by destruct (len >? 127).
Qed.

Lemma pdu_bytes_needed_snoc (sdus : list Packet) (sdu : Packet) :
  pdu_bytes_needed (sdus ++ [sdu]) = pdu_bytes_needed sdus + sdu_bytes_in_pdu sdu.
Proof.
  unfold pdu_bytes_needed. induction sdus as [|x l IH]; simpl; [lia|].
  rewrite IH. lia.
Qed.

Lemma pdu_bytes_needed_nonneg (sdus : list Packet) : 0 <= pdu_bytes_needed sdus.
Proof.
  unfold pdu_bytes_needed, sdu_bytes_in_pdu, packet_bytes.
  induction sdus as [|x l IH]; simpl; [lia|].
  destruct (Z.of_nat (length x) >? 127); lia.
Qed.

Lemma pdu_bytes_needed_bounds (sdus : list Packet) :
  pdu_bytes_needed sdus < 65536 -> Forall (fun sdu => packet_bytes sdu < 65536) sdus.
Proof.
  induction sdus as [|x l IH]; simpl; [done|]. intros H.
  pose proof (pdu_bytes_needed_nonneg l) as Hl. fold (pdu_bytes_needed l) in H.
  unfold sdu_bytes_in_pdu in H. constructor.
  - destruct (packet_bytes x >? 127); lia.
  - apply IH. unfold packet_bytes in *. destruct (Z.of_nat (length x) >? 127); lia.
Qed.

Lemma headers_length_all (lcid : Z) (hs : list NbIotMacSubheader) (sdus : list Packet) :
  0 <= lcid < 29 ->
  Forall2 (fun h sdu => exists ext, h = NbIotMacSubheader_new lcid (packet_bytes sdu) ext)
          hs sdus ->
  Z.of_nat (length (concat (map Subheader_Serialize hs)))
    + Z.of_nat (length (concat sdus))
    = pdu_bytes_needed sdus.
Proof.
  intros Hl. induction 1 as [|h s hs sdus [ext ->] _ IH]; simpl; [done|].
  rewrite !length_app. destruct (header_length lcid (packet_bytes s) ext Hl) as [Hh _].
  fold (pdu_bytes_needed sdus). unfold sdu_bytes_in_pdu, packet_bytes in *. lia.
Qed.

Lemma seal_all_ext_Forall2 (lcid : Z) (sdus : list Packet) :
  Forall2 (fun h sdu => exists ext, h = NbIotMacSubheader_new lcid (packet_bytes sdu) ext)
          (seal (all_ext lcid sdus)) sdus
  /\ Forall2 (fun h sdu => exists ext, h = NbIotMacSubheader_new lcid (packet_bytes sdu) ext)
             (all_ext lcid sdus) sdus.
Proof.
  assert (Hall : forall l,
    Forall2 (fun h sdu => exists ext, h = NbIotMacSubheader_new lcid (packet_bytes sdu) ext)
            (all_ext lcid l) l).
  { induction l; simpl; constructor; [by eexists|done]. }
  split; [|apply Hall].
  destruct sdus as [|s l _] using rev_ind; [constructor|].
  unfold all_ext. rewrite map_app. simpl. rewrite seal_snoc.
  apply Forall2_app; [apply Hall|]. constructor; [by eexists|constructor].
Qed.

(** The size the PDU keeps of itself is the size of its serialization, as
    long as it stays below 2^16. *)
Lemma add_sdus_size (lcid : Z) (sdus : list Packet) :
  0 <= lcid < 29 -> pdu_bytes_needed sdus < 65536 ->
  m_size (add_sdus lcid sdus) = pdu_bytes_needed sdus
  /\ packet_bytes (MacPdu_Serialize (add_sdus lcid sdus)) = pdu_bytes_needed sdus.
Proof.
  intros Hl Hneed. split.
  - induction sdus as [|s l IH] using rev_ind; [done|].
    rewrite pdu_bytes_needed_snoc in *.
    pose proof (pdu_bytes_needed_nonneg l). pose proof (pdu_bytes_needed_nonneg [s]) as Hs.
    unfold pdu_bytes_needed in Hs. simpl in Hs. rewrite Z.add_0_r in Hs.
    rewrite add_sdus_snoc. unfold AddSdu. cbn [m_size].
    rewrite IH by lia.
    assert (Hb : packet_bytes s < 65536).
    { unfold sdu_bytes_in_pdu in *. destruct (packet_bytes s >? 127); lia. }
    destruct (packet_small s Hb) as [-> _].
    destruct (header_length lcid (packet_bytes s) false Hl) as [_ ->].
    unfold wrap16. rewrite Z.mod_small; unfold sdu_bytes_in_pdu in *; lia.
  - destruct (add_sdus_shape lcid sdus (pdu_bytes_needed_bounds _ Hneed)) as [Hh Hp].
    unfold MacPdu_Serialize, packet_bytes. rewrite Hh, Hp, length_app, Nat2Z.inj_add.
    apply (headers_length_all lcid); [done|]. apply seal_all_ext_Forall2.
Qed.

Lemma pdu_bytes_needed_split (sdus : list Packet) :
  pdu_bytes_needed sdus = scheduler_bytes sdus + Z.of_nat (length (long_sdus sdus)).
Proof.
  unfold pdu_bytes_needed, scheduler_bytes, long_sdus, sdu_bytes_in_pdu.
  induction sdus as [|x l IH]; simpl; [done|]. rewrite IH.
  destruct (packet_bytes x >? 127); simpl; lia.
Qed.

(** The serialization of a padded PDU. *)
Lemma AddPadding_length (lcid : Z) (sdus : list Packet) (targetSize : Z) :
  0 <= lcid < 29 -> pdu_bytes_needed sdus < 65536 -> 0 <= targetSize < 65536 ->
  packet_bytes (MacPdu_Serialize (AddPadding targetSize (add_sdus lcid sdus)))
    = Z.max (pdu_bytes_needed sdus) targetSize.
Proof.
  intros Hl Hneed Ht. destruct (add_sdus_size lcid sdus Hl Hneed) as [Hsize Hlen].
  pose proof (pdu_bytes_needed_nonneg sdus) as H0.
  unfold AddPadding. rewrite Hsize.
  destruct (Z.geb_spec (pdu_bytes_needed sdus) targetSize) as [Hge|Hlt].
  - rewrite Hlen. lia.
  - destruct (add_sdus_shape lcid sdus (pdu_bytes_needed_bounds _ Hneed)) as [Hh Hp].
    unfold MacPdu_Serialize, packet_bytes. cbn [m_subheaders m_payloads].
    rewrite Hh, Hp, extend_last_seal_all_ext.
    rewrite map_app, !concat_app, !length_app. simpl concat.
    rewrite !length_app, length_replicate. simpl length.
    pose proof (headers_length_all lcid (all_ext lcid sdus) sdus Hl
                  (proj2 (seal_all_ext_Forall2 lcid sdus))) as Hall.
    unfold wrap16. rewrite Z.mod_small by lia. lia.
Qed.

(** X6. Size of a downlink MAC PDU.  For SDUs that need fewer than 2^16
    bytes, the PDU [TransmitDlPdus] builds is as long as the larger of the
    transport block size and the bytes the SDUs need with their subheaders.
    The scheduler charges 2 bytes of subheader per SDU, the PDU spends 3 on
    every SDU longer than 127 bytes: a PDU whose SDUs passed the scheduler's
    budget is exactly one transport block long when no SDU is longer than
    127 bytes, and exceeds the block by at most one byte per longer SDU. *)
Theorem build_pdu_length (assignment : NbIotDlAssignmentResult) :
  pdu_bytes_needed (Dl.sdus assignment) < 65536 ->
  0 <= Dl.tbSize assignment < 65536 ->
  packet_bytes (build_pdu assignment)
    = Z.max (pdu_bytes_needed (Dl.sdus assignment)) (Dl.tbSize assignment)
  /\ (scheduler_bytes (Dl.sdus assignment) <= Dl.tbSize assignment ->
      Dl.tbSize assignment <= packet_bytes (build_pdu assignment)
        <= Dl.tbSize assignment + Z.of_nat (length (long_sdus (Dl.sdus assignment))))
  /\ (scheduler_bytes (Dl.sdus assignment) <= Dl.tbSize assignment ->
      long_sdus (Dl.sdus assignment) = [] ->
      packet_bytes (build_pdu assignment) = Dl.tbSize assignment).
Proof.
  intros Hneed Ht.
  assert (Hlen : packet_bytes (build_pdu assignment)
                 = Z.max (pdu_bytes_needed (Dl.sdus assignment)) (Dl.tbSize assignment)).
  { unfold build_pdu. apply (AddPadding_length 1); [lia|done|done]. }
  rewrite Hlen, pdu_bytes_needed_split. split; [done|]. split.
  - intros Hfit. lia.
  - intros Hfit ->. simpl. lia.
Qed.

Lemma build_pdu_length_witness :
  packet_bytes (build_pdu assignment_a) = 208.
Proof.
  destruct (build_pdu_length assignment_a) as (H & _); [vm_compute; reflexivity
    | simpl; lia |].
  rewrite H. vm_compute. reflexivity.
Defined.

(** A 206-byte SDU passes the scheduler's test for a block of 208 bytes and
    gives a PDU of 209 bytes. *)
Example build_pdu_exceeds_block :
  fst (collect_sdus [(1, replicate 206 0)] 208) = [replicate 206 0]
  /\ packet_bytes (build_pdu (Dl.mk 1 7 208 1 1 0 true 0 [replicate 206 0])) = 209.
Proof. split; vm_compute; reflexivity. Qed.

(** ** MAC PDU: round trip *)

Lemma readable_size (h : NbIotMacSubheader) :
  1 <= GetSerializedSize h <= 3.
Proof. unfold GetSerializedSize. repeat case_match; lia. Qed.

Lemma headers_length_ge (hs : list NbIotMacSubheader) :
  Forall readable hs ->
  (length hs <= length (concat (map Subheader_Serialize hs)))%nat.
Proof.
  induction 1 as [|h hs (lcid & len & ext & -> & Hl & Hn & Hf) _ IH]; simpl; [lia|].
  rewrite length_app.
  destruct (subheader_read_back [] [] lcid len ext Hl Hn Hf) as [_ Hsz].
  pose proof (readable_size (NbIotMacSubheader_new lcid len ext)). lia.
Qed.

(** The first loop of [Deserialize] reads a chain of subheaders back: all
    with the extension flag but the last one. *)
Lemma parse_subheaders_chain (hsT : list NbIotMacSubheader) (hl : NbIotMacSubheader)
    (rest : list Z) (pduSize : Z) :
  readable hl -> m_extension hl = false ->
  forall (pre : list Z) (fuel : nat),
  Forall (fun h => readable h /\ m_extension h = true) hsT ->
  (length hsT < fuel)%nat ->
  Z.of_nat (length pre)
    + Z.of_nat (length (concat (map Subheader_Serialize (hsT ++ [hl])))) <= pduSize ->
  parse_subheaders fuel (pre ++ concat (map Subheader_Serialize (hsT ++ [hl])) ++ rest)
                   pduSize (Z.of_nat (length pre))
    = (hsT ++ [hl],
       Z.of_nat (length pre)
         + Z.of_nat (length (concat (map Subheader_Serialize (hsT ++ [hl]))))).
Proof.
  intros (lcid & len & ext & -> & Hl & Hn & Hf) Hext.
  induction hsT as [|h hsT IH]; intros pre fuel Hall Hfuel Hsize.
  - destruct fuel as [|fuel]; [simpl in Hfuel; lia|].
    simpl app in *. simpl map in *. simpl concat in *. rewrite app_nil_r in *.
    destruct (subheader_read_back pre rest lcid len ext Hl Hn Hf) as [Hd Hsz].
    pose proof (readable_size (NbIotMacSubheader_new lcid len ext)) as H1.
    cbn [parse_subheaders].
    destruct (Z.ltb_spec (Z.of_nat (length pre)) pduSize); [|lia].
    rewrite Hd, Hext. cbn [negb]. by rewrite Hsz.
  - apply Forall_cons in Hall as [[(lcid' & len' & ext' & -> & Hl' & Hn' & Hf') Hext'] Hall].
    destruct fuel as [|fuel]; [simpl in Hfuel; lia|].
    simpl app in *. simpl map in *. simpl concat in *.
    rewrite length_app, Nat2Z.inj_add in *.
    rewrite <- (app_assoc (Subheader_Serialize _)).
    destruct (subheader_read_back pre
                (concat (map Subheader_Serialize (hsT ++ [NbIotMacSubheader_new lcid len ext]))
                 ++ rest) lcid' len' ext' Hl' Hn' Hf') as [Hd Hsz].
    pose proof (readable_size (NbIotMacSubheader_new lcid' len' ext')) as H1.
    cbn [parse_subheaders].
    destruct (Z.ltb_spec (Z.of_nat (length pre)) pduSize); [|lia].
    rewrite Hd, Hext'. cbn [negb].
    rewrite app_assoc, <- Hsz, <- Nat2Z.inj_add, <- length_app.
    rewrite IH; [| done | simpl in Hfuel; lia | rewrite length_app; lia].
    f_equal. rewrite length_app. lia.
Qed.

Lemma push_back_at_fold (lcid : Z) (sdus acc : list Packet) (s : Packet) :
  fold_left (fun r sdu => push_back_at lcid sdu r) sdus [(lcid, acc ++ [s])]
    = [(lcid, acc ++ [s] ++ sdus)].
Proof.
  revert acc s. induction sdus as [|x l IH]; intros acc s; simpl.
  - done.
  - unfold push_back_at at 2. simpl. rewrite Z.ltb_irrefl, Z.eqb_refl. simpl.
    rewrite (IH (acc ++ [s]) x). by rewrite <- !app_assoc.
Qed.

Lemma push_back_at_all (lcid : Z) (sdus : list Packet) :
  fold_left (fun r sdu => push_back_at lcid sdu r) sdus []
    = match sdus with [] => [] | _ => [(lcid, sdus)] end.
Proof.
  destruct sdus as [|s l]; [done|]. simpl.
  change (push_back_at lcid s []) with [(lcid, [] ++ [s])].
  by rewrite push_back_at_fold.
Qed.

(** The second loop of [Deserialize] cuts the payloads of a run of SDU
    subheaders out of the buffer. *)
Lemma parse_payloads_sdus (lcid : Z) (tl : list NbIotMacSubheader) (rest : list Z)
    (pduSize : Z) (hs : list NbIotMacSubheader) (sdus : list Packet) :
  0 <= lcid < 29 ->
  Forall2 (fun h sdu => exists ext, h = NbIotMacSubheader_new lcid (packet_bytes sdu) ext)
          hs sdus ->
  forall (pre : list Z) (result : list (Z * list Packet)),
  Z.of_nat (length pre) + Z.of_nat (length (concat sdus)) <= pduSize ->
  parse_payloads (hs ++ tl) (pre ++ concat sdus ++ rest) pduSize
                 (Z.of_nat (length pre)) result
    = parse_payloads tl (pre ++ concat sdus ++ rest) pduSize
        (Z.of_nat (length pre) + Z.of_nat (length (concat sdus)))
        (fold_left (fun r sdu => push_back_at lcid sdu r) sdus result).
Proof.
  intros Hl. induction 1 as [|h s hs sdus [ext ->] _ IH]; intros pre result Hsize.
  - simpl. by rewrite Z.add_0_r.
  - simpl app. simpl concat in *. rewrite length_app, Nat2Z.inj_add in *.
    cbn [parse_payloads]. unfold IsFixedSize, PADDING. cbn [m_lcid m_length NbIotMacSubheader_new].
    destruct (Z.eqb_spec lcid 31); [lia|].
    destruct (Z.geb_spec lcid 29); [lia|]. cbn [andb].
    unfold packet_bytes at 1 2 3.
    destruct (Z.leb_spec (Z.of_nat (length pre) + Z.of_nat (length s)) pduSize); [|lia].
    rewrite !Nat2Z.id, drop_app_length, <- app_assoc, take_app_length.
    rewrite (app_assoc pre s), <- Nat2Z.inj_add, <- length_app.
    rewrite IH by (rewrite length_app; lia).
    rewrite length_app. simpl fold_left. f_equal. lia.
Qed.

Lemma all_ext_chain (lcid : Z) (sdus : list Packet) :
  0 <= lcid < 29 -> Forall (fun sdu => packet_bytes sdu < 32768) sdus ->
  Forall (fun h => readable h /\ m_extension h = true) (all_ext lcid sdus).
Proof.
  intros Hl. induction 1 as [|s l Hs _ IH]; simpl; constructor; [|done].
  split; [|done]. exists lcid, (packet_bytes s), true.
  unfold packet_bytes in *. repeat split; lia.
Qed.

(** Reading back of a PDU made of a chain of subheaders, the first of them
    for the SDUs, and the payloads. *)
Lemma read_back_chain (lcid : Z) (sdus : list Packet) (hsT hs tl : list NbIotMacSubheader)
    (hl : NbIotMacSubheader) (rest : list Z) :
  0 <= lcid < 29 ->
  Forall (fun h => readable h /\ m_extension h = true) hsT ->
  readable hl -> m_extension hl = false ->
  hsT ++ [hl] = hs ++ tl ->
  Forall2 (fun h sdu => exists ext, h = NbIotMacSubheader_new lcid (packet_bytes sdu) ext)
          hs sdus ->
  (tl = [] \/ exists h, tl = [h] /\ m_lcid h = PADDING) ->
  let pdu := concat (map Subheader_Serialize (hsT ++ [hl])) ++ concat sdus ++ rest in
  packet_bytes pdu < 4294967296 ->
  MacPdu_Deserialize pdu = fold_left (fun r sdu => push_back_at lcid sdu r) sdus [].
Proof.
  intros Hl Hall Hr Hext Hsplit Hpay Htl pdu Hsize.
  unfold MacPdu_Deserialize, GetSize, wrap32. fold (packet_bytes pdu).
  rewrite Z.mod_small by (unfold packet_bytes in *; lia).
  assert (Hlen : packet_bytes pdu
                 = Z.of_nat (length (concat (map Subheader_Serialize (hsT ++ [hl]))))
                   + Z.of_nat (length (concat sdus)) + Z.of_nat (length rest)).
  { unfold packet_bytes, pdu. rewrite !length_app. lia. }
  assert (Hparse : parse_subheaders (S (length pdu)) pdu (packet_bytes pdu) 0
                   = (hsT ++ [hl],
                      Z.of_nat (length (concat (map Subheader_Serialize (hsT ++ [hl])))))).
  { apply (parse_subheaders_chain hsT hl (concat sdus ++ rest) (packet_bytes pdu)
             Hr Hext [] (S (length pdu)) Hall).
    - assert (Forall readable hsT) as Hrd by (eapply Forall_impl; [done|by intros ? []]).
      pose proof (headers_length_ge hsT Hrd). unfold pdu.
      rewrite map_app, concat_app, !length_app. lia.
    - simpl length. lia. }
  rewrite Hparse.
  remember (Z.of_nat (length (concat (map Subheader_Serialize (hsT ++ [hl]))))) as off
    eqn:Hoff.
  rewrite Hsplit.
  pose proof (parse_payloads_sdus lcid tl rest (packet_bytes pdu) hs sdus Hl Hpay
                (concat (map Subheader_Serialize (hsT ++ [hl]))) []) as Hpl.
  fold pdu in Hpl. rewrite <- Hoff in Hpl. rewrite Hpl by lia.
  destruct Htl as [->|(h & -> & Hpad)]; [done|].
  cbn [parse_payloads]. by rewrite Hpad.
Qed.

(** X7. MAC PDU round trip.  SDUs of fewer than 2^15 bytes each that need
    fewer than 2^16 bytes together with their subheaders, put on one logical
    channel below 29 with [AddSdu], padded with [AddPadding] to a target
    size below 2^16 and serialized, are read back by [Deserialize] as that
    channel with those SDUs, in order, whatever the padding; a PDU without
    SDUs reads back as nothing. *)
Theorem MacPdu_roundtrip (lcid : Z) (sdus : list Packet) (targetSize : Z) :
  0 <= lcid < 29 ->
  Forall (fun sdu => packet_bytes sdu < 32768) sdus ->
  pdu_bytes_needed sdus < 65536 ->
  0 <= targetSize < 65536 ->
  MacPdu_Deserialize (MacPdu_Serialize (AddPadding targetSize (add_sdus lcid sdus)))
    = match sdus with [] => [] | _ => [(lcid, sdus)] end.
Proof.
  intros Hl Hshort Hneed Ht.
  pose proof (AddPadding_length lcid sdus targetSize Hl Hneed Ht) as Hlen.
  pose proof (pdu_bytes_needed_nonneg sdus) as H0.
  destruct (add_sdus_size lcid sdus Hl Hneed) as [Hsize _].
  destruct (add_sdus_shape lcid sdus (pdu_bytes_needed_bounds _ Hneed)) as [Hh Hp].
  destruct (seal_all_ext_Forall2 lcid sdus) as [Hseal Hext].
  rewrite <- push_back_at_all. revert Hlen.
  unfold AddPadding. rewrite Hsize.
  destruct (pdu_bytes_needed sdus >=? targetSize).
  - unfold MacPdu_Serialize at 1 2. rewrite Hh, Hp. intros Hlen.
    destruct sdus as [|s l _] using rev_ind; [done|].
    revert Hlen Hseal. unfold all_ext. rewrite map_app. simpl map. rewrite seal_snoc.
    intros Hlen Hseal. apply Forall_app in Hshort as [Hshort Hs].
    apply Forall_cons in Hs as [Hs _].
    rewrite <- (app_nil_r (concat (l ++ [s]))).
    eapply (read_back_chain lcid (l ++ [s]) _ _ []); try done.
    + by apply all_ext_chain.
    + exists lcid, (packet_bytes s), false. unfold packet_bytes in *. repeat split; lia.
    + by rewrite app_nil_r.
    + by left.
    + rewrite app_nil_r. lia.
  - unfold MacPdu_Serialize at 1 2. cbn [m_subheaders m_payloads].
    rewrite Hh, Hp, extend_last_seal_all_ext, concat_app. intros Hlen.
    eapply (read_back_chain lcid sdus _ _ [NbIotMacSubheader_new PADDING 0 false]);
      try done.
    + by apply all_ext_chain.
    + exists PADDING, 0, false. unfold PADDING. repeat split; lia.
    + right. by eexists.
    + lia.
Qed.

Lemma MacPdu_roundtrip_witness :
  MacPdu_Deserialize
    (MacPdu_Serialize (AddPadding 208 (add_sdus 1 [packet_a; packet_b])))
    = [(1, [packet_a; packet_b])].
Proof.
  apply (MacPdu_roundtrip 1 [packet_a; packet_b] 208); [lia | | vm_compute; reflexivity | lia].
  repeat constructor.
Defined.

(** ** Downlink scheduling: where the queued packets go *)

(** X8. Downlink scheduling neither loses nor reorders packets.  Under each
    of the three schedulers, for every endpoint, the packets queued before
    a [ScheduleDl] call are the SDUs the call assigns to the endpoint, in
    order, followed by the packets queued after it; no assignment is
    returned without an SDU; and the PHY, the contexts and the HARQ
    managers of the MAC are as before the call. *)
Theorem dl_scheduling_conserves_packets (std_sort : list (Z * Z) -> list (Z * Z))
    (sch : NbIotScheduler) (mac : NbIotEnbMac) (availableRbs : Z) :
  let res := ScheduleDl std_sort sch mac availableRbs in
  (forall rnti, queued mac rnti = sdus_for rnti (fst (fst res)) ++ queued (snd res) rnti)
  /\ Forall (fun a => Dl.sdus a <> []) (fst (fst res))
  /\ dl_keeps mac (snd res).
Proof.
  destruct (dl_scheduling_conserves std_sort sch mac availableRbs) as [Hcons Hkeeps].
  split; [exact Hcons|]. split; [apply ScheduleDl_nonempty_sdus|exact Hkeeps].
Qed.

Lemma dl_scheduling_conserves_packets_witness :
  queued three_ues_dl 1
    = replicate 200 0
      :: queued (snd (ScheduleDl stable_sort rr_scheduler three_ues_dl 1)) 1.
Proof.
  exact (proj1 (dl_scheduling_conserves_packets stable_sort rr_scheduler three_ues_dl 1) 1).
Defined.

(** ** Transport block sizes *)

Lemma TBS_TABLE_range (i : Z) : 0 <= at_index NPDSCH_TBS_TABLE i <= 680.
Proof.
  unfold at_index. destruct (NPDSCH_TBS_TABLE !! Z.to_nat i) as [x|] eqn:E; simpl; [|lia].
  apply list_elem_of_lookup_2 in E. unfold NPDSCH_TBS_TABLE in E.
  repeat (apply elem_of_cons in E as [->|E]; [lia|]). by apply elem_of_nil in E.
Qed.

Lemma GetTbsFromMcsAndRbs_range (mcs nRbs : Z) : 0 <= GetTbsFromMcsAndRbs mcs nRbs <= 680.
Proof. apply TBS_TABLE_range. Qed.

(** X9. Transport block size lookup.  For an MCS in the range of its type,
    [GetTbsFromMcsAndRbs] is [GetTbsFromIndex] of [GetTbsIndexFromMcs],
    whatever the number of resource blocks; the size lies between 16 and
    680, does not decrease with the MCS, and is 680 from MCS 13 on. *)
Theorem tbs_lookup (mcs mcs' nRbs : Z) :
  0 <= mcs <= mcs' -> mcs' <= 255 ->
  GetTbsFromMcsAndRbs mcs nRbs = GetTbsFromIndex (GetTbsIndexFromMcs mcs)
  /\ 16 <= GetTbsFromMcsAndRbs mcs nRbs <= 680
  /\ GetTbsFromMcsAndRbs mcs nRbs <= GetTbsFromMcsAndRbs mcs' nRbs
  /\ (13 <= mcs -> GetTbsFromMcsAndRbs mcs nRbs = 680).
Proof.
  intros Hm Hm'.
  assert (Hhigh : forall m, 13 <= m -> GetTbsFromMcsAndRbs m nRbs = 680).
  { intros m H. unfold GetTbsFromMcsAndRbs.
    destruct (Z.ltb_spec m (size NPDSCH_TBS_TABLE)) as [Hlt|Hge]; [|reflexivity].
    change (size NPDSCH_TBS_TABLE) with 14 in Hlt. by replace m with 13 by lia. }
  assert (Hlow : forall m, 0 <= m < 14 ->
            GetTbsFromMcsAndRbs m nRbs = GetTbsFromIndex (GetTbsIndexFromMcs m)
            /\ 16 <= GetTbsFromMcsAndRbs m nRbs
            /\ (forall m2, m <= m2 < 14 ->
                  GetTbsFromMcsAndRbs m nRbs <= GetTbsFromMcsAndRbs m2 nRbs)).
  { intros m H.
    assert (Hc : forallb (fun m =>
                   (GetTbsFromMcsAndRbs m 0 =? GetTbsFromIndex (GetTbsIndexFromMcs m))
                   && (16 <=? GetTbsFromMcsAndRbs m 0)
                   && forallb (fun m2 => (m2 <? m)
                                 || (GetTbsFromMcsAndRbs m 0 <=? GetTbsFromMcsAndRbs m2 0))
                              (seqZ 0 14)) (seqZ 0 14) = true) by (vm_compute; reflexivity).
    rewrite forallb_forall in Hc. specialize (Hc m).
    rewrite <- list_elem_of_In, elem_of_seqZ in Hc. specialize (Hc ltac:(lia)).
    apply andb_prop in Hc as [Hc Hmono]. apply andb_prop in Hc as [Heq Hlb].
    change (GetTbsFromMcsAndRbs m nRbs) with (GetTbsFromMcsAndRbs m 0).
    repeat split; [lia|lia|]. intros m2 H2.
    rewrite forallb_forall in Hmono. specialize (Hmono m2).
    rewrite <- list_elem_of_In, elem_of_seqZ in Hmono. specialize (Hmono ltac:(lia)).
    change (GetTbsFromMcsAndRbs m2 nRbs) with (GetTbsFromMcsAndRbs m2 0).
    apply orb_prop in Hmono as [Hlt|Hle]; lia. }
  pose proof (GetTbsFromMcsAndRbs_range mcs nRbs) as Hr.
  pose proof (GetTbsFromMcsAndRbs_range mcs' nRbs) as Hr'.
  destruct (Z.lt_ge_cases mcs 14) as [Hlt|Hge].
  - destruct (Hlow mcs ltac:(lia)) as (Heq & Hlb & Hmono).
    repeat split; [done|lia|lia| |intros; apply Hhigh; lia].
    destruct (Z.lt_ge_cases mcs' 14) as [Hlt'|Hge'].
    + apply Hmono. lia.
    + rewrite (Hhigh mcs') by lia. lia.
  - rewrite (Hhigh mcs), (Hhigh mcs') by lia.
    repeat split; try lia.
    unfold GetTbsIndexFromMcs.
    destruct (Z.ltb_spec mcs (size NPDSCH_TBS_TABLE)) as [Hlt|_]; [|reflexivity].
    change (size NPDSCH_TBS_TABLE) with 14 in Hlt. lia.
Qed.

Lemma tbs_lookup_witness :
  GetTbsFromMcsAndRbs 7 1 <= GetTbsFromMcsAndRbs 10 1.
Proof.
  exact (proj1 (proj2 (proj2 (tbs_lookup 7 10 1 ltac:(lia) ltac:(lia))))).
Defined.

(** ** Downlink scheduling: the block and the PDU built for it *)

Lemma find_Some_elem {V} (k : Z) (v : V) (m : list (Z * V)) :
  Map16.find k m = Some v -> (k, v) ∈ m.
Proof.
  induction m as [|[k' v'] m IH]; simpl; [done|].
  destruct (Z.eqb_spec k' k) as [->|Hne].
  - intros [= ->]. apply list_elem_of_here.
  - intros H. apply list_elem_of_further. by apply IH.
Qed.

Lemma packets_below_queue (bound : Z) (mac : NbIotEnbMac) (rnti : Z) :
  packets_below bound mac ->
  Forall (fun lp => packet_bytes (snd lp) < bound) (fst (GetDlTxQueue mac rnti)).
Proof.
  intros Hall. rewrite GetDlTxQueue_fst.
  destruct (Map16.find rnti (m_dlTxQueues mac)) as [q|] eqn:E; simpl; [|constructor].
  apply find_Some_elem in E. unfold packets_below in Hall.
  rewrite Forall_forall in Hall. exact (Hall _ E).
Qed.

Lemma charged_small (sdus : list Packet) :
  Forall (fun sdu => packet_bytes sdu < 65536) sdus ->
  charged sdus = scheduler_bytes sdus.
Proof.
  induction 1 as [|s l Hs _ IH]; simpl; [done|].
  destruct (packet_small s Hs) as [-> _]. fold (charged l) (scheduler_bytes l). lia.
Qed.

Lemma long_sdus_length (sdus : list Packet) :
  2 * Z.of_nat (length (long_sdus sdus)) <= scheduler_bytes sdus.
Proof.
  unfold long_sdus, scheduler_bytes, packet_bytes.
  induction sdus as [|s l IH]; simpl; [lia|].
  destruct (Z.of_nat (length s) >? 127); simpl; lia.
Qed.

(** The SDUs [collect_sdus] takes for a block of at most 680 bytes give a
    PDU of at least the block and at most one byte more per long SDU. *)
Lemma collected_pdu_length (dlQueue : list (Z * Packet)) (a : NbIotDlAssignmentResult) :
  Forall (fun lp => packet_bytes (snd lp) < 65536) dlQueue ->
  0 <= Dl.tbSize a <= 680 ->
  Dl.sdus a = fst (collect_sdus dlQueue (Dl.tbSize a)) ->
  scheduler_bytes (Dl.sdus a) <= Dl.tbSize a
  /\ Dl.tbSize a <= packet_bytes (build_pdu a)
       <= Dl.tbSize a + Z.of_nat (length (long_sdus (Dl.sdus a))).
Proof.
  intros Hq Htb Hsdus.
  destruct (collect_sdus_split dlQueue (Dl.tbSize a)) as (Hsplit & _ & Hcharge & _).
  rewrite <- Hsdus in *.
  assert (Hsmall : Forall (fun sdu => packet_bytes sdu < 65536) (Dl.sdus a)).
  { assert (H : Forall (fun sdu => packet_bytes sdu < 65536) (map snd dlQueue)).
    { clear -Hq. induction Hq; simpl; by constructor. }
    rewrite Hsplit in H. by apply Forall_app in H as [H _]. }
  rewrite charged_small in Hcharge by done.
  pose proof (long_sdus_length (Dl.sdus a)) as Hlong.
  pose proof (pdu_bytes_needed_split (Dl.sdus a)) as Hneed.
  split; [lia|].
  assert (Hlen : packet_bytes (build_pdu a)
                 = Z.max (pdu_bytes_needed (Dl.sdus a)) (Dl.tbSize a))
    by (apply (AddPadding_length 1); lia).
  lia.
Qed.

(** X10. The PDU of a round-robin or coverage-class assignment.  With every
    queued packet shorter than 2^16 bytes, a [ScheduleDl] call of these two
    schedulers returns at most one assignment; its block is at most 680
    bytes and covers what the scheduler charged for the SDUs (their bytes
    and 2 per SDU); the PDU [TransmitDlPdus] builds for it is at least one
    block long and exceeds the block by at most one byte for every SDU
    longer than 127 bytes. *)
Theorem dl_pdu_within_block (std_sort : list (Z * Z) -> list (Z * Z))
    (sch : NbIotScheduler) (mac : NbIotEnbMac) (availableRbs : Z) :
  (forall s, policy sch <> SpsScheduler s) ->
  packets_below 65536 mac ->
  let assignments := fst (fst (ScheduleDl std_sort sch mac availableRbs)) in
  (length assignments <= 1)%nat
  /\ forall a, a ∈ assignments ->
       scheduler_bytes (Dl.sdus a) <= Dl.tbSize a <= 680
       /\ Dl.tbSize a <= packet_bytes (build_pdu a)
            <= Dl.tbSize a + Z.of_nat (length (long_sdus (Dl.sdus a))).
Proof.
  intros Hpolicy Hbelow.
  assert (Hone : forall rnti mcs reps sdus remainder,
            collect_sdus (fst (GetDlTxQueue mac rnti)) (GetTbsFromMcsAndRbs mcs 1)
              = (sdus, remainder) ->
            forall a, a ∈ [Dl.mk rnti mcs (GetTbsFromMcsAndRbs mcs 1) 1 reps 0 true 0 sdus] ->
              scheduler_bytes (Dl.sdus a) <= Dl.tbSize a <= 680
              /\ Dl.tbSize a <= packet_bytes (build_pdu a)
                   <= Dl.tbSize a + Z.of_nat (length (long_sdus (Dl.sdus a)))).
  { intros rnti mcs reps sdus remainder Hc a ->%list_elem_of_singleton.
    pose proof (GetTbsFromMcsAndRbs_range mcs 1) as Hr.
    destruct (collected_pdu_length (fst (GetDlTxQueue mac rnti))
                (Dl.mk rnti mcs (GetTbsFromMcsAndRbs mcs 1) 1 reps 0 true 0 sdus))
      as [H1 H2]; [by apply packets_below_queue|done|simpl; by rewrite Hc|].
    simpl in *. lia. }
  unfold ScheduleDl. destruct (policy sch) as [s| |s]; [| |by destruct (Hpolicy s)].
  - destruct (rr_ScheduleDl_cases s (m_mac sch) mac availableRbs)
      as [(mac' & -> & _)|(rnti & c & mac2 & sdus & remainder & _ & _ & _ & _ & _ & _
                           & Hcol & ->)]; simpl.
    + split; [lia|by intros ? ?%elem_of_nil].
    + destruct sdus as [|x sdus]; simpl; [split; [lia|by intros ? ?%elem_of_nil]|].
      split; [lia|]. by eapply Hone.
  - destruct (cc_ScheduleDl_cases std_sort (m_mac sch) mac availableRbs)
      as [(mac' & -> & _)|(rnti & rest & c & mac2 & sdus & remainder & _ & _ & _ & _
                           & Hcol & ->)]; simpl.
    + split; [lia|by intros ? ?%elem_of_nil].
    + destruct sdus as [|x sdus]; simpl; [split; [lia|by intros ? ?%elem_of_nil]|].
      split; [lia|]. by eapply Hone.
Qed.

Lemma dl_pdu_within_block_witness :
  208 <= packet_bytes (build_pdu (Dl.mk 1 7 208 1 1 0 true 0 [replicate 200 0])) <= 209.
Proof.
  destruct (dl_pdu_within_block stable_sort rr_scheduler three_ues_dl 1) as [_ H].
  - intros s. discriminate.
  - repeat constructor.
  - exact (proj2 (H (Dl.mk 1 7 208 1 1 0 true 0 [replicate 200 0])
                    ltac:(vm_compute; apply list_elem_of_here))).
Defined.

(** The SPS scheduler takes up to eight packets of any size for its block
    of 88 bytes: queued packets of 300 and 20 bytes give a PDU of 325. *)
Example sps_dl_exceeds_block :
  map (fun a => (Dl.tbSize a, packet_bytes (build_pdu a)))
      (fst (fst (ScheduleDl stable_sort (sps_scheduler Sps.new) blocked_ues 1)))
    = [(88, 325)].
Proof. vm_compute. reflexivity. Qed.

(** ** Downlink scheduling: a call that assigns nothing *)

(** X11. A downlink call that assigns nothing changes nothing that can be
    read.  If [ScheduleDl] returns no assignment, the scheduler is as before
    the call and the MAC differs from the one before by lookups only: the
    PHY log, the contexts, the HARQ managers and [m_nextRnti] are the same,
    and each queue is the same or is an empty queue that a lookup of the
    call created under an id that had none.  So every queue reads as
    before, and every later call with the same budget returns no
    assignment either, until something else changes the MAC: a front
    packet that does not fit the block of its endpoint is never dropped nor
    passed over, and under round robin [m_lastDlRnti] does not move on to
    the next endpoint. *)
Theorem dl_blocked_forever (std_sort : list (Z * Z) -> list (Z * Z))
    (sch : NbIotScheduler) (mac : NbIotEnbMac) (availableRbs : Z) (n : nat) :
  fst (fst (ScheduleDl std_sort sch mac availableRbs)) = [] ->
  snd (fst (ScheduleDl std_sort sch mac availableRbs)) = sch
  /\ lookups_only mac (snd (ScheduleDl std_sort sch mac availableRbs))
  /\ (forall rnti,
        fst (GetDlTxQueue (snd (ScheduleDl std_sort sch mac availableRbs)) rnti)
          = fst (GetDlTxQueue mac rnti))
  /\ schedule_dl_n std_sort n sch mac availableRbs = replicate n [].
Proof.
  intros Hnone.
  destruct (ScheduleDl_none std_sort sch mac availableRbs Hnone) as [Hsch Hl].
  split; [done|]. split; [done|]. split; [intros rnti; by apply lookups_only_read|].
  clear Hsch Hl. revert mac Hnone.
  induction n as [|n IH]; intros mac Hnone; simpl; [done|].
  destruct (ScheduleDl_none std_sort sch mac availableRbs Hnone) as [Hsch Hl].
  pose proof (ScheduleDl_cong std_sort sch mac
                (snd (ScheduleDl std_sort sch mac availableRbs)) availableRbs
                (lookups_only_same_reads _ _ Hl)) as Hcong.
  destruct (ScheduleDl std_sort sch mac availableRbs) as [[assignments sch'] mac'].
  simpl in *. subst assignments sch'. simpl. f_equal. apply IH. by rewrite Hcong.
Qed.

Lemma dl_blocked_forever_witness :
  queued blocked_ues 2 <> []
  /\ schedule_dl_n stable_sort 50 rr_scheduler blocked_ues 1 = replicate 50 [].
Proof.
  split; [discriminate|].
  apply (dl_blocked_forever stable_sort rr_scheduler blocked_ues 1 50).
  vm_compute. reflexivity.
Defined.

(** ** Round robin: whose turn it is *)

Lemma below_upper_bound {V} (k : Z) (m : list (Z * V)) :
  Map16.below k m ++ Map16.upper_bound k m = m.
Proof.
  induction m as [|[k' v] m IH]; simpl; [done|].
  destruct (k <? k'); simpl; [done|]. by rewrite IH.
Qed.

Lemma below_keys {V} (k : Z) (m : list (Z * V)) :
  Forall (fun x => fst x <= k) (Map16.below k m).
Proof.
  induction m as [|[k' v] m IH]; simpl; [constructor|].
  destruct (Z.ltb_spec k k'); constructor; [simpl; lia|done].
Qed.

Lemma upper_bound_keys {V} (k : Z) (m : list (Z * V)) :
  Map16.ordered m -> Forall (fun x => k < fst x) (Map16.upper_bound k m).
Proof.
  unfold Map16.ordered. induction m as [|[k' v] m IH]; simpl; [constructor|].
  intros Hs. apply StronglySorted_inv in Hs as [Hs Hall].
  destruct (Z.ltb_spec k k'); [|by apply IH].
  constructor; [done|]. unfold Map16.keys in Hall. rewrite Forall_fmap in Hall.
  eapply Forall_impl; [exact Hall|]. simpl. lia.
Qed.

Lemma ordered_elem_find {V} (k : Z) (v : V) (m : list (Z * V)) :
  Map16.ordered m -> (k, v) ∈ m -> Map16.find k m = Some v.
Proof.
  unfold Map16.ordered. induction m as [|[k' v'] m IH]; simpl.
  - by intros _ ?%elem_of_nil.
  - intros Hs. apply StronglySorted_inv in Hs as [Hs Hall].
    intros [[= -> ->]|Hin]%elem_of_cons; [by rewrite Z.eqb_refl|].
    destruct (Z.eqb_spec k' k) as [->|Hne]; [|by apply IH].
    rewrite Forall_forall in Hall.
    assert (k ∈ Map16.keys m) as Hk
      by (unfold Map16.keys; apply list_elem_of_fmap; by exists (k, v)).
    specialize (Hall k Hk). lia.
Qed.

Lemma turn_above (lastRnti rnti : Z) :
  0 <= lastRnti < rnti -> rnti < 65536 -> turn lastRnti rnti = rnti - lastRnti - 1.
Proof. intros H1 H2. unfold turn, wrap16. apply Z.mod_small. lia. Qed.

Lemma turn_below (lastRnti rnti : Z) :
  0 <= rnti <= lastRnti -> lastRnti < 65536 ->
  turn lastRnti rnti = rnti - lastRnti + 65535.
Proof.
  intros H1 H2. unfold turn, wrap16. symmetry.
  apply (Z.mod_unique _ _ (-1)); lia.
Qed.

Lemma sorted_by_turn (lastRnti : Z) (P : Z -> Prop) (l : list (Z * NbIotUeContext)) :
  (forall a b, P a -> P b -> a < b -> turn lastRnti a < turn lastRnti b) ->
  StronglySorted Z.lt (Map16.keys l) -> Forall (fun x => P (fst x)) l ->
  StronglySorted (fun x y => turn lastRnti (fst x) < turn lastRnti (fst y)) l.
Proof.
  intros Hmono. unfold Map16.keys.
  induction l as [|[k c] l IH]; simpl; [constructor|].
  intros Hs HP. apply StronglySorted_inv in Hs as [Hs Hall].
  apply Forall_cons in HP as [Hk HP].
  constructor; [by apply IH|].
  rewrite Forall_fmap in Hall. rewrite Forall_forall in *.
  intros x Hx. simpl. apply Hmono; [done|by apply HP|]. exact (Hall x Hx).
Qed.

(** The entries [GetNextRnti] visits stand in the order of their turn. *)
Lemma visit_sorted (ueContexts : list (Z * NbIotUeContext)) (lastRnti : Z) :
  Map16.ordered ueContexts -> rntis_valid ueContexts -> 0 <= lastRnti < 65536 ->
  StronglySorted (fun x y => turn lastRnti (fst x) < turn lastRnti (fst y))
    (Map16.upper_bound lastRnti ueContexts ++ Map16.below lastRnti ueContexts).
Proof.
  intros Hord Hvalid Hlast.
  pose proof (upper_bound_keys lastRnti ueContexts Hord) as Hup.
  pose proof (below_keys lastRnti ueContexts) as Hlow.
  assert (Hin : forall x, x ∈ ueContexts -> 0 < fst x < 65536).
  { intros x Hx. unfold rntis_valid, Map16.keys in Hvalid.
    rewrite Forall_fmap, Forall_forall in Hvalid. exact (Hvalid x Hx). }
  unfold Map16.ordered in Hord.
  rewrite <- (below_upper_bound lastRnti ueContexts) in Hord.
  unfold Map16.keys in Hord. rewrite map_app in Hord.
  apply StronglySorted_app_2.
  - intros x1 x2 H1 H2.
    rewrite Forall_forall in Hup, Hlow. specialize (Hup x1 H1). specialize (Hlow x2 H2).
    apply upper_bound_subseteq, Hin in H1. apply below_subseteq, Hin in H2.
    rewrite turn_above, turn_below by lia. lia.
  - apply (sorted_by_turn lastRnti (fun k => lastRnti < k < 65536)).
    + intros a b Ha Hb Hab. rewrite !turn_above by lia. lia.
    + by apply StronglySorted_app_1_r in Hord.
    + rewrite Forall_forall in *. intros x Hx. specialize (Hup x Hx).
      apply upper_bound_subseteq, Hin in Hx. lia.
  - apply (sorted_by_turn lastRnti (fun k => 0 < k <= lastRnti)).
    + intros a b Ha Hb Hab. rewrite !turn_below by lia. lia.
    + by apply StronglySorted_app_1_l in Hord.
    + rewrite Forall_forall in *. intros x Hx. specialize (Hlow x Hx).
      apply below_subseteq, Hin in Hx. lia.
Qed.

Lemma eligible_lookups (dl : bool) (mac mac' : NbIotEnbMac) (k : Z) (c : NbIotUeContext) :
  lookups_only mac mac' -> eligible dl mac' k c = eligible dl mac k c.
Proof. intros Hl. unfold eligible. by rewrite (lookups_only_read mac mac'). Qed.

(** [next_with_data] returns the first entry that passes the test. *)
Lemma next_with_data_first (dl : bool) (visit : list (Z * NbIotUeContext)) :
  forall mac : NbIotEnbMac,
    (fst (RoundRobin.next_with_data dl mac visit) = 0
     /\ Forall (fun x => eligible dl mac (fst x) (snd x) = false) visit)
    \/ exists pre context post,
         visit = pre ++ (fst (RoundRobin.next_with_data dl mac visit), context) :: post
         /\ eligible dl mac (fst (RoundRobin.next_with_data dl mac visit)) context = true
         /\ Forall (fun x => eligible dl mac (fst x) (snd x) = false) pre.
Proof.
  induction visit as [|[first second] rest IH]; intros mac; simpl; [left; by split|].
  assert (Hstep : forall mac1, lookups_only mac mac1 ->
    eligible dl mac first second = false ->
    (fst (RoundRobin.next_with_data dl mac1 rest) = 0
     /\ Forall (fun x => eligible dl mac (fst x) (snd x) = false) ((first, second) :: rest))
    \/ exists pre context post,
         (first, second) :: rest
           = pre ++ (fst (RoundRobin.next_with_data dl mac1 rest), context) :: post
         /\ eligible dl mac (fst (RoundRobin.next_with_data dl mac1 rest)) context = true
         /\ Forall (fun x => eligible dl mac (fst x) (snd x) = false) pre).
  { intros mac1 Hl Hno.
    assert (Hall1 : forall l,
              Forall (fun x => eligible dl mac1 (fst x) (snd x) = false) l ->
              Forall (fun x => eligible dl mac (fst x) (snd x) = false) l).
    { intros l H. eapply Forall_impl; [exact H|].
      intros x. simpl. by rewrite (eligible_lookups dl mac mac1). }
    destruct (IH mac1) as [[H0 Hall]|(pre & c & post & Heq & He & Hpre)].
    - left. split; [done|]. constructor; [done|by apply Hall1].
    - right. exists ((first, second) :: pre), c, post. split; [by rewrite Heq at 1|].
      split; [by rewrite <- (eligible_lookups dl mac mac1)|].
      constructor; [done|by apply Hall1]. }
  destruct (Ue.connected second) eqn:Hc.
  2:{ apply (Hstep mac (lookups_only_refl mac)). unfold eligible. by rewrite Hc. }
  unfold RoundRobin.dl_has_data. destruct dl; simpl.
  - pose proof (GetDlTxQueue_lookups mac first) as Hl.
    assert (He : eligible true mac first second
                 = negb (empty (fst (GetDlTxQueue mac first))))
      by (unfold eligible; by rewrite Hc).
    destruct (GetDlTxQueue mac first) as [queue mac1]. simpl in Hl, He.
    destruct (empty queue); simpl in *; [by apply Hstep|].
    right. exists [], second, rest. split; [done|]. split; [done|constructor].
  - assert (He : eligible false mac first second = ul_pending second)
      by (unfold eligible; by rewrite Hc).
    destruct (ul_pending second); simpl;
      [|by apply (Hstep mac (lookups_only_refl mac))].
    right. exists [], second, rest. split; [done|]. split; [done|constructor].
Qed.

(** The endpoint [GetNextRnti] returns is the first in turn. *)
Lemma GetNextRnti_turn (mac : NbIotEnbMac) (lastRnti : Z) (dl : bool) :
  Map16.ordered (m_ueContexts mac) -> rntis_valid (m_ueContexts mac) ->
  0 <= lastRnti < 65536 ->
  let rnti := fst (RoundRobin.GetNextRnti true mac lastRnti dl) in
  (rnti = 0 <->
     forall k c, (k, c) ∈ m_ueContexts mac -> eligible dl mac k c = false)
  /\ (rnti <> 0 ->
      exists context,
        GetUeContext mac rnti = Some context
        /\ eligible dl mac rnti context = true
        /\ forall k c, (k, c) ∈ m_ueContexts mac -> eligible dl mac k c = true ->
             turn lastRnti rnti <= turn lastRnti k).
Proof.
  intros Hord Hvalid Hlast. unfold RoundRobin.GetNextRnti, GetUeContexts. cbn [negb].
  destruct (m_ueContexts mac) as [|entry others] eqn:Hm.
  { simpl. split; [|done]. split; [|done]. by intros _ k c ?%elem_of_nil. }
  cbn [empty]. rewrite <- Hm in *. clear entry others Hm.
  set (visit := if empty (Map16.upper_bound lastRnti (m_ueContexts mac))
                then m_ueContexts mac
                else Map16.upper_bound lastRnti (m_ueContexts mac)
                     ++ Map16.below lastRnti (m_ueContexts mac)).
  assert (Hvisit : visit = Map16.upper_bound lastRnti (m_ueContexts mac)
                           ++ Map16.below lastRnti (m_ueContexts mac)).
  { unfold visit. pose proof (below_upper_bound lastRnti (m_ueContexts mac)) as Hcut.
    destruct (Map16.upper_bound lastRnti (m_ueContexts mac)); [|done].
    simpl. by rewrite app_nil_r in Hcut. }
  assert (Hall : forall x, x ∈ m_ueContexts mac <-> x ∈ visit).
  { intros x. rewrite Hvisit, <- (below_upper_bound lastRnti (m_ueContexts mac)) at 1.
    rewrite !elem_of_app. tauto. }
  pose proof (visit_sorted (m_ueContexts mac) lastRnti Hord Hvalid Hlast) as Hsorted.
  rewrite <- Hvisit in Hsorted. clearbody visit.
  assert (Hkey : forall k c, (k, c) ∈ m_ueContexts mac -> k <> 0).
  { intros k c Hin. unfold rntis_valid, Map16.keys in Hvalid.
    rewrite Forall_fmap, Forall_forall in Hvalid. specialize (Hvalid _ Hin). simpl in *. lia. }
  destruct (next_with_data_first dl visit mac)
    as [[H0 Hnone]|(pre & context & post & Heq & He & Hpre)].
  - rewrite H0. split; [|done]. split; [|done]. intros _ k c Hin.
    rewrite Forall_forall in Hnone. apply Hall in Hin. exact (Hnone _ Hin).
  - set (rnti := fst (RoundRobin.next_with_data dl mac visit)) in *.
    assert (Hin : (rnti, context) ∈ m_ueContexts mac).
    { apply Hall. rewrite Heq. apply elem_of_app. right. apply list_elem_of_here. }
    split.
    + split; [intros H0; by destruct (Hkey _ _ Hin)|].
      intros Hno. rewrite (Hno _ _ Hin) in He. done.
    + intros _. exists context. split; [by apply ordered_elem_find|]. split; [done|].
      intros k c Hk Hek. apply Hall in Hk. rewrite Heq in Hk, Hsorted.
      apply elem_of_app in Hk as [Hk|Hk].
      * rewrite Forall_forall in Hpre. specialize (Hpre _ Hk). simpl in Hpre. congruence.
      * apply StronglySorted_app_1_r, StronglySorted_inv in Hsorted as [_ Hafter].
        apply elem_of_cons in Hk as [[= -> ->]|Hk]; [lia|].
        rewrite Forall_forall in Hafter. specialize (Hafter _ Hk). simpl in Hafter. lia.
Qed.


(** X12. Whose turn it is.  On a context map with ids between 1 and 65535,
    [GetNextRnti] returns 0 exactly when no connected endpoint has data in
    the asked direction; otherwise it returns, among the connected
    endpoints with data, the one reached first when counting upwards from
    [lastRnti + 1] and around the 16-bit range.  The call leaves the MAC as
    it was but for the empty queues its lookups create. *)
Theorem GetNextRnti_round_robin (mac : NbIotEnbMac) (lastRnti : Z) (dl : bool) :
  Map16.ordered (m_ueContexts mac) -> rntis_valid (m_ueContexts mac) ->
  0 <= lastRnti < 65536 ->
  let rnti := fst (RoundRobin.GetNextRnti true mac lastRnti dl) in
  (rnti = 0 <->
     forall k c, (k, c) ∈ m_ueContexts mac -> eligible dl mac k c = false)
  /\ (rnti <> 0 ->
      exists context,
        GetUeContext mac rnti = Some context
        /\ eligible dl mac rnti context = true
        /\ forall k c, (k, c) ∈ m_ueContexts mac -> eligible dl mac k c = true ->
             turn lastRnti rnti <= turn lastRnti k)
  /\ lookups_only mac (snd (RoundRobin.GetNextRnti true mac lastRnti dl)).
Proof.
  intros Hord Hvalid Hlast.
  destruct (GetNextRnti_turn mac lastRnti dl Hord Hvalid Hlast) as [H0 Hturn].
  split; [exact H0|]. split; [exact Hturn|]. apply GetNextRnti_lookups.
Qed.

Lemma GetNextRnti_round_robin_witness :
  fst (RoundRobin.GetNextRnti true three_ues_dl 2 true) = 3
  /\ fst (RoundRobin.GetNextRnti true three_ues_dl 3 true) = 1
  /\ forall k c, (k, c) ∈ m_ueContexts three_ues_dl -> eligible true three_ues_dl k c = true ->
       turn 3 1 <= turn 3 k.
Proof.
  split; [reflexivity|]. split; [reflexivity|].
  destruct (GetNextRnti_round_robin three_ues_dl 3 true) as (_ & H & _).
  - repeat constructor.
  - repeat constructor.
  - lia.
  - destruct (H ltac:(discriminate)) as (context & _ & _ & Hmin). exact Hmin.
Defined.

(** X13. Round-robin downlink serves in turn.  On an ordered context map
    with ids between 1 and 65535 and [m_lastDlRnti] in the 16-bit range,
    the endpoint of a round-robin downlink assignment is connected and has
    queued packets; among such endpoints it is the first in turn after
    [m_lastDlRnti]; and the call moves [m_lastDlRnti] to it, so that the
    turn passes on. *)
Theorem rr_dl_serves_in_turn (s : NbIotRoundRobinScheduler) (mac : NbIotEnbMac)
    (availableRbs : Z) (a : NbIotDlAssignmentResult) :
  Map16.ordered (m_ueContexts mac) -> rntis_valid (m_ueContexts mac) ->
  0 <= RoundRobin.m_lastDlRnti s < 65536 ->
  a ∈ fst (fst (RoundRobin.ScheduleDl s true mac availableRbs)) ->
  (exists context,
     GetUeContext mac (Dl.rnti a) = Some context
     /\ eligible true mac (Dl.rnti a) context = true)
  /\ (forall k c, (k, c) ∈ m_ueContexts mac -> eligible true mac k c = true ->
        turn (RoundRobin.m_lastDlRnti s) (Dl.rnti a) <= turn (RoundRobin.m_lastDlRnti s) k)
  /\ RoundRobin.m_lastDlRnti (snd (fst (RoundRobin.ScheduleDl s true mac availableRbs)))
       = Dl.rnti a
  /\ 0 < Dl.rnti a < 65536.
Proof.
  intros Hord Hvalid Hlast.
  destruct (GetNextRnti_turn mac (RoundRobin.m_lastDlRnti s) true Hord Hvalid Hlast)
    as [_ Hturn].
  destruct (rr_ScheduleDl_cases s true mac availableRbs)
    as [(mac' & -> & _)|(rnti & c & mac2 & sdus & remainder & _ & Hr & Hne & _ & _ & _
                         & _ & ->)]; [by intros ?%elem_of_nil|].
  rewrite <- Hr in Hturn.
  destruct (Hturn Hne) as (context & Hc & He & Hmin).
  destruct sdus as [|x sdus]; simpl; [by intros ?%elem_of_nil|].
  intros ->%list_elem_of_singleton. simpl.
  split; [by exists context|]. split; [done|]. split; [done|].
  apply find_Some_elem in Hc. unfold rntis_valid, Map16.keys in Hvalid.
  rewrite Forall_fmap, Forall_forall in Hvalid. exact (Hvalid _ Hc).
Qed.

Lemma rr_dl_serves_in_turn_witness :
  map Dl.rnti (fst (fst (RoundRobin.ScheduleDl (RoundRobin.mk 2 0) true three_ues_dl 1)))
    = [3]
  /\ RoundRobin.m_lastDlRnti
       (snd (fst (RoundRobin.ScheduleDl (RoundRobin.mk 2 0) true three_ues_dl 1))) = 3.
Proof.
  split; [reflexivity|].
  refine (proj1 (proj2 (proj2 (rr_dl_serves_in_turn (RoundRobin.mk 2 0) three_ues_dl 1
            (Dl.mk 3 7 208 1 1 0 true 0 [replicate 200 0]) _ _ _ _)))).
  - repeat constructor.
  - repeat constructor.
  - simpl. lia.
  - vm_compute. apply list_elem_of_here.
Defined.

(** ** SPS scheduler: who is granted *)

Lemma take_succ_cons {A} (n : Z) (x : A) (l : list A) :
  0 <= n -> take (Z.to_nat (n + 1)) (x :: l) = x :: take (Z.to_nat n) l.
Proof. intros Hn. by replace (Z.to_nat (n + 1)) with (S (Z.to_nat n)) by lia. Qed.

(** The periodic pass grants the due configurations in ascending order of
    their id as far as the budget goes. *)
Lemma sps_loop_rntis (m_mac : bool) (mac : NbIotEnbMac) (now currentTime : Time)
    (availableRbs : Z) (keys : list Z) :
  forall (s : NbIotSpsScheduler) (usedRbs : Z),
    NoDup keys -> Sps.rnti_is_key (Sps.m_spsConfigs s) ->
    0 <= usedRbs <= availableRbs -> availableRbs < 256 ->
    map Ul.rnti (fst (Sps.sps_loop keys s m_mac mac now currentTime usedRbs availableRbs))
      = take (Z.to_nat (availableRbs - usedRbs)) (List.filter (due s currentTime) keys).
Proof.
  induction keys as [|key rest IH]; intros s u Hnd Hkey Hu Ha; simpl.
  { by rewrite take_nil. }
  apply NoDup_cons in Hnd as [Hfresh Hnd].
  destruct (Z.geb_spec u availableRbs) as [Hge|Hlt].
  { by replace (availableRbs - u) with 0 by lia. }
  unfold due at 1. unfold Sps.GetSpsConfig.
  destruct (Map16.find key (Sps.m_spsConfigs s)) as [config|] eqn:Hfind;
    [|by apply IH].
  destruct (SpsConfig.active config); simpl; [|by apply IH].
  destruct (currentTime >=? SpsConfig.nextAllocation config); [|by apply IH].
  rewrite (wrap8_succ u availableRbs) by lia.
  pose proof (Hkey _ _ Hfind) as Hrnti.
  match goal with |- context [Sps.sps_loop rest ?s2 _ _ _ _ _ _] =>
    remember s2 as s2' eqn:Hs2 end.
  assert (Htable : Sps.m_spsConfigs s2'
                   = Map16.update key
                       (fun c => SpsConfig.set_nextAllocation
                                   (now + SpsConfig.spsInterval c) c)
                       (Sps.m_spsConfigs s)).
  { subst s2'. unfold Sps.UpdateNextAllocation. rewrite Hrnti. simpl.
    by destruct (Sps.Scheduler_GetUeContext _ _ _) as [c|];
      [destruct (Ue.totalBufferSize c >? 0)|]. }
  clear Hs2. specialize (IH s2' (u + 1) Hnd).
  destruct (Sps.sps_loop rest s2' m_mac mac now currentTime (u + 1) availableRbs)
    as [grants s3].
  simpl in *. rewrite Hrnti, IH; [|rewrite Htable; by apply rnti_is_key_update|lia|lia].
  replace (availableRbs - u) with (availableRbs - (u + 1) + 1) by lia.
  rewrite take_succ_cons by lia. f_equal. f_equal.
  apply List.filter_ext_in. intros k Hk. unfold due, Sps.GetSpsConfig.
  rewrite Htable, find_update_ne; [done|].
  intros ->. apply Hfresh. by apply list_elem_of_In.
Qed.

Lemma sps_loop_active (m_mac : bool) (mac : NbIotEnbMac) (now currentTime : Time)
    (availableRbs : Z) (rnti : Z) (keys : list Z) :
  forall (s : NbIotSpsScheduler) (usedRbs : Z),
    Sps.IsSpsActive
      (snd (Sps.sps_loop keys s m_mac mac now currentTime usedRbs availableRbs)) rnti
    = Sps.IsSpsActive s rnti.
Proof.
  induction keys as [|key rest IH]; intros s u; simpl; [done|].
  destruct (u >=? availableRbs); [done|].
  destruct (Map16.find key (Sps.m_spsConfigs s)) as [config|]; [|by apply IH].
  destruct (SpsConfig.active config); simpl; [|by apply IH].
  destruct (currentTime >=? SpsConfig.nextAllocation config); [|by apply IH].
  match goal with |- context [Sps.sps_loop rest ?s2 _ _ _ _ ?u2 _] =>
    specialize (IH s2 u2);
    assert (Hsame : Sps.IsSpsActive s2 rnti = Sps.IsSpsActive s rnti);
    [|destruct (Sps.sps_loop rest s2 m_mac mac now currentTime u2 availableRbs)]
  end.
  { unfold Sps.IsSpsActive, Sps.UpdateNextAllocation. simpl.
    assert (Hupd : forall T,
      match Map16.find rnti
              (Map16.update (SpsConfig.rnti config)
                 (fun c => SpsConfig.set_nextAllocation (now + SpsConfig.spsInterval c) c) T)
      with Some c => SpsConfig.active c | None => false end
      = match Map16.find rnti T with Some c => SpsConfig.active c | None => false end).
    { intros T. destruct (Z.eq_dec rnti (SpsConfig.rnti config)) as [->|Hne].
      - rewrite find_update_eq. by destruct (Map16.find _ T).
      - by rewrite find_update_ne. }
    destruct (Sps.Scheduler_GetUeContext _ _ _) as [c|];
      [destruct (Ue.totalBufferSize c >? 0)|]; simpl; by rewrite Hupd. }
  simpl in *. by rewrite IH.
Qed.

Lemma find_update_is_Some {V} (k k0 : Z) (f : V -> V) (m : list (Z * V)) :
  is_Some (Map16.find k (Map16.update k0 f m)) <-> is_Some (Map16.find k m).
Proof.
  destruct (Z.eq_dec k k0) as [->|Hne].
  - rewrite find_update_eq. by rewrite fmap_is_Some.
  - by rewrite find_update_ne.
Qed.

(** The dynamic pass grants the endpoints of its list in order as far as
    the budget goes. *)
Lemma dynamic_loop_rntis (availableRbs : Z) (ues : list Z) :
  forall (mac : NbIotEnbMac) (usedRbs : Z),
    Forall (fun rnti => is_Some (GetUeContext mac rnti)) ues ->
    0 <= usedRbs <= availableRbs -> availableRbs < 256 ->
    map Ul.rnti (fst (Sps.dynamic_loop ues mac usedRbs availableRbs))
      = take (Z.to_nat (availableRbs - usedRbs)) ues.
Proof.
  induction ues as [|rnti rest IH]; intros mac u Hall Hu Ha; simpl.
  { by rewrite take_nil. }
  apply Forall_cons in Hall as [[c Hc] Hall].
  destruct (Z.geb_spec u availableRbs) as [Hge|Hlt].
  { by replace (availableRbs - u) with 0 by lia. }
  rewrite Hc. destruct (Sps.SelectMcsAndTbs (Ue.cqi c) 12) as [mcs tbSize].
  rewrite (wrap8_succ u availableRbs) by lia.
  match goal with |- context [Sps.dynamic_loop rest ?m (u + 1) _] =>
    specialize (IH m (u + 1));
    destruct (Sps.dynamic_loop rest m (u + 1) availableRbs) as [grants mac2]
  end.
  simpl in *. rewrite IH; [| |lia|lia].
  - replace (availableRbs - u) with (availableRbs - (u + 1) + 1) by lia.
    by rewrite take_succ_cons by lia.
  - eapply Forall_impl; [exact Hall|]. intros r Hr. unfold GetUeContext in *. simpl.
    by apply find_update_is_Some.
Qed.

Lemma dynamicUes_keys (s : NbIotSpsScheduler) (mac : NbIotEnbMac) (rnti : Z) :
  rnti ∈ Sps.dynamicUes s mac ->
  rnti ∈ Map16.keys (m_ueContexts mac) /\ Sps.IsSpsActive s rnti = false.
Proof.
  unfold Sps.dynamicUes, GetUeContexts. rewrite list_elem_of_omap.
  intros ([k c] & Hin & Hf). simpl in Hf.
  destruct (Sps.IsSpsActive s k) eqn:Hactive; [done|].
  destruct (ul_pending c); [|done]. injection Hf as <-.
  split; [|done]. unfold Map16.keys. apply list_elem_of_fmap. by exists (k, c).
Qed.

Lemma dynamicUes_NoDup (s : NbIotSpsScheduler) (mac : NbIotEnbMac) :
  Map16.ordered (m_ueContexts mac) -> NoDup (Sps.dynamicUes s mac).
Proof.
  intros Hord%ordered_NoDup. unfold Sps.dynamicUes, GetUeContexts.
  unfold Map16.keys in Hord.
  induction (m_ueContexts mac) as [|[k c] rest IH]; simpl; [constructor|].
  apply NoDup_cons in Hord as [Hfresh Hnd]. specialize (IH Hnd).
  destruct (Sps.IsSpsActive s k); [done|].
  destruct (ul_pending c); [|done].
  constructor; [|done]. rewrite list_elem_of_omap. intros ([k' c'] & Hin & Hf).
  simpl in Hf. destruct (Sps.IsSpsActive s k'); [done|].
  destruct (ul_pending c'); [|done]. injection Hf as ->.
  apply Hfresh. apply list_elem_of_fmap. by exists (k, c').
Qed.

Lemma dynamicUes_ext (s s' : NbIotSpsScheduler) (mac : NbIotEnbMac) :
  (forall rnti, Sps.IsSpsActive s' rnti = Sps.IsSpsActive s rnti) ->
  Sps.dynamicUes s' mac = Sps.dynamicUes s mac.
Proof.
  intros Hsame. unfold Sps.dynamicUes.
  induction (GetUeContexts mac) as [|entry rest IH]; [done|].
  cbn [omap list_omap]. by rewrite Hsame, IH.
Qed.

(** X14. Who the SPS scheduler grants.  With a well-formed configuration
    table and a budget in the range of its type, [ScheduleUl] grants first
    the configurations that are active and due, in ascending order of their
    id, as far as the budget goes, and then, with what is left of the
    budget, the endpoints without active SPS that have a request or a
    backlog, in the order of the context map.  With an ordered context map
    no endpoint is granted twice in one call. *)
Theorem sps_ul_grants (s : NbIotSpsScheduler) (mac : NbIotEnbMac) (now : Time)
    (availableRbs : Z) :
  Sps.table_ok (Sps.m_spsConfigs s) -> 0 <= availableRbs < 256 ->
  let granted := map Ul.rnti (fst (fst (Sps.ScheduleUl s true mac now availableRbs))) in
  let periodic := take (Z.to_nat availableRbs) (due_rntis s now) in
  granted = periodic
            ++ take (Z.to_nat availableRbs - length periodic) (Sps.dynamicUes s mac)
  /\ (Map16.ordered (m_ueContexts mac) -> NoDup granted).
Proof.
  intros [Hord Hkey] Ha. cbv zeta.
  assert (Hgranted :
    map Ul.rnti (fst (fst (Sps.ScheduleUl s true mac now availableRbs)))
    = take (Z.to_nat availableRbs) (due_rntis s now)
      ++ take (Z.to_nat availableRbs
               - length (take (Z.to_nat availableRbs) (due_rntis s now)))
              (Sps.dynamicUes s mac)).
  { unfold Sps.ScheduleUl, Sps.ScheduleSpsGrants.
    set (s0 := Sps.set_subframeCounter _ s).
    pose proof (sps_loop_rntis true mac now now availableRbs
                  (Map16.keys (Sps.m_spsConfigs s0)) s0 0
                  (ordered_NoDup _ Hord) Hkey ltac:(lia) ltac:(lia)) as Hsps.
    pose proof (fun rnti => sps_loop_active true mac now now availableRbs rnti
                  (Map16.keys (Sps.m_spsConfigs s0)) s0 0) as Hactive.
    pose proof (sps_loop_budget (Map16.keys (Sps.m_spsConfigs s0)) s0 true mac
                  now now 0 availableRbs ltac:(lia) ltac:(lia)) as Hbudget.
    destruct (Sps.sps_loop _ s0 true mac now now 0 availableRbs) as [spsGrants s1].
    simpl in Hsps, Hactive, Hbudget. rewrite Z.sub_0_r in Hsps.
    change (List.filter (due s0 now) _) with (due_rntis s now) in Hsps.
    rewrite remaining_after_spec by lia.
    unfold Sps.ScheduleDynamicGrants. cbn [negb orb].
    rewrite (dynamicUes_ext s s1) by done.
    rewrite <- Hsps, length_map.
    destruct (Z.eqb_spec (Z.max 0 (availableRbs - Z.of_nat (length spsGrants))) 0)
      as [H0|Hpos]; simpl.
    - rewrite app_nil_r.
      replace (Z.to_nat availableRbs - length spsGrants)%nat with 0%nat by lia.
      by rewrite take_0, app_nil_r.
    - pose proof (dynamic_loop_rntis
                    (Z.max 0 (availableRbs - Z.of_nat (length spsGrants)))
                    (Sps.dynamicUes s mac) mac 0) as Hdyn.
      destruct (Sps.dynamic_loop _ mac 0 _) as [dynamicGrants mac1].
      simpl in *. rewrite map_app, Hdyn; [|
        apply Forall_forall; intros r Hr; apply find_is_Some;
        by apply dynamicUes_keys in Hr as [Hr _] |lia|lia].
      do 2 f_equal. lia. }
  split; [exact Hgranted|]. intros Hctx. rewrite Hgranted.
  apply NoDup_app. split; [|split].
  - eapply sublist_NoDup; [|apply sublist_take].
    unfold due_rntis. eapply sublist_NoDup; [exact (ordered_NoDup _ Hord)|].
    generalize (Map16.keys (Sps.m_spsConfigs s)). intros l.
    induction l as [|k l IH]; simpl; [constructor|].
    destruct (due s now k); by constructor.
  - intros r Hin%subseteq_take Hdyn%subseteq_take.
    apply dynamicUes_keys in Hdyn as [_ Hinactive].
    unfold due_rntis in Hin. apply list_elem_of_In, List.filter_In in Hin as [_ Hdue].
    unfold due, Sps.GetSpsConfig, Sps.IsSpsActive in *.
    destruct (Map16.find r (Sps.m_spsConfigs s)) as [c|]; [|done].
    rewrite Hinactive in Hdue. done.
  - eapply sublist_NoDup; [|apply sublist_take]. by apply dynamicUes_NoDup.
Qed.

Lemma sps_ul_grants_witness :
  map Ul.rnti (fst (fst (Sps.ScheduleUl sps_two_active true mixed_ues (MilliSeconds 100) 3)))
    = [1; 2; 3]
  /\ NoDup (map Ul.rnti
              (fst (fst (Sps.ScheduleUl sps_two_active true mixed_ues
                           (MilliSeconds 100) 3)))).
Proof.
  destruct (sps_ul_grants sps_two_active mixed_ues (MilliSeconds 100) 3
              table_ok_sps_two_active ltac:(lia)) as [Hgranted Hnodup].
  split; [rewrite Hgranted; reflexivity|].
  apply Hnodup. repeat constructor.
Defined.

(** ** SPS scheduler: configuration and activation *)

Lemma update_missing {V} (k : Z) (f : V -> V) (m : list (Z * V)) :
  Map16.find k m = None -> Map16.update k f m = m.
Proof.
  induction m as [|[k' v] m IH]; simpl; [done|].
  destruct (k' =? k); [done|]. intros H. by rewrite IH.
Qed.

(** X15. Activation of SPS.  [ActivateSps] leaves the endpoint active with
    its next allocation at the current time: on the configuration it had,
    with the other parameters kept, or on one created with the default
    interval, 12 subcarriers, MCS 4 and a block of 88.  No other endpoint's
    configuration changes.  [DeactivateSps] clears the flag and does
    nothing to an endpoint without a configuration; [ConfigureSps] on an
    active endpoint leaves it inactive. *)
Theorem sps_activation (s : NbIotSpsScheduler) (now : Time) (rnti : Z) :
  let s' := Sps.ActivateSps s now rnti in
  Sps.IsSpsActive s' rnti = true
  /\ Sps.GetSpsConfig s' rnti
       = Some (SpsConfig.set_nextAllocation now
                 (SpsConfig.set_active true
                    (default (default_config s now rnti) (Sps.GetSpsConfig s rnti))))
  /\ (forall r, r <> rnti -> Sps.GetSpsConfig s' r = Sps.GetSpsConfig s r)
  /\ Sps.IsSpsActive (Sps.DeactivateSps s' rnti) rnti = false
  /\ (Sps.GetSpsConfig s rnti = None -> Sps.DeactivateSps s rnti = s)
  /\ (forall t interval numSubcarriers,
        Sps.IsSpsActive (Sps.ConfigureSps s' t rnti interval numSubcarriers) rnti = false).
Proof.
  cbv zeta.
  assert (Hget : Sps.GetSpsConfig (Sps.ActivateSps s now rnti) rnti
                 = Some (SpsConfig.set_nextAllocation now
                           (SpsConfig.set_active true
                              (default (default_config s now rnti)
                                       (Sps.GetSpsConfig s rnti))))).
  { unfold Sps.GetSpsConfig, Sps.ActivateSps.
    destruct (Map16.find rnti (Sps.m_spsConfigs s)) as [c|] eqn:Hc; simpl.
    - by rewrite find_update_eq, Hc.
    - by rewrite find_update_eq, find_set_eq. }
  split; [|split; [exact Hget|split; [|split; [|split]]]].
  - unfold Sps.IsSpsActive. unfold Sps.GetSpsConfig in Hget. by rewrite Hget.
  - intros r Hne. unfold Sps.GetSpsConfig, Sps.ActivateSps.
    destruct (Map16.find rnti (Sps.m_spsConfigs s)) as [c|] eqn:Hc; simpl.
    + by rewrite find_update_ne.
    + by rewrite find_update_ne, find_set_ne.
  - unfold Sps.IsSpsActive.
    change (Sps.m_spsConfigs (Sps.DeactivateSps (Sps.ActivateSps s now rnti) rnti))
      with (Map16.update rnti (SpsConfig.set_active false)
              (Sps.m_spsConfigs (Sps.ActivateSps s now rnti))).
    rewrite find_update_eq. unfold Sps.GetSpsConfig in Hget. by rewrite Hget.
  - unfold Sps.GetSpsConfig, Sps.DeactivateSps. intros Hnone.
    rewrite update_missing by done. by destruct s.
  - intros t interval n. unfold Sps.IsSpsActive, Sps.ConfigureSps.
    destruct (Sps.SelectMcsAndTbs 7 n) as [mcs tbSize].
    cbn [Sps.m_spsConfigs Sps.set_spsConfigs]. by rewrite find_set_eq.
Qed.

Lemma sps_activation_witness :
  Sps.GetSpsConfig (Sps.ActivateSps Sps.new (MilliSeconds 5) 9) 9
    = Some (SpsConfig.mk 9 (MilliSeconds 20) 12 4 88 1 (MilliSeconds 5) true 0)
  /\ Sps.DeactivateSps Sps.new 9 = Sps.new.
Proof.
  destruct (sps_activation Sps.new (MilliSeconds 5) 9) as (_ & Hget & _ & _ & Hoff & _).
  split; [exact Hget|]. apply Hoff. reflexivity.
Defined.

Lemma active_entries_update (k : Z) (f : NbIotSpsConfig -> NbIotSpsConfig)
    (m : list (Z * NbIotSpsConfig)) (c : NbIotSpsConfig) :
  Map16.find k m = Some c ->
  active_entries (Map16.update k f m) + (if SpsConfig.active c then 1 else 0)
    = active_entries m + (if SpsConfig.active (f c) then 1 else 0).
Proof.
  unfold active_entries. induction m as [|[k' v] m IH]; simpl; [done|].
  destruct (Z.eqb_spec k' k) as [->|Hne].
  - intros [= ->]. simpl. destruct (SpsConfig.active c), (SpsConfig.active (f c)); simpl; lia.
  - intros Hfind. specialize (IH Hfind). simpl.
    destruct (SpsConfig.active v); simpl; lia.
Qed.

Lemma active_entries_set (k : Z) (v : NbIotSpsConfig) (m : list (Z * NbIotSpsConfig)) :
  Map16.find k m = None ->
  active_entries (Map16.set k v m)
    = active_entries m + (if SpsConfig.active v then 1 else 0).
Proof.
  unfold active_entries. induction m as [|[k' v'] m IH]; simpl.
  - intros _. destruct (SpsConfig.active v); simpl; lia.
  - destruct (Z.eqb_spec k' k) as [->|Hne]; [done|]. intros Hfind. specialize (IH Hfind).
    destruct (Z.ltb_spec k k'); simpl.
    + destruct (SpsConfig.active v), (SpsConfig.active v'); simpl; lia.
    + destruct (Z.eqb_spec k k'); [lia|]. simpl.
      destruct (SpsConfig.active v'); simpl; lia.
Qed.

Lemma active_entries_bound (m : list (Z * NbIotSpsConfig)) :
  0 <= active_entries m <= Z.of_nat (length m).
Proof.
  unfold active_entries. induction m as [|[k v] m IH]; simpl; [lia|].
  destruct (SpsConfig.active v); simpl; lia.
Qed.

(** X16. The count of active configurations.  With fewer than 2^32 - 1
    configurations in the table, [ActivateSps] raises [GetActiveSpsCount] by
    one for an endpoint that was not active and leaves it for one that was;
    [DeactivateSps] lowers it by one for an endpoint that was active and
    leaves it otherwise. *)
Theorem sps_active_count (s : NbIotSpsScheduler) (now : Time) (rnti : Z) :
  Z.of_nat (length (Sps.m_spsConfigs s)) < 4294967295 ->
  Sps.GetActiveSpsCount (Sps.ActivateSps s now rnti)
    = Sps.GetActiveSpsCount s + (if Sps.IsSpsActive s rnti then 0 else 1)
  /\ Sps.GetActiveSpsCount (Sps.DeactivateSps s rnti)
       = Sps.GetActiveSpsCount s - (if Sps.IsSpsActive s rnti then 1 else 0).
Proof.
  intros Hlen.
  assert (Hcount : forall s0, Sps.GetActiveSpsCount s0
                              = wrap32 (active_entries (Sps.m_spsConfigs s0))) by done.
  pose proof (active_entries_bound (Sps.m_spsConfigs s)) as Hb.
  rewrite !Hcount. unfold Sps.IsSpsActive, Sps.ActivateSps, Sps.DeactivateSps.
  destruct (Map16.find rnti (Sps.m_spsConfigs s)) as [c|] eqn:Hc; simpl.
  - pose proof (active_entries_update rnti
                  (fun c => SpsConfig.set_nextAllocation now (SpsConfig.set_active true c))
                  _ c Hc) as Hon.
    pose proof (active_entries_update rnti (SpsConfig.set_active false) _ c Hc) as Hoff.
    simpl in Hon, Hoff. unfold wrap32.
    pose proof (active_entries_bound
                  (Map16.update rnti (SpsConfig.set_active false) (Sps.m_spsConfigs s))).
    destruct (SpsConfig.active c); rewrite !Z.mod_small by lia; lia.
  - rewrite (update_missing rnti (SpsConfig.set_active false)) by done.
    pose proof (active_entries_set rnti
                  (SpsConfig.mk rnti (Sps.m_defaultSpsInterval s) 12 4 88 1 now false 0)
                  _ Hc) as Hset.
    pose proof (active_entries_update rnti
                  (fun c => SpsConfig.set_nextAllocation now (SpsConfig.set_active true c))
                  _ _ (find_set_eq rnti
                         (SpsConfig.mk rnti (Sps.m_defaultSpsInterval s) 12 4 88 1 now false 0)
                         (Sps.m_spsConfigs s))) as Hon.
    simpl in Hset, Hon. unfold wrap32. rewrite !Z.mod_small by lia. lia.
Qed.

Lemma sps_active_count_witness :
  Sps.GetActiveSpsCount (Sps.ActivateSps sps_one_active 0 2) = 2
  /\ Sps.GetActiveSpsCount (Sps.DeactivateSps sps_one_active 1) = 0.
Proof.
  destruct (sps_active_count sps_one_active 0 2) as [Hon _]; [simpl; lia|].
  destruct (sps_active_count sps_one_active 0 1) as [_ Hoff]; [simpl; lia|].
  split; [exact Hon|exact Hoff].
Defined.

(** ** SPS scheduler: MCS and block size *)

(** X17. [SelectMcsAndTbs].  For a subcarrier count in the range of its
    type, the MCS lies between 0 and 8 and the block size between 16 and
    256, and neither decreases when the CQI or the subcarrier count
    grows.  With 12 subcarriers or more the block size is the entry of
    [NPDSCH_TBS_TABLE] for the MCS exactly when the CQI is at most 5 or at
    least 12: for a CQI from 6 to 11 it is smaller (88 for MCS 4, 152 for
    MCS 6). *)
Theorem SelectMcsAndTbs_monotone (cqi cqi' numSubcarriers numSubcarriers' : Z) :
  cqi <= cqi' -> 0 <= numSubcarriers <= numSubcarriers' -> numSubcarriers' < 256 ->
  let r := Sps.SelectMcsAndTbs cqi numSubcarriers in
  let r' := Sps.SelectMcsAndTbs cqi' numSubcarriers' in
  0 <= fst r <= fst r' /\ fst r' <= 8
  /\ 16 <= snd r <= snd r' /\ snd r' <= 256
  /\ (12 <= numSubcarriers ->
      (snd r = GetTbsFromMcsAndRbs (fst r) 1 <-> cqi <= 5 \/ 12 <= cqi)).
Proof.
  intros Hcqi Hn Hn'.
  assert (Hscale : forall tb n, 16 <= tb <= 256 -> 0 <= n < 12 ->
            let t := wrap16 (tb * n / 12) in
            t = tb * n / 12 /\ 0 <= t <= tb).
  { intros tb n Htb Hn0. cbv zeta.
    assert (0 <= tb * n / 12 <= tb).
    { split; [apply Z.div_pos; nia|]. apply Z.div_le_upper_bound; nia. }
    unfold wrap16. rewrite Z.mod_small by lia. lia. }
  assert (Hmono : forall tb tb' n n', 0 <= tb <= tb' -> 0 <= n <= n' ->
            tb * n / 12 <= tb' * n' / 12).
  { intros tb tb' n n' Htb Hnn. apply Z.div_le_mono; nia. }
  unfold Sps.SelectMcsAndTbs. cbv zeta.
  set (base := fun c : Z =>
         if c <=? 3 then (0, 16) else if c <=? 5 then (2, 56)
         else if c <=? 8 then (4, 88) else if c <=? 11 then (6, 152) else (8, 256)).
  change (if cqi <=? 3 then _ else _) with (base cqi).
  change (if cqi' <=? 3 then _ else _) with (base cqi').
  assert (Hbase : 0 <= fst (base cqi) <= fst (base cqi') /\ fst (base cqi') <= 8
                  /\ 16 <= snd (base cqi) <= snd (base cqi') /\ snd (base cqi') <= 256).
  { unfold base.
    destruct (Z.leb_spec cqi 3), (Z.leb_spec cqi 5), (Z.leb_spec cqi 8),
             (Z.leb_spec cqi 11), (Z.leb_spec cqi' 3), (Z.leb_spec cqi' 5),
             (Z.leb_spec cqi' 8), (Z.leb_spec cqi' 11); simpl; lia. }
  assert (Htable : 12 <= numSubcarriers ->
            (snd (base cqi) = GetTbsFromMcsAndRbs (fst (base cqi)) 1
             <-> cqi <= 5 \/ 12 <= cqi)).
  { intros _. unfold base.
    destruct (Z.leb_spec cqi 3), (Z.leb_spec cqi 5), (Z.leb_spec cqi 8),
             (Z.leb_spec cqi 11); simpl; try lia;
      (split; [intros Heq; first [lia | (vm_compute in Heq; discriminate)]
              | intros Hor; first [reflexivity | lia]]). }
  destruct (base cqi) as [mcs tb], (base cqi') as [mcs' tb']. simpl in Hbase, Htable.
  destruct (Z.ltb_spec numSubcarriers 12) as [Hlt|Hge],
           (Z.ltb_spec numSubcarriers' 12) as [Hlt'|Hge']; simpl; try lia.
  - destruct (Hscale tb numSubcarriers ltac:(lia) ltac:(lia)) as [-> Ht].
    destruct (Hscale tb' numSubcarriers' ltac:(lia) ltac:(lia)) as [-> Ht'].
    pose proof (Hmono tb tb' numSubcarriers numSubcarriers' ltac:(lia) ltac:(lia)).
    destruct (Z.ltb_spec (tb * numSubcarriers / 12) 16),
             (Z.ltb_spec (tb' * numSubcarriers' / 12) 16); lia.
  - destruct (Hscale tb numSubcarriers ltac:(lia) ltac:(lia)) as [-> Ht].
    destruct (Z.ltb_spec (tb * numSubcarriers / 12) 16); lia.
Qed.

Lemma SelectMcsAndTbs_monotone_witness :
  snd (Sps.SelectMcsAndTbs 7 6) <= snd (Sps.SelectMcsAndTbs 9 12)
  /\ snd (Sps.SelectMcsAndTbs 7 12) <> GetTbsFromMcsAndRbs (fst (Sps.SelectMcsAndTbs 7 12)) 1.
Proof.
  destruct (SelectMcsAndTbs_monotone 7 9 6 12) as (_ & _ & [_ Hle] & _);
    [lia|lia|lia|].
  destruct (SelectMcsAndTbs_monotone 7 7 12 12) as (_ & _ & _ & _ & Hiff);
    [lia|lia|lia|].
  split; [exact Hle|]. intros Heq. apply Hiff in Heq; lia.
Defined.

(** ** eNB MAC: events for an endpoint it does not know *)

Lemma set_ueContexts_id (mac : NbIotEnbMac) : set_ueContexts (m_ueContexts mac) mac = mac.
Proof. by destruct mac. Qed.

Lemma update_update {V} (k : Z) (f g : V -> V) (m : list (Z * V)) :
  Map16.update k g (Map16.update k f m) = Map16.update k (fun v => g (f v)) m.
Proof.
  induction m as [|[k' v] m IH]; simpl; [done|].
  destruct (Z.eqb_spec k' k) as [->|Hne]; simpl.
  - by rewrite Z.eqb_refl.
  - destruct (Z.eqb_spec k' k); [done|]. by rewrite IH.
Qed.

Lemma update_ext {V} (k : Z) (f g : V -> V) (m : list (Z * V)) :
  (forall v, f v = g v) -> Map16.update k f m = Map16.update k g m.
Proof.
  intros Hfg. induction m as [|[k' v] m IH]; simpl; [done|].
  destruct (k' =? k); [by rewrite Hfg|by rewrite IH].
Qed.

Lemma ProcessBsr_twice (mac : NbIotEnbMac) (rnti : Z) :
  ProcessBsr (ProcessBsr mac rnti) rnti = ProcessBsr mac rnti.
Proof.
  unfold ProcessBsr, set_ueContexts. simpl. rewrite update_update. f_equal.
Qed.

(** [ReceivePdu] stamps the context of the sender and, when the PDU carries
    a buffer status report, runs [ProcessBsr]. *)
Lemma ReceivePdu_received (mac : NbIotEnbMac) (now : Time) (rnti : Z) (packet : Packet) :
  ReceivePdu mac now rnti packet
    = set_ueContexts
        (Map16.update rnti (received now (has_bsr (MacPdu_Deserialize packet)))
                      (m_ueContexts mac)) mac.
Proof.
  unfold ReceivePdu.
  set (mac1 := set_ueContexts _ mac).
  assert (Hfold : forall entries m,
    fold_left
      (fun mac (entry : Z * list Packet) =>
         let '(lcid, packets) := entry in
         if (lcid =? SHORT_BSR) || (lcid =? LONG_BSR)
         then if negb (empty packets) then ProcessBsr mac rnti else mac
         else mac) entries m
    = if has_bsr entries then ProcessBsr m rnti
      else m).
  { induction entries as [|[lcid packets] rest IH]; intros m; simpl; [done|].
    rewrite IH.
    destruct ((lcid =? SHORT_BSR) || (lcid =? LONG_BSR)); simpl.
    - destruct (negb (empty packets)); simpl; [|done].
      destruct (has_bsr rest); [apply ProcessBsr_twice|done].
    - done. }
  rewrite Hfold. unfold received.
  destruct (has_bsr (MacPdu_Deserialize packet)); [|done].
  unfold ProcessBsr, mac1, set_ueContexts. simpl. by rewrite update_update.
Qed.

Lemma GetDlTxQueue_TransmitSdu (mac : NbIotEnbMac) (rnti lcid r : Z) (packet : Packet) :
  fst (GetDlTxQueue (TransmitSdu mac rnti lcid packet) r)
    = if r =? rnti then fst (GetDlTxQueue mac rnti) ++ [(lcid, packet)]
      else fst (GetDlTxQueue mac r).
Proof.
  unfold TransmitSdu.
  pose proof (GetDlTxQueue_lookups mac rnti) as Hl.
  destruct (GetDlTxQueue mac rnti) as [queue mac0]. simpl in Hl |- *.
  transitivity (fst (GetDlTxQueue (set_DlTxQueue rnti (queue ++ [(lcid, packet)]) mac0) r)).
  { by rewrite !GetDlTxQueue_fst. }
  by rewrite GetDlTxQueue_set, (lookups_only_read mac mac0).
Qed.

Lemma TransmitSdu_contexts (mac : NbIotEnbMac) (rnti lcid : Z) (packet : Packet) :
  m_ueContexts (TransmitSdu mac rnti lcid packet)
    = Map16.update rnti
        (fun context =>
           Ue.set_totalBufferSize
             (wrap32 (Ue.totalBufferSize context + GetSize packet)) context)
        (m_ueContexts mac).
Proof.
  unfold TransmitSdu.
  pose proof (GetDlTxQueue_lookups mac rnti) as (_ & Hctx & _).
  destruct (GetDlTxQueue mac rnti) as [queue mac0]. simpl in Hctx |- *.
  by rewrite Hctx.
Qed.

(** X18. Events for an endpoint without a context.  When the MAC has no
    context and no downlink HARQ manager for an id, a buffer status report,
    a scheduling request, a HARQ feedback and a received PDU for that id
    leave the MAC as it is; [TransmitSdu] still appends the packet to a
    queue under that id, without a context to account it to. *)
Theorem stale_endpoint_events (mac : NbIotEnbMac) (rnti : Z) :
  GetUeContext mac rnti = None ->
  Map16.find rnti (m_dlHarqManagers mac) = None ->
  ProcessBsr mac rnti = mac
  /\ ProcessSchedulingRequest mac rnti = mac
  /\ (forall harqId ack, ProcessHarqFeedback mac rnti harqId ack = mac)
  /\ (forall now packet, ReceivePdu mac now rnti packet = mac)
  /\ (forall lcid packet,
        queued (TransmitSdu mac rnti lcid packet) rnti = queued mac rnti ++ [packet]
        /\ m_ueContexts (TransmitSdu mac rnti lcid packet) = m_ueContexts mac).
Proof.
  unfold GetUeContext. intros Hctx Hharq.
  split; [|split; [|split; [|split]]].
  - unfold ProcessBsr. rewrite update_missing by done. apply set_ueContexts_id.
  - unfold ProcessSchedulingRequest. rewrite update_missing by done.
    apply set_ueContexts_id.
  - intros harqId ack. unfold ProcessHarqFeedback. rewrite update_missing by done.
    by destruct mac.
  - intros now packet. rewrite ReceivePdu_received, update_missing by done.
    apply set_ueContexts_id.
  - intros lcid packet. split.
    + unfold queued. rewrite GetDlTxQueue_TransmitSdu, Z.eqb_refl.
      by rewrite map_app.
    + rewrite TransmitSdu_contexts. by rewrite update_missing.
Qed.

Lemma stale_endpoint_events_witness :
  ProcessBsr three_ues 9 = three_ues
  /\ queued (TransmitSdu three_ues 9 1 packet_a) 9 = [packet_a].
Proof.
  destruct (stale_endpoint_events three_ues 9 eq_refl eq_refl)
    as (Hbsr & _ & _ & _ & Htx).
  split; [exact Hbsr|]. exact (proj1 (Htx 1 packet_a)).
Defined.

(** ** eNB MAC: reception *)

(** X19. What a received PDU does.  [ReceivePdu] changes nothing but the
    context of the sending endpoint: it stamps [lastActivity], and when the
    PDU carries a short or long buffer status report with a payload it
    sets the request flag and sets the backlog to 100, whatever the report
    says.  A PDU made of one short report by [AddControlElement] and
    [Serialize] is read as such a report, for every value of its byte; one
    without the byte is not. *)
Theorem ReceivePdu_effect (mac : NbIotEnbMac) (now : Time) (rnti : Z) (packet : Packet)
    (b : Z) :
  ReceivePdu mac now rnti packet
    = set_ueContexts
        (Map16.update rnti (received now (has_bsr (MacPdu_Deserialize packet)))
                      (m_ueContexts mac)) mac
  /\ MacPdu_Deserialize (control_pdu SHORT_BSR [b]) = [(SHORT_BSR, [[b]])]
  /\ has_bsr (MacPdu_Deserialize (control_pdu SHORT_BSR [b])) = true
  /\ has_bsr (MacPdu_Deserialize (control_pdu SHORT_BSR [])) = false
  /\ GetUeContext (ReceivePdu mac now rnti (control_pdu SHORT_BSR [b])) rnti
       = (fun context =>
            Ue.set_srReceived true
              (Ue.set_totalBufferSize 100 (Ue.set_lastActivity now context)))
         <$> GetUeContext mac rnti.
Proof.
  assert (Hread : MacPdu_Deserialize (control_pdu SHORT_BSR [b]) = [(SHORT_BSR, [[b]])])
    by reflexivity.
  split; [apply ReceivePdu_received|]. split; [exact Hread|].
  split; [by rewrite Hread|]. split; [reflexivity|].
  rewrite ReceivePdu_received, Hread. unfold GetUeContext. simpl.
  by rewrite find_update_eq.
Qed.

(** ** eNB MAC: endpoints *)

Lemma find_erase_ne {V} (k k0 : Z) (m : list (Z * V)) :
  k <> k0 -> Map16.find k (Map16.erase k0 m) = Map16.find k m.
Proof.
  intros Hne. induction m as [|[k' v] m IH]; simpl; [done|].
  destruct (Z.eqb_spec k' k0) as [->|Hne']; simpl.
  - destruct (Z.eqb_spec k0 k); [congruence|done].
  - by rewrite IH.
Qed.

Lemma find_erase_eq {V} (k : Z) (m : list (Z * V)) :
  Map16.ordered m -> Map16.find k (Map16.erase k m) = None.
Proof.
  unfold Map16.ordered. induction m as [|[k' v] m IH]; simpl; [done|].
  intros Hs. apply StronglySorted_inv in Hs as [Hs Hall].
  destruct (Z.eqb_spec k' k) as [->|Hne]; simpl.
  - destruct (Map16.find k m) as [v'|] eqn:Hfind; [|done].
    apply find_Some_elem in Hfind. rewrite Forall_forall in Hall.
    assert (k ∈ Map16.keys m) as Hk
      by (unfold Map16.keys; apply list_elem_of_fmap; by exists (k, v')).
    specialize (Hall k Hk). lia.
  - destruct (Z.eqb_spec k' k); [done|]. by apply IH.
Qed.

Lemma erase_missing {V} (k : Z) (m : list (Z * V)) :
  Map16.find k m = None -> Map16.erase k m = m.
Proof.
  induction m as [|[k' v] m IH]; simpl; [done|].
  destruct (k' =? k); [done|]. intros H. by rewrite IH.
Qed.

Lemma erase_set {V} (k : Z) (v : V) (m : list (Z * V)) :
  Map16.find k m = None -> Map16.erase k (Map16.set k v m) = m.
Proof.
  induction m as [|[k' v'] m IH]; simpl.
  - by rewrite Z.eqb_refl.
  - destruct (Z.eqb_spec k' k) as [->|Hne]; [done|]. intros Hfind.
    destruct (Z.ltb_spec k k'); simpl.
    + by rewrite Z.eqb_refl.
    + destruct (Z.eqb_spec k k'); [congruence|]. simpl.
      destruct (Z.eqb_spec k' k); [congruence|]. by rewrite IH.
Qed.

Lemma AddUe_maps (mac : NbIotEnbMac) (rnti : Z) (coverageClass : NbIotCoverageClass) :
  AddUe mac rnti coverageClass
    = mkEnbMac (m_phy mac)
        (Map16.set rnti (fresh_context rnti coverageClass) (m_ueContexts mac))
        (m_dlTxQueues mac)
        (Map16.set rnti NbIotHarqManager_new (m_dlHarqManagers mac))
        (Map16.set rnti NbIotHarqManager_new (m_ulHarqManagers mac))
        (m_nextRnti mac).
Proof. reflexivity. Qed.

(** X20. [AddUe].  The endpoint gets a context with the given id and
    coverage class, CQI 7, no backlog, no request, connected, and two new
    HARQ managers, whatever the MAC held under that id: a second [AddUe]
    for an id resets its context and its HARQ state.  No queue changes,
    that of the id included, and no other endpoint's context or manager
    changes. *)
Theorem AddUe_effect (mac : NbIotEnbMac) (rnti r : Z) (coverageClass : NbIotCoverageClass) :
  let mac' := AddUe mac rnti coverageClass in
  GetUeContext mac' rnti = Some (fresh_context rnti coverageClass)
  /\ Map16.find rnti (m_dlHarqManagers mac') = Some NbIotHarqManager_new
  /\ Map16.find rnti (m_ulHarqManagers mac') = Some NbIotHarqManager_new
  /\ fst (GetDlTxQueue mac' r) = fst (GetDlTxQueue mac r)
  /\ (r <> rnti ->
      GetUeContext mac' r = GetUeContext mac r
      /\ Map16.find r (m_dlHarqManagers mac') = Map16.find r (m_dlHarqManagers mac)
      /\ Map16.find r (m_ulHarqManagers mac') = Map16.find r (m_ulHarqManagers mac))
  /\ (maps_ordered mac -> maps_ordered mac').
Proof.
  cbv zeta. rewrite AddUe_maps. unfold GetUeContext. rewrite !GetDlTxQueue_fst. simpl.
  rewrite !find_set_eq. repeat split; try done.
  - by rewrite find_set_ne.
  - by rewrite find_set_ne.
  - by rewrite find_set_ne.
  - by apply ordered_set, H.
  - apply H.
  - by apply ordered_set, H.
  - by apply ordered_set, H.
Qed.

Lemma AddUe_effect_witness :
  GetUeContext (AddUe three_ues 2 CE_LEVEL_1) 2 = Some (fresh_context 2 CE_LEVEL_1)
  /\ GetUeContext (AddUe three_ues 2 CE_LEVEL_1) 3 = GetUeContext three_ues 3.
Proof.
  destruct (AddUe_effect three_ues 2 3 CE_LEVEL_1) as (Hnew & _ & _ & _ & Hother & _).
  split; [exact Hnew|]. apply Hother. lia.
Defined.

(** X21. [RemoveUe].  With the maps in the order of [std::map], nothing is
    left under the removed id, and no other endpoint's context, queue or
    manager changes.  [RemoveUe] after [AddUe] gives back the MAC as it
    was when it held nothing under the id. *)
Theorem RemoveUe_effect (mac : NbIotEnbMac) (rnti r : Z)
    (coverageClass : NbIotCoverageClass) :
  maps_ordered mac ->
  unknown (RemoveUe mac rnti) rnti
  /\ maps_ordered (RemoveUe mac rnti)
  /\ (r <> rnti ->
      GetUeContext (RemoveUe mac rnti) r = GetUeContext mac r
      /\ fst (GetDlTxQueue (RemoveUe mac rnti) r) = fst (GetDlTxQueue mac r)
      /\ Map16.find r (m_dlHarqManagers (RemoveUe mac rnti))
           = Map16.find r (m_dlHarqManagers mac)
      /\ Map16.find r (m_ulHarqManagers (RemoveUe mac rnti))
           = Map16.find r (m_ulHarqManagers mac))
  /\ (unknown mac rnti -> RemoveUe (AddUe mac rnti coverageClass) rnti = mac).
Proof.
  intros (Hc & Hq & Hd & Hu).
  assert (Herase : forall V (m : list (Z * V)), Map16.ordered m ->
            Map16.ordered (Map16.erase rnti m)).
  { intros V m. unfold Map16.ordered, Map16.keys.
    induction m as [|[k v] m IH]; simpl; [done|]. intros Hs.
    apply StronglySorted_inv in Hs as [Hs Hall].
    destruct (k =? rnti); [done|]. simpl. constructor; [by apply IH|].
    rewrite Forall_forall in *. intros x Hx. apply Hall.
    apply list_elem_of_fmap in Hx as ([k' v'] & -> & Hin).
    apply list_elem_of_fmap. exists (k', v'). split; [done|].
    clear -Hin. induction m as [|[k0 v0] m IH]; simpl in *; [done|].
    destruct (k0 =? rnti); [by apply list_elem_of_further|].
    apply elem_of_cons in Hin as [->|Hin]; [apply list_elem_of_here|].
    apply list_elem_of_further. by apply IH. }
  split; [|split; [|split]].
  - unfold unknown, RemoveUe. simpl. by rewrite !find_erase_eq.
  - unfold maps_ordered, RemoveUe. simpl. repeat split; by apply Herase.
  - intros Hne. unfold GetUeContext. rewrite !GetDlTxQueue_fst.
    unfold RemoveUe. simpl. by rewrite !find_erase_ne.
  - intros (Hc0 & Hq0 & Hd0 & Hu0). rewrite AddUe_maps. unfold RemoveUe. simpl.
    rewrite !erase_set, erase_missing by done. by destruct mac.
Qed.

Lemma RemoveUe_effect_witness :
  GetUeContext (RemoveUe three_ues_dl 2) 2 = None
  /\ queued (RemoveUe three_ues_dl 2) 2 = []
  /\ RemoveUe (AddUe three_ues_dl 7 CE_LEVEL_2) 7 = three_ues_dl.
Proof.
  destruct (RemoveUe_effect three_ues_dl 2 3 CE_LEVEL_0) as ((Hc & Hq & _) & _);
    [repeat constructor|].
  destruct (RemoveUe_effect three_ues_dl 7 3 CE_LEVEL_2) as (_ & _ & _ & Hback);
    [repeat constructor|].
  split; [exact Hc|]. split.
  - unfold queued. rewrite GetDlTxQueue_fst. by rewrite Hq.
  - apply Hback. repeat split.
Defined.

(** ** eNB MAC: identifiers *)

Lemma phy_call_nextRnti (c : PhyCall) (mac : NbIotEnbMac) :
  m_nextRnti (phy_call c mac) = m_nextRnti mac.
Proof. unfold phy_call. by destruct (m_phy mac). Qed.

Lemma phy_call_ulHarqManagers (c : PhyCall) (mac : NbIotEnbMac) :
  m_ulHarqManagers (phy_call c mac) = m_ulHarqManagers mac.
Proof. unfold phy_call. by destruct (m_phy mac). Qed.

(** X22. [AllocateRnti] and [GenerateRar].  From a next id between 1 and
    65519 (0xFFEF), [AllocateRnti] returns that id and moves to the
    following one, or to 1 after 65519: it never returns 0 nor an id from
    0xFFF0 on, and nothing else changes.  It does not look at the ids in
    use: [GenerateRar] gives the id a new context and new HARQ managers,
    downlink and uplink, whatever the MAC held under it, hands the PHY one
    transmission when a PHY is attached, and leaves the queues as they
    were. *)
Theorem AllocateRnti_range (mac : NbIotEnbMac) (preambleId timingAdvance : Z)
    (coverageClass : NbIotCoverageClass) :
  1 <= m_nextRnti mac <= 65519 ->
  let rnti := fst (AllocateRnti mac) in
  let mac' := snd (AllocateRnti mac) in
  let mac2 := GenerateRar mac preambleId timingAdvance coverageClass in
  rnti = m_nextRnti mac
  /\ m_nextRnti mac' = (if rnti =? 65519 then 1 else rnti + 1)
  /\ 1 <= m_nextRnti mac' <= 65519
  /\ mac' = set_nextRnti (m_nextRnti mac') mac
  /\ GetUeContext mac2 rnti = Some (fresh_context rnti coverageClass)
  /\ Map16.find rnti (m_dlHarqManagers mac2) = Some NbIotHarqManager_new
  /\ Map16.find rnti (m_ulHarqManagers mac2) = Some NbIotHarqManager_new
  /\ m_dlTxQueues mac2 = m_dlTxQueues mac
  /\ m_nextRnti mac2 = m_nextRnti mac'
  /\ m_phy mac2
       = (fun log =>
            log ++ [TransmitNpdsch (replicate 10 0) 1 16
                      (at_index NPDSCH_REPETITIONS
                         (Z.min (coverageClass * 2) (size NPDSCH_REPETITIONS - 1)))])
         <$> m_phy mac.
Proof.
  intros Hr. cbv zeta. unfold GenerateRar, AllocateRnti. cbn [fst snd].
  assert (Hnext : (if wrap16 (m_nextRnti mac + 1) >=? 65520 then 1
                   else wrap16 (m_nextRnti mac + 1))
                  = (if m_nextRnti mac =? 65519 then 1 else m_nextRnti mac + 1)).
  { unfold wrap16. rewrite Z.mod_small by lia.
    destruct (Z.geb_spec (m_nextRnti mac + 1) 65520), (Z.eqb_spec (m_nextRnti mac) 65519);
      lia. }
  rewrite Hnext.
  match goal with |- context [phy_call ?c ?m] =>
    destruct (phy_call_rest c m) as (Hctx & Hq & Hd);
    pose proof (phy_call_phy c m) as Hphy;
    pose proof (phy_call_nextRnti c m) as Hn;
    pose proof (phy_call_ulHarqManagers c m) as Hu
  end.
  split; [done|]. split; [done|]. split.
  { simpl. destruct (m_nextRnti mac =? 65519) eqn:E; [lia|].
    apply Z.eqb_neq in E. lia. }
  split; [done|].
  unfold GetUeContext. rewrite Hctx, Hq, Hd, Hu, Hphy, Hn, AddUe_maps. simpl.
  by rewrite !find_set_eq.
Qed.

Lemma AllocateRnti_range_witness :
  fst (AllocateRnti (set_nextRnti 65519 three_ues)) = 65519
  /\ m_nextRnti (snd (AllocateRnti (set_nextRnti 65519 three_ues))) = 1
  /\ GetUeContext (GenerateRar three_ues 0 0 CE_LEVEL_1) 4
       = Some (fresh_context 4 CE_LEVEL_1)
  /\ GetUeContext (GenerateRar (set_nextRnti 2 three_ues) 0 0 CE_LEVEL_1) 2
       = Some (fresh_context 2 CE_LEVEL_1)
  /\ Map16.find 2 (m_ulHarqManagers (GenerateRar (set_nextRnti 2 three_ues) 0 0 CE_LEVEL_1))
       = Some NbIotHarqManager_new.
Proof.
  destruct (AllocateRnti_range (set_nextRnti 65519 three_ues) 0 0 CE_LEVEL_0)
    as (Hid & Hnext & _); [simpl; lia|].
  destruct (AllocateRnti_range three_ues 0 0 CE_LEVEL_1)
    as (_ & _ & _ & _ & Hnew & _); [simpl; lia|].
  destruct (AllocateRnti_range (set_nextRnti 2 three_ues) 0 0 CE_LEVEL_1)
    as (_ & _ & _ & _ & Hagain & _ & Hul & _); [simpl; lia|].
  split; [exact Hid|]. split; [exact Hnext|]. split; [exact Hnew|].
  split; [exact Hagain|exact Hul].
Defined.

(** ** eNB MAC: a downlink packet *)

Lemma rr_ul_loop_some (ueContexts : list (Z * NbIotUeContext)) (rnti : Z)
    (context : NbIotUeContext) :
  (rnti, context) ∈ ueContexts ->
  Ue.connected context = true -> ul_pending context = true ->
  is_Some (fst (RoundRobin.ul_loop ueContexts)).
Proof.
  intros Hin Hc Hp. induction ueContexts as [|[k c] rest IH]; simpl.
  - by apply elem_of_nil in Hin.
  - apply elem_of_cons in Hin as [[= <- <-]|Hin].
    + rewrite Hc, Hp. simpl. by eexists.
    + specialize (IH Hin). destruct (RoundRobin.ul_loop rest) as [g rest']. simpl in *.
      destruct (Ue.connected c); simpl; [|done].
      destruct (ul_pending c); simpl; [by eexists|done].
Qed.

(** X23. What a downlink packet does.  [TransmitSdu] appends the packet to
    the queue of the endpoint, behind what is queued, and adds its size to
    the backlog of the endpoint's context; no other queue or context
    changes.  The backlog is the one the uplink schedulers test: after a
    non-empty downlink packet for a connected endpoint whose backlog is not
    negative and stays below 2^32 with the packet, the round-robin
    scheduler with a budget other than 0 returns an uplink grant, with
    nothing requested in the uplink. *)
Theorem TransmitSdu_effect (mac : NbIotEnbMac) (rnti lcid r : Z) (packet : Packet)
    (s : NbIotRoundRobinScheduler) (availableRbs : Z) :
  let mac' := TransmitSdu mac rnti lcid packet in
  fst (GetDlTxQueue mac' r)
    = (if r =? rnti then fst (GetDlTxQueue mac rnti) ++ [(lcid, packet)]
       else fst (GetDlTxQueue mac r))
  /\ GetUeContext mac' r
       = (if r =? rnti
          then (fun context =>
                  Ue.set_totalBufferSize
                    (wrap32 (Ue.totalBufferSize context + GetSize packet)) context)
               <$> GetUeContext mac rnti
          else GetUeContext mac r)
  /\ (forall context,
        GetUeContext mac rnti = Some context -> Ue.connected context = true ->
        0 <= Ue.totalBufferSize context ->
        0 < packet_bytes packet ->
        Ue.totalBufferSize context + packet_bytes packet < 4294967296 ->
        availableRbs <> 0 ->
        fst (fst (RoundRobin.ScheduleUl s true mac' availableRbs)) <> []).
Proof.
  cbv zeta. split; [apply GetDlTxQueue_TransmitSdu|].
  assert (Hctx : forall k,
    GetUeContext (TransmitSdu mac rnti lcid packet) k
    = (if k =? rnti
       then (fun context =>
               Ue.set_totalBufferSize
                 (wrap32 (Ue.totalBufferSize context + GetSize packet)) context)
            <$> GetUeContext mac rnti
       else GetUeContext mac k)).
  { intros k. unfold GetUeContext. rewrite TransmitSdu_contexts.
    destruct (Z.eqb_spec k rnti) as [->|Hne].
    - by rewrite find_update_eq.
    - by rewrite find_update_ne. }
  split; [apply Hctx|].
  intros context Hget Hconn H0 Hp Hsum Hrbs.
  specialize (Hctx rnti). rewrite Z.eqb_refl, Hget in Hctx. simpl in Hctx.
  apply find_Some_elem in Hctx.
  unfold RoundRobin.ScheduleUl, GetUeContexts. cbn [negb orb].
  destruct (Z.eqb_spec availableRbs 0); [done|].
  destruct (m_ueContexts (TransmitSdu mac rnti lcid packet)) as [|entry rest] eqn:Hm.
  { by apply elem_of_nil in Hctx. }
  cbn [empty]. rewrite <- Hm in *.
  destruct (rr_ul_loop_some _ _ _ Hctx) as [grant Hgrant].
  - done.
  - unfold ul_pending. simpl. unfold GetSize, wrap32, packet_bytes in *.
    rewrite (Z.mod_small (Z.of_nat (length packet))) by lia.
    rewrite Z.mod_small by lia.
    destruct (Z.gtb_spec (Ue.totalBufferSize context + Z.of_nat (length packet)) 0);
      [by rewrite orb_true_r|lia].
  - destruct (RoundRobin.ul_loop _) as [g ueContexts']. simpl in Hgrant. by subst g.
Qed.

Lemma TransmitSdu_effect_witness :
  map Ul.rnti
      (fst (fst (RoundRobin.ScheduleUl RoundRobin.new true three_ues_dl 1))) = []
  /\ fst (fst (RoundRobin.ScheduleUl RoundRobin.new true
                 (TransmitSdu three_ues_dl 2 1 packet_a) 1)) <> [].
Proof.
  split; [reflexivity|].
  destruct (TransmitSdu_effect three_ues_dl 2 1 2 packet_a RoundRobin.new 1)
    as (_ & _ & Hgrant).
  apply (Hgrant (ue 2 CE_LEVEL_0 0 false true)); try reflexivity; simpl; lia.
Defined.

(** ** A scheduler that was given no MAC *)

(** X24. A scheduler without a MAC.  While [m_mac] is null, [ScheduleDl]
    of every scheduler and [ScheduleUl] of the round-robin and
    coverage-class schedulers return nothing and change nothing.
    [ScheduleUl] of the SPS scheduler still grants its active and due
    configurations, as far as the budget goes, and leaves the MAC alone. *)
Theorem scheduler_without_mac (std_sort : list (Z * Z) -> list (Z * Z))
    (sch : NbIotScheduler) (mac : NbIotEnbMac) (now : Time) (availableRbs : Z) :
  m_mac sch = false ->
  ScheduleDl std_sort sch mac availableRbs = ([], sch, mac)
  /\ ((forall s, policy sch <> SpsScheduler s) ->
      ScheduleUl std_sort sch mac now availableRbs = ([], sch, mac))
  /\ (forall s, policy sch = SpsScheduler s ->
        Sps.table_ok (Sps.m_spsConfigs s) -> 0 <= availableRbs < 256 ->
        map Ul.rnti (fst (fst (ScheduleUl std_sort sch mac now availableRbs)))
          = take (Z.to_nat availableRbs) (due_rntis s now)
        /\ snd (ScheduleUl std_sort sch mac now availableRbs) = mac).
Proof.
  destruct sch as [m_mac0 p]. simpl. intros ->. split; [|split].
  - unfold ScheduleDl. by destruct p.
  - intros Hp. unfold ScheduleUl. destruct p as [s| |s]; try done.
    by destruct (Hp s).
  - intros s -> [Hord Hkey] Ha. unfold ScheduleUl. simpl.
    unfold Sps.ScheduleUl, Sps.ScheduleSpsGrants.
    set (s0 := Sps.set_subframeCounter _ s).
    pose proof (sps_loop_rntis false mac now now availableRbs
                  (Map16.keys (Sps.m_spsConfigs s0)) s0 0
                  (ordered_NoDup _ Hord) Hkey ltac:(lia) ltac:(lia)) as Hsps.
    destruct (Sps.sps_loop _ s0 false mac now now 0 availableRbs) as [spsGrants s1].
    simpl in *. rewrite app_nil_r. rewrite Z.sub_0_r in Hsps. by split.
Qed.

Lemma scheduler_without_mac_witness :
  map Ul.rnti
      (fst (fst (ScheduleUl stable_sort (mkScheduler false (SpsScheduler sps_two_active))
                            two_equal_ues (MilliSeconds 100) 2)))
    = [1; 2]
  /\ ScheduleUl stable_sort (mkScheduler false (RoundRobinScheduler RoundRobin.new))
                two_equal_ues (MilliSeconds 100) 2
       = ([], mkScheduler false (RoundRobinScheduler RoundRobin.new), two_equal_ues).
Proof.
  destruct (scheduler_without_mac stable_sort
              (mkScheduler false (SpsScheduler sps_two_active))
              two_equal_ues (MilliSeconds 100) 2 eq_refl) as (_ & _ & Hsps).
  destruct (scheduler_without_mac stable_sort
              (mkScheduler false (RoundRobinScheduler RoundRobin.new))
              two_equal_ues (MilliSeconds 100) 2 eq_refl) as (_ & Hrr & _).
  split.
  - destruct (Hsps sps_two_active eq_refl table_ok_sps_two_active ltac:(lia)) as [H _].
    exact H.
  - apply Hrr. intros s. discriminate.
Defined.

(** ** HARQ: a block and its acknowledgement *)

Lemma update_id {V} (k : Z) (f : V -> V) (m : list (Z * V)) (v : V) :
  Map16.find k m = Some v -> f v = v -> Map16.update k f m = m.
Proof.
  induction m as [|[k' v'] m IH]; simpl; [done|].
  destruct (Z.eqb_spec k' k) as [->|Hne].
  - intros [= ->] Hf. by rewrite Hf.
  - intros Hfind Hf. by rewrite IH.
Qed.

(** X25. Transmission and acknowledgement.  For an assignment on HARQ
    process 0 of an endpoint whose manager, well-formed and of 1 to 128
    processes, has that process idle, in its initial state,
    [TransmitDlPdus] makes the process hold the PDU: it is not the process
    [GetAvailableProcess] returns any more.  The
    acknowledgement through [ProcessHarqFeedback] brings the HARQ managers
    of the MAC back to what they were before the transmission. *)
Theorem transmit_ack_roundtrip (mac : NbIotEnbMac) (a : NbIotDlAssignmentResult)
    (mgr : NbIotHarqManager) :
  Map16.find (Dl.rnti a) (m_dlHarqManagers mac) = Some mgr ->
  Dl.harqProcess a = 0 -> HarqWf mgr -> 1 <= m_numProcesses mgr <= 128 ->
  process_at mgr 0 = NbIotHarqEntity_new ->
  let mac1 := TransmitDlPdus mac [a] in
  (exists mgr1,
     Map16.find (Dl.rnti a) (m_dlHarqManagers mac1) = Some mgr1
     /\ m_packet (process_at mgr1 0) = Some (build_pdu a)
     /\ IsActive (process_at mgr1 0) = true
     /\ GetAvailableProcess mgr = 0
     /\ GetAvailableProcess mgr1 <> 0)
  /\ m_dlHarqManagers (ProcessHarqFeedback mac1 (Dl.rnti a) 0 true)
       = m_dlHarqManagers mac.
Proof.
  intros Hfind Hp0 Hwf Hn Hidle. cbv zeta.
  unfold TransmitDlPdus. cbn [fold_left].
  pose proof (TransmitDlPdu_store mac a mgr Hfind ltac:(lia)) as Hstore.
  rewrite Hp0, Hidle in Hstore.
  set (mgr1 := set_process_at 0 (store_block a NbIotHarqEntity_new) mgr) in *.
  assert (Hlen : (0 < length (m_processes mgr))%nat) by (unfold HarqWf in Hwf; lia).
  assert (Hat : process_at mgr1 0 = store_block a NbIotHarqEntity_new).
  { unfold process_at, mgr1, set_process_at. simpl.
    by rewrite list_lookup_insert_eq by done. }
  split.
  - exists mgr1. split; [exact Hstore|]. rewrite Hat. split; [done|]. split; [done|].
    split.
    + unfold GetAvailableProcess.
      destruct (Z.to_nat (m_numProcesses mgr)) as [|n] eqn:E; [lia|].
      simpl. by rewrite Hidle.
    + unfold GetAvailableProcess. change (m_numProcesses mgr1) with (m_numProcesses mgr).
      destruct (Z.to_nat (m_numProcesses mgr)) as [|n] eqn:E; [lia|].
      cbn [scan_processes]. rewrite Hat. cbn [IsActive store_block SetActive m_active negb].
      assert (Hscan : forall n i, 0 < i -> i + Z.of_nat n <= 128 ->
                scan_processes mgr1 i n <> 0).
      { clear. induction n as [|n IH]; intros i Hi Hb; simpl; [done|].
        destruct (negb (IsActive (process_at mgr1 i))).
        - unfold to_int8. destruct (Z.ltb_spec i 128); lia.
        - apply IH; lia. }
      apply Hscan; lia.
  - unfold ProcessHarqFeedback. cbn [m_dlHarqManagers set_dlHarqManagers].
    assert (Hmaps : m_dlHarqManagers (TransmitDlPdu mac a)
                    = Map16.update (Dl.rnti a)
                        (set_process_at 0 (store_block a NbIotHarqEntity_new))
                        (m_dlHarqManagers mac)).
    { unfold TransmitDlPdu. rewrite Hfind. unfold GetProcess. rewrite Hp0.
      destruct (Z.ltb_spec 0 (m_numProcesses mgr)); [|lia].
      match goal with |- context [phy_call ?c2 (phy_call ?c1 ?m)] =>
        destruct (phy_call_rest c2 (phy_call c1 m)) as (_ & _ & ->);
        destruct (phy_call_rest c1 m) as (_ & _ & ->) end.
      simpl. by rewrite Hidle. }
    rewrite Hmaps, update_update. apply (update_id _ _ _ mgr Hfind).
    unfold ProcessAck. change (m_numProcesses (set_process_at 0 _ mgr))
      with (m_numProcesses mgr).
    destruct (Z.ltb_spec 0 (m_numProcesses mgr)); [|lia].
    unfold set_process_at. simpl. rewrite list_insert_insert_eq.
    destruct mgr as [n k ps]. simpl in *. f_equal.
    apply list_insert_id.
    assert (Hps : ps !! 0%nat = Some NbIotHarqEntity_new).
    { destruct (ps !! 0%nat) as [e|] eqn:E.
      - unfold process_at in Hidle. cbn [m_processes] in Hidle.
        change (Z.to_nat 0) with 0%nat in Hidle. rewrite E in Hidle.
        simpl in Hidle. by rewrite Hidle.
      - apply lookup_ge_None in E. lia. }
    exact Hps.
Qed.

Lemma transmit_ack_roundtrip_witness :
  m_dlHarqManagers
    (ProcessHarqFeedback (TransmitDlPdus three_ues_dl [assignment_a]) 1 0 true)
    = m_dlHarqManagers three_ues_dl.
Proof.
  refine (proj2 (transmit_ack_roundtrip three_ues_dl assignment_a NbIotHarqManager_new
                   eq_refl eq_refl eq_refl _ eq_refl)).
  simpl. lia.
Defined.

(** ** MAC PDU: the size it keeps of itself *)

(** X26. [NbIotMacPdu::GetSize].  For SDUs on a logical channel below 29
    that need fewer than 2^16 bytes with their subheaders, and a target
    size below 2^16, the size a PDU filled by [AddSdu] and [AddPadding]
    keeps of itself is the number of bytes [Serialize] writes. *)
Theorem MacPdu_GetSize_agrees (lcid : Z) (sdus : list Packet) (targetSize : Z) :
  0 <= lcid < 29 -> pdu_bytes_needed sdus < 65536 -> 0 <= targetSize < 65536 ->
  MacPdu_GetSize (add_sdus lcid sdus) = packet_bytes (MacPdu_Serialize (add_sdus lcid sdus))
  /\ MacPdu_GetSize (AddPadding targetSize (add_sdus lcid sdus))
       = packet_bytes (MacPdu_Serialize (AddPadding targetSize (add_sdus lcid sdus))).
Proof.
  intros Hl Hneed Ht. destruct (add_sdus_size lcid sdus Hl Hneed) as [Hsize Hlen].
  unfold MacPdu_GetSize. split; [by rewrite Hsize, Hlen|].
  rewrite AddPadding_length by done. unfold AddPadding. rewrite Hsize.
  destruct (Z.geb_spec (pdu_bytes_needed sdus) targetSize); simpl; [rewrite Hsize|]; lia.
Qed.

Lemma MacPdu_GetSize_agrees_witness :
  MacPdu_GetSize (AddPadding 208 (add_sdus 1 [packet_a])) = 208
  /\ packet_bytes (MacPdu_Serialize (AddPadding 208 (add_sdus 1 [packet_a]))) = 208.
Proof.
  destruct (MacPdu_GetSize_agrees 1 [packet_a] 208) as [_ H];
    [lia|vm_compute; reflexivity|lia|].
  split; [reflexivity|]. rewrite <- H. reflexivity.
Defined.

(** ** SPS scheduler: statistics *)

Lemma sps_loop_counters (m_mac : bool) (mac : NbIotEnbMac) (now currentTime : Time)
    (availableRbs : Z) (keys : list Z) :
  forall (s : NbIotSpsScheduler) (usedRbs : Z),
    0 <= usedRbs <= availableRbs -> availableRbs < 256 ->
    0 <= Sps.m_dataTransmissions s ->
    Sps.m_dataTransmissions s + (availableRbs - usedRbs) < 4294967296 ->
    0 <= Sps.m_paddingTransmissions s ->
    Sps.m_paddingTransmissions s + (availableRbs - usedRbs) < 4294967296 ->
    let r := Sps.sps_loop keys s m_mac mac now currentTime usedRbs availableRbs in
    let granted := map Ul.rnti (fst r) in
    Sps.m_dataTransmissions (snd r)
      = Sps.m_dataTransmissions s + count (has_backlog m_mac mac) granted
    /\ Sps.m_paddingTransmissions (snd r)
         = Sps.m_paddingTransmissions s
           + count (fun rnti => negb (has_backlog m_mac mac rnti)) granted
    /\ Sps.m_subframeCounter (snd r) = Sps.m_subframeCounter s
    /\ Z.of_nat (length granted) <= availableRbs - usedRbs.
Proof.
  unfold count.
  induction keys as [|key rest IH]; intros s u Hu Ha Hd Hd' Hp Hp'; simpl.
  { repeat split; lia. }
  destruct (Z.geb_spec u availableRbs) as [Hge|Hlt]; [simpl; repeat split; lia|].
  destruct (Map16.find key (Sps.m_spsConfigs s)) as [config|]; [|by apply IH].
  destruct (SpsConfig.active config); simpl; [|by apply IH].
  destruct (currentTime >=? SpsConfig.nextAllocation config); [|by apply IH].
  rewrite (wrap8_succ u availableRbs) by lia.
  match goal with |- context [Sps.sps_loop rest ?s2 _ _ _ _ _ _] =>
    remember s2 as s2' eqn:Hs2 end.
  assert (Hcounters :
    Sps.m_subframeCounter s2' = Sps.m_subframeCounter s
    /\ ((has_backlog m_mac mac (SpsConfig.rnti config) = true
         /\ Sps.m_dataTransmissions s2' = Sps.m_dataTransmissions s + 1
         /\ Sps.m_paddingTransmissions s2' = Sps.m_paddingTransmissions s)
        \/ (has_backlog m_mac mac (SpsConfig.rnti config) = false
            /\ Sps.m_dataTransmissions s2' = Sps.m_dataTransmissions s
            /\ Sps.m_paddingTransmissions s2' = Sps.m_paddingTransmissions s + 1))).
  { subst s2'. unfold Sps.UpdateNextAllocation, has_backlog, wrap32.
    destruct (Sps.Scheduler_GetUeContext _ _ _) as [c|];
      [destruct (Ue.totalBufferSize c >? 0)|]; simpl; rewrite Z.mod_small by lia;
      split; try done; [left|right|right]; done. }
  clear Hs2. destruct Hcounters as [Hsub Hcase].
  specialize (IH s2' (u + 1)).
  destruct (Sps.sps_loop rest s2' m_mac mac now currentTime (u + 1) availableRbs)
    as [grants s3].
  cbn [fst snd map List.filter Ul.rnti] in *.
  destruct Hcase as [(Hb & Hdata & Hpad)|(Hb & Hdata & Hpad)]; rewrite Hb;
    cbn [negb length] in *;
    destruct IH as (-> & -> & -> & Hlen); try lia; repeat split; lia.
Qed.

(** X27. The statistics of the SPS scheduler.  With a budget in the range
    of its type and counters that do not overflow in the call,
    [ScheduleSpsGrants] counts every grant it returns once: as a data
    transmission when the endpoint of the grant has a context with a
    backlog, as a padding transmission otherwise.  [ScheduleUl] counts one
    subframe. *)
Theorem sps_statistics (s : NbIotSpsScheduler) (m_mac : bool) (mac : NbIotEnbMac)
    (now : Time) (availableRbs : Z) :
  0 <= availableRbs < 256 ->
  0 <= Sps.m_dataTransmissions s < 4294967296 - 256 ->
  0 <= Sps.m_paddingTransmissions s < 4294967296 - 256 ->
  let r := Sps.ScheduleSpsGrants s m_mac mac now now availableRbs in
  let granted := map Ul.rnti (fst r) in
  Sps.m_dataTransmissions (snd r)
    = Sps.m_dataTransmissions s + count (has_backlog m_mac mac) granted
  /\ Sps.m_paddingTransmissions (snd r)
       = Sps.m_paddingTransmissions s
         + count (fun rnti => negb (has_backlog m_mac mac rnti)) granted
  /\ Sps.m_dataTransmissions (snd r) + Sps.m_paddingTransmissions (snd r)
       = Sps.m_dataTransmissions s + Sps.m_paddingTransmissions s
         + Z.of_nat (length granted)
  /\ Sps.m_subframeCounter
       (snd (fst (Sps.ScheduleUl s m_mac mac now availableRbs)))
       = wrap64 (Sps.m_subframeCounter s + 1).
Proof.
  intros Ha Hd Hp. cbv zeta. unfold Sps.ScheduleSpsGrants.
  destruct (sps_loop_counters m_mac mac now now availableRbs
              (Map16.keys (Sps.m_spsConfigs s)) s 0) as (Hdata & Hpad & _ & _);
    try lia.
  split; [exact Hdata|]. split; [exact Hpad|]. split.
  - rewrite Hdata, Hpad. unfold count.
    generalize (map Ul.rnti (fst (Sps.sps_loop (Map16.keys (Sps.m_spsConfigs s)) s
                                     m_mac mac now now 0 availableRbs))).
    intros l. induction l as [|x l IH]; simpl; [lia|].
    destruct (has_backlog m_mac mac x); simpl; lia.
  - unfold Sps.ScheduleUl, Sps.ScheduleSpsGrants.
    set (s0 := Sps.set_subframeCounter _ s).
    destruct (sps_loop_counters m_mac mac now now availableRbs
                (Map16.keys (Sps.m_spsConfigs s0)) s0 0) as (_ & _ & Hsub & _);
      try (simpl; lia).
    destruct (Sps.sps_loop _ s0 m_mac mac now now 0 availableRbs) as [spsGrants s1].
    destruct (Sps.ScheduleDynamicGrants s1 m_mac mac _) as [dynamicGrants mac1].
    simpl in *. exact Hsub.
Qed.

Lemma sps_statistics_witness :
  Sps.m_dataTransmissions
    (snd (Sps.ScheduleSpsGrants sps_two_active true two_equal_ues
            (MilliSeconds 100) (MilliSeconds 100) 2)) = 2
  /\ Sps.m_paddingTransmissions
       (snd (Sps.ScheduleSpsGrants sps_two_active false two_equal_ues
               (MilliSeconds 100) (MilliSeconds 100) 2)) = 2.
Proof.
  destruct (sps_statistics sps_two_active true two_equal_ues (MilliSeconds 100) 2)
    as (Hdata & _); [lia|simpl; lia|simpl; lia|].
  destruct (sps_statistics sps_two_active false two_equal_ues (MilliSeconds 100) 2)
    as (_ & Hpad & _); [lia|simpl; lia|simpl; lia|].
  split; [rewrite Hdata; reflexivity|rewrite Hpad; reflexivity].
Defined.

(** ** One subframe *)

Lemma ScheduleDl_one (std_sort : list (Z * Z) -> list (Z * Z))
    (sch : NbIotScheduler) (mac : NbIotEnbMac) :
  (length (fst (fst (ScheduleDl std_sort sch mac 1))) <= 1)%nat.
Proof.
  unfold ScheduleDl. destruct (policy sch) as [s| |s].
  - pose proof (rr_ScheduleDl_budget s (m_mac sch) mac 1 ltac:(lia)).
    destruct (RoundRobin.ScheduleDl _ _ _ _) as [[? ?] ?]. simpl in *. lia.
  - pose proof (cc_ScheduleDl_budget std_sort (m_mac sch) mac 1 ltac:(lia)).
    destruct (CoverageClass.ScheduleDl _ _ _ _) as [? ?]. simpl in *. lia.
  - unfold Sps.ScheduleDl. destruct (negb (m_mac sch)); simpl; [lia|].
    pose proof (sps_dl_loop_budget (GetUeContexts mac) mac 0 1 ltac:(lia) ltac:(lia)).
    destruct (Sps.dl_loop _ _ _ _) as [? ?]. simpl in *. lia.
Qed.

Lemma ScheduleUl_one (std_sort : list (Z * Z) -> list (Z * Z))
    (sch : NbIotScheduler) (mac : NbIotEnbMac) (now : Time) :
  (length (fst (fst (ScheduleUl std_sort sch mac now 1))) <= 1)%nat.
Proof.
  unfold ScheduleUl. destruct (policy sch) as [s| |s].
  - pose proof (rr_ScheduleUl_budget s (m_mac sch) mac 1 ltac:(lia)).
    destruct (RoundRobin.ScheduleUl _ _ _ _) as [[? ?] ?]. simpl in *. lia.
  - pose proof (cc_ScheduleUl_budget std_sort (m_mac sch) mac 1 ltac:(lia)).
    destruct (CoverageClass.ScheduleUl _ _ _ _) as [? ?]. simpl in *. lia.
  - pose proof (sps_ScheduleUl_budget s (m_mac sch) mac now 1 ltac:(lia)).
    destruct (Sps.ScheduleUl _ _ _ _ _) as [[? ?] ?]. simpl in *. lia.
Qed.

Lemma dynamic_loop_keeps (ues : list Z) :
  forall (mac : NbIotEnbMac) (usedRbs availableRbs : Z),
    m_phy (snd (Sps.dynamic_loop ues mac usedRbs availableRbs)) = m_phy mac
    /\ m_dlTxQueues (snd (Sps.dynamic_loop ues mac usedRbs availableRbs))
         = m_dlTxQueues mac.
Proof.
  induction ues as [|rnti rest IH]; intros mac u a; simpl; [done|].
  destruct (u >=? a); [done|].
  destruct (GetUeContext mac rnti) as [c|]; [|apply IH].
  destruct (Sps.SelectMcsAndTbs (Ue.cqi c) 12) as [mcs tbSize].
  match goal with |- context [Sps.dynamic_loop rest ?m ?x a] =>
    specialize (IH m x a); destruct (Sps.dynamic_loop rest m x a) end.
  exact IH.
Qed.

(** An uplink scheduling call leaves the PHY and the downlink queues. *)
Lemma ScheduleUl_keeps (std_sort : list (Z * Z) -> list (Z * Z))
    (sch : NbIotScheduler) (mac : NbIotEnbMac) (now : Time) (availableRbs : Z) :
  m_phy (snd (ScheduleUl std_sort sch mac now availableRbs)) = m_phy mac
  /\ m_dlTxQueues (snd (ScheduleUl std_sort sch mac now availableRbs)) = m_dlTxQueues mac.
Proof.
  unfold ScheduleUl. destruct (policy sch) as [s| |s].
  - unfold RoundRobin.ScheduleUl.
    destruct (negb (m_mac sch) || (availableRbs =? 0)); [done|].
    destruct (empty (GetUeContexts mac)); [done|].
    by destruct (RoundRobin.ul_loop _) as [[g|] ?].
  - unfold CoverageClass.ScheduleUl.
    destruct (negb (m_mac sch) || (availableRbs =? 0)); [done|].
    destruct (empty (CoverageClass.ul_candidates mac)); [done|].
    destruct (CoverageClass.SortByPriority _ _ _) as [|rnti ?]; [done|].
    by destruct (GetUeContext mac rnti).
  - unfold Sps.ScheduleUl.
    destruct (Sps.ScheduleSpsGrants _ _ _ _ _ _) as [spsGrants s1].
    unfold Sps.ScheduleDynamicGrants.
    destruct (negb (m_mac sch) || (_ =? 0)); [done|].
    match goal with |- context [Sps.dynamic_loop ?l mac 0 ?a] =>
      pose proof (dynamic_loop_keeps l mac 0 a) as H;
      destruct (Sps.dynamic_loop l mac 0 a) end.
    exact H.
Qed.

Lemma SendUlGrants_effect (grants : list NbIotUlGrantResult) :
  forall mac : NbIotEnbMac,
    m_phy (SendUlGrants mac grants)
      = (fun log => log ++ map ul_phy_call grants) <$> m_phy mac
    /\ m_dlTxQueues (SendUlGrants mac grants) = m_dlTxQueues mac.
Proof.
  unfold SendUlGrants. induction grants as [|g rest IH]; intros mac; simpl.
  - split; [|done]. destruct (m_phy mac); simpl; [|done]. by rewrite app_nil_r.
  - destruct (IH (SendUlGrant mac g)) as (-> & ->). unfold SendUlGrant.
    rewrite phy_call_phy. destruct (phy_call_rest (ul_phy_call g) mac) as (_ & Hq & _).
    split; [|exact Hq]. destruct (m_phy mac); simpl; [|done]. by rewrite <- app_assoc.
Qed.

(** X28. One subframe.  [SubframeIndication] without a scheduler changes
    nothing.  With a scheduler it is one [ScheduleDl] call for one unit,
    [TransmitDlPdus] of the assignments returned, one [ScheduleUl] call for
    one unit on the scheduler and the MAC these leave, and [SendUlGrants] of
    the grants returned: the scheduler and the MAC after the subframe are
    the ones after these four steps.  There is at most one assignment and
    at most one grant; the PHY, when one is attached, is handed the PDU and
    the DCI of the assignment and then the DCI of the grant, and nothing
    else; and the packets queued before the subframe are the SDUs of the
    assignment followed by the packets queued after it, also when no PHY is
    attached to take the PDU. *)
Theorem subframe_effect (std_sort : list (Z * Z) -> list (Z * Z)) (w : World)
    (now : Time) :
  let w' := SubframeIndication std_sort w now in
  (m_scheduler w = None -> w' = w)
  /\ forall sch, m_scheduler w = Some sch ->
       let dl := ScheduleDl std_sort sch (w_mac w) 1 in
       let assignments := fst (fst dl) in
       let ul := ScheduleUl std_sort (snd (fst dl))
                   (TransmitDlPdus (snd dl) assignments) now 1 in
       let grants := fst (fst ul) in
       m_scheduler w' = Some (snd (fst ul))
       /\ w_mac w' = SendUlGrants (snd ul) grants
       /\ (length assignments <= 1)%nat /\ (length grants <= 1)%nat
       /\ m_phy (w_mac w')
            = (fun log => log ++ mbind dl_phy_calls assignments ++ map ul_phy_call grants)
              <$> m_phy (w_mac w)
       /\ (forall rnti,
             queued (w_mac w) rnti = sdus_for rnti assignments ++ queued (w_mac w') rnti).
Proof.
  cbv zeta. unfold SubframeIndication, DoSchedule.
  destruct (m_scheduler w) as [sch|]; [|split; [done|by intros]].
  split; [done|]. intros sch0 [= <-]. unfold DoSchedule_dl, DoSchedule_ul. cbv zeta.
  pose proof (ScheduleDl_one std_sort sch (w_mac w)) as Hdl1.
  destruct (dl_scheduling_conserves std_sort sch (w_mac w) 1) as [Hcons Hkeeps].
  destruct (ScheduleDl std_sort sch (w_mac w) 1) as [[assignments sch1] mac1] eqn:Hdl.
  cbn [fst snd] in *.
  assert (Hmac2 : (if negb (empty assignments) then TransmitDlPdus mac1 assignments
                   else mac1) = TransmitDlPdus mac1 assignments)
    by (by destruct assignments).
  rewrite Hmac2. clear Hmac2.
  destruct (TransmitDlPdus_effect assignments mac1) as (Hphy2 & _ & Hq2).
  set (mac2 := TransmitDlPdus mac1 assignments) in *.
  pose proof (ScheduleUl_one std_sort sch1 mac2 now) as Hul1.
  destruct (ScheduleUl_keeps std_sort sch1 mac2 now 1) as [Hphy3 Hq3].
  destruct (ScheduleUl std_sort sch1 mac2 now 1) as [[grants sch2] mac3].
  cbn [fst snd] in *.
  assert (Hmac4 : (if negb (empty grants) then SendUlGrants mac3 grants else mac3)
                  = SendUlGrants mac3 grants)
    by (by destruct grants).
  rewrite Hmac4. clear Hmac4. cbn [w_mac m_scheduler].
  destruct (SendUlGrants_effect grants mac3) as [Hphy4 Hq4].
  split; [done|]. split; [done|]. split; [done|]. split; [done|]. split.
  - rewrite Hphy4, Hphy3, Hphy2, (proj1 Hkeeps).
    destruct (m_phy (w_mac w)); simpl; [|done]. by rewrite <- !app_assoc.
  - intros rnti. rewrite (Hcons rnti). f_equal. unfold queued.
    rewrite !GetDlTxQueue_fst. by rewrite Hq4, Hq3, Hq2.
Qed.

Lemma subframe_effect_witness :
  m_phy (w_mac (SubframeIndication stable_sort world_one_process 0))
    = Some (dl_phy_calls assignment_a)
  /\ queued (w_mac world_one_process) 1
       = packet_a :: queued (w_mac (SubframeIndication stable_sort world_one_process 0)) 1.
Proof.
  destruct (subframe_effect stable_sort world_one_process 0) as [_ H].
  destruct (H rr_scheduler eq_refl) as (_ & _ & _ & _ & Hphy & Hq).
  split; [exact Hphy|]. exact (Hq 1).
Defined.

(** ** Coverage-class scheduler: the sorted list *)

Lemma rntiPriority_fst (mac : NbIotEnbMac) (ueList : list Z) :
  map fst (CoverageClass.rntiPriority mac ueList) = List.filter (known mac) ueList.
Proof.
  unfold CoverageClass.rntiPriority, known.
  induction ueList as [|r l IH]; [done|]. cbn [omap list_omap List.filter].
  destruct (GetUeContext mac r); simpl; by rewrite <- IH.
Qed.

Lemma sorted_by_priority (mac : NbIotEnbMac) (l : list (Z * Z)) :
  Forall (fun x => snd x = priority_of mac (fst x)) l ->
  StronglySorted CoverageClass.in_order l ->
  StronglySorted (fun a b => priority_of mac a <= priority_of mac b) (map fst l).
Proof.
  induction l as [|x l IH]; simpl; [constructor|].
  intros [Hx Hall]%Forall_cons Hs. apply StronglySorted_inv in Hs as [Hs Hle].
  constructor; [by apply IH|]. rewrite Forall_fmap, Forall_forall in *.
  intros y Hy. simpl. rewrite <- Hx, <- (Hall y Hy).
  specialize (Hle y Hy). unfold CoverageClass.in_order, CoverageClass.comp in Hle.
  apply Z.ltb_ge in Hle. lia.
Qed.

(** X29. [SortByPriority].  Whatever [std::sort] does within its contract,
    the result holds the ids of the list that have a context, each as
    often as in the list, in non-descending order of the priority value of
    their coverage class (1 for CE level 2, 2 for level 1, 3 for level 0);
    an id without a context is dropped. *)
Theorem SortByPriority_sorted (std_sort : list (Z * Z) -> list (Z * Z))
    (mac : NbIotEnbMac) (ueList : list Z) :
  CoverageClass.std_sort_contract std_sort ->
  CoverageClass.SortByPriority std_sort mac ueList ≡ₚ List.filter (known mac) ueList
  /\ StronglySorted (fun a b => priority_of mac a <= priority_of mac b)
       (CoverageClass.SortByPriority std_sort mac ueList)
  /\ CoverageClass.GetPriority CE_LEVEL_2 = 1
  /\ CoverageClass.GetPriority CE_LEVEL_1 = 2
  /\ CoverageClass.GetPriority CE_LEVEL_0 = 3.
Proof.
  intros Hsort. unfold CoverageClass.SortByPriority.
  destruct (Hsort (CoverageClass.rntiPriority mac ueList)) as [Hperm Hsorted].
  split; [|split; [|done]].
  - rewrite <- rntiPriority_fst. by apply fmap_Permutation.
  - apply sorted_by_priority; [|exact (Sorted_StronglySorted _ _ Hsorted)].
    apply Forall_forall. intros [r p] Hin. rewrite Hperm in Hin.
    apply elem_of_rntiPriority in Hin as (_ & c & Hc & ->).
    unfold priority_of. simpl. by rewrite Hc.
Qed.

Lemma SortByPriority_sorted_witness :
  CoverageClass.SortByPriority stable_sort mixed_ues [1; 9; 2; 3; 4] ≡ₚ [1; 2; 3; 4]
  /\ CoverageClass.SortByPriority stable_sort mixed_ues [1; 9; 2; 3; 4] = [2; 4; 3; 1].
Proof.
  split; [|reflexivity].
  exact (proj1 (SortByPriority_sorted stable_sort mixed_ues [1; 9; 2; 3; 4]
                  stable_sort_contract)).
Defined.

(** ** Round-robin and coverage-class schedulers: what they assign *)

Lemma dl_repetitions_bound (coverageClass factor : Z) :
  0 <= coverageClass <= 2 -> 2 <= factor <= 3 ->
  1 <= at_index NPDSCH_REPETITIONS
         (Z.min (coverageClass * factor) (size NPDSCH_REPETITIONS - 1))
    <= GetMaxRepetitions coverageClass NPDSCH.
Proof.
  intros Hc Hf.
  assert (Hcases : (coverageClass = 0 \/ coverageClass = 1 \/ coverageClass = 2)
                   /\ (factor = 2 \/ factor = 3)) by lia.
  destruct Hcases as [[-> | [-> | ->]] [-> | ->]]; vm_compute; split; discriminate.
Qed.

Lemma ul_repetitions_bound (coverageClass factor : Z) :
  0 <= coverageClass <= 2 -> 1 <= factor <= 2 ->
  1 <= at_index NPUSCH_FORMAT1_REPETITIONS
         (Z.min (coverageClass * factor) (size NPUSCH_FORMAT1_REPETITIONS - 1))
    <= GetMaxRepetitions coverageClass NPUSCH.
Proof.
  intros Hc Hf.
  assert (Hcases : (coverageClass = 0 \/ coverageClass = 1 \/ coverageClass = 2)
                   /\ (factor = 1 \/ factor = 2)) by lia.
  destruct Hcases as [[-> | [-> | ->]] [-> | ->]]; vm_compute; split; discriminate.
Qed.

Lemma ul_mcs_bound (cqi : Z) : 0 <= cqi < 256 -> 0 <= Z.min (wrap8 (cqi / 2)) 7 <= 7.
Proof.
  intros Hc. assert (0 <= cqi / 2 < 256).
  { split; [apply Z.div_pos; lia|apply Z.div_lt_upper_bound; lia]. }
  unfold wrap8. rewrite Z.mod_small by lia. lia.
Qed.

Lemma contexts_valid_find (mac : NbIotEnbMac) (rnti : Z) (context : NbIotUeContext) :
  contexts_valid mac -> GetUeContext mac rnti = Some context ->
  (rnti, context) ∈ m_ueContexts mac
  /\ 0 <= Ue.coverageClass context <= 2 /\ 0 <= Ue.cqi context < 256.
Proof.
  intros Hvalid Hget%find_Some_elem. split; [done|].
  unfold contexts_valid in Hvalid. rewrite Forall_forall in Hvalid.
  exact (Hvalid _ Hget).
Qed.

Lemma rr_ul_loop_grant (ueContexts : list (Z * NbIotUeContext))
    (grant : NbIotUlGrantResult) :
  fst (RoundRobin.ul_loop ueContexts) = Some grant ->
  exists context,
    (Ul.rnti grant, context) ∈ ueContexts
    /\ grant = Ul.mk (Ul.rnti grant) (Z.min (wrap8 (Ue.cqi context / 2)) 7)
                 (GetTbsFromMcsAndRbs (Z.min (wrap8 (Ue.cqi context / 2)) 7) 1) 12 2
                 (at_index NPUSCH_FORMAT1_REPETITIONS
                    (Z.min (Ue.coverageClass context)
                           (size NPUSCH_FORMAT1_REPETITIONS - 1))) 0 true 0.
Proof.
  induction ueContexts as [|[rnti context] rest IH]; simpl; [done|].
  destruct (RoundRobin.ul_loop rest) as [g rest']. simpl in *.
  assert (Hrest : g = Some grant ->
    exists context0,
      (Ul.rnti grant, context0) ∈ (rnti, context) :: rest
      /\ grant = Ul.mk (Ul.rnti grant) (Z.min (wrap8 (Ue.cqi context0 / 2)) 7)
                   (GetTbsFromMcsAndRbs (Z.min (wrap8 (Ue.cqi context0 / 2)) 7) 1) 12 2
                   (at_index NPUSCH_FORMAT1_REPETITIONS
                      (Z.min (Ue.coverageClass context0)
                             (size NPUSCH_FORMAT1_REPETITIONS - 1))) 0 true 0).
  { intros H. destruct (IH H) as (c & Hin & Hc). exists c.
    split; [by apply list_elem_of_further|done]. }
  destruct (Ue.connected context); simpl; [|exact Hrest].
  destruct (ul_pending context); simpl; [|exact Hrest].
  intros [= <-]. exists context. split; [apply list_elem_of_here|done].
Qed.

(** X30. What the round-robin and coverage-class schedulers assign.  With
    every context in one of the three coverage classes and with a CQI in
    the range of its type, a downlink assignment has an MCS of at most 10,
    the block size of that MCS and one subframe, an uplink grant has an
    MCS of at most 7, 12 subcarriers and two slots, both are for new data
    on HARQ process 0, and the repetition number of each is at least 1 and
    at most [GetMaxRepetitions] of the endpoint's coverage class for the
    channel. *)
Theorem assignment_parameters (std_sort : list (Z * Z) -> list (Z * Z))
    (sch : NbIotScheduler) (mac : NbIotEnbMac) (now : Time) (availableRbs : Z) :
  (forall s, policy sch <> SpsScheduler s) -> contexts_valid mac ->
  (forall a, a ∈ fst (fst (ScheduleDl std_sort sch mac availableRbs)) ->
     exists context,
       (Dl.rnti a, context) ∈ m_ueContexts mac
       /\ 0 <= Dl.mcs a <= 10
       /\ Dl.tbSize a = GetTbsFromMcsAndRbs (Dl.mcs a) 1
       /\ 1 <= Dl.repetitions a <= GetMaxRepetitions (Ue.coverageClass context) NPDSCH
       /\ Dl.numSubframes a = 1 /\ Dl.newData a = true /\ Dl.harqProcess a = 0)
  /\ (forall g, g ∈ fst (fst (ScheduleUl std_sort sch mac now availableRbs)) ->
        exists context,
          (Ul.rnti g, context) ∈ m_ueContexts mac
          /\ 0 <= Ul.mcs g <= 7
          /\ Ul.tbSize g = GetTbsFromMcsAndRbs (Ul.mcs g) 1
          /\ 1 <= Ul.repetitions g <= GetMaxRepetitions (Ue.coverageClass context) NPUSCH
          /\ Ul.numSubcarriers g = 12 /\ Ul.numSlots g = 2
          /\ Ul.newData g = true /\ Ul.harqProcess g = 0).
Proof.
  intros Hpolicy Hvalid.
  assert (Hdl : forall rnti context factor sdus a, 2 <= factor <= 3 ->
    GetUeContext mac rnti = Some context ->
    a ∈ [Dl.mk rnti (Z.min (Ue.cqi context) 10)
           (GetTbsFromMcsAndRbs (Z.min (Ue.cqi context) 10) 1) 1
           (at_index NPDSCH_REPETITIONS
              (Z.min (Ue.coverageClass context * factor) (size NPDSCH_REPETITIONS - 1)))
           0 true 0 sdus] ->
    exists context,
      (Dl.rnti a, context) ∈ m_ueContexts mac
      /\ 0 <= Dl.mcs a <= 10
      /\ Dl.tbSize a = GetTbsFromMcsAndRbs (Dl.mcs a) 1
      /\ 1 <= Dl.repetitions a <= GetMaxRepetitions (Ue.coverageClass context) NPDSCH
      /\ Dl.numSubframes a = 1 /\ Dl.newData a = true /\ Dl.harqProcess a = 0).
  { intros rnti context factor sdus a Hf Hget ->%list_elem_of_singleton.
    destruct (contexts_valid_find mac rnti context Hvalid Hget) as (Hin & Hcc & Hcqi).
    exists context. simpl. split; [done|]. split; [lia|]. split; [done|].
    split; [by apply dl_repetitions_bound|done]. }
  assert (Hul : forall context g,
    (Ul.rnti g, context) ∈ m_ueContexts mac -> forall factor, 1 <= factor <= 2 ->
    g = Ul.mk (Ul.rnti g) (Z.min (wrap8 (Ue.cqi context / 2)) 7)
          (GetTbsFromMcsAndRbs (Z.min (wrap8 (Ue.cqi context / 2)) 7) 1) 12 2
          (at_index NPUSCH_FORMAT1_REPETITIONS
             (Z.min (Ue.coverageClass context * factor)
                    (size NPUSCH_FORMAT1_REPETITIONS - 1))) 0 true 0 ->
    exists context,
      (Ul.rnti g, context) ∈ m_ueContexts mac
      /\ 0 <= Ul.mcs g <= 7
      /\ Ul.tbSize g = GetTbsFromMcsAndRbs (Ul.mcs g) 1
      /\ 1 <= Ul.repetitions g <= GetMaxRepetitions (Ue.coverageClass context) NPUSCH
      /\ Ul.numSubcarriers g = 12 /\ Ul.numSlots g = 2
      /\ Ul.newData g = true /\ Ul.harqProcess g = 0).
  { intros context g Hin factor Hf Hg.
    unfold contexts_valid in Hvalid. rewrite Forall_forall in Hvalid.
    destruct (Hvalid _ Hin) as [Hcc Hcqi]. simpl in Hcc, Hcqi.
    exists context. rewrite Hg. simpl. split; [done|].
    split; [by apply ul_mcs_bound|]. split; [done|].
    split; [by apply ul_repetitions_bound|done]. }
  unfold ScheduleDl, ScheduleUl.
  destruct (policy sch) as [s| |s]; [| |by destruct (Hpolicy s)]; split.
  - destruct (rr_ScheduleDl_cases s (m_mac sch) mac availableRbs)
      as [(mac' & -> & _)|(rnti & ueContext & mac2 & sdus & remainder & _ & _ & _ & _
                           & Hget & _ & _ & ->)]; [by intros ? ?%elem_of_nil|].
    destruct sdus as [|x sdus]; simpl; [by intros ? ?%elem_of_nil|].
    intros a Ha. eapply (Hdl _ ueContext 2 (x :: sdus)); [lia|exact Hget|exact Ha].
  - unfold RoundRobin.ScheduleUl.
    destruct (negb (m_mac sch) || (availableRbs =? 0)); [by intros ? ?%elem_of_nil|].
    destruct (empty (GetUeContexts mac)); [by intros ? ?%elem_of_nil|].
    pose proof (rr_ul_loop_grant (GetUeContexts mac)) as Hgrant.
    destruct (RoundRobin.ul_loop _) as [[grant|] ueContexts']; simpl;
      [|by intros ? ?%elem_of_nil].
    intros g ->%list_elem_of_singleton.
    destruct (Hgrant grant eq_refl) as (context & Hin & Hg).
    apply (Hul context grant Hin 1); [lia|]. by rewrite Z.mul_1_r.
  - destruct (cc_ScheduleDl_cases std_sort (m_mac sch) mac availableRbs)
      as [(mac' & -> & _)|(rnti & rest & ueContext & mac2 & sdus & remainder & _ & _
                           & Hget & _ & _ & ->)]; [by intros ? ?%elem_of_nil|].
    destruct sdus as [|x sdus]; simpl; [by intros ? ?%elem_of_nil|].
    intros a Ha. eapply (Hdl _ ueContext 3 (x :: sdus)); [lia|exact Hget|exact Ha].
  - unfold CoverageClass.ScheduleUl.
    destruct (negb (m_mac sch) || (availableRbs =? 0)); [by intros ? ?%elem_of_nil|].
    destruct (empty (CoverageClass.ul_candidates mac)); [by intros ? ?%elem_of_nil|].
    destruct (CoverageClass.SortByPriority _ _ _) as [|rnti ?]; [by intros ? ?%elem_of_nil|].
    destruct (GetUeContext mac rnti) as [ueContext|] eqn:Hget; [|by intros ? ?%elem_of_nil].
    simpl. intros g ->%list_elem_of_singleton.
    refine (Hul ueContext (Ul.mk rnti _ _ _ _ _ _ _ _) _ 2 _ _);
      [exact (find_Some_elem _ _ _ Hget)|lia|done].
Qed.

Lemma assignment_parameters_witness :
  exists context,
    (1, context) ∈ m_ueContexts three_ues_dl
    /\ 1 <= 1 <= GetMaxRepetitions (Ue.coverageClass context) NPDSCH.
Proof.
  destruct (assignment_parameters stable_sort rr_scheduler three_ues_dl 0 1) as [Hdl _].
  - intros s. discriminate.
  - unfold contexts_valid. simpl.
    repeat (constructor; [unfold ue, CE_LEVEL_0; simpl; lia|]). constructor.
  - destruct (Hdl (Dl.mk 1 7 208 1 1 0 true 0 [replicate 200 0])
                  ltac:(vm_compute; apply list_elem_of_here))
      as (context & Hin & _ & _ & Hreps & _).
    by exists context.
Defined.

(** * Periodic allocations and the downlink path, call by call *)

(** ** Semi-persistent scheduler: when the next allocation moves *)

Lemma filter_sorted (f : Z -> bool) (l : list Z) :
  StronglySorted Z.lt l -> StronglySorted Z.lt (List.filter f l).
Proof.
  induction 1 as [|x l Hs IH Hall]; simpl; [constructor|].
  destruct (f x); [|done]. constructor; [done|].
  rewrite Forall_forall in *. intros y Hy. apply Hall.
  apply list_elem_of_In, List.filter_In in Hy as [Hy _]. by apply list_elem_of_In.
Qed.

Lemma filter_below_nil (x y : Z) (l : list Z) :
  Forall (Z.lt y) l -> x <= y -> List.filter (fun k => k <? x) l = [].
Proof.
  induction 1 as [|k l Hk _ IH]; intros Hx; simpl; [done|].
  destruct (Z.ltb_spec k x); [lia|by apply IH].
Qed.

(** The first [n] elements of an ascending list are those with fewer than
    [n] elements below them. *)
Lemma sorted_take_elem (l : list Z) :
  StronglySorted Z.lt l ->
  forall (n : nat) (x : Z),
    x ∈ take n l <-> x ∈ l /\ (length (List.filter (fun k => (k <? x)%Z) l) < n)%nat.
Proof.
  induction 1 as [|y l Hs IH Hall]; intros n x.
  - rewrite take_nil. split; [by intros ?%elem_of_nil|by intros [?%elem_of_nil _]].
  - destruct n as [|n]; simpl.
    + split; [by intros ?%elem_of_nil|intros [_ ?]; lia].
    + rewrite !elem_of_cons, IH. destruct (Z.ltb_spec y x) as [Hlt|Hge]; simpl.
      * split.
        -- intros [->|[Hin Hlen]]; [lia|]. split; [by right|lia].
        -- intros [[->|Hin] Hlen]; [lia|]. right. split; [done|lia].
      * rewrite (filter_below_nil x y l Hall Hge). simpl. split.
        -- intros [->|[Hin _]]; [split; [by left|lia]|].
           rewrite Forall_forall in Hall. specialize (Hall x Hin). lia.
        -- intros [[->|Hin] _]; [by left|].
           rewrite Forall_forall in Hall. specialize (Hall x Hin). lia.
Qed.

(** A configuration that the loop of [ScheduleSpsGrants] grants has
    [now + spsInterval] as its next allocation after the loop. *)
Lemma sps_loop_fired (m_mac : bool) (mac : NbIotEnbMac) (now currentTime : Time)
    (availableRbs : Z) (keys : list Z) :
  forall (s : NbIotSpsScheduler) (usedRbs : Z),
    NoDup keys -> Sps.rnti_is_key (Sps.m_spsConfigs s) ->
    forall key config,
      Map16.find key (Sps.m_spsConfigs s) = Some config ->
      let r := Sps.sps_loop keys s m_mac mac now currentTime usedRbs availableRbs in
      key ∈ map Ul.rnti (fst r) ->
      Map16.find key (Sps.m_spsConfigs (snd r))
        = Some (SpsConfig.set_nextAllocation (now + SpsConfig.spsInterval config) config).
Proof.
  induction keys as [|k0 rest IH]; intros s u Hnd Hok key config Hfind; simpl.
  { by intros ?%elem_of_nil. }
  apply NoDup_cons in Hnd as [Hk0 Hnd].
  destruct (Z.geb_spec u availableRbs); simpl; [by intros ?%elem_of_nil|].
  destruct (Map16.find k0 (Sps.m_spsConfigs s)) as [c0|] eqn:Hc0; [|by apply IH].
  destruct (SpsConfig.active c0) eqn:Hact; simpl; [|by apply IH].
  destruct (Z.geb_spec currentTime (SpsConfig.nextAllocation c0)) as [Hdue|];
    [|by apply IH].
  pose proof (Hok _ _ Hc0) as Hr0.
  match goal with |- context [Sps.sps_loop rest ?s2 _ _ _ _ ?u2 _] =>
    set (s' := s2); set (u' := u2) end.
  assert (HT : Sps.m_spsConfigs s' =
               Map16.update k0
                 (fun c => SpsConfig.set_nextAllocation (now + SpsConfig.spsInterval c) c)
                 (Sps.m_spsConfigs s)).
  { unfold s'. rewrite Hr0.
    destruct (Sps.Scheduler_GetUeContext m_mac mac k0) as [ctx|]; [|done].
    by destruct (Ue.totalBufferSize ctx >? 0). }
  assert (Hok' : Sps.rnti_is_key (Sps.m_spsConfigs s')).
  { rewrite HT. by apply rnti_is_key_update. }
  pose proof (sps_loop_table m_mac mac now currentTime availableRbs rest s' u' Hnd Hok')
    as Htable.
  specialize (IH s' u' Hnd Hok' key).
  destruct (Sps.sps_loop rest s' m_mac mac now currentTime u' availableRbs)
    as [grants s3] eqn:Hloop.
  simpl in *. rewrite Hr0. intros Hin. destruct (Z.eq_dec key k0) as [->|Hne].
  - assert (config = c0) by congruence. subst c0.
    destruct (Htable k0 (SpsConfig.set_nextAllocation
                           (now + SpsConfig.spsInterval config) config)) as [H1 _].
    { by rewrite HT, find_update_eq, Hfind. }
    by apply H1.
  - apply elem_of_cons in Hin as [?|Hin]; [done|].
    apply IH; [|done]. by rewrite HT, find_update_ne.
Qed.

(** One [ScheduleUl] call leaves a configuration its interval and its
    active flag, and with a non-negative interval does not move its next
    allocation backward. *)
Lemma ScheduleUl_config (s : NbIotSpsScheduler) (m_mac : bool) (mac : NbIotEnbMac)
    (now : Time) (availableRbs : Z) (rnti : Z) (config : NbIotSpsConfig) :
  Sps.table_ok (Sps.m_spsConfigs s) ->
  Sps.GetSpsConfig s rnti = Some config ->
  exists config',
    Sps.GetSpsConfig (snd (fst (Sps.ScheduleUl s m_mac mac now availableRbs))) rnti
      = Some config'
    /\ SpsConfig.spsInterval config' = SpsConfig.spsInterval config
    /\ SpsConfig.active config' = SpsConfig.active config
    /\ (0 <= SpsConfig.spsInterval config ->
        SpsConfig.nextAllocation config <= SpsConfig.nextAllocation config').
Proof.
  intros [Hord Hkey] Hget. unfold Sps.GetSpsConfig in *.
  unfold Sps.ScheduleUl, Sps.ScheduleSpsGrants.
  set (s0 := Sps.set_subframeCounter _ s).
  pose proof (sps_loop_table m_mac mac now now availableRbs
                (Map16.keys (Sps.m_spsConfigs s0)) s0 0
                (ordered_NoDup _ Hord) Hkey rnti config Hget) as [_ H].
  destruct (Sps.sps_loop _ s0 m_mac mac now now 0 availableRbs) as [spsGrants s1].
  destruct (Sps.ScheduleDynamicGrants s1 m_mac mac _) as [dynamicGrants mac1].
  simpl in *. destruct H as [H|(Ha & Hd & Hf & Hg)].
  - exists config. split; [done|]. split; [done|]. split; [done|lia].
  - eexists. split; [exact Hf|]. simpl. split; [done|]. split; [done|lia].
Qed.

Lemma sps_ul_run_config (m_mac : bool) (rnti : Z) (calls : list (NbIotEnbMac * Time * Z)) :
  forall (s : NbIotSpsScheduler) (config : NbIotSpsConfig),
    Sps.table_ok (Sps.m_spsConfigs s) ->
    Sps.GetSpsConfig s rnti = Some config ->
    exists config',
      Sps.GetSpsConfig (sps_ul_run calls s m_mac) rnti = Some config'
      /\ SpsConfig.spsInterval config' = SpsConfig.spsInterval config
      /\ SpsConfig.active config' = SpsConfig.active config
      /\ (0 <= SpsConfig.spsInterval config ->
          SpsConfig.nextAllocation config <= SpsConfig.nextAllocation config').
Proof.
  induction calls as [|[[mac now] availableRbs] rest IH]; intros s config Hok Hget; simpl.
  { exists config. split; [done|]. split; [done|]. split; [done|lia]. }
  destruct (ScheduleUl_config s m_mac mac now availableRbs rnti config Hok Hget)
    as (c1 & Hget1 & Hi1 & Ha1 & Hn1).
  destruct (IH _ c1 (table_ok_ScheduleUl s m_mac mac now availableRbs Hok) Hget1)
    as (c2 & Hget2 & Hi2 & Ha2 & Hn2).
  exists c2. split; [done|]. split; [congruence|]. split; [congruence|].
  intros Hi. rewrite Hi1 in Hn2. specialize (Hn1 Hi). specialize (Hn2 Hi). lia.
Qed.

(** C6, amended statement.  In a [ScheduleUl] call at time [now] with a
    budget in the range of its type, on a well-formed table, the periodic
    allocation of a configuration fires exactly when the configuration is
    active, [nextAllocation <= now], and fewer than [availableRbs] due
    configurations have a lower id.  When it fires, a grant for it is in the
    result and its next allocation becomes [now + spsInterval]; when it does
    not, the configuration is left as it was.  The advance is exactly one
    interval when the allocation fires at [now = nextAllocation] and not
    otherwise.  Over any run of [ScheduleUl] calls the interval and the
    active flag stay and, with a non-negative interval, the next allocation
    never moves backward.  [ActivateSps] sets the next allocation to the
    time of its call, whatever it was before. *)
Theorem sps_next_allocation_update (s : NbIotSpsScheduler) (m_mac : bool)
    (mac : NbIotEnbMac) (now : Time) (availableRbs : Z)
    (rnti : Z) (config : NbIotSpsConfig) :
  Sps.table_ok (Sps.m_spsConfigs s) ->
  0 <= availableRbs < 256 ->
  Sps.GetSpsConfig s rnti = Some config ->
  let r := Sps.ScheduleUl s m_mac mac now availableRbs in
  let periodic := take (Z.to_nat availableRbs) (due_rntis s now) in
  let fires :=
    SpsConfig.active config && (now >=? SpsConfig.nextAllocation config)
    && (Z.of_nat (length (List.filter (fun k => k <? rnti) (due_rntis s now)))
        <? availableRbs) in
  let config' :=
    if fires
    then SpsConfig.set_nextAllocation (now + SpsConfig.spsInterval config) config
    else config in
  (exists dynamicGrants, map Ul.rnti (fst (fst r)) = periodic ++ dynamicGrants)
  /\ (rnti ∈ periodic <-> fires = true)
  /\ Sps.GetSpsConfig (snd (fst r)) rnti = Some config'
  /\ (fires = true ->
      rnti ∈ map Ul.rnti (fst (fst r))
      /\ SpsConfig.nextAllocation config' = now + SpsConfig.spsInterval config
      /\ (SpsConfig.nextAllocation config'
            = SpsConfig.nextAllocation config + SpsConfig.spsInterval config
          <-> now = SpsConfig.nextAllocation config))
  /\ (forall calls : list (NbIotEnbMac * Time * Z),
        exists config'',
          Sps.GetSpsConfig (sps_ul_run calls s m_mac) rnti = Some config''
          /\ SpsConfig.spsInterval config'' = SpsConfig.spsInterval config
          /\ SpsConfig.active config'' = SpsConfig.active config
          /\ (0 <= SpsConfig.spsInterval config ->
              SpsConfig.nextAllocation config <= SpsConfig.nextAllocation config''))
  /\ (forall t : Time,
        Sps.GetSpsConfig (Sps.ActivateSps s t rnti) rnti
          = Some (SpsConfig.set_nextAllocation t (SpsConfig.set_active true config))).
Proof.
  intros Hok Ha Hget. pose proof Hok as [Hord Hkey]. cbv zeta.
  set (periodic := take (Z.to_nat availableRbs) (due_rntis s now)).
  set (fires := SpsConfig.active config && (now >=? SpsConfig.nextAllocation config)
                && (Z.of_nat (length (List.filter (fun k => k <? rnti) (due_rntis s now)))
                    <? availableRbs)).
  assert (Hfires : rnti ∈ periodic <-> fires = true).
  { unfold periodic, fires.
    rewrite sorted_take_elem by apply filter_sorted, Hord.
    unfold due_rntis at 1. rewrite list_elem_of_In, List.filter_In, <- list_elem_of_In.
    unfold due at 1. rewrite Hget.
    assert (Hin : rnti ∈ Map16.keys (Sps.m_spsConfigs s)).
    { apply find_Some_elem in Hget. unfold Map16.keys.
      apply list_elem_of_fmap. by exists (rnti, config). }
    split.
    - intros [[_ Hd] Hlen]. rewrite Hd. simpl. apply Z.ltb_lt. lia.
    - intros [Hd Hlen]%andb_true_iff. apply Z.ltb_lt in Hlen. split; [by split|lia]. }
  assert (Hone :
    (exists dynamicGrants,
       map Ul.rnti (fst (fst (Sps.ScheduleUl s m_mac mac now availableRbs)))
         = periodic ++ dynamicGrants)
    /\ Sps.GetSpsConfig (snd (fst (Sps.ScheduleUl s m_mac mac now availableRbs))) rnti
         = Some (if fires
                 then SpsConfig.set_nextAllocation
                        (now + SpsConfig.spsInterval config) config
                 else config)).
  { unfold Sps.GetSpsConfig in *. unfold Sps.ScheduleUl, Sps.ScheduleSpsGrants.
    set (s0 := Sps.set_subframeCounter _ s).
    pose proof (sps_loop_rntis m_mac mac now now availableRbs
                  (Map16.keys (Sps.m_spsConfigs s0)) s0 0
                  (ordered_NoDup _ Hord) Hkey ltac:(lia) ltac:(lia)) as Hsps.
    pose proof (sps_loop_table m_mac mac now now availableRbs
                  (Map16.keys (Sps.m_spsConfigs s0)) s0 0
                  (ordered_NoDup _ Hord) Hkey rnti config Hget) as [_ Htab].
    pose proof (sps_loop_fired m_mac mac now now availableRbs
                  (Map16.keys (Sps.m_spsConfigs s0)) s0 0
                  (ordered_NoDup _ Hord) Hkey rnti config Hget) as Hfired.
    destruct (Sps.sps_loop _ s0 m_mac mac now now 0 availableRbs) as [spsGrants s1].
    destruct (Sps.ScheduleDynamicGrants s1 m_mac mac _) as [dynamicGrants mac1].
    simpl in Hsps, Htab, Hfired |- *. rewrite Z.sub_0_r in Hsps.
    change (List.filter (due s0 now) _) with (due_rntis s now) in Hsps.
    fold periodic in Hsps. split.
    - exists (map Ul.rnti dynamicGrants). by rewrite map_app, Hsps.
    - destruct fires eqn:Hf.
      + apply Hfired. rewrite Hsps. by apply Hfires.
      + destruct Htab as [H|(_ & _ & _ & Hg)]; [done|].
        rewrite Hsps in Hg. apply Hfires in Hg. congruence. }
  destruct Hone as [Hgrants Hconfig].
  split; [exact Hgrants|]. split; [exact Hfires|]. split; [exact Hconfig|].
  split; [|split].
  - intros Hf. destruct Hgrants as [dynamicGrants ->]. split.
    + apply elem_of_app. left. by apply Hfires.
    + rewrite Hf. simpl. split; [done|lia].
  - intros calls. by apply sps_ul_run_config.
  - intros t. unfold Sps.GetSpsConfig in *. unfold Sps.ActivateSps.
    rewrite Hget. simpl. by rewrite find_update_eq, Hget.
Qed.

(** The subframe at t = 100 ms of the two-endpoint scenario, one resource
    unit: both configurations are active and due, endpoint 1 fires and gets
    120 ms as its next allocation, endpoint 2 has one due configuration
    below it and is left at 100 ms. *)
Lemma sps_next_allocation_update_witness :
  Sps.GetSpsConfig (snd (fst sps_run_100)) 1
    = Some (SpsConfig.mk 1 (MilliSeconds 20) 12 4 88 1 (MilliSeconds 120) true 0)
  /\ Sps.GetSpsConfig (snd (fst sps_run_100)) 2
       = Some (SpsConfig.mk 2 (MilliSeconds 20) 12 4 88 1 (MilliSeconds 100) true 0).
Proof.
  split.
  - exact (proj1 (proj2 (proj2
      (sps_next_allocation_update sps_two_active true two_equal_ues
         (MilliSeconds 100) 1 1
         (SpsConfig.mk 1 (MilliSeconds 20) 12 4 88 1 (MilliSeconds 100) true 0)
         table_ok_sps_two_active ltac:(lia) eq_refl)))).
  - exact (proj1 (proj2 (proj2
      (sps_next_allocation_update sps_two_active true two_equal_ues
         (MilliSeconds 100) 1 2
         (SpsConfig.mk 2 (MilliSeconds 20) 12 4 88 1 (MilliSeconds 100) true 0)
         table_ok_sps_two_active ltac:(lia) eq_refl)))).
Defined.

(** C6, counterexample to the advance by exactly one interval and to the
    move forward only: endpoints 1 and 2 both activated at t = 100 ms with a
    20 ms interval and one resource unit per subframe.  Endpoint 1 is served
    at t = 100 ms, endpoint 2 at t = 101 ms, and the next allocation of
    endpoint 2 becomes 121 ms: 21 ms after the previous one, and not the
    activation time plus a whole number of intervals.  The next allocation
    of endpoint 1 is 120 ms after its grant; [ActivateSps] for endpoint 1
    at t = 101 ms, the configuration being active, moves it back to
    101 ms. *)
Lemma sps_next_allocation_counterexample :
  (exists config,
     Sps.GetSpsConfig sps_two_active 2 = Some config
     /\ SpsConfig.active config = true
     /\ SpsConfig.spsInterval config = MilliSeconds 20
     /\ SpsConfig.nextAllocation config = MilliSeconds 100)
  /\ map Ul.rnti (fst (fst sps_run_100)) = [1]
  /\ map Ul.rnti (fst (fst sps_run_101)) = [2]
  /\ (exists config',
        Sps.GetSpsConfig (snd (fst sps_run_101)) 2 = Some config'
        /\ SpsConfig.active config' = true
        /\ SpsConfig.nextAllocation config' = MilliSeconds 121)
  /\ MilliSeconds 121 <> MilliSeconds 100 + MilliSeconds 20
  /\ (~ exists n : Z, MilliSeconds 121 = MilliSeconds 100 + n * MilliSeconds 20)
  /\ (exists config1,
        Sps.GetSpsConfig (snd (fst sps_run_100)) 1 = Some config1
        /\ SpsConfig.active config1 = true
        /\ SpsConfig.nextAllocation config1 = MilliSeconds 120)
  /\ (exists config1',
        Sps.GetSpsConfig
          (Sps.ActivateSps (snd (fst sps_run_100)) (MilliSeconds 101) 1) 1
          = Some config1'
        /\ SpsConfig.active config1' = true
        /\ SpsConfig.nextAllocation config1' = MilliSeconds 101)
  /\ MilliSeconds 101 < MilliSeconds 120.
Proof.
  split; [eexists; repeat split; reflexivity|].
  split; [reflexivity|]. split; [reflexivity|].
  split; [eexists; repeat split; reflexivity|].
  split; [done|]. split; [intros [n Hn]; unfold MilliSeconds in Hn; lia|].
  split; [eexists; repeat split; reflexivity|].
  split; [eexists; repeat split; reflexivity|]. reflexivity.
Qed.

(** ** Downlink path and the HARQ pool *)








